(** * Live duplex voice session engine

    A shallow embedding of the session code of the Emotional_AI front end:
    - the frame codec ([createBlob] of services/gemini, [decode] and
      [decodeAudioData] of LivePracticeView),
    - the playback scheduler, capture gate and transcript assembler that
      live in the [connect] callbacks of LivePracticeView,
    - the tool-call handler of [connectGuardian],
    - the lifecycle handlers of both views ([connect], [handleDisconnect],
      [startMonitoring], [stopMonitoring] and the transport callbacks),
    - the cleanup effects of both views and the turn accumulators of
      [connectGuardian],
    - the decoder of [playSummary] (AnalysisResult),
    - the practice history kept in localStorage ([savePracticeSession],
      [getPracticeHistory]), the trend chart drawn from it and the buttons
      of LivePracticeView,
    - [generateSocialVideo] of services/gemini with its retry, polling and
      download steps, and [handleGenerate] of VisualStoryView,
    - [cleanAndParseJSON] of services/gemini,
    - the handlers of AnalyzerView with the prompt of [analyzeSocialCues],
      and the colour scales of a risk.

    JavaScript numbers are modelled by rationals [Q]: every number the
    modelled code computes is finite, and the codec arithmetic (a
    single-precision sample times a 15 or 16 bit constant, an int16 divided
    by a power of two) is exact in double precision, so nothing is rounded
    there.  The playback clock is another matter: the duration of a buffer
    and the sum that moves the playback cursor are rounded to double
    precision ([JS.fl], [JS.plus]).
    Event handlers are run to completion one after the other, as the
    single-threaded event loop does: the one [await] inside a callback, on
    [decodeAudioData], waits for a function that never suspends, and the
    handlers that end in a request to the environment ([connect],
    [handleDisconnect]) take its answer as an argument. *)

From Stdlib Require Import ZArith QArith Qminmax Qabs Qround Qpower Lia Lqa String Ascii List.
From Stdlib Require Import Strings.Byte.
From stdpp Require Import base option list gmap strings pretty.

Local Open Scope Z_scope.

(** ** Exceptions *)

(** The exceptions the modelled code can meet.  A function that may throw
    returns a [result]; [x ← c; k] propagates the exception of [c]. *)
Inductive exn : Type :=
| RangeError
| InvalidCharacterError
| NotSupportedError
| TypeError
| InvalidStateError.

Inductive result (A : Type) : Type :=
| Ok (a : A)
| Throw (e : exn).
Arguments Ok {A} a.
Arguments Throw {A} e.

#[global] Instance result_ret : MRet result := @Ok.
#[global] Instance result_bind : MBind result :=
  λ A B f m, match m with Ok a => f a | Throw e => Throw e end.

#[global] Instance exn_eq_dec : EqDecision exn.
Proof. solve_decision. Defined.

(** An error object met by a handler: an exception of the platform, or an
    error with a message coming from the environment (a refused microphone,
    a failed connection, a failed analysis request). *)
Inductive error : Type :=
| Exn (e : exn)
| Error (message : string).

(** [e.message].  The message of a platform exception is left to the
    implementation; no modelled handler reads one. *)
Definition message (e : error) : string :=
  match e with Exn _ => EmptyString | Error m => m end.

(** The promise returned by the connect call of the transport, as the
    callbacks that captured it see it. *)
Inductive SessionPromise : Type :=
| no_promise
| resolved (session : nat)
| rejected (e : error).

(** The outcome of the asynchronous requests made to the environment. *)
Inductive outcome (A : Type) : Type :=
| fulfilled (a : A)
| failed (e : error).
Arguments fulfilled {A} a.
Arguments failed {A} e.

(** ** Platform primitives used by the codec *)

Module JS.

(** Truncation of a finite number towards zero. *)
Definition Qtrunc (q : Q) : Z := Z.quot (Qnum q) (Zpos (Qden q)).

(** The two's complement wrap of an integer into the int16 range. *)
Definition wrap16 (z : Z) : Z :=
  let m := z mod 65536 in if 32768 <=? m then m - 65536 else m.

(** [ToInt16]: the conversion applied by a store into an [Int16Array]. *)
Definition ToInt16 (q : Q) : Z := wrap16 (Qtrunc q).

(** [ToUint32]: the conversion of an [unsigned long] argument. *)
Definition ToUint32 (q : Q) : Z := Qtrunc q mod 4294967296.

Definition Z_of_byte (b : byte) : Z := Z.of_N (Byte.to_N b).

Definition byte_of_Z (z : Z) : byte :=
  default Byte.x00 (Byte.of_N (Z.to_N (z mod 256))).

(** The two bytes of an int16 in the buffer of an [Int16Array]
    (little-endian, as on every platform the views run on). *)
Definition int16_bytes (v : Z) : list byte :=
  [byte_of_Z (v mod 256); byte_of_Z (v / 256 mod 256)].

Definition int16_of_bytes (lo hi : byte) : Z :=
  wrap16 (Z_of_byte lo + 256 * Z_of_byte hi).

(** [new Uint8Array(int16.buffer)]: the byte view of an int16 array. *)
Definition Uint8Array_of_int16 (l : list Z) : list byte :=
  concat (map int16_bytes l).

Fixpoint int16s_of_bytes (l : list byte) : list Z :=
  match l with
  | lo :: hi :: rest => int16_of_bytes lo hi :: int16s_of_bytes rest
  | _ => []
  end.

(** [new Int16Array(buffer)]: a buffer whose byte length is not a multiple
    of the element size is refused with a RangeError. *)
Definition Int16Array_of_buffer (bytes : list byte) : result (list Z) :=
  if Z.of_nat (length bytes) mod 2 =? 0 then Ok (int16s_of_bytes bytes)
  else Throw RangeError.

(** *** Doubles

    The double nearest to a rational: 53 significant bits, rounded to
    nearest, ties to even.  The exponent is not bounded: the times of a
    session are far from the largest double and from the subnormal
    ones. *)

(** The exponent of a positive rational: [2^e <= q < 2^(e+1)]. *)
Definition exponent (q : Q) : Z :=
  let e := Z.log2 (Qnum q) - Z.log2 (Zpos (Qden q)) in
  if Qle_bool (2 ^ e) q then e else e - 1.

(** The integer nearest to a rational, the even one of two that are as
    near. *)
Definition nearest_even (x : Q) : Z :=
  let f := Qfloor x in
  match (x - inject_Z f ?= 1 # 2)%Q with
  | Lt => f
  | Eq => if Z.even f then f else f + 1
  | Gt => f + 1
  end.

Definition fl_pos (q : Q) : Q :=
  let ulp := (2 ^ (exponent q - 52))%Q in
  (inject_Z (nearest_even (q / ulp)) * ulp)%Q.

Definition fl (q : Q) : Q :=
  match Qnum q with
  | Z0 => 0%Q
  | Zpos _ => fl_pos q
  | Zneg _ => (- fl_pos (- q))%Q
  end.

Definition is_double (q : Q) : bool := Qeq_bool (fl q) q.

(** [a + b] on numbers: the sum of two doubles is the double nearest to
    their sum.  A rational that is not a double stands for no number of the
    program; the sum with one is left as it is. *)
Definition plus (a b : Q) : Q :=
  if is_double a && is_double b then fl (a + b) else (a + b)%Q.

(** *** Sets

    A [Set] keeps its elements in the order of their insertion: it is
    the list of them. *)
Definition Set_add {A : Type} `{EqDecision A} (x : A) (l : list A) : list A :=
  if decide (x ∈ l) then l else l ++ [x].

Definition Set_delete {A : Type} `{EqDecision A} (x : A) (l : list A)
  : list A :=
  filter (λ y, y ≠ x) l.

(** *** Base64 ([btoa] and [atob]) *)

Definition b64_char (n : Z) : ascii :=
  if n <? 26 then ascii_of_N (Z.to_N (65 + n))
  else if n <? 52 then ascii_of_N (Z.to_N (97 + (n - 26)))
  else if n <? 62 then ascii_of_N (Z.to_N (48 + (n - 52)))
  else if n =? 62 then "+"%char
  else "/"%char.

Definition b64_index (c : ascii) : option Z :=
  let k := Z.of_N (N_of_ascii c) in
  if (65 <=? k) && (k <=? 90) then Some (k - 65)
  else if (97 <=? k) && (k <=? 122) then Some (k - 71)
  else if (48 <=? k) && (k <=? 57) then Some (k + 4)
  else if k =? 43 then Some 62
  else if k =? 47 then Some 63
  else None.

Definition pad : ascii := "="%char.

Fixpoint b64_encode (l : list byte) : list ascii :=
  match l with
  | [] => []
  | [a] =>
      let n := Z_of_byte a * 65536 in
      [b64_char (n / 262144); b64_char (n / 4096 mod 64); pad; pad]
  | [a; b] =>
      let n := Z_of_byte a * 65536 + Z_of_byte b * 256 in
      [b64_char (n / 262144); b64_char (n / 4096 mod 64);
       b64_char (n / 64 mod 64); pad]
  | a :: b :: c :: rest =>
      let n := Z_of_byte a * 65536 + Z_of_byte b * 256 + Z_of_byte c in
      b64_char (n / 262144) :: b64_char (n / 4096 mod 64) ::
      b64_char (n / 64 mod 64) :: b64_char (n mod 64) :: b64_encode rest
  end.

(** [btoa] of a binary string.  A Rocq [string] holds 8-bit characters
    only, so the InvalidCharacterError of [btoa] on a code unit above 255
    cannot arise; [createBlob] builds its argument from bytes. *)
Definition btoa (binary : string) : string :=
  string_of_list_ascii (b64_encode (list_byte_of_string binary)).

Definition is_ascii_whitespace (c : ascii) : bool :=
  let k := Z.of_N (N_of_ascii c) in
  (k =? 9) || (k =? 10) || (k =? 12) || (k =? 13) || (k =? 32).

(** When the length is a multiple of four, one or two trailing [=] are
    removed. *)
Definition strip_padding (l : list ascii) : list ascii :=
  if Z.of_nat (length l) mod 4 =? 0 then
    match rev l with
    | c1 :: c2 :: r =>
        if Ascii.eqb c1 pad
        then if Ascii.eqb c2 pad then rev r else rev (c2 :: r)
        else l
    | _ => l
    end
  else l.

Fixpoint b64_decode (l : list Z) : list byte :=
  match l with
  | a :: b :: c :: d :: rest =>
      let n := a * 262144 + b * 4096 + c * 64 + d in
      byte_of_Z (n / 65536) :: byte_of_Z (n / 256 mod 256) ::
      byte_of_Z (n mod 256) :: b64_decode rest
  | [a; b; c] =>
      let n := a * 262144 + b * 4096 + c * 64 in
      [byte_of_Z (n / 65536); byte_of_Z (n / 256 mod 256)]
  | [a; b] =>
      let n := a * 262144 + b * 4096 in [byte_of_Z (n / 65536)]
  | _ => []
  end.

(** [atob]: the forgiving base64 decoder of the HTML standard.  ASCII
    whitespace is dropped, padding removed, and a length of 1 modulo 4 or a
    character outside the alphabet raises InvalidCharacterError. *)
Definition atob (base64 : string) : result string :=
  let data :=
    strip_padding
      (List.filter (λ c, negb (is_ascii_whitespace c))
         (list_ascii_of_string base64)) in
  if Z.of_nat (length data) mod 4 =? 1 then Throw InvalidCharacterError
  else match mapM b64_index data with
       | None => Throw InvalidCharacterError
       | Some sextets => Ok (string_of_list_byte (b64_decode sextets))
       end.

(** A base64 digit. *)
Definition sextet (n : Z) : Prop := 0 <= n < 64.

(** The sextets [b64_encode] writes before the padding. *)
Fixpoint sextets_of (l : list byte) : list Z :=
  match l with
  | [] => []
  | [a] =>
      let n := Z_of_byte a * 65536 in [n / 262144; n / 4096 mod 64]
  | [a; b] =>
      let n := Z_of_byte a * 65536 + Z_of_byte b * 256 in
      [n / 262144; n / 4096 mod 64; n / 64 mod 64]
  | a :: b :: c :: rest =>
      let n := Z_of_byte a * 65536 + Z_of_byte b * 256 + Z_of_byte c in
      n / 262144 :: n / 4096 mod 64 :: n / 64 mod 64 :: n mod 64 :: sextets_of rest
  end.

(** The padding [b64_encode] writes at the end. *)
Definition padding_of (l : list byte) : list ascii :=
  match (length l mod 3)%nat with
  | 1%nat => [pad; pad]
  | 2%nat => [pad]
  | _ => []
  end.

End JS.

(** ** The frame codec *)

Module Codec.
Import JS.

(** What [createBlob] returns. *)
Record Blob : Type := { data : string; mimeType : string }.

(** [Math.max(-1, Math.min(1, data[i]))] *)
Definition clip (x : Q) : Q := Qmax (-1) (Qmin 1 x).

(** [s < 0 ? s * 0x8000 : s * 0x7FFF] *)
Definition scale (s : Q) : Q :=
  if Qlt_le_dec s 0 then (s * 32768)%Q else (s * 32767)%Q.

(** The first loop of [createBlob]: clip, scale, store into the
    [Int16Array]. *)
Definition to_int16 (samples : list Q) : list Z :=
  map (λ x, ToInt16 (scale (clip x))) samples.

(** [createBlob] of services/gemini. *)
Definition createBlob (samples : list Q) : Blob :=
  let int16 := to_int16 samples in
  let bytes := Uint8Array_of_int16 int16 in
  let binary := string_of_list_byte bytes in
  {| data := btoa binary; mimeType := "audio/pcm;rate=16000" |}.

(** [decode] of LivePracticeView: base64 text to bytes. *)
Definition decode (base64 : string) : result (list byte) :=
  binaryString ← atob base64;
  Ok (list_byte_of_string binaryString).

Record AudioBuffer : Type := {
  numberOfChannels : Z;
  buf_length : Z;
  sampleRate : Q;
  channels : list (list Q)
}.

(** [buffer.duration]: the length divided by the sample rate, a
    double. *)
Definition duration (b : AudioBuffer) : Q :=
  fl (inject_Z (buf_length b) / sampleRate b).

(** [ctx.createBuffer(numChannels, length, sampleRate)]: a zero-filled
    buffer; NotSupportedError when the channel count or the length
    (converted to an unsigned long) is zero.  The limits an implementation
    puts on the sample rate and on the number of channels are not modelled:
    the one call site passes 24000 and 1. *)
Definition createBuffer (numChannels : Z) (len : Q) (rate : Q)
  : result AudioBuffer :=
  let n := ToUint32 len in
  if (1 <=? numChannels) && (1 <=? n) then
    Ok {| numberOfChannels := numChannels;
          buf_length := n;
          sampleRate := rate;
          channels := replicate (Z.to_nat numChannels)
                                (replicate (Z.to_nat n) 0%Q) |}
  else Throw NotSupportedError.

(** The inner loop of [decodeAudioData] for one channel:
    [for (i = 0; i < frameCount; i++)
       channelData[i] = dataInt16[i * numChannels + channel] / 32768.0].
    A store past the end of a typed array is dropped, which is what the
    list insert does.  A read past the end of [dataInt16] (the number is
    then NaN) only happens at an index whose store is dropped; it is
    modelled by 0. *)
Definition fill_channel (dataInt16 : list Z) (numChannels channel : nat)
    (iterations : nat) (channelData : list Q) : list Q :=
  foldl (λ cd i,
           <[i := (inject_Z (default 0%Z (dataInt16 !! (i * numChannels + channel)%nat))
                   / 32768)%Q]> cd)
        channelData (seq 0 iterations).

(** [decodeAudioData] of LivePracticeView.  The context argument only
    serves to create the buffer and is left out.  With [numChannels = 0]
    the source divides by zero and then asks for a buffer of zero
    channels; here the quotient is 0 and the same request is made, with
    the same NotSupportedError. *)
Definition decodeAudioData (bytes : list byte) (rate : Q) (numChannels : Z)
  : result AudioBuffer :=
  dataInt16 ← Int16Array_of_buffer bytes;
  let frameCount : Q :=
    (inject_Z (Z.of_nat (length dataInt16)) / inject_Z numChannels)%Q in
  if Qle_bool frameCount 0 then createBuffer numChannels 1 rate
  else
    buffer ← createBuffer numChannels frameCount rate;
    let nc := Z.to_nat numChannels in
    let iterations := Z.to_nat (Qceiling frameCount) in
    Ok {| numberOfChannels := numberOfChannels buffer;
          buf_length := buf_length buffer;
          sampleRate := sampleRate buffer;
          channels :=
            foldl (λ chs channel,
                     <[channel :=
                         fill_channel dataInt16 nc channel iterations
                           (default [] (chs !! channel))]> chs)
                  (channels buffer) (seq 0 nc) |}.

(** The inbound audio path of the conversational view:
    [decodeAudioData(decode(base64), ctx, 24000, 1)]. *)
Definition decode_payload (base64 : string) : result AudioBuffer :=
  bytes ← decode base64;
  decodeAudioData bytes 24000 1.

(** The value an int16 sample decodes to. *)
Definition dequantize (v : Z) : Q := (inject_Z v / 32768)%Q.

(** The codec round trip on one channel: a frame is encoded by
    [createBlob] and its payload decoded by [decode] and
    [decodeAudioData]. *)
Definition roundtrip (rate : Q) (samples : list Q) : result AudioBuffer :=
  bytes ← decode (data (createBlob samples));
  decodeAudioData bytes rate 1.

(** One quantization step of the int16 wire format. *)
Definition quantum : Q := (1 # 32768)%Q.

(** The buffer [decodeAudioData] returns in its safety branch. *)
Definition silent (numChannels : Z) (rate : Q) : AudioBuffer :=
  {| numberOfChannels := numChannels;
     buf_length := 1;
     sampleRate := rate;
     channels := replicate (Z.to_nat numChannels) [0%Q] |}.

(** What the round trip guarantees for a sample [x] decoded as [y]: a
    negative sample comes back at most one step above, a non-negative one
    less than [x + 1] steps below, either way within two steps. *)
Definition close_to (x y : Q) : Prop :=
  ((x < 0)%Q -> (0 <= y - x)%Q /\ (y - x < quantum)%Q) /\
  ((0 <= x)%Q -> (0 <= x - y)%Q /\ (x - y < (x + 1) * quantum)%Q) /\
  (Qabs (x - y) < 2 * quantum)%Q.

End Codec.

(** ** The platform: audio devices, microphone, transport, console *)

Module Platform.
Import Codec.

Inductive AudioContextState : Type := running | closed.

#[global] Instance AudioContextState_eq_dec : EqDecision AudioContextState.
Proof. solve_decision. Defined.

(** A buffer source started on the output context: its handle, the time
    given to [source.start] and the buffer it plays. *)
Record PlaybackUnit : Type := {
  unit_id : nat;
  unit_start : Q;
  unit_buffer : AudioBuffer
}.

(** The time at which a unit has played its buffer: the exact sum, which
    the code does not compute. *)
Definition unit_end (u : PlaybackUnit) : Q :=
  (unit_start u + duration (unit_buffer u))%Q.

(** The argument of [session.sendToolResponse]. *)
Record FunctionResponse : Type := {
  fr_id : string;
  fr_name : string;
  fr_result : string
}.

(** Everything outside the view that the handlers act on.  Handles are
    indices into the lists. *)
Record World : Type := {
  audioContexts : list AudioContextState;
  micTracks : list bool;              (* per acquired stream: track live *)
  sessions : list bool;               (* per transport session: open *)
  started : list PlaybackUnit;        (* calls of source.start, in order *)
  stopped : list nat;                 (* calls of source.stop, in order *)
  realtimeInput : list Blob;          (* frames given to sendRealtimeInput *)
  toolResponses : list FunctionResponse; (* calls of sendToolResponse *)
  console : list string;              (* console.error and console.warn *)
  unhandled : list error;             (* rejections nobody handles *)
  feedbackRequests : list string;     (* calls of generatePracticeFeedback *)
  practiceHistory : list (Q * Q)      (* savePracticeSession entries *)
}.

Definition empty_world : World :=
  Build_World [] [] [] [] [] [] [] [] [] [] [].

(** Assignment to one field, the others kept. *)
Definition set_audioContexts (v : list AudioContextState) (x : World) : World :=
  Build_World v (micTracks x) (sessions x) (started x) (stopped x)
    (realtimeInput x) (toolResponses x) (console x) (unhandled x)
    (feedbackRequests x) (practiceHistory x).

Definition set_micTracks (v : list bool) (x : World) : World :=
  Build_World (audioContexts x) v (sessions x) (started x) (stopped x)
    (realtimeInput x) (toolResponses x) (console x) (unhandled x)
    (feedbackRequests x) (practiceHistory x).

Definition set_sessions (v : list bool) (x : World) : World :=
  Build_World (audioContexts x) (micTracks x) v (started x) (stopped x)
    (realtimeInput x) (toolResponses x) (console x) (unhandled x)
    (feedbackRequests x) (practiceHistory x).

Definition set_started (v : list PlaybackUnit) (x : World) : World :=
  Build_World (audioContexts x) (micTracks x) (sessions x) v (stopped x)
    (realtimeInput x) (toolResponses x) (console x) (unhandled x)
    (feedbackRequests x) (practiceHistory x).

Definition set_stopped (v : list nat) (x : World) : World :=
  Build_World (audioContexts x) (micTracks x) (sessions x) (started x) v
    (realtimeInput x) (toolResponses x) (console x) (unhandled x)
    (feedbackRequests x) (practiceHistory x).

Definition set_realtimeInput (v : list Blob) (x : World) : World :=
  Build_World (audioContexts x) (micTracks x) (sessions x) (started x)
    (stopped x) v (toolResponses x) (console x) (unhandled x)
    (feedbackRequests x) (practiceHistory x).

Definition set_toolResponses (v : list FunctionResponse) (x : World) : World :=
  Build_World (audioContexts x) (micTracks x) (sessions x) (started x)
    (stopped x) (realtimeInput x) v (console x) (unhandled x)
    (feedbackRequests x) (practiceHistory x).

Definition set_console (v : list string) (x : World) : World :=
  Build_World (audioContexts x) (micTracks x) (sessions x) (started x)
    (stopped x) (realtimeInput x) (toolResponses x) v (unhandled x)
    (feedbackRequests x) (practiceHistory x).

Definition set_unhandled (v : list error) (x : World) : World :=
  Build_World (audioContexts x) (micTracks x) (sessions x) (started x)
    (stopped x) (realtimeInput x) (toolResponses x) (console x) v
    (feedbackRequests x) (practiceHistory x).

Definition set_feedbackRequests (v : list string) (x : World) : World :=
  Build_World (audioContexts x) (micTracks x) (sessions x) (started x)
    (stopped x) (realtimeInput x) (toolResponses x) (console x)
    (unhandled x) v (practiceHistory x).

Definition set_practiceHistory (v : list (Q * Q)) (x : World) : World :=
  Build_World (audioContexts x) (micTracks x) (sessions x) (started x)
    (stopped x) (realtimeInput x) (toolResponses x) (console x)
    (unhandled x) (feedbackRequests x) v.

(** [new AudioContext(...)] followed by [resume()]. *)
Definition newAudioContext (w : World) : nat * World :=
  (length (audioContexts w),
   set_audioContexts (audioContexts w ++ [running]) w).

(** [ctx.close()]: the promise is rejected with InvalidStateError when the
    context is already closed. *)
Definition AudioContext_close (h : nat) (w : World) : result unit * World :=
  match audioContexts w !! h with
  | Some running => (Ok (), set_audioContexts (<[h := closed]> (audioContexts w)) w)
  | _ => (Throw InvalidStateError, w)
  end.

(** The contexts after [close()] has been called on the handle a ref
    holds, if it holds one. *)
Definition closed_at (ref : option nat) (l : list AudioContextState)
  : list AudioContextState :=
  match ref with
  | Some h =>
      match l !! h with
      | Some running => <[h := closed]> l
      | _ => l
      end
  | None => l
  end.

(** [navigator.mediaDevices.getUserMedia] when access is granted: a new
    stream with a live track. *)
Definition getUserMedia (w : World) : nat * World :=
  (length (micTracks w), set_micTracks (micTracks w ++ [true]) w).

(** [ai.live.connect] when it succeeds: a new open session. *)
Definition openSession (w : World) : nat * World :=
  (length (sessions w), set_sessions (sessions w ++ [true]) w).

(** [session.close()] *)
Definition Session_close (h : nat) (w : World) : World :=
  set_sessions (<[h := false]> (sessions w)) w.

Definition session_open (h : nat) (w : World) : bool :=
  default false (sessions w !! h).

(** [session.sendRealtimeInput({media})]: the frame leaves when the
    session is open. *)
Definition sendRealtimeInput (h : nat) (b : Blob) (w : World) : World :=
  if session_open h w then set_realtimeInput (realtimeInput w ++ [b]) w
  else w.

Definition log (line : string) (w : World) : World :=
  set_console (console w ++ [line]) w.

(** No context is running at the handle a ref holds. *)
Definition released (ref : option nat) (l : list AudioContextState) : Prop :=
  forall h, ref = Some h -> l !! h <> Some running.

End Platform.

(** ** Strings and errors of the views *)

Module Str.

(** [a || b] on strings: the empty string is falsy. *)
Definition or_else (a b : string) : string :=
  match a with EmptyString => b | _ => a end.

(** [hay.includes(needle)] *)
Fixpoint includes (needle hay : string) : bool :=
  String.prefix needle hay ||
  match hay with
  | EmptyString => false
  | String _ rest => includes needle rest
  end.

Definition upper_char (c : ascii) : ascii :=
  let k := N_of_ascii c in
  if ((97 <=? k) && (k <=? 122))%N then ascii_of_N (k - 32) else c.

(** [s.toUpperCase()], on the ASCII letters. *)
Fixpoint toUpperCase (s : string) : string :=
  match s with
  | EmptyString => EmptyString
  | String c rest => String (upper_char c) (toUpperCase rest)
  end.

(** The white space and line terminators of ECMAScript, which [trim]
    removes.  Strings are held in UTF-8: the ones of one byte (tab, line
    feed, vertical tab, form feed, carriage return and space), the one of
    two bytes (U+00A0) and the ones of three bytes (U+1680, U+2000 to
    U+200A, U+2028, U+2029, U+202F, U+205F, U+3000 and U+FEFF). *)
Definition is_space (c : ascii) : bool :=
  let k := N_of_ascii c in
  ((k =? 9) || (k =? 10) || (k =? 11) || (k =? 12) || (k =? 13) || (k =? 32))%N.

Definition is_space2 (c1 c2 : ascii) : bool :=
  ((N_of_ascii c1 =? 194) && (N_of_ascii c2 =? 160))%N.

Definition is_space3 (c1 c2 c3 : ascii) : bool :=
  let k1 := N_of_ascii c1 in
  let k2 := N_of_ascii c2 in
  let k3 := N_of_ascii c3 in
  ((k1 =? 225) && (k2 =? 154) && (k3 =? 128) ||
   (k1 =? 226) && (k2 =? 128) &&
     ((128 <=? k3) && (k3 <=? 138) || (k3 =? 168) || (k3 =? 169) || (k3 =? 175)) ||
   (k1 =? 226) && (k2 =? 129) && (k3 =? 159) ||
   (k1 =? 227) && (k2 =? 128) && (k3 =? 128) ||
   (k1 =? 239) && (k2 =? 187) && (k3 =? 191))%N.

(** The string without the white space it starts with.  With [backwards]
    the string is read from its end, so that the bytes of a character come
    in the opposite order. *)
Fixpoint strip (backwards : bool) (s : string) : string :=
  match s with
  | String c1 rest1 =>
      if is_space c1 then strip backwards rest1
      else
        match rest1 with
        | String c2 rest2 =>
            if (if backwards then is_space2 c2 c1 else is_space2 c1 c2)
            then strip backwards rest2
            else
              match rest2 with
              | String c3 rest3 =>
                  if (if backwards then is_space3 c3 c2 c1
                      else is_space3 c1 c2 c3)
                  then strip backwards rest3
                  else s
              | EmptyString => s
              end
        | EmptyString => s
        end
  | EmptyString => EmptyString
  end.

(** [s.trimStart()] *)
Definition trimStart (s : string) : string := strip false s.

(** [s.trimEnd()] *)
Definition trimEnd (s : string) : string :=
  String.rev (strip true (String.rev s)).

(** [s.trim()] *)
Definition trim (s : string) : string := trimEnd (trimStart s).

Definition newline : string := String (ascii_of_N 10) EmptyString.

End Str.

(** ** The conversational view (LivePracticeView) *)

Module Practice.
Import JS Codec Platform Str.

Inductive MessageType : Type := USER | MODEL.

#[global] Instance MessageType_eq_dec : EqDecision MessageType.
Proof. solve_decision. Defined.

(** The string value of the enum. *)
Definition MessageType_value (r : MessageType) : string :=
  match r with USER => "user" | MODEL => "model" end.

Record ChatMessage : Type := {
  msg_id : string;
  msg_role : MessageType;
  msg_text : string;
  msg_timestamp : Z
}.

Record PracticeFeedback : Type := {
  strengths : list string;
  improvements : list string;
  goal_alignment_score : Q;
  clarity_score : Q;
  empathy_score : Q;
  confidence_score : Q;
  coach_note : string
}.

(** The parts of a server message the view reads:
    [serverContent.inputTranscription.text],
    [serverContent.outputTranscription.text],
    [serverContent.modelTurn.parts[0].inlineData.data] and
    [serverContent.interrupted]. *)
Record LiveServerMessage : Type := {
  inputTranscription : option string;
  outputTranscription : option string;
  inlineData : option string;
  interrupted : bool
}.

(** The state hooks and the refs of the component.  [sessionPromise] is
    the local variable of [connect] that its callbacks capture, and
    [processorWired] tells that [onaudioprocess] has been installed by the
    open callback of the current session. *)
Record State : Type := {
  isConnected : bool;
  status : string;
  conversation : list ChatMessage;
  isAiSpeaking : bool;
  isMuted : bool;
  feedback : option PracticeFeedback;
  isGeneratingFeedback : bool;
  feedbackError : option string;
  isMutedRef : bool;
  inputAudioContextRef : option nat;
  outputAudioContextRef : option nat;
  nextStartTimeRef : Q;
  sourcesRef : list nat;
  sessionRef : option nat;
  isExplicitlyStoppedRef : bool;
  conversationRef : list ChatMessage;
  sessionPromise : SessionPromise;
  processorWired : bool
}.

Definition initial : State :=
  Build_State false "Disconnected" [] false false None false None
    false None None 0%Q [] None false [] no_promise false.

(** Assignment to one field, the others kept. *)
Definition set_isConnected (v : bool) (x : State) : State :=
  Build_State v (status x) (conversation x) (isAiSpeaking x) (isMuted x)
    (feedback x) (isGeneratingFeedback x) (feedbackError x) (isMutedRef x)
    (inputAudioContextRef x) (outputAudioContextRef x) (nextStartTimeRef x)
    (sourcesRef x) (sessionRef x) (isExplicitlyStoppedRef x)
    (conversationRef x) (sessionPromise x) (processorWired x).

Definition set_status (v : string) (x : State) : State :=
  Build_State (isConnected x) v (conversation x) (isAiSpeaking x)
    (isMuted x) (feedback x) (isGeneratingFeedback x) (feedbackError x)
    (isMutedRef x) (inputAudioContextRef x) (outputAudioContextRef x)
    (nextStartTimeRef x) (sourcesRef x) (sessionRef x)
    (isExplicitlyStoppedRef x) (conversationRef x) (sessionPromise x)
    (processorWired x).

Definition set_conversation (v : list ChatMessage) (x : State) : State :=
  Build_State (isConnected x) (status x) v (isAiSpeaking x) (isMuted x)
    (feedback x) (isGeneratingFeedback x) (feedbackError x) (isMutedRef x)
    (inputAudioContextRef x) (outputAudioContextRef x) (nextStartTimeRef x)
    (sourcesRef x) (sessionRef x) (isExplicitlyStoppedRef x)
    (conversationRef x) (sessionPromise x) (processorWired x).

Definition set_isAiSpeaking (v : bool) (x : State) : State :=
  Build_State (isConnected x) (status x) (conversation x) v (isMuted x)
    (feedback x) (isGeneratingFeedback x) (feedbackError x) (isMutedRef x)
    (inputAudioContextRef x) (outputAudioContextRef x) (nextStartTimeRef x)
    (sourcesRef x) (sessionRef x) (isExplicitlyStoppedRef x)
    (conversationRef x) (sessionPromise x) (processorWired x).

Definition set_isMuted (v : bool) (x : State) : State :=
  Build_State (isConnected x) (status x) (conversation x) (isAiSpeaking x) v
    (feedback x) (isGeneratingFeedback x) (feedbackError x) (isMutedRef x)
    (inputAudioContextRef x) (outputAudioContextRef x) (nextStartTimeRef x)
    (sourcesRef x) (sessionRef x) (isExplicitlyStoppedRef x)
    (conversationRef x) (sessionPromise x) (processorWired x).

Definition set_feedback (v : option PracticeFeedback) (x : State) : State :=
  Build_State (isConnected x) (status x) (conversation x) (isAiSpeaking x)
    (isMuted x) v (isGeneratingFeedback x) (feedbackError x) (isMutedRef x)
    (inputAudioContextRef x) (outputAudioContextRef x) (nextStartTimeRef x)
    (sourcesRef x) (sessionRef x) (isExplicitlyStoppedRef x)
    (conversationRef x) (sessionPromise x) (processorWired x).

Definition set_isGeneratingFeedback (v : bool) (x : State) : State :=
  Build_State (isConnected x) (status x) (conversation x) (isAiSpeaking x)
    (isMuted x) (feedback x) v (feedbackError x) (isMutedRef x)
    (inputAudioContextRef x) (outputAudioContextRef x) (nextStartTimeRef x)
    (sourcesRef x) (sessionRef x) (isExplicitlyStoppedRef x)
    (conversationRef x) (sessionPromise x) (processorWired x).

Definition set_feedbackError (v : option string) (x : State) : State :=
  Build_State (isConnected x) (status x) (conversation x) (isAiSpeaking x)
    (isMuted x) (feedback x) (isGeneratingFeedback x) v (isMutedRef x)
    (inputAudioContextRef x) (outputAudioContextRef x) (nextStartTimeRef x)
    (sourcesRef x) (sessionRef x) (isExplicitlyStoppedRef x)
    (conversationRef x) (sessionPromise x) (processorWired x).

Definition set_isMutedRef (v : bool) (x : State) : State :=
  Build_State (isConnected x) (status x) (conversation x) (isAiSpeaking x)
    (isMuted x) (feedback x) (isGeneratingFeedback x) (feedbackError x) v
    (inputAudioContextRef x) (outputAudioContextRef x) (nextStartTimeRef x)
    (sourcesRef x) (sessionRef x) (isExplicitlyStoppedRef x)
    (conversationRef x) (sessionPromise x) (processorWired x).

Definition set_inputAudioContextRef (v : option nat) (x : State) : State :=
  Build_State (isConnected x) (status x) (conversation x) (isAiSpeaking x)
    (isMuted x) (feedback x) (isGeneratingFeedback x) (feedbackError x)
    (isMutedRef x) v (outputAudioContextRef x) (nextStartTimeRef x)
    (sourcesRef x) (sessionRef x) (isExplicitlyStoppedRef x)
    (conversationRef x) (sessionPromise x) (processorWired x).

Definition set_outputAudioContextRef (v : option nat) (x : State) : State :=
  Build_State (isConnected x) (status x) (conversation x) (isAiSpeaking x)
    (isMuted x) (feedback x) (isGeneratingFeedback x) (feedbackError x)
    (isMutedRef x) (inputAudioContextRef x) v (nextStartTimeRef x)
    (sourcesRef x) (sessionRef x) (isExplicitlyStoppedRef x)
    (conversationRef x) (sessionPromise x) (processorWired x).

Definition set_nextStartTimeRef (v : Q) (x : State) : State :=
  Build_State (isConnected x) (status x) (conversation x) (isAiSpeaking x)
    (isMuted x) (feedback x) (isGeneratingFeedback x) (feedbackError x)
    (isMutedRef x) (inputAudioContextRef x) (outputAudioContextRef x) v
    (sourcesRef x) (sessionRef x) (isExplicitlyStoppedRef x)
    (conversationRef x) (sessionPromise x) (processorWired x).

Definition set_sourcesRef (v : list nat) (x : State) : State :=
  Build_State (isConnected x) (status x) (conversation x) (isAiSpeaking x)
    (isMuted x) (feedback x) (isGeneratingFeedback x) (feedbackError x)
    (isMutedRef x) (inputAudioContextRef x) (outputAudioContextRef x)
    (nextStartTimeRef x) v (sessionRef x) (isExplicitlyStoppedRef x)
    (conversationRef x) (sessionPromise x) (processorWired x).

Definition set_sessionRef (v : option nat) (x : State) : State :=
  Build_State (isConnected x) (status x) (conversation x) (isAiSpeaking x)
    (isMuted x) (feedback x) (isGeneratingFeedback x) (feedbackError x)
    (isMutedRef x) (inputAudioContextRef x) (outputAudioContextRef x)
    (nextStartTimeRef x) (sourcesRef x) v (isExplicitlyStoppedRef x)
    (conversationRef x) (sessionPromise x) (processorWired x).

Definition set_isExplicitlyStoppedRef (v : bool) (x : State) : State :=
  Build_State (isConnected x) (status x) (conversation x) (isAiSpeaking x)
    (isMuted x) (feedback x) (isGeneratingFeedback x) (feedbackError x)
    (isMutedRef x) (inputAudioContextRef x) (outputAudioContextRef x)
    (nextStartTimeRef x) (sourcesRef x) (sessionRef x) v (conversationRef x)
    (sessionPromise x) (processorWired x).

Definition set_conversationRef (v : list ChatMessage) (x : State) : State :=
  Build_State (isConnected x) (status x) (conversation x) (isAiSpeaking x)
    (isMuted x) (feedback x) (isGeneratingFeedback x) (feedbackError x)
    (isMutedRef x) (inputAudioContextRef x) (outputAudioContextRef x)
    (nextStartTimeRef x) (sourcesRef x) (sessionRef x)
    (isExplicitlyStoppedRef x) v (sessionPromise x) (processorWired x).

Definition set_sessionPromise (v : SessionPromise) (x : State) : State :=
  Build_State (isConnected x) (status x) (conversation x) (isAiSpeaking x)
    (isMuted x) (feedback x) (isGeneratingFeedback x) (feedbackError x)
    (isMutedRef x) (inputAudioContextRef x) (outputAudioContextRef x)
    (nextStartTimeRef x) (sourcesRef x) (sessionRef x)
    (isExplicitlyStoppedRef x) (conversationRef x) v (processorWired x).

Definition set_processorWired (v : bool) (x : State) : State :=
  Build_State (isConnected x) (status x) (conversation x) (isAiSpeaking x)
    (isMuted x) (feedback x) (isGeneratingFeedback x) (feedbackError x)
    (isMutedRef x) (inputAudioContextRef x) (outputAudioContextRef x)
    (nextStartTimeRef x) (sourcesRef x) (sessionRef x)
    (isExplicitlyStoppedRef x) (conversationRef x) (sessionPromise x) v.

(** The effect that copies the conversation into its ref after a render. *)
Definition render (s : State) : State :=
  set_conversationRef (conversation s) s.

Definition toggleMute (s : State) : State :=
  let newState := negb (isMuted s) in
  let s := set_isMuted newState s in
  set_isMutedRef newState s.

(** *** Transcript assembler *)

(** [updateStreamingTranscript], the function given to [setConversation];
    [clock] is [Date.now()]. *)
Definition updateStreamingTranscript (clock : Z) (role : MessageType)
    (textFragment : string) (prev : list ChatMessage) : list ChatMessage :=
  match last prev with
  | Some lastMsg =>
      if decide (msg_role lastMsg = role) then
        take (length prev - 1) prev ++
        [{| msg_id := msg_id lastMsg;
            msg_role := msg_role lastMsg;
            msg_text := msg_text lastMsg +:+ textFragment;
            msg_timestamp := msg_timestamp lastMsg |}]
      else
        prev ++
        [{| msg_id := pretty clock +:+ "-" +:+ MessageType_value role;
            msg_role := role;
            msg_text := textFragment;
            msg_timestamp := clock |}]
  | None =>
      prev ++
      [{| msg_id := pretty clock +:+ "-" +:+ MessageType_value role;
          msg_role := role;
          msg_text := textFragment;
          msg_timestamp := clock |}]
  end.

(** The two messages [updateStreamingTranscript] builds: the message that
    opens a role segment, and the open message with a fragment appended. *)
Definition opened (clock : Z) (role : MessageType) (textFragment : string)
  : ChatMessage :=
  {| msg_id := pretty clock +:+ "-" +:+ MessageType_value role;
     msg_role := role;
     msg_text := textFragment;
     msg_timestamp := clock |}.

Definition extended (m : ChatMessage) (textFragment : string) : ChatMessage :=
  {| msg_id := msg_id m;
     msg_role := msg_role m;
     msg_text := msg_text m +:+ textFragment;
     msg_timestamp := msg_timestamp m |}.

(** [if (text) updateStreamingTranscript(role, text)] *)
Definition onTranscription (clock : Z) (role : MessageType)
    (transcription : option string) (s : State) : State :=
  match transcription with
  | Some (String c rest) =>
      set_conversation
        (updateStreamingTranscript clock role (String c rest) (conversation s)) s
  | _ => s
  end.

(** *** Playback scheduler *)

(** [nextStartTimeRef.current = Math.max(nextStartTimeRef.current,
    ctx.currentTime)] *)
Definition advanceCursor (now : Q) (s : State) : State :=
  set_nextStartTimeRef (Qmax (nextStartTimeRef s) now) s.

(** The rest of the audio branch once the buffer is decoded: a source is
    created, the speaking flag raised, the source started at the cursor,
    the cursor advanced by the duration and the source put in the set. *)
Definition startSource (audioBuffer : AudioBuffer) (s : State) (w : World)
  : State * World :=
  let source := length (started w) in
  let s := set_isAiSpeaking true s in
  let w := set_started
             (started w ++
              [{| unit_id := source;
                  unit_start := nextStartTimeRef s;
                  unit_buffer := audioBuffer |}]) w in
  let s := set_nextStartTimeRef
             (plus (nextStartTimeRef s) (duration audioBuffer)) s in
  let s := set_sourcesRef (Set_add source (sourcesRef s)) s in
  (s, w).

(** A decoded buffer delivered to the scheduler at device time [now]. *)
Definition deliver (now : Q) (audioBuffer : AudioBuffer) (s : State)
    (w : World) : State * World :=
  startSource audioBuffer (advanceCursor now s) w.

(** The listener of the [ended] event of a source. *)
Definition onEnded (source : nat) (now : Q) (s : State) : State :=
  let s := set_sourcesRef (Set_delete source (sourcesRef s)) s in
  if (length (sourcesRef s) =? 0)%nat && Qle_bool (nextStartTimeRef s) now
  then set_isAiSpeaking false s
  else s.

(** The loop of the interrupted branch:
    [for (const source of sources.values()) { source.stop();
    sources.delete(source); }].  The set is visited in the order of
    insertion, and deleting the element that is being visited does not
    disturb the visit of the ones after it. *)
Definition stopAll (sources : list nat) (stoppedLog : list nat)
  : list nat * list nat :=
  foldl (λ acc source, (Set_delete source acc.1, acc.2 ++ [source]))
        (sources, stoppedLog) sources.

Definition onInterrupted (s : State) (w : World) : State * World :=
  let '(sources, stoppedLog) := stopAll (sourcesRef s) (stopped w) in
  let w := set_stopped stoppedLog w in
  let s := set_sourcesRef sources s in
  let s := set_nextStartTimeRef 0%Q s in
  let s := set_isAiSpeaking false s in
  (s, w).

(** What reaches the scheduler between two interruptions: decoded buffers
    and the ends of sources. *)
Inductive SchedEvent : Type :=
| Deliver (now : Q) (audioBuffer : AudioBuffer)
| Ended (source : nat) (now : Q).

Definition sched_step (sw : State * World) (e : SchedEvent) : State * World :=
  match e with
  | Deliver now audioBuffer => deliver now audioBuffer sw.1 sw.2
  | Ended source now => (onEnded source now sw.1, sw.2)
  end.

Definition sched_run (sw : State * World) (es : list SchedEvent)
  : State * World :=
  foldl sched_step sw es.

(** The schedule as the design describes it: starting from the cursor
    [c], each buffer begins at the larger of the cursor and the device time
    of its arrival, and the cursor moves to its end, as the code computes
    it.  An arrival is the device time with what decoding the audio gave:
    a payload that does not decode starts nothing, but the cursor has
    been raised to the device time before decoding. *)
Fixpoint schedule (source : nat) (c : Q) (ds : list (Q * result AudioBuffer))
  : list PlaybackUnit :=
  match ds with
  | [] => []
  | (now, Ok b) :: rest =>
      let t := Qmax c now in
      {| unit_id := source; unit_start := t; unit_buffer := b |} ::
      schedule (S source) (plus t (duration b)) rest
  | (now, Throw _) :: rest => schedule source (Qmax c now) rest
  end.

Fixpoint cursor_after (c : Q) (ds : list (Q * result AudioBuffer)) : Q :=
  match ds with
  | [] => c
  | (now, Ok b) :: rest => cursor_after (plus (Qmax c now) (duration b)) rest
  | (now, Throw _) :: rest => cursor_after (Qmax c now) rest
  end.

(** The interrupted branch, which ends the message callback. *)
Definition afterAudio (m : LiveServerMessage) (s : State) (w : World)
  : State * World :=
  if interrupted m then onInterrupted s w else (s, w).

(** The two transcription branches of the message callback. *)
Definition transcribed (clock : Z) (m : LiveServerMessage) (s : State)
  : State :=
  let s := onTranscription clock USER (inputTranscription m) s in
  onTranscription clock MODEL (outputTranscription m) s.

(** What the audio branch has to decode: the payload of the first part
    of the message, when there is one and it is not empty. *)
Definition audio (m : LiveServerMessage) : option (result AudioBuffer) :=
  match inlineData m with
  | Some (String c rest) => Some (decode_payload (String c rest))
  | _ => None
  end.

(** The message callback.  The audio branch moves the cursor before it
    decodes; when decoding throws the handler stops there and its promise
    is rejected with nobody to handle it. *)
Definition onMessage (clock : Z) (now : Q) (m : LiveServerMessage)
    (s : State) (w : World) : State * World :=
  let s := transcribed clock m s in
  match inlineData m, outputAudioContextRef s with
  | Some (String c rest), Some _ =>
      let s := advanceCursor now s in
      match decode_payload (String c rest) with
      | Throw e => (s, set_unhandled (unhandled w ++ [Exn e]) w)
      | Ok audioBuffer =>
          let '(s, w) := startSource audioBuffer s w in
          afterAudio m s w
      end
  | _, _ => afterAudio m s w
  end.

(** *** Capture gate *)

(** [scriptProcessor.onaudioprocess]; [now] is the current time of the
    output context. *)
Definition onaudioprocess (now : Q) (inputData : list Q) (s : State)
    (w : World) : State * World :=
  if isMutedRef s then (s, w)
  else if match outputAudioContextRef s with
          | Some _ => negb (Qle_bool (nextStartTimeRef s) now)
          | None => false
          end
  then (s, w)
  else
    let pcmBlob := createBlob inputData in
    match sessionPromise s with
    | resolved session =>
        (set_sessionRef (Some session) s,
         sendRealtimeInput session pcmBlob w)
    | rejected _ => (s, log "Session send error:" w)
    | no_promise => (s, w)
    end.

(** A run of capture ticks, each with the time of the output device and
    the captured block. *)
Definition ticks (sw : State * World) (ts : list (Q * list Q))
  : State * World :=
  foldl (λ sw t, onaudioprocess t.1 t.2 sw.1 sw.2) sw ts.

(** The half-duplex gate lets a frame through. *)
Definition gate_open (now : Q) (s : State) : Prop :=
  outputAudioContextRef s = None ∨ (nextStartTimeRef s <= now)%Q.

(** *** Lifecycle *)

(** What the environment answers to a [connect]: the microphone request
    and the connection request. *)
Record ConnectEnv : Type := {
  microphone : outcome unit;
  transport : outcome unit
}.

(** [connect].  The stream obtained from [getUserMedia] is a local
    variable, captured by the open callback only.  A call starts with no
    promise and no processor of its own: the two fields that stand for its
    closure are cleared first. *)
Definition connect (env : ConnectEnv) (s : State) (w : World)
  : State * World :=
  let s := set_status "Initializing Audio..." s in
  let s := set_feedback None s in
  let s := set_feedbackError None s in
  let s := set_conversation [] s in
  let s := set_conversationRef [] s in
  let s := set_isAiSpeaking false s in
  let s := set_isMuted false s in
  let s := set_isMutedRef false s in
  let s := set_isExplicitlyStoppedRef false s in
  let s := set_processorWired false s in
  let s := set_sessionPromise no_promise s in
  (* try *)
  let '(inputAudioContext, w) := newAudioContext w in
  let '(outputAudioContext, w) := newAudioContext w in
  let s := set_inputAudioContextRef (Some inputAudioContext) s in
  let s := set_outputAudioContextRef (Some outputAudioContext) s in
  let s := set_status "Requesting Microphone..." s in
  match microphone env with
  | failed e =>
      (* catch *)
      let w := log (message e) w in
      let s := set_status
                 ("Error: " +:+ or_else (message e) "Unknown error occurred") s in
      (set_isConnected false s, w)
  | fulfilled _ =>
      let '(stream, w) := getUserMedia w in
      let s := set_status "Connecting to Gemini Live..." s in
      match transport env with
      | fulfilled _ =>
          let '(session, w) := openSession w in
          (set_sessionPromise (resolved session) s, w)
      | failed e =>
          (* sessionPromise.catch *)
          let s := set_sessionPromise (rejected e) s in
          let w := log "Initial Connection Error:" w in
          let s := set_status
                     ("Error: " +:+
                      or_else (message e) "Failed to establish connection.") s in
          (set_isConnected false s, w)
      end
  end.

(** The open callback. *)
Definition onOpen (s : State) : State :=
  let s := set_status "Connected" s in
  let s := set_isConnected true s in
  set_processorWired true s.

(** The close callback. *)
Definition onClose (s : State) : State :=
  let s := set_isAiSpeaking false s in
  let s := set_isConnected false s in
  if negb (isExplicitlyStoppedRef s)
  then set_status "Connection Ended (Check Network). You can View Analysis." s
  else set_status "Disconnected" s.

(** The error callback. *)
Definition onError (err : error) (s : State) (w : World) : State * World :=
  let w := log (message err) w in
  let msg := or_else (message err) "Connection Failed" in
  let msg := if includes "Network" msg
             then "Network Error: Check internet connection." else msg in
  let msg := if includes "403" msg
             then "Access Denied: Check API Key." else msg in
  let s := set_status ("Error: " +:+ msg) s in
  (set_isConnected false s, w).

Definition analysisUnavailable : string :=
  "Failed to analyze session. The conversation was saved above, but AI feedback is unavailable.".

(** [savePracticeSession], for the scenario in use: the scores are pushed
    and the last ten attempts kept. *)
Definition savePracticeSession (d : PracticeFeedback) (w : World) : World :=
  let history :=
    practiceHistory w ++ [(goal_alignment_score d, confidence_score d)] in
  set_practiceHistory
    (if (10 <? length history)%nat
     then drop (length history - 10) history else history) w.

(** The text handed to the analysis:
    [`${m.role.toUpperCase()}: ${m.text}`] joined by line feeds. *)
Definition transcriptText (t : list ChatMessage) : string :=
  String.concat newline
    (map (λ m, toUpperCase (MessageType_value (msg_role m)) +:+ ": " +:+ msg_text m) t).

(** [try { await ctx.close(); } catch {}] on a ref that may be null. *)
Definition closeQuietly (ref : option nat) (w : World) : World :=
  match ref with
  | Some h => (AudioContext_close h w).2
  | None => w
  end.

(** [handleDisconnect]; [analysis] is what [generatePracticeFeedback]
    answers when it is called. *)
Definition handleDisconnect (analysis : outcome PracticeFeedback)
    (s : State) (w : World) : State * World :=
  let s := set_isExplicitlyStoppedRef true s in
  let '(s, w) :=
    match sessionRef s with
    | Some h => (set_sessionRef None s, Session_close h w)
    | None => (s, w)
    end in
  let w := closeQuietly (inputAudioContextRef s) w in
  let w := closeQuietly (outputAudioContextRef s) w in
  let currentTranscript := conversationRef s in
  if (2 <? length currentTranscript)%nat then
    let s := set_isGeneratingFeedback true s in
    let s := set_isConnected false s in
    let s := set_isAiSpeaking false s in
    let s := set_status "Analyzing Session..." s in
    let w := set_feedbackRequests
               (feedbackRequests w ++ [transcriptText currentTranscript]) w in
    let '(s, w) :=
      match analysis with
      | fulfilled feedbackData =>
          let s := set_feedback (Some feedbackData) s in
          let w := savePracticeSession feedbackData w in
          (set_status "Session Complete" s, w)
      | failed e =>
          let w := log "Feedback generation failed" w in
          let s := set_feedbackError
                     (Some analysisUnavailable) s in
          (set_status "Session Complete (Error)" s, w)
      end in
    (set_isGeneratingFeedback false s, w)
  else
    let s := set_isConnected false s in
    let s := set_isAiSpeaking false s in
    (set_status "Disconnected" s, w).

(** The part of [handleDisconnect] that releases: the session closed when
    the ref holds one, then both contexts. *)
Definition teardown (s : State) (w : World) : World :=
  closeQuietly (outputAudioContextRef s)
    (closeQuietly (inputAudioContextRef s)
       match sessionRef s with Some h => Session_close h w | None => w end).

(** The state [handleDisconnect] leaves when there is nothing to analyse. *)
Definition disconnected (s : State) : State :=
  set_status "Disconnected"
    (set_isAiSpeaking false
       (set_isConnected false
          (set_sessionRef None (set_isExplicitlyStoppedRef true s)))).

(** The state and world it reaches before the analysis answers. *)
Definition analysing (s : State) (w : World) : State * World :=
  (set_status "Analyzing Session..."
     (set_isAiSpeaking false
        (set_isConnected false
           (set_isGeneratingFeedback true
              (set_sessionRef None (set_isExplicitlyStoppedRef true s))))),
   set_feedbackRequests
     (feedbackRequests (teardown s w) ++ [transcriptText (conversationRef s)])
     (teardown s w)).

Definition resetSession (s : State) : State :=
  let s := set_conversation [] s in
  let s := set_conversationRef [] s in
  let s := set_feedback None s in
  let s := set_feedbackError None s in
  set_status "Disconnected" s.

(** *** The view as an event machine *)

Inductive Event : Type :=
| EvConnect (env : ConnectEnv)
| EvOpen
| EvMessage (clock : Z) (now : Q) (m : LiveServerMessage)
| EvEnded (source : nat) (now : Q)
| EvTick (now : Q) (inputData : list Q)
| EvToggleMute
| EvClose
| EvError (err : error)
| EvDisconnect (analysis : outcome PracticeFeedback)
| EvResetSession.

(** The script processor fires while its handler is installed and the
    input context runs. *)
Definition capturing (s : State) (w : World) : bool :=
  processorWired s &&
  match inputAudioContextRef s with
  | Some h => bool_decide (audioContexts w !! h = Some running)
  | None => false
  end.

(** One event, handled to completion and followed by a render. *)
Definition step (sw : State * World) (e : Event) : State * World :=
  let '(s, w) := sw in
  let '(s, w) :=
    match e with
    | EvConnect env => connect env s w
    | EvOpen => (onOpen s, w)
    | EvMessage clock now m => onMessage clock now m s w
    | EvEnded source now => (onEnded source now s, w)
    | EvTick now inputData =>
        if capturing s w then onaudioprocess now inputData s w else (s, w)
    | EvToggleMute => (toggleMute s, w)
    | EvClose => (onClose s, w)
    | EvError err => onError err s w
    | EvDisconnect analysis => handleDisconnect analysis s w
    | EvResetSession => (resetSession s, w)
    end in
  (render s, w).

Definition run (sw : State * World) (es : list Event) : State * World :=
  foldl step sw es.

(** The audio that arrives in a run while an output context is there, in
    arrival order: the device time with what decoding gave. *)
Definition arrival (e : Event) : option (Q * result AudioBuffer) :=
  match e with
  | EvMessage _ now m => (λ r, (now, r)) <$> audio m
  | _ => None
  end.

Definition arrivals (es : list Event) : list (Q * result AudioBuffer) :=
  omap arrival es.

(** The buffers among the arrivals: the deliveries to the scheduler. *)
Definition delivered (ds : list (Q * result AudioBuffer))
  : list (Q * AudioBuffer) :=
  omap (λ d, match d.2 with
             | Ok b => Some (d.1, b)
             | Throw _ => None
             end) ds.

Definition deliveries (es : list Event) : list (Q * AudioBuffer) :=
  delivered (arrivals es).


(** The context refs hold handles of existing contexts. *)
Definition refs_valid (sw : State * World) : Prop :=
  ∀ h,
    inputAudioContextRef sw.1 = Some h ∨ outputAudioContextRef sw.1 = Some h →
    (h < length (audioContexts sw.2))%nat.

End Practice.

(** ** The silent monitor: [connectGuardian] and ConversationGuardianView *)

Module Guardian.
Import JS Codec Platform Str.

(** The arguments of a tool call as they arrive: [fc.args] is cast to
    [GuardianSignal] without a check, so any field may be missing. *)
Record GuardianSignal : Type := {
  signal : option string;
  reason : option string;
  gentle_hint : option string;
  confidence_note : option string;
  risk_trend : option string;
  suggested_action : option string
}.

Record FunctionCall : Type := {
  fc_id : string;
  fc_name : string;
  fc_args : GuardianSignal
}.

(** A transcription object of a server message; its [text] may be
    missing. *)
Record Transcription : Type := {
  text : option string
}.

(** The parts of a server message [connectGuardian] reads. *)
Record LiveServerMessage : Type := {
  inputTranscription : option Transcription;
  outputTranscription : option Transcription;
  turnComplete : bool;
  toolCall : option (list FunctionCall)
}.

(** [acc += transcription.text]: a missing text is appended as the
    string "undefined". *)
Definition appended (acc : string) (t : Transcription) : string :=
  acc +:+ default "undefined" (text t).

(** The local accumulators of [connectGuardian]. *)
Record Conn : Type := {
  currentInputTrans : string;
  currentOutputTrans : string
}.

(** Assignment to one field, the others kept. *)
Definition set_currentInputTrans (v : string) (x : Conn) : Conn :=
  Build_Conn v (currentOutputTrans x).

Definition set_currentOutputTrans (v : string) (x : Conn) : Conn :=
  Build_Conn (currentInputTrans x) v.

(** The acknowledgement of a call. *)
Definition acknowledgement (fc : FunctionCall) : FunctionResponse :=
  {| fr_id := fc_id fc; fr_name := fc_name fc; fr_result := "acknowledged" |}.

(** [sessionPromise.then(session => session.sendToolResponse(...)
      .catch(e => console.warn(...)))].
    The call is made once the promise is resolved.  [sendToolResponse]
    returns nothing, so [.catch] is read off [undefined]: the callback of
    [then] throws a TypeError after the send, the promise [then] returned
    is rejected with nobody to handle it, and the warning is never
    logged.  On a rejected [sessionPromise] the promise [then] returned is
    rejected with the same error. *)
Definition sendAcknowledgement (p : SessionPromise) (fc : FunctionCall)
    (w : World) : World :=
  match p with
  | resolved session =>
      let w := set_toolResponses (toolResponses w ++ [acknowledgement fc]) w in
      set_unhandled (unhandled w ++ [Exn TypeError]) w
  | rejected e => set_unhandled (unhandled w ++ [e]) w
  | no_promise => w
  end.

(** [fc.name === 'update_guardian_status'] *)
Definition isGuardianStatus (fc : FunctionCall) : bool :=
  String.eqb (fc_name fc) "update_guardian_status".

Section connectGuardian.

(** The application side: its state and the two callbacks given to
    [connectGuardian].  A callback may throw after it has changed the
    state. *)
Context {A : Type}.
Variable onStatusUpdate : GuardianSignal → A → A * result unit.
Variable onTranscript : string → string → A → A.
Variable sessionPromise : SessionPromise.

(** The loop over [message.toolCall.functionCalls].  An exception of the
    callback leaves the loop and the handler.  The callbacks given to
    [sessionPromise.then] run after the handler has returned or thrown:
    the loop only queues them, in [queued]. *)
Fixpoint handleFunctionCalls (calls : list FunctionCall) (a : A)
    (queued : list FunctionCall) : A * list FunctionCall * result unit :=
  match calls with
  | [] => (a, queued, Ok ())
  | fc :: rest =>
      if isGuardianStatus fc then
        match onStatusUpdate (fc_args fc) a with
        | (a, Ok _) => handleFunctionCalls rest a (queued ++ [fc])
        | (a, Throw e) => (a, queued, Throw e)
        end
      else handleFunctionCalls rest a queued
  end.

(** The queued callbacks, run in order. *)
Definition acknowledge (queued : list FunctionCall) (w : World) : World :=
  foldl (λ w fc, sendAcknowledgement sessionPromise fc w) w queued.

(** The turn-complete branch for one accumulator. *)
Definition flush (role : string) (acc : string) (a : A) : string * A :=
  match trim acc with
  | EmptyString => (acc, a)
  | _ => (EmptyString, onTranscript role (trim acc) a)
  end.

(** The message callback of [connectGuardian]. *)
Definition onmessage (m : LiveServerMessage) (c : Conn) (a : A) (w : World)
  : Conn * A * World :=
  let c := match inputTranscription m with
           | Some t => set_currentInputTrans (appended (currentInputTrans c) t) c
           | None => c
           end in
  let c := match outputTranscription m with
           | Some t => set_currentOutputTrans (appended (currentOutputTrans c) t) c
           | None => c
           end in
  let '(c, a) :=
    if turnComplete m then
      let '(i, a) := flush "user" (currentInputTrans c) a in
      let c := set_currentInputTrans i c in
      let '(o, a) := flush "model" (currentOutputTrans c) a in
      (set_currentOutputTrans o c, a)
    else (c, a) in
  match toolCall m with
  | Some calls =>
      match handleFunctionCalls calls a [] with
      | (a, queued, Ok _) => (c, a, acknowledge queued w)
      | (a, queued, Throw e) =>
          (c, a, acknowledge queued (set_unhandled (unhandled w ++ [Exn e]) w))
      end
  | None => (c, a, w)
  end.

End connectGuardian.

(** *** The view *)

Record TranscriptEntry : Type := {
  entry_role : string;
  entry_text : string;
  entry_time : string
}.

(** The state hooks and refs of ConversationGuardianView, with the local
    [sessionPromise] of [startMonitoring] and the installed processor as
    in the conversational view. *)
Record State : Type := {
  isConnected : bool;
  status : string;
  guardianSignal : option GuardianSignal;
  transcript : list TranscriptEntry;
  inputAudioContextRef : option nat;
  sessionRef : option nat;
  isMonitoringRef : bool;
  sessionPromise : SessionPromise;
  processorWired : bool
}.

Definition initial : State :=
  Build_State false "Ready to Monitor" None [] None None false no_promise false.

(** Assignment to one field, the others kept. *)
Definition set_isConnected (v : bool) (x : State) : State :=
  Build_State v (status x) (guardianSignal x) (transcript x)
    (inputAudioContextRef x) (sessionRef x) (isMonitoringRef x)
    (sessionPromise x) (processorWired x).

Definition set_status (v : string) (x : State) : State :=
  Build_State (isConnected x) v (guardianSignal x) (transcript x)
    (inputAudioContextRef x) (sessionRef x) (isMonitoringRef x)
    (sessionPromise x) (processorWired x).

Definition set_guardianSignal (v : option GuardianSignal) (x : State) : State :=
  Build_State (isConnected x) (status x) v (transcript x)
    (inputAudioContextRef x) (sessionRef x) (isMonitoringRef x)
    (sessionPromise x) (processorWired x).

Definition set_transcript (v : list TranscriptEntry) (x : State) : State :=
  Build_State (isConnected x) (status x) (guardianSignal x) v
    (inputAudioContextRef x) (sessionRef x) (isMonitoringRef x)
    (sessionPromise x) (processorWired x).

Definition set_inputAudioContextRef (v : option nat) (x : State) : State :=
  Build_State (isConnected x) (status x) (guardianSignal x) (transcript x) v
    (sessionRef x) (isMonitoringRef x) (sessionPromise x) (processorWired x).

Definition set_sessionRef (v : option nat) (x : State) : State :=
  Build_State (isConnected x) (status x) (guardianSignal x) (transcript x)
    (inputAudioContextRef x) v (isMonitoringRef x) (sessionPromise x)
    (processorWired x).

Definition set_isMonitoringRef (v : bool) (x : State) : State :=
  Build_State (isConnected x) (status x) (guardianSignal x) (transcript x)
    (inputAudioContextRef x) (sessionRef x) v (sessionPromise x)
    (processorWired x).

Definition set_sessionPromise (v : SessionPromise) (x : State) : State :=
  Build_State (isConnected x) (status x) (guardianSignal x) (transcript x)
    (inputAudioContextRef x) (sessionRef x) (isMonitoringRef x) v
    (processorWired x).

Definition set_processorWired (v : bool) (x : State) : State :=
  Build_State (isConnected x) (status x) (guardianSignal x) (transcript x)
    (inputAudioContextRef x) (sessionRef x) (isMonitoringRef x)
    (sessionPromise x) v.

Definition quote : string := String (ascii_of_N 34) EmptyString.

(** The arrow of the suggestion text (U+2192 in UTF-8). *)
Definition arrow : string :=
  String (ascii_of_N 226) (String (ascii_of_N 134) (String (ascii_of_N 146) EmptyString)).

(** A template literal prints a missing field as "undefined". *)
Definition interpolate (field : option string) : string :=
  default "undefined" field.

(** The status callback the view gives to [connectGuardian]; [time] is the
    formatted clock.  [signal.signal.toUpperCase()] throws a TypeError when
    the field is missing, after [setGuardianSignal] has been called. *)
Definition onStatus (time : string) (sig : GuardianSignal) (s : State)
  : State * result unit :=
  if isMonitoringRef s then
    let s := set_guardianSignal (Some sig) s in
    match signal sig with
    | None => (s, Throw TypeError)
    | Some level =>
        let text := "[" +:+ toUpperCase level +:+ "] " +:+ interpolate (reason sig) in
        let text :=
          match suggested_action sig with
          | Some (String c rest) =>
              text +:+ " " +:+ arrow +:+ " Suggestion: " +:+ quote +:+
              String c rest +:+ quote
          | _ => text
          end in
        (set_transcript
           (transcript s ++
            [{| entry_role := "model"; entry_text := text; entry_time := time |}]) s,
         Ok ())
    end
  else (s, Ok ()).

(** The transcript callback of the view. *)
Definition onTranscriptEntry (time : string) (role text : string) (s : State)
  : State :=
  set_transcript
    (transcript s ++
     [{| entry_role := role; entry_text := text; entry_time := time |}]) s.

Record StartEnv : Type := {
  microphone : outcome unit;
  transport : outcome unit
}.

(** [startMonitoring].  [connectGuardian] is not awaited: when the
    connection fails its promise is rejected outside the try block.  As in
    [connect] of the conversational view, the fields that stand for the
    closure of the call are cleared first. *)
Definition startMonitoring (env : StartEnv) (s : State) (w : World)
  : State * World :=
  let s := set_status "Connecting to Guardian..." s in
  let s := set_isMonitoringRef true s in
  let s := set_transcript [] s in
  let s := set_processorWired false s in
  let s := set_sessionPromise no_promise s in
  (* try *)
  let '(inputAudioContext, w) := newAudioContext w in
  let s := set_inputAudioContextRef (Some inputAudioContext) s in
  match microphone env with
  | failed e =>
      (* catch *)
      let w := log (message e) w in
      let s := set_status ("Error: " +:+ message e) s in
      (set_isMonitoringRef false s, w)
  | fulfilled _ =>
      let '(stream, w) := getUserMedia w in
      match transport env with
      | fulfilled _ =>
          let '(session, w) := openSession w in
          (set_sessionPromise (resolved session) s, w)
      | failed e =>
          (set_sessionPromise (rejected e) s,
           set_unhandled (unhandled w ++ [e]) w)
      end
  end.

(** The open callback. *)
Definition onOpen (s : State) : State :=
  if negb (isMonitoringRef s) then s
  else
    let s := set_isConnected true s in
    let s := set_status "Monitoring..." s in
    set_processorWired true s.

(** [scriptProcessor.onaudioprocess] of the monitor: gated by the
    monitoring flag, at the tick and again when the promise is resolved.
    [sendRealtimeInput] returns nothing, so here too [.catch] is read off
    [undefined]: after the send the callback of [then] throws a TypeError
    that nobody handles, and the warning is never logged. *)
Definition onaudioprocess (inputData : list Q) (s : State) (w : World)
  : State * World :=
  if negb (isMonitoringRef s) then (s, w)
  else
    let pcmBlob := createBlob inputData in
    match sessionPromise s with
    | resolved session =>
        let w := sendRealtimeInput session pcmBlob w in
        (set_sessionRef (Some session) s,
         set_unhandled (unhandled w ++ [Exn TypeError]) w)
    | rejected e => (s, set_unhandled (unhandled w ++ [e]) w)
    | no_promise => (s, w)
    end.

(** The close callback. *)
Definition onClose (s : State) : State :=
  let s := set_isConnected false s in
  if isMonitoringRef s
  then set_status "Connection Dropped. Transcript Saved." s
  else set_status "Disconnected" s.

(** The error callback. *)
Definition onError (err : error) (s : State) (w : World) : State * World :=
  if negb (isMonitoringRef s) then (s, w)
  else
    let w := log (message err) w in
    let msg := or_else (message err) "Connection failed" in
    let msg := if includes "403" msg
               then "Access Denied. Check API Key." else msg in
    let s := set_status ("Error: " +:+ msg) s in
    (set_isConnected false s, w).

(** [stopMonitoring].  [close()] of the audio context is called inside a
    try block but its promise is not awaited: a rejection is not caught
    there. *)
Definition stopMonitoring (s : State) (w : World) : State * World :=
  let s := set_isMonitoringRef false s in
  let '(s, w) :=
    match sessionRef s with
    | Some h => (set_sessionRef None s, Session_close h w)
    | None => (s, w)
    end in
  let w :=
    match inputAudioContextRef s with
    | Some h =>
        match AudioContext_close h w with
        | (Ok _, w) => w
        | (Throw e, w) => set_unhandled (unhandled w ++ [Exn e]) w
        end
    | None => w
    end in
  let s := set_isConnected false s in
  let s := set_status "Stopped" s in
  (set_guardianSignal None s, w).

(** The view state [stopMonitoring] leaves. *)
Definition stopped_view (s : State) : State :=
  set_guardianSignal None
    (set_status "Stopped"
       (set_isConnected false
          (set_sessionRef None (set_isMonitoringRef false s)))).

(** *** The monitor as an event machine *)

Inductive Event : Type :=
| EvStart (env : StartEnv)
| EvOpen
| EvTick (inputData : list Q)
| EvMessage (time : string) (m : LiveServerMessage)
| EvClose
| EvError (err : error)
| EvStop.

Definition capturing (s : State) (w : World) : bool :=
  processorWired s &&
  match inputAudioContextRef s with
  | Some h => bool_decide (audioContexts w !! h = Some running)
  | None => false
  end.

(** The whole monitor: the accumulators of the connection, the view and
    the platform. *)
Definition System : Type := Conn * State * World.

Definition step (x : System) (e : Event) : System :=
  let '(c, s, w) := x in
  match e with
  | EvStart env =>
      let '(s, w) := startMonitoring env s w in
      (Build_Conn EmptyString EmptyString, s, w)
  | EvOpen => (c, onOpen s, w)
  | EvTick inputData =>
      if capturing s w
      then let '(s, w) := onaudioprocess inputData s w in (c, s, w)
      else (c, s, w)
  | EvMessage time m =>
      onmessage (onStatus time) (onTranscriptEntry time)
        (sessionPromise s) m c s w
  | EvClose => (c, onClose s, w)
  | EvError err => let '(s, w) := onError err s w in (c, s, w)
  | EvStop => let '(s, w) := stopMonitoring s w in (c, s, w)
  end.

Definition run (x : System) (es : list Event) : System :=
  foldl step x es.

Definition initial_system : System :=
  (Build_Conn EmptyString EmptyString, initial, empty_world).

(** The context ref holds the handle of an existing context. *)
Definition refs_valid (x : System) : Prop :=
  ∀ h, inputAudioContextRef x.1.2 = Some h →
       (h < length (audioContexts x.2))%nat.

End Guardian.

(** ** Concrete sessions

    The inputs at which the theorems below are instantiated. *)

Module Scenarios.
Import JS Codec Platform.

(** Two frames of 24 kHz audio. *)
Definition two_frames : AudioBuffer :=
  {| numberOfChannels := 1; buf_length := 2; sampleRate := 24000;
     channels := [[0%Q; 0%Q]] |}.

Definition granted : Practice.ConnectEnv :=
  {| Practice.microphone := fulfilled (); Practice.transport := fulfilled () |}.

Definition denied : Practice.ConnectEnv :=
  {| Practice.microphone := failed (Error "Permission denied");
     Practice.transport := fulfilled () |}.

(** A server message with one transcription fragment. *)
Definition says (role : Practice.MessageType) (t : string)
  : Practice.LiveServerMessage :=
  {| Practice.inputTranscription :=
       if decide (role = Practice.USER) then Some t else None;
     Practice.outputTranscription :=
       if decide (role = Practice.MODEL) then Some t else None;
     Practice.inlineData := None;
     Practice.interrupted := false |}.

(** A server message with audio, and perhaps the interrupted marker. *)
Definition sounds (payload : string) (marker : bool)
  : Practice.LiveServerMessage :=
  {| Practice.inputTranscription := None;
     Practice.outputTranscription := None;
     Practice.inlineData := Some payload;
     Practice.interrupted := marker |}.

(** A server message with two frames of audio. *)
Definition fragment : Practice.LiveServerMessage :=
  {| Practice.inputTranscription := None;
     Practice.outputTranscription := None;
     Practice.inlineData := Some "AAD/fw==";
     Practice.interrupted := false |}.

Definition good : Practice.PracticeFeedback :=
  {| Practice.strengths := []; Practice.improvements := [];
     Practice.goal_alignment_score := 7; Practice.clarity_score := 6;
     Practice.empathy_score := 6; Practice.confidence_score := 5;
     Practice.coach_note := EmptyString |}.

(** A practice session with three transcript messages. *)
Definition talk : list Practice.Event :=
  [Practice.EvConnect granted; Practice.EvOpen; Practice.EvTick 0 [0%Q];
   Practice.EvMessage 1 0 (says Practice.USER "Hi");
   Practice.EvMessage 2 0 (says Practice.MODEL "Hello");
   Practice.EvMessage 3 0 (says Practice.USER "Bye")].

Definition talked : Practice.State * World :=
  Practice.run (Practice.initial, empty_world) talk.

(** A practice session muted while the agent has audio queued. *)
Definition speaking_muted : Practice.State * World :=
  Practice.run (Practice.initial, empty_world)
    [Practice.EvConnect granted; Practice.EvOpen; Practice.EvToggleMute;
     Practice.EvMessage 0 0 fragment].

Definition monitor_granted : Guardian.StartEnv :=
  {| Guardian.microphone := fulfilled (); Guardian.transport := fulfilled () |}.

Definition monitor_denied : Guardian.StartEnv :=
  {| Guardian.microphone := failed (Error "Permission denied");
     Guardian.transport := fulfilled () |}.

Definition tool_message (calls : list Guardian.FunctionCall)
  : Guardian.LiveServerMessage :=
  {| Guardian.inputTranscription := None;
     Guardian.outputTranscription := None;
     Guardian.turnComplete := false;
     Guardian.toolCall := Some calls |}.

Definition heard (t : string) : Guardian.LiveServerMessage :=
  {| Guardian.inputTranscription := Some {| Guardian.text := Some t |};
     Guardian.outputTranscription := None;
     Guardian.turnComplete := true;
     Guardian.toolCall := None |}.

(** A well-formed status call, one whose arguments lack the signal, and a
    call of another name. *)
Definition mild_call : Guardian.FunctionCall :=
  {| Guardian.fc_id := "call-1";
     Guardian.fc_name := "update_guardian_status";
     Guardian.fc_args :=
       {| Guardian.signal := Some "mild";
          Guardian.reason := Some "tone is tense";
          Guardian.gentle_hint := None;
          Guardian.confidence_note := None;
          Guardian.risk_trend := Some "rising";
          Guardian.suggested_action := None |} |}.

Definition bare_call : Guardian.FunctionCall :=
  {| Guardian.fc_id := "call-2";
     Guardian.fc_name := "update_guardian_status";
     Guardian.fc_args :=
       {| Guardian.signal := None;
          Guardian.reason := Some "tone is tense";
          Guardian.gentle_hint := None;
          Guardian.confidence_note := None;
          Guardian.risk_trend := None;
          Guardian.suggested_action := None |} |}.

Definition other_call : Guardian.FunctionCall :=
  {| Guardian.fc_id := "call-3";
     Guardian.fc_name := "set_timer";
     Guardian.fc_args := Guardian.fc_args mild_call |}.

Definition monitoring : Guardian.System :=
  Guardian.run Guardian.initial_system
    [Guardian.EvStart monitor_granted; Guardian.EvOpen;
     Guardian.EvTick [0%Q];
     Guardian.EvMessage "10:00" (heard "hello there")].

End Scenarios.

(** ** Effects of the views that run outside the handlers *)

Module Effects.
Import JS Codec Platform.

(** The cleanup of LivePracticeView, run when the view is unmounted:
    [ctx.close().catch(() => {})] on both context refs. *)
Definition practice_cleanup (s : Practice.State) (w : World) : World :=
  let w := Practice.closeQuietly (Practice.inputAudioContextRef s) w in
  Practice.closeQuietly (Practice.outputAudioContextRef s) w.

(** The cleanup of ConversationGuardianView. *)
Definition guardian_cleanup (s : Guardian.State) (w : World)
  : Guardian.State * World :=
  let s := Guardian.set_isMonitoringRef false s in
  (s, Practice.closeQuietly (Guardian.inputAudioContextRef s) w).

End Effects.

(** ** Turns of the silent monitor *)

Module Turns.
Import Platform Guardian.


Section run.
Context {A : Type}.
Variable onStatusUpdate : GuardianSignal → A → A * result unit.
Variable onTranscript : string → string → A → A.
Variable sessionPromise : SessionPromise.


End run.


End Turns.

Module Sessions.
Import Platform Practice.

(** An event of the conversational view other than a server message that
    carries the interrupted marker. *)
Definition uninterrupted (e : Event) : Prop :=
  match e with
  | EvMessage _ _ m => interrupted m = false
  | _ => True
  end.

(** An event whose device time is a double, as every time read off the
    output context is. *)
Definition timed (e : Event) : Prop :=
  match e with
  | EvMessage _ now _ => JS.is_double now = true
  | _ => True
  end.

End Sessions.

(** ** The spoken summary of an analysis (AnalysisResult) *)

Module Summary.
Import JS Codec Platform.

(** The decoding steps of [playSummary]: [atob], the byte loop,
    [new Int16Array(bytes.buffer)] and the division loop. *)
Definition float32Data (audioBase64 : string) : result (list Q) :=
  binaryString ← atob audioBase64;
  let bytes := list_byte_of_string binaryString in
  dataInt16 ← Int16Array_of_buffer bytes;
  Ok (map (λ v, (inject_Z v / 32768)%Q) dataInt16).

(** [target.set(source)] of a typed array: a source longer than the
    target is refused with a RangeError. *)
Definition TypedArray_set (source target : list Q) : result (list Q) :=
  if (length source <=? length target)%nat
  then Ok (source ++ drop (length source) target)
  else Throw RangeError.

(** [audioCtx.createBuffer(1, float32Data.length, 24000)] followed by
    [buffer.getChannelData(0).set(float32Data)]. *)
Definition summaryBuffer (samples : list Q) : result AudioBuffer :=
  buffer ← createBuffer 1 (inject_Z (Z.of_nat (length samples))) 24000;
  channelData ← TypedArray_set samples (default [] (channels buffer !! 0%nat));
  Ok {| numberOfChannels := numberOfChannels buffer;
        buf_length := buf_length buffer;
        sampleRate := sampleRate buffer;
        channels := <[0%nat := channelData]> (channels buffer) |}.

(** The buffer [playSummary] plays for a payload. *)
Definition decoded (audioBase64 : string) : result AudioBuffer :=
  samples ← float32Data audioBase64;
  summaryBuffer samples.

End Summary.

(** ** JSON values *)

Module JSON.

#[local] Set Warnings "-register-all".

(** What [JSON.parse] returns. *)
Inductive value : Type :=
| null
| boolean (b : bool)
| number (q : Q)
| text (s : string)
| array (items : list value)
| object (fields : gmap string value).

(** The truth value a condition gives to a JSON value. *)
Definition truthy (v : value) : bool :=
  match v with
  | null => false
  | boolean b => b
  | number q => negb (Qeq_bool q 0)
  | text EmptyString => false
  | text (String _ _) => true
  | array _ | object _ => true
  end.

End JSON.

(** ** The practice history kept in localStorage (LivePracticeView) *)

Module History.
Import JSON.

(** The item stored under the key emotional_ai_practice_history, told by
    what [getItem] and [JSON.parse] make of it: no item, the empty string,
    a text that [JSON.parse] refuses, or the text of a JSON value. *)
Inductive Item : Type :=
| missing
| blank
| malformed
| holds (v : value).

(** The part of the browser the two helpers act on: the item and the
    lines given to [console.warn]. *)
Record Browser : Type := {
  stored : Item;
  warned : list string
}.

(** [raw ? JSON.parse(raw) : {}]; [None] when [JSON.parse] throws. *)
Definition parsed (i : Item) : option value :=
  match i with
  | missing | blank => Some (object ∅)
  | malformed => None
  | holds v => Some v
  end.

(** The entry pushed for an attempt; [date] is
    [new Date().toISOString()]. *)
Definition entry (date : string) (data : Practice.PracticeFeedback) : value :=
  object {[ "date" := text date;
            "scores" :=
              object {[ "goal" := number (Practice.goal_alignment_score data);
                        "confidence" := number (Practice.confidence_score data) ]} ]}.

(** [history[scenarioId] || []] on an object. *)
Definition attemptsOf (scenarioId : string) (fields : gmap string value) : value :=
  match fields !! scenarioId with
  | Some v => if truthy v then v else array []
  | None => array []
  end.

(** The body of the try block of [savePracticeSession] between
    [JSON.parse] and [setItem]: the value that is written back, [None]
    when a statement throws.  A scenario id is one of the ids of
    SCENARIOS, none of which names a property that a value inherits.
    - On [null], reading [history[scenarioId]] throws.
    - On a boolean, a number or a string the read gives undefined and the
      assignment of [[]] to a property of a primitive throws (module code
      is strict).
    - On an array the list of attempts becomes a property that
      [JSON.stringify] leaves out: the array is written back as it was.
    - On an object, a missing or falsy list is replaced by [[]]; a truthy
      value that is not an array has no [push]. *)
Definition pushed (scenarioId date : string) (data : Practice.PracticeFeedback)
    (history : value) : option value :=
  match history with
  | null => None
  | boolean _ | number _ | text _ => None
  | array items => Some (array items)
  | object fields =>
      match attemptsOf scenarioId fields with
      | array attempts =>
          let attempts := attempts ++ [entry date data] in
          let attempts :=
            if (10 <? length attempts)%nat
            then drop (length attempts - 10) attempts
            else attempts in
          Some (object (<[scenarioId := array attempts]> fields))
      | _ => None
      end
  end.

(** [savePracticeSession].  [setItem] is taken to succeed: the quota of
    the storage is not modelled. *)
Definition savePracticeSession (scenarioId date : string)
    (data : Practice.PracticeFeedback) (b : Browser) : Browser :=
  match parsed (stored b) ≫= pushed scenarioId date data with
  | Some history => {| stored := holds history; warned := warned b |}
  | None =>
      {| stored := stored b;
         warned := warned b ++ ["Failed to save history"] |}
  end.

(** [getPracticeHistory]:
    [raw ? JSON.parse(raw)[scenarioId] || [] : []], and [[]] when that
    throws. *)
Definition getPracticeHistory (scenarioId : string) (i : Item) : value :=
  match i with
  | missing | blank => array []
  | malformed => array []
  | holds null => array []
  | holds (object fields) => attemptsOf scenarioId fields
  | holds _ => array []
  end.

(** An attempt to save: the scenario, the date and the feedback. *)
Record Attempt : Type := {
  scenario : string;
  date : string;
  data : Practice.PracticeFeedback
}.

Definition saveAll (saves : list Attempt) (b : Browser) : Browser :=
  foldl (λ b a, savePracticeSession (scenario a) (date a) (data a) b) b saves.

(** The last ten elements of a list. *)
Definition lastTen {A : Type} (l : list A) : list A :=
  drop (length l - 10) l.

(** The entries of the attempts made in one scenario, in order. *)
Definition entriesOf (scenarioId : string) (saves : list Attempt) : list value :=
  map (λ a, entry (date a) (data a))
      (filter (λ a, scenario a = scenarioId) saves).

(** An item the helpers cannot use: a text that is not JSON, or the text
    of a JSON value that is not an object. *)
Definition corrupt (i : Item) : Prop :=
  match i with
  | malformed => True
  | holds (object _) => False
  | holds _ => True
  | _ => False
  end.

(** The warnings [n] attempts to save leave on such an item: one per
    attempt, except on an array, where the attempt is lost in silence. *)
Definition warnings (i : Item) (n : nat) : list string :=
  match i with
  | holds (array _) => []
  | _ => replicate n "Failed to save history"
  end.

(** An item that holds an object whose values are lists. *)
Definition tidy (i : Item) : Prop :=
  match i with
  | missing | blank => True
  | holds (object fields) =>
      ∀ k v, fields !! k = Some v → ∃ attempts, v = array attempts
  | _ => False
  end.

End History.

(** ** Video generation ([generateSocialVideo] of services/gemini) *)

Module Video.
Import Str.

(** A property of a thrown value that the code compares with a number or
    a string. *)
Inductive JsVal : Type :=
| undefined
| num (n : Z)
| str (s : string).

(** A value caught by a [catch] block, told by what the handlers read of
    it.  It is an object or a primitive other than [null] and
    [undefined] (on those, reading [e.message] throws); its message, when
    it has one, is a string. *)
Record Thrown : Type := {
  isObject : bool;            (* typeof e === 'object' && e !== null *)
  isError : bool;             (* e instanceof Error *)
  e_code : JsVal;             (* e.code *)
  e_status : JsVal;           (* e.status *)
  e_error_code : JsVal;       (* e.error?.code *)
  e_error_status : JsVal;     (* e.error?.status *)
  e_message : option string;  (* e.message *)
  e_json : string;            (* JSON.stringify(e) *)
  e_string : string           (* String(e) *)
}.

(** [new Error(message)] *)
Definition Error_ (message : string) : Thrown :=
  {| isObject := true; isError := true;
     e_code := undefined; e_status := undefined;
     e_error_code := undefined; e_error_status := undefined;
     e_message := Some message;
     e_json := "{}";
     e_string := match message with
                 | EmptyString => "Error"
                 | _ => "Error: " +:+ message
                 end |}.

(** [a || b] when [a] is a string or undefined. *)
Definition or_default (a : option string) (b : string) : string :=
  match a with
  | Some (String c rest) => String c rest
  | _ => b
  end.

(** A template literal prints a missing value as "undefined". *)
Definition interpolated (a : option string) : string :=
  default "undefined" a.

(** What a call to the environment gives. *)
Inductive answer (A : Type) : Type :=
| returns (a : A)
| throws (e : Thrown).
Arguments returns {A} a.
Arguments throws {A} e.

(** A generated video, told by its URI. *)
Definition Video : Type := string.

(** A long-running operation as the polling loop sees it: done, with the
    video of [operation.response?.generatedVideos?.[0]?.video] if there is
    one, or not done, with what the next [getVideosOperation] gives: the
    operation as it is then, or an exception.  The operations modelled are
    those that end. *)
Inductive Operation : Type :=
| done (video : option Video)
| pending (next : Operation)
| failing (e : Thrown).

(** The argument of [ai.models.generateVideos]. *)
Record Request : Type := {
  prompt : string;
  video : option Video
}.

(** What [fetch] resolves to: [response.ok] and the object URL made of
    [response.blob()]. *)
Record Response : Type := {
  ok : bool;
  blob : answer string
}.

(** The SDK and the network.  [generateVideos] is given the number of
    calls made before, so that it may answer a retry differently. *)
Record Env : Type := {
  generateVideos : nat → Request → answer Operation;
  fetch : Video → answer Response
}.

(** What the function does to its environment. *)
Record World : Type := {
  requests : list Request;      (* calls of generateVideos *)
  polls : nat;                  (* calls of getVideosOperation *)
  waits : list Z;               (* calls of wait, in milliseconds *)
  progress : list (nat * nat);  (* calls of onProgress *)
  console : list string;        (* console.warn, console.error, console.info *)
  downloads : list Video        (* calls of fetch *)
}.

Definition untouched : World := Build_World [] 0 [] [] [] [].

Definition requested (r : Request) (w : World) : World :=
  Build_World (requests w ++ [r]) (polls w) (waits w) (progress w)
    (console w) (downloads w).

Definition polled (w : World) : World :=
  Build_World (requests w) (S (polls w)) (waits w) (progress w)
    (console w) (downloads w).

Definition wait (ms : Z) (w : World) : World :=
  Build_World (requests w) (polls w) (waits w ++ [ms]) (progress w)
    (console w) (downloads w).

Definition onProgress (current total : nat) (w : World) : World :=
  Build_World (requests w) (polls w) (waits w)
    (progress w ++ [(current, total)]) (console w) (downloads w).

Definition log (line : string) (w : World) : World :=
  Build_World (requests w) (polls w) (waits w) (progress w)
    (console w ++ [line]) (downloads w).

Definition downloaded (v : Video) (w : World) : World :=
  Build_World (requests w) (polls w) (waits w) (progress w) (console w)
    (downloads w ++ [v]).

Definition maxAttempts : nat := 10.

Definition is429 (v : JsVal) : bool :=
  match v with num n => n =? 429 | _ => false end.

Definition isExhausted (v : JsVal) : bool :=
  match v with str s => String.eqb s "RESOURCE_EXHAUSTED" | _ => false end.

(** [msg = e.message || JSON.stringify(e)] *)
Definition msgOf (e : Thrown) : string := or_default (e_message e) (e_json e).

(** The classification made in the catch block of the retry loop. *)
Definition isRateLimit (e : Thrown) : bool :=
  (isObject e &&
   (is429 (e_code e) || is429 (e_status e) ||
    is429 (e_error_code e) || isExhausted (e_error_status e) ||
    isExhausted (e_status e))) ||
  includes "429" (msgOf e) || includes "RESOURCE_EXHAUSTED" (msgOf e) ||
  includes "quota" (msgOf e).

(** [Math.min(15000 * Math.pow(2, attempts - 1), 120000)] *)
Definition backoff (attempts : nat) : Z :=
  Z.min (15000 * 2 ^ (Z.of_nat attempts - 1)) 120000.

Definition quotaExceeded : string :=
  "Veo Quota Exceeded: The model is currently overloaded or you have hit your rate limit. Please try again later.".

(** How the retry loop of a segment ends. *)
Inductive Attempted : Type :=
| succeeded (operation : Operation)
| gaveUp                 (* [break] with a video at hand *)
| exhausted              (* the loop condition fails, [success] false *)
| threw (e : Thrown).

(** The retry loop of segment [i]; [remaining] is
    [maxAttempts - attempts]. *)
Fixpoint retry (env : Env) (remaining attempts : nat) (i : nat) (request : Request)
    (currentVideo : option Video) (w : World) : Attempted * World :=
  match remaining with
  | O => (exhausted, w)
  | S remaining =>
      let call := generateVideos env (length (requests w)) request in
      let w := requested request w in
      match call with
      | returns operation => (succeeded operation, w)
      | throws e =>
          let attempts := S attempts in
          if isRateLimit e && (attempts <? maxAttempts)%nat then
            let delay := backoff attempts in
            let w :=
              log ("Veo 429 Error at segment " +:+ pretty (i + 1)%nat +:+
                   ". Attempt " +:+ pretty attempts +:+ "/" +:+
                   pretty maxAttempts +:+ ". Retrying in " +:+
                   pretty (delay / 1000) +:+ "s...") w in
            let w := wait delay w in
            retry env remaining attempts i request currentVideo w
          else
            let w := log "Non-retriable Veo error or max attempts reached:" w in
            match currentVideo with
            | Some _ => (gaveUp, log "Returning partial video due to error." w)
            | None =>
                if isRateLimit e then (threw (Error_ quotaExceeded), w)
                else (threw (Error_ ("Veo Generation Failed: " +:+ msgOf e)), w)
            end
      end
  end.

(** The polling loop:
    [while (!operation.done) { await wait(10000); operation = await
    getVideosOperation(...) }]. *)
Fixpoint poll (operation : Operation) (w : World)
  : answer (option Video) * World :=
  match operation with
  | done v => (returns v, w)
  | pending next => poll next (polled (wait 10000 w))
  | failing e => (throws e, polled (wait 10000 w))
  end.

(** The loop over the segments from index [i] on: the video at hand when
    the loop is left, or what it throws. *)
Fixpoint segments (env : Env) (total i : nat) (prompts : list string)
    (currentVideo : option Video) (w : World)
  : answer (option Video) * World :=
  match prompts with
  | [] => (returns currentVideo, w)
  | prompt :: rest =>
      let w := onProgress (i + 1) total w in
      let request :=
        if (i =? 0)%nat then {| prompt := prompt; video := None |}
        else {| prompt := prompt; video := currentVideo |} in
      match retry env maxAttempts 0 i request currentVideo w with
      | (threw e, w) => (throws e, w)
      | (gaveUp, w) => (returns currentVideo, w)
      | (exhausted, w) =>
          match currentVideo with
          | Some _ => (returns currentVideo, w)
          | None => (throws (Error_ "Video generation failed at start."), w)
          end
      | (succeeded operation, w) =>
          match poll operation w with
          | (throws e, w) =>
              let w := log "Polling error:" w in
              match currentVideo with
              | Some _ => (returns currentVideo, w)
              | None => (throws e, w)
              end
          | (returns None, w) =>
              match currentVideo with
              | Some _ => (returns currentVideo, w)
              | None =>
                  (throws (Error_ ("Video generation failed at segment " +:+
                                   pretty (i + 1)%nat)), w)
              end
          | (returns (Some newVideo), w) =>
              let w := if (i <? total - 1)%nat then wait 15000 w else w in
              segments env total (S i) rest (Some newVideo) w
          end
      end
  end.

(** [generateSocialVideo], called with an [onProgress] callback as the
    view does. *)
Definition generateSocialVideo (env : Env) (script : list string) (w : World)
  : answer string * World :=
  let safeScript := take 30 script in
  match segments env (length safeScript) 0 safeScript None w with
  | (throws e, w) => (throws e, w)
  | (returns None, w) => (throws (Error_ "No video content generated."), w)
  | (returns (Some currentVideo), w) =>
      let w := downloaded currentVideo w in
      match fetch env currentVideo with
      | throws e =>
          (throws (Error_ ("Download Failed: " +:+ interpolated (e_message e))), w)
      | returns response =>
          if ok response then
            match blob response with
            | returns url => (returns url, w)
            | throws e =>
                (throws (Error_ ("Download Failed: " +:+
                                 interpolated (e_message e))), w)
            end
          else
            (throws (Error_ "Download Failed: Failed to download video data."), w)
      end
  end.

(** The pauses of [n] segments whose requests, numbered from [k], are all
    accepted: the operation of request [k] is polled [lag k] times, ten
    seconds apart, and two segments are fifteen seconds apart. *)
Fixpoint pauses (lag : nat → nat) (k n : nat) : list Z :=
  match n with
  | O => []
  | S n' =>
      replicate (lag k) 10000 ++
      match n' with O => [] | S _ => [15000] end ++
      pauses lag (S k) n'
  end.

(** The pauses of a retry loop that is refused nine times. *)
Definition nineBackoffs : list Z :=
  [15000; 30000; 60000; 120000; 120000; 120000; 120000; 120000; 120000].

(** An error of the download step. *)
Definition downloadFailure (e : Thrown) : Prop :=
  ∃ reason, e = Error_ ("Download Failed: " +:+ reason).

End Video.

(** ** The visual story view (VisualStoryView) *)

Module Story.
Import Str.

Inductive Status : Type :=
| idle
| extracting
| deciding
| planning_comic
| generating_images
| planning_video
| rendering_video
| done.

Inductive Format : Type := AUTO | COMIC | VIDEO.

#[global] Instance Format_eq_dec : EqDecision Format.
Proof. solve_decision. Defined.

#[global] Instance Status_eq_dec : EqDecision Status.
Proof. solve_decision. Defined.

Record StoryPanel : Type := {
  id : Z;
  title : string;
  summary : string;
  prompt_for_image : string;
  dialogue_captions : list string;
  emotions : list string
}.

(** A story plan as the view receives it; [panels] is [None] when the
    field is missing or is not an array. *)
Record StoryBoard : Type := {
  panels : option (list StoryPanel)
}.

Record VideoPlan : Type := {
  script : list string;
  plan_type : string;
  reason : string
}.

Record UploadedFile : Type := {
  file_name : string;
  file_data : string;
  file_mimeType : string
}.

Record VideoMetadata : Type := {
  meta_segments : nat;
  meta_reason : string;
  meta_type : string
}.

(** The state hooks of the view. *)
Record State : Type := {
  inputText : string;
  storyBoard : option StoryBoard;
  panelImages : gmap Z string;
  videoUrl : option string;
  status : Status;
  progressMsg : string;
  error : option string;
  preferredFormat : Format;
  videoMetadata : option VideoMetadata;
  determinedFormat : option Format;
  uploadedFile : option UploadedFile;
  currentSegment : nat;
  totalSegments : nat
}.

Definition initial : State :=
  Build_State EmptyString None ∅ None idle EmptyString None AUTO None None None
    0 0.

(** Assignment to one field, the others kept. *)
Definition set_storyBoard (v : option StoryBoard) (x : State) : State :=
  Build_State (inputText x) v (panelImages x) (videoUrl x) (status x)
    (progressMsg x) (error x) (preferredFormat x) (videoMetadata x)
    (determinedFormat x) (uploadedFile x) (currentSegment x) (totalSegments x).

Definition set_panelImages (v : gmap Z string) (x : State) : State :=
  Build_State (inputText x) (storyBoard x) v (videoUrl x) (status x)
    (progressMsg x) (error x) (preferredFormat x) (videoMetadata x)
    (determinedFormat x) (uploadedFile x) (currentSegment x) (totalSegments x).

Definition set_videoUrl (v : option string) (x : State) : State :=
  Build_State (inputText x) (storyBoard x) (panelImages x) v (status x)
    (progressMsg x) (error x) (preferredFormat x) (videoMetadata x)
    (determinedFormat x) (uploadedFile x) (currentSegment x) (totalSegments x).

Definition set_status (v : Status) (x : State) : State :=
  Build_State (inputText x) (storyBoard x) (panelImages x) (videoUrl x) v
    (progressMsg x) (error x) (preferredFormat x) (videoMetadata x)
    (determinedFormat x) (uploadedFile x) (currentSegment x) (totalSegments x).

Definition set_progressMsg (v : string) (x : State) : State :=
  Build_State (inputText x) (storyBoard x) (panelImages x) (videoUrl x)
    (status x) v (error x) (preferredFormat x) (videoMetadata x)
    (determinedFormat x) (uploadedFile x) (currentSegment x) (totalSegments x).

Definition set_error (v : option string) (x : State) : State :=
  Build_State (inputText x) (storyBoard x) (panelImages x) (videoUrl x)
    (status x) (progressMsg x) v (preferredFormat x) (videoMetadata x)
    (determinedFormat x) (uploadedFile x) (currentSegment x) (totalSegments x).

Definition set_videoMetadata (v : option VideoMetadata) (x : State) : State :=
  Build_State (inputText x) (storyBoard x) (panelImages x) (videoUrl x)
    (status x) (progressMsg x) (error x) (preferredFormat x) v
    (determinedFormat x) (uploadedFile x) (currentSegment x) (totalSegments x).

Definition set_determinedFormat (v : option Format) (x : State) : State :=
  Build_State (inputText x) (storyBoard x) (panelImages x) (videoUrl x)
    (status x) (progressMsg x) (error x) (preferredFormat x) (videoMetadata x)
    v (uploadedFile x) (currentSegment x) (totalSegments x).

Definition set_currentSegment (v : nat) (x : State) : State :=
  Build_State (inputText x) (storyBoard x) (panelImages x) (videoUrl x)
    (status x) (progressMsg x) (error x) (preferredFormat x) (videoMetadata x)
    (determinedFormat x) (uploadedFile x) v (totalSegments x).

Definition set_totalSegments (v : nat) (x : State) : State :=
  Build_State (inputText x) (storyBoard x) (panelImages x) (videoUrl x)
    (status x) (progressMsg x) (error x) (preferredFormat x) (videoMetadata x)
    (determinedFormat x) (uploadedFile x) (currentSegment x) v.

(** [window.aistudio] when the page runs inside the studio: what
    [hasSelectedApiKey] and [openSelectKey] give. *)
Record Studio : Type := {
  hasSelectedApiKey : Video.answer bool;
  openSelectKey : Video.answer unit
}.

(** What the environment answers to the requests of one
    [handleGenerate]: the services of services/gemini, each by what it
    returns or throws, and the SDK and the network under
    [generateSocialVideo]. *)
Record Env : Type := {
  extractStoryContent : Video.answer string;
  determineVisualFormat : Video.answer Format;
  aistudio : option Studio;
  planVideoGeneration : Video.answer VideoPlan;
  veo : Video.Env;
  generateVisualStoryPlan : Video.answer StoryBoard;
  generateComicPanel : nat → string → Video.answer string
}.

(** What the handler does outside the view. *)
Record World : Type := {
  video : Video.World;
  keyDialogs : nat;           (* calls of openSelectKey *)
  console : list string
}.

Definition untouched : World := Build_World Video.untouched 0 [].

Definition log (line : string) (w : World) : World :=
  Build_World (video w) (keyDialogs w) (console w ++ [line]).

Definition keyDialog (w : World) : World :=
  Build_World (video w) (S (keyDialogs w)) (console w).

Definition quotaShown : string :=
  "Quota Exceeded (429). The video generation model is busy or you have hit your limits. Please try again later or shorten the story.".

Definition notFoundShown : string :=
  "Model Not Found (404). 'Veo' model is not enabled for your key. Please select a valid Paid API Key (GCP Project).".

Definition deniedShown : string :=
  "Access Denied (403). Video generation requires a paid API Key. Please select a valid key.".

(** The first step of the catch block: the message of the thrown value,
    replaced by the quota text or completed by the JSON of a thrown
    object that is not an [Error]. *)
Definition described (e : Video.Thrown) : string :=
  let msg := Video.or_default (Video.e_message e) (Video.e_string e) in
  if includes "Veo Quota Exceeded" msg || includes "429" msg then quotaShown
  else if Video.isObject e && negb (Video.isError e)
       then msg +:+ " " +:+ Video.e_json e
       else msg.

Definition mentionsNotFound (msg : string) : bool :=
  includes "Requested entity was not found" msg || includes "404" msg ||
  includes "NOT_FOUND" msg.

Definition mentionsDenied (msg : string) : bool :=
  includes "403" msg || includes "permission" msg || includes "API key" msg.

(** The message the catch block gives to [setError]. *)
Definition shown (e : Video.Thrown) : string :=
  let msg := described e in
  if mentionsNotFound msg then notFoundShown
  else if mentionsDenied msg then deniedShown
  else msg.

(** The catch block of [handleGenerate]. *)
Definition caught (env : Env) (e : Video.Thrown) (s : State) (w : World)
  : State * World :=
  let msg := Video.or_default (Video.e_message e) (Video.e_string e) in
  let w := if includes "Veo Quota Exceeded" msg || includes "429" msg
           then log "Veo Quota Hit:" w
           else log "Visual Story Error:" w in
  let w := if mentionsNotFound (described e) || mentionsDenied (described e)
           then match aistudio env with
                | Some _ => keyDialog w
                | None => w
                end
           else w in
  let s := set_error (Some (shown e)) s in
  (set_status idle s, w).

(** One panel of the comic flow: the image is put in the map under the
    id of the panel, a failure is logged and passed over.
    [generateComicPanel] is given the position of the panel with its
    prompt. *)
Definition draw (env : Env) (sw : State * World) (jp : nat * StoryPanel)
  : State * World :=
  match generateComicPanel env jp.1 (prompt_for_image jp.2) with
  | Video.returns base64 =>
      (set_panelImages (<[id jp.2 := base64]> (panelImages sw.1)) sw.1, sw.2)
  | Video.throws _ =>
      (sw.1,
       log ("Failed to generate image for panel " +:+ pretty (id jp.2)) sw.2)
  end.

(** The comic flow after the plan.  The requests run side by side; the
    images are put in the map in the order of the panels. *)
Definition drawn (env : Env) (ps : list StoryPanel) (s : State) (w : World)
  : State * World :=
  foldl (draw env) (s, w) (imap (λ j p, (j, p)) ps).

(** The panels whose image could not be generated, by the lines logged
    for them. *)
Definition failures (env : Env) (jps : list (nat * StoryPanel)) : list string :=
  omap (λ jp, match generateComicPanel env jp.1 (prompt_for_image jp.2) with
              | Video.returns _ => None
              | Video.throws _ =>
                  Some ("Failed to generate image for panel " +:+
                        pretty (id jp.2))
              end) jps.

(** The video flow from [setStatus('planning_video')] on. *)
Definition rendered (env : Env) (s : State) (w : World)
  : Video.answer unit * (State * World) :=
  let s := set_status planning_video s in
  match planVideoGeneration env with
  | Video.throws e => (Video.throws e, (s, w))
  | Video.returns videoPlan =>
      let s := set_videoMetadata
                 (Some {| meta_segments := length (script videoPlan);
                          meta_reason := reason videoPlan;
                          meta_type := plan_type videoPlan |}) s in
      let s := set_status rendering_video s in
      let '(url, vw) :=
        Video.generateSocialVideo (veo env) (script videoPlan) (video w) in
      (* the progress callback, once per call of onProgress *)
      let reported :=
        drop (length (Video.progress (video w))) (Video.progress vw) in
      let s := match last reported with
               | Some (current, total) =>
                   set_totalSegments total (set_currentSegment current s)
               | None => s
               end in
      let w := Build_World vw (keyDialogs w) (console w) in
      match url with
      | Video.throws e => (Video.throws e, (s, w))
      | Video.returns url => (Video.returns (), (set_videoUrl (Some url) s, w))
      end
  end.

(** The key check of the video flow:
    [if (aistudio) { if (!await aistudio.hasSelectedApiKey()) await
    aistudio.openSelectKey() }]. *)
Definition keyCheck (env : Env) (w : World) : Video.answer unit * World :=
  match aistudio env with
  | Some studio =>
      match hasSelectedApiKey studio with
      | Video.throws e => (Video.throws e, w)
      | Video.returns true => (Video.returns (), w)
      | Video.returns false =>
          let w := keyDialog w in
          match openSelectKey studio with
          | Video.throws e => (Video.throws e, w)
          | Video.returns _ => (Video.returns (), w)
          end
      end
  | None => (Video.returns (), w)
  end.

(** The video flow of the try block: the key check, then the plan and
    the rendering. *)
Definition videoFlow (env : Env) (s : State) (w : World)
  : Video.answer unit * (State * World) :=
  match keyCheck env w with
  | (Video.throws e, w) => (Video.throws e, (s, w))
  | (Video.returns _, w) => rendered env s w
  end.

(** The comic flow of the try block. *)
Definition comicFlow (env : Env) (s : State) (w : World)
  : Video.answer unit * (State * World) :=
  let s := set_status planning_comic s in
  match generateVisualStoryPlan env with
  | Video.throws e => (Video.throws e, (s, w))
  | Video.returns plan =>
      let s := set_storyBoard (Some plan) s in
      let s := set_status generating_images s in
      match panels plan with
      | Some ps => (Video.returns (), drawn env ps s w)
      | None => (Video.returns (), (s, log "No panels returned in plan" w))
      end
  end.

(** The try block once the format is known. *)
Definition produced (env : Env) (targetFormat : Format) (s : State) (w : World)
  : State * World :=
  let s := set_determinedFormat (Some targetFormat) s in
  let '(r, (s, w)) :=
    if decide (targetFormat = VIDEO) then videoFlow env s w
    else comicFlow env s w in
  match r with
  | Video.throws e => caught env e s w
  | Video.returns _ => (set_status done s, w)
  end.

(** The resets made before the try block. *)
Definition cleared (s : State) : State :=
  let s := set_error None s in
  let s := set_storyBoard None s in
  let s := set_panelImages ∅ s in
  let s := set_videoUrl None s in
  let s := set_determinedFormat None s in
  let s := set_videoMetadata None s in
  let s := set_progressMsg EmptyString s in
  let s := set_currentSegment 0 s in
  set_totalSegments 0 s.

(** The try block with its catch block. *)
Definition tried (env : Env) (s : State) (w : World) : State * World :=
  let s := set_status extracting s in
  match extractStoryContent env with
  | Video.throws e => caught env e s w
  | Video.returns EmptyString =>
      caught env
        (Video.Error_ "Could not extract a story from the provided input.")
        s w
  | Video.returns (String _ _) =>
      match preferredFormat s with
      | AUTO =>
          let s := set_status deciding s in
          match determineVisualFormat env with
          | Video.throws e => caught env e s w
          | Video.returns targetFormat => produced env targetFormat s w
          end
      | targetFormat => produced env targetFormat s w
      end
  end.

(** [handleGenerate]. *)
Definition handleGenerate (env : Env) (s : State) (w : World) : State * World :=
  match trim (inputText s), uploadedFile s with
  | EmptyString, None =>
      (set_error (Some "Please provide a story text or upload a file.") s, w)
  | _, _ => tried env (cleared s) w
  end.

(** The format a generation settles on: the preferred one, or the one
    [determineVisualFormat] gives when the preference is AUTO. *)
Definition target (env : Env) (s : State) : Video.answer Format :=
  match preferredFormat s with
  | AUTO => determineVisualFormat env
  | targetFormat => Video.returns targetFormat
  end.

(** There is something to visualise: a text that is not blank, or a
    file. *)
Definition provided (s : State) : Prop :=
  trim (inputText s) ≠ EmptyString ∨ uploadedFile s ≠ None.

(** A generation ended well. *)
Definition finished (s : State) : Prop :=
  status s = done ∧ error s = None.

(** A generation ended with a message. *)
Definition failedWith (msg : string) (s : State) : Prop :=
  status s = idle ∧ error s = Some msg.

End Story.

(** ** A story and its answers, for the examples *)

Module Tale.
Import Story.

(** The view with a story typed in and a format chosen. *)
Definition typed (format : Format) : State :=
  Build_State "Ana waved at Ben. Ben did not wave back." None ∅ None idle
    EmptyString None format None None None 0 0.

Definition panel (n : Z) : StoryPanel :=
  {| id := n; title := "Panel"; summary := "Ana waves.";
     prompt_for_image := "Two friends on a street, one waving";
     dialogue_captions := []; emotions := ["hopeful"] |}.

Definition board : StoryBoard := {| panels := Some [panel 1; panel 2] |}.

(** The services outside the studio: the extraction returns the story,
    the first image is generated and the second is refused, and the video
    model answers every request with a rate-limit error. *)
Definition services (script : list string) : Env :=
  {| extractStoryContent :=
       Video.returns "Ana waved at Ben. Ben did not wave back.";
     determineVisualFormat := Video.returns COMIC;
     aistudio := None;
     planVideoGeneration :=
       Video.returns {| script := script; plan_type := "STORY";
                        reason := "A short scene." |};
     veo := {| Video.generateVideos :=
                 λ _ _, Video.throws (Video.Error_ "429 Too Many Requests");
               Video.fetch := λ _, Video.throws (Video.Error_ "offline") |};
     generateVisualStoryPlan := Video.returns board;
     generateComicPanel :=
       λ j _, if (j =? 0)%nat then Video.returns "iVBORw0KGgo="
              else Video.throws (Video.Error_ "blocked") |}.

End Tale.

(** ** Answers of the model given as JSON ([cleanAndParseJSON] of
    services/gemini) *)

Module Fences.
Import Str.

(** [charAt(n) === '\n'] *)
Definition newlineAt (n : nat) (s : string) : bool :=
  match String.get n s with
  | Some c => Ascii.eqb c (ascii_of_N 10)
  | None => false
  end.

(** The length of the match of [/```json\n?|```\n?/] at the head of a
    string, if there is one: the first alternative is tried first, and the
    optional line feed is taken when it is there. *)
Definition fenceAt (s : string) : option nat :=
  if String.prefix "```json" s then
    Some (if newlineAt 7 s then 8 else 7)%nat
  else if String.prefix "```" s then
    Some (if newlineAt 3 s then 4 else 3)%nat
  else None.

(** The length of the match of [/```/] at the head of a string. *)
Definition ticksAt (s : string) : option nat :=
  if String.prefix "```" s then Some 3%nat else None.

(** [s.replace(re, '')] for a global expression that matches no empty
    string: the string is scanned from the left, a match is dropped and
    the scan goes on behind it.  [skip] is the number of characters of the
    current match still to drop. *)
Fixpoint removeAll (matchAt : string → option nat) (skip : nat) (s : string)
  : string :=
  match s with
  | EmptyString => EmptyString
  | String c rest =>
      match skip with
      | S k => removeAll matchAt k rest
      | O =>
          match matchAt s with
          | Some (S n) => removeAll matchAt n rest
          | _ => String c (removeAll matchAt 0 rest)
          end
      end
  end.

(** [text.replace(/```json\n?|```\n?/g, '').replace(/```/g, '').trim()] *)
Definition cleanText (text : string) : string :=
  trim (removeAll ticksAt 0 (removeAll fenceAt 0 text)).

Section parse.
Context {T : Type}.
(** [JSON.parse]: the value, or [None] when it throws. *)
Variable JSON_parse : string → option T.

(** [cleanAndParseJSON]: the value, or the error thrown with the line
    logged. *)
Definition cleanAndParseJSON (text : string) : Video.answer T * list string :=
  match JSON_parse (cleanText text) with
  | Some v => (Video.returns v, [])
  | None =>
      (Video.throws (Video.Error_ "Failed to parse AI response format."),
       ["JSON Parse Error. Raw text:"])
  end.

End parse.

(** The number of backticks a string starts with. *)
Fixpoint ticks (s : string) : nat :=
  match s with
  | String c rest => if Ascii.eqb c "`" then S (ticks rest) else 0
  | EmptyString => 0
  end.

(** A string without a backtick. *)
Fixpoint plain (s : string) : bool :=
  match s with
  | String c rest => negb (Ascii.eqb c "`") && plain rest
  | EmptyString => true
  end.

End Fences.

(** ** The social decoder (AnalyzerView and [analyzeSocialCues]) *)

Module Analyzer.
Import Str.

(** An image or a recording: base64 data and a MIME type. *)
Record Media : Type := {
  media_data : string;
  media_mimeType : string
}.

(** An analysis, told by the two fields the prompt of a later request
    quotes; a field may be missing. *)
Record SocialAnalysis : Type := {
  nt_translation : option string;
  context_note : option string
}.

Record AnalysisHistoryItem : Type := {
  item_id : string;
  input : string;
  relationship : string;
  analysis : SocialAnalysis;
  timestamp : Z
}.

Record DraftAnalysis : Type := {
  risk_score : Q;
  critique : string;
  better_variants : list string
}.

(** *** The request of [analyzeSocialCues] *)

Inductive Part : Type :=
| inlineData (m : Media)
| text (t : string).

(** The line of a past turn in the prompt. *)
Definition pastTurn (h : AnalysisHistoryItem) : string :=
  "[Past Turn - Relationship: " +:+ relationship h +:+ "] User: " +:+
  Guardian.quote +:+ input h +:+ Guardian.quote +:+ " -> Analysis: " +:+
  Video.or_default (nt_translation (analysis h)) "N/A" +:+ " (Context: " +:+
  Video.or_default (context_note (analysis h)) "N/A" +:+ ")".

(** [history.slice(0, 5).reverse().map(...)]: the lines joined into
    [historyContext]. *)
Definition pastTurns (history : list AnalysisHistoryItem) : list string :=
  map pastTurn (reverse (take 5 history)).

Definition relationshipContext (relationship : string) : string :=
  "RELATIONSHIP CONTEXT: The speaker is the user's " +:+ Guardian.quote +:+
  or_else relationship "Stranger" +:+ Guardian.quote +:+
  ". Interpret the tone and risk accordingly.".

(** The text part of the request. *)
Definition promptText (input relationship : string)
    (history : list AnalysisHistoryItem) : string :=
  let promptText := or_else input "Analyze the attached media for social cues." in
  match history with
  | [] =>
      relationshipContext relationship +:+ newline +:+ newline +:+
      "CURRENT INPUT TO ANALYZE:" +:+ newline +:+ promptText
  | _ =>
      relationshipContext relationship +:+ newline +:+ newline +:+
      "PREVIOUS CONTEXT (Last " +:+ pretty (length history) +:+ " turns):" +:+
      newline +:+ String.concat newline (pastTurns history) +:+
      newline +:+ newline +:+
      "CURRENT INPUT TO ANALYZE:" +:+ newline +:+ promptText
  end.

(** The arguments of a call of [analyzeSocialCues]. *)
Record Call : Type := {
  c_input : string;
  c_relationship : string;
  c_history : list AnalysisHistoryItem;
  c_imagePart : option Media;
  c_audioPart : option Media
}.

(** The parts [analyzeSocialCues] sends to the model. *)
Definition parts (c : Call) : list Part :=
  match c_imagePart c with Some m => [inlineData m] | None => [] end ++
  match c_audioPart c with Some m => [inlineData m] | None => [] end ++
  [text (promptText (c_input c) (c_relationship c) (c_history c))].

(** *** The view *)

(** What a handler created in one render sees of the state.  The
    handlers given to the elements of the page are those of the last
    render; the [onstop] handler of a recorder is the closure made by the
    [startRecording] that created the recorder, and the [handleAnalyze] it
    calls is that of the same render. *)
Record Render : Type := {
  r_inputText : string;
  r_relationship : string;
  r_history : list AnalysisHistoryItem;
  r_selectedImage : option Media
}.

(** The state hooks and the refs of the view.  [mediaRecorderRef] holds
    the recorder, told by the render its [onstop] handler was created
    in. *)
Record State : Type := {
  inputText : string;
  relationship_ : string;
  history : list AnalysisHistoryItem;
  loading : bool;
  error : option string;
  selectedImage : option Media;
  isRecording : bool;
  draftText : string;
  draftAnalysis : option DraftAnalysis;
  isDrafting : bool;
  draftError : option string;
  isDraftSectionOpen : bool;
  mediaRecorderRef : option Render
}.

Definition initial : State :=
  Build_State EmptyString "Stranger" [] false None None false EmptyString None
    false None false None.

(** Assignment to one field, the others kept. *)
Definition set_inputText (v : string) (x : State) : State :=
  Build_State v (relationship_ x) (history x) (loading x) (error x)
    (selectedImage x) (isRecording x) (draftText x) (draftAnalysis x)
    (isDrafting x) (draftError x) (isDraftSectionOpen x) (mediaRecorderRef x).

Definition set_relationship (v : string) (x : State) : State :=
  Build_State (inputText x) v (history x) (loading x) (error x)
    (selectedImage x) (isRecording x) (draftText x) (draftAnalysis x)
    (isDrafting x) (draftError x) (isDraftSectionOpen x) (mediaRecorderRef x).

Definition set_history (v : list AnalysisHistoryItem) (x : State) : State :=
  Build_State (inputText x) (relationship_ x) v (loading x) (error x)
    (selectedImage x) (isRecording x) (draftText x) (draftAnalysis x)
    (isDrafting x) (draftError x) (isDraftSectionOpen x) (mediaRecorderRef x).

Definition set_loading (v : bool) (x : State) : State :=
  Build_State (inputText x) (relationship_ x) (history x) v (error x)
    (selectedImage x) (isRecording x) (draftText x) (draftAnalysis x)
    (isDrafting x) (draftError x) (isDraftSectionOpen x) (mediaRecorderRef x).

Definition set_error (v : option string) (x : State) : State :=
  Build_State (inputText x) (relationship_ x) (history x) (loading x) v
    (selectedImage x) (isRecording x) (draftText x) (draftAnalysis x)
    (isDrafting x) (draftError x) (isDraftSectionOpen x) (mediaRecorderRef x).

Definition set_selectedImage (v : option Media) (x : State) : State :=
  Build_State (inputText x) (relationship_ x) (history x) (loading x) (error x)
    v (isRecording x) (draftText x) (draftAnalysis x)
    (isDrafting x) (draftError x) (isDraftSectionOpen x) (mediaRecorderRef x).

Definition set_isRecording (v : bool) (x : State) : State :=
  Build_State (inputText x) (relationship_ x) (history x) (loading x) (error x)
    (selectedImage x) v (draftText x) (draftAnalysis x)
    (isDrafting x) (draftError x) (isDraftSectionOpen x) (mediaRecorderRef x).

Definition set_draftText (v : string) (x : State) : State :=
  Build_State (inputText x) (relationship_ x) (history x) (loading x) (error x)
    (selectedImage x) (isRecording x) v (draftAnalysis x)
    (isDrafting x) (draftError x) (isDraftSectionOpen x) (mediaRecorderRef x).

Definition set_draftAnalysis (v : option DraftAnalysis) (x : State) : State :=
  Build_State (inputText x) (relationship_ x) (history x) (loading x) (error x)
    (selectedImage x) (isRecording x) (draftText x) v
    (isDrafting x) (draftError x) (isDraftSectionOpen x) (mediaRecorderRef x).

Definition set_isDrafting (v : bool) (x : State) : State :=
  Build_State (inputText x) (relationship_ x) (history x) (loading x) (error x)
    (selectedImage x) (isRecording x) (draftText x) (draftAnalysis x)
    v (draftError x) (isDraftSectionOpen x) (mediaRecorderRef x).

Definition set_draftError (v : option string) (x : State) : State :=
  Build_State (inputText x) (relationship_ x) (history x) (loading x) (error x)
    (selectedImage x) (isRecording x) (draftText x) (draftAnalysis x)
    (isDrafting x) v (isDraftSectionOpen x) (mediaRecorderRef x).

Definition set_isDraftSectionOpen (v : bool) (x : State) : State :=
  Build_State (inputText x) (relationship_ x) (history x) (loading x) (error x)
    (selectedImage x) (isRecording x) (draftText x) (draftAnalysis x)
    (isDrafting x) (draftError x) v (mediaRecorderRef x).

Definition set_mediaRecorderRef (v : option Render) (x : State) : State :=
  Build_State (inputText x) (relationship_ x) (history x) (loading x) (error x)
    (selectedImage x) (isRecording x) (draftText x) (draftAnalysis x)
    (isDrafting x) (draftError x) (isDraftSectionOpen x) v.

(** The render of a state. *)
Definition render (s : State) : Render :=
  {| r_inputText := inputText s;
     r_relationship := relationship_ s;
     r_history := history s;
     r_selectedImage := selectedImage s |}.

(** What the handlers do outside the view. *)
Record World : Type := {
  calls : list Call;                        (* of analyzeSocialCues *)
  drafts : list (string * string * string); (* of analyzeDraftReply *)
  console : list string
}.

Definition untouched : World := Build_World [] [] [].

Definition called (c : Call) (w : World) : World :=
  Build_World (calls w ++ [c]) (drafts w) (console w).

Definition drafted (d : string * string * string) (w : World) : World :=
  Build_World (calls w) (drafts w ++ [d]) (console w).

Definition log (line : string) (w : World) : World :=
  Build_World (calls w) (drafts w) (console w ++ [line]).

(** [handleAnalyze] as created in the render [r].  The names it reads
    ([inputText], [relationship], [history], [selectedImage]) are those of
    that render; the state it writes is the current one, and the update of
    the history is a function of the history at the time.  [clock] is
    [Date.now()] and [answer] what [analyzeSocialCues] returns or
    throws. *)
Definition handleAnalyze (r : Render) (audioData : option Media) (clock : Z)
    (answer : Video.answer SocialAnalysis) (s : State) (w : World)
  : State * World :=
  let inputContent :=
    or_else (r_inputText r)
      match audioData, r_selectedImage r with
      | Some _, _ => "Audio Input"
      | None, Some _ => "Image Input"
      | None, None => EmptyString
      end in
  match inputContent with
  | EmptyString =>
      (set_error (Some "Please enter text, upload an image, or record audio.") s,
       w)
  | _ =>
      let s := set_loading true s in
      let s := set_error None s in
      let s := set_draftAnalysis None s in
      let s := set_draftText EmptyString s in
      (* try *)
      let w := called {| c_input := r_inputText r;
                         c_relationship := r_relationship r;
                         c_history := take 5 (r_history r);
                         c_imagePart := r_selectedImage r;
                         c_audioPart := audioData |} w in
      let '(s, w) :=
        match answer with
        | Video.returns result =>
            let newItem :=
              {| item_id := pretty clock;
                 input := or_else (r_inputText r)
                            match audioData with
                            | Some _ => "[Audio Analysis]"
                            | None => "[Image Analysis]"
                            end;
                 relationship := r_relationship r;
                 analysis := result;
                 timestamp := clock |} in
            let s := set_history (take 5 (newItem :: history s)) s in
            let s := match r_inputText r with
                     | EmptyString => s
                     | _ => set_inputText EmptyString s
                     end in
            (s, w)
        | Video.throws err =>
            (set_error
               (Some ("Analysis failed. Please try again. " +:+
                      Video.or_default (Video.e_message err) EmptyString)) s,
             log (Video.e_string err) w)
        end in
      (* finally *)
      (set_loading false s, w)
  end.

(** [handleDraftAnalyze]; [answer] is what [analyzeDraftReply] returns or
    throws. *)
Definition handleDraftAnalyze (answer : Video.answer DraftAnalysis)
    (s : State) (w : World) : State * World :=
  match trim (draftText s), history s with
  | EmptyString, _ => (s, w)
  | _, [] => (s, w)
  | _, latest :: _ =>
      let s := set_isDrafting true s in
      let s := set_draftError None s in
      let w := drafted (input latest, relationship latest, draftText s) w in
      let '(s, w) :=
        match answer with
        | Video.returns result => (set_draftAnalysis (Some result) s, w)
        | Video.throws e =>
            (set_draftError
               (Some ("Couldn't analyze draft. " +:+
                      Video.or_default (Video.e_message e) "Please try again.")) s,
             log (Video.e_string e) w)
        end in
      (set_isDrafting false s, w)
  end.

(** [startRecording] as created in the render [r]; [granted] tells
    whether [getUserMedia] gives a stream.  The [onstop] handler of the
    recorder calls the [handleAnalyze] of [r]. *)
Definition startRecording (r : Render) (granted : bool) (s : State) (w : World)
  : State * World :=
  if granted then
    (set_isRecording true (set_mediaRecorderRef (Some r) s), w)
  else
    (set_error (Some "Could not access microphone.") s,
     log "Error accessing microphone:" w).

(** [stopRecording], followed by the [onstop] handler of the recorder
    and the [onloadend] handler of its reader; [data] is the recording in
    base64. *)
Definition stopRecording (data : string) (clock : Z)
    (answer : Video.answer SocialAnalysis) (s : State) (w : World)
  : State * World :=
  match mediaRecorderRef s with
  | Some r =>
      if isRecording s then
        let s := set_isRecording false s in
        handleAnalyze r
          (Some {| media_data := data; media_mimeType := "audio/webm" |})
          clock answer s w
      else (s, w)
  | None => (s, w)
  end.

(** [clearAll] *)
Definition clearAll (s : State) : State :=
  let s := set_inputText EmptyString s in
  let s := set_selectedImage None s in
  let s := set_history [] s in
  let s := set_draftText EmptyString s in
  let s := set_draftAnalysis None s in
  set_isDraftSectionOpen false s.

(** What happens to the view: the user types, chooses or removes an
    image, presses and releases the record button, presses a button; the
    answers of the environment come with the event that asks for them.
    A button that is disabled gives no event. *)
Inductive Event : Type :=
| EvInput (t : string)
| EvRelationship (r : string)
| EvImage (m : option Media)
| EvAnalyze (clock : Z) (answer : Video.answer SocialAnalysis)
| EvStartRecording (granted : bool)
| EvStopRecording (data : string) (clock : Z)
    (answer : Video.answer SocialAnalysis)
| EvClearAll
| EvToggleDraft
| EvDraftText (t : string)
| EvDraftAnalyze (answer : Video.answer DraftAnalysis).

Definition step (sw : State * World) (e : Event) : State * World :=
  let '(s, w) := sw in
  match e with
  | EvInput t => (set_inputText t s, w)
  | EvRelationship r => (set_relationship r s, w)
  | EvImage m => (set_selectedImage m s, w)
  | EvAnalyze clock answer =>
      (* disabled={loading || isRecording} *)
      if loading s || isRecording s then (s, w)
      else handleAnalyze (render s) None clock answer s w
  | EvStartRecording granted => startRecording (render s) granted s w
  | EvStopRecording data clock answer => stopRecording data clock answer s w
  | EvClearAll => (clearAll s, w)
  | EvToggleDraft =>
      (set_isDraftSectionOpen (negb (isDraftSectionOpen s)) s, w)
  | EvDraftText t => (set_draftText t s, w)
  | EvDraftAnalyze answer =>
      (* disabled={!draftText || isDrafting} *)
      match draftText s with
      | EmptyString => (s, w)
      | _ => if isDrafting s then (s, w) else handleDraftAnalyze answer s w
      end
  end.

Definition run (sw : State * World) (es : list Event) : State * World :=
  foldl step sw es.

(** An event that neither presses nor releases the record button. *)
Definition handsOff (e : Event) : Prop :=
  match e with
  | EvStartRecording _ | EvStopRecording _ _ _ => False
  | _ => True
  end.

(** What a handler that has run to its end leaves behind: a short
    history, and nothing loading or checking. *)
Definition settled (s : State) : Prop :=
  (length (history s) ≤ 5)%nat ∧ loading s = false ∧ isDrafting s = false.

(** A view in which one message was analysed, for the examples. *)
Definition reading : SocialAnalysis :=
  {| nt_translation := Some "They want to meet at five.";
     context_note := Some "Neutral tone." |}.

Definition decoded_once : State * World :=
  run (initial, untouched)
    [EvInput "See you at 5?"; EvAnalyze 1700000000000 (Video.returns reading)].

End Analyzer.

(** ** The controls of the conversational view *)

Module Controls.
Import Platform Str Practice.

(** The buttons of LivePracticeView. *)
Inductive Control : Type :=
| ChooseScenario
| ReturnToMenu
| StartNewSession
| AnalyzeSaved
| ToggleMute
| EndSession
| StartPractice (enabled : bool).

(** [!feedbackError] on a string or null. *)
Definition noError (s : State) : bool :=
  match feedbackError s with
  | Some (String _ _) => false
  | _ => true
  end.

Definition noFeedback (s : State) : bool :=
  match feedback s with Some _ => false | None => true end.

Definition emptyLog (s : State) : bool :=
  match conversation s with [] => true | _ => false end.

(** The buttons the view renders in a state, from top to bottom: the
    scenario cards of the menu or else the button of the feedback card,
    then those of the bottom control area. *)
Definition offered (s : State) : list Control :=
  (if negb (isConnected s) && emptyLog s && negb (isGeneratingFeedback s) &&
      noError s
   then [ChooseScenario]
   else if negb (noFeedback s) || isGeneratingFeedback s || negb (noError s)
        then if isGeneratingFeedback s then []
             else if negb (noError s) then [ReturnToMenu]
             else if negb (noFeedback s) then [StartNewSession]
             else []
        else []) ++
  (if negb (isConnected s) && negb (emptyLog s) && noFeedback s &&
      negb (isGeneratingFeedback s)
   then [AnalyzeSaved] else []) ++
  (if isConnected s then [ToggleMute; EndSession] else []) ++
  (if negb (isConnected s) && emptyLog s && noFeedback s &&
      negb (isGeneratingFeedback s) && noError s
   then [StartPractice
           (negb (negb (String.eqb (status s) "Disconnected") &&
                  negb (includes "Error" (status s)) &&
                  negb (includes "Connection Ended" (status s))))]
   else []).

(** A conversation of one or two messages with nothing analysed. *)
Definition brief (s : State) : Prop :=
  conversation s ≠ [] ∧ (length (conversation s) ≤ 2)%nat ∧
  conversationRef s = conversation s ∧
  feedback s = None ∧ isGeneratingFeedback s = false ∧ feedbackError s = None.

End Controls.

(** ** The trend chart of the conversational view *)

Module Trend.
Import JSON History.

(** [v.k] on what a JSON value or undefined holds: reading a property of
    undefined or of null throws; an object gives the field or undefined;
    the keys read here name no property of a boolean, a number, a string
    or an array. *)
Definition get (k : string) (v : option value) : result (option value) :=
  match v with
  | None | Some null => Throw TypeError
  | Some (object fields) => Ok (fields !! k)
  | Some _ => Ok None
  end.

(** [h.scores.goal] and [h.scores.confidence] *)
Definition score (k : string) (h : value) : result (option value) :=
  scores ← get "scores" (Some h);
  get k scores.

(** [history.map(f)] for an [f] that may throw. *)
Fixpoint collect {A B : Type} (f : A → result B) (l : list A) : result (list B) :=
  match l with
  | [] => Ok []
  | a :: l => b ← f a; bs ← collect f l; Ok (b :: bs)
  end.

(** The two traces given to Plotly. *)
Record Traces : Type := {
  xValues : list string;
  goalValues : list (option value);
  confValues : list (option value)
}.

(** The trend chart of the effect that renders the charts, for a history
    that is an array: the traces plotted, [None] when nothing is
    plotted. *)
Definition trend (history : list value) : result (option Traces) :=
  if (1 <? length history)%nat then
    let xValues := imap (λ i _, "Attempt " +:+ pretty (i + 1)%nat) history in
    goalValues ← collect (score "goal") history;
    confValues ← collect (score "confidence") history;
    Ok (Some {| xValues := xValues; goalValues := goalValues;
                confValues := confValues |})
  else Ok None.

(** The attempts saved for a scenario, in order. *)
Definition attemptsIn (scenarioId : string) (saves : list Attempt) : list Attempt :=
  filter (λ a, scenario a = scenarioId) saves.

End Trend.

(** ** The colours of a risk (AnalysisResult and AnalyzerView) *)

Module Risk.
Import Str.

(** [a < b] on finite numbers. *)
Definition lt (a b : Q) : bool := negb (Qle_bool b a).

(** The styles of a lens card, without its icon; the background is told
    by its colour and its opacity. *)
Record LensStyles : Type := {
  lens_rgb : Z * Z * Z;
  lens_opacity : Q;
  lens_border : string;
  lens_text : string
}.

(** [getVisualStyles] of the lens card.  The literal 0.2 stands for the
    rational 1/5. *)
Definition getVisualStyles (prob risk : Q) : LensStyles :=
  let opacity := Qmax (1 # 5) prob in
  if Qle_bool risk 3 then
    {| lens_rgb := (74, 222, 128); lens_opacity := opacity;
       lens_border := "border-green-300"; lens_text := "text-green-900" |}
  else if Qle_bool risk 6 then
    {| lens_rgb := (250, 204, 21); lens_opacity := opacity;
       lens_border := "border-yellow-300"; lens_text := "text-yellow-900" |}
  else if Qle_bool risk 8 then
    {| lens_rgb := (251, 146, 60); lens_opacity := opacity;
       lens_border := "border-orange-300"; lens_text := "text-orange-900" |}
  else
    {| lens_rgb := (248, 113, 113); lens_opacity := opacity;
       lens_border := "border-red-300"; lens_text := "text-red-900" |}.

Record RiskStyles : Type := {
  bg : string;
  text : string;
  border : string
}.

(** [getOverallRiskStyles] of AnalysisResult. *)
Definition getOverallRiskStyles (risk : Q) : RiskStyles :=
  if lt risk 4 then
    {| bg := "bg-green-100"; text := "text-green-800";
       border := "border-green-300" |}
  else if lt risk 7 then
    {| bg := "bg-yellow-100"; text := "text-yellow-800";
       border := "border-yellow-300" |}
  else
    {| bg := "bg-red-100"; text := "text-red-800"; border := "border-red-300" |}.

(** [getRiskColorClass] of AnalyzerView, for a turn of the history. *)
Definition getRiskColorClass (risk : Q) : string :=
  if lt risk 4 then "border-l-green-500 bg-green-50/30"
  else if lt risk 7 then "border-l-yellow-500 bg-yellow-50/30"
  else "border-l-red-500 bg-red-50/30".

(** [getDraftRiskColor] of AnalyzerView, for the risk of a draft. *)
Definition getDraftRiskColor (risk : Q) : string :=
  if lt risk 4 then "text-green-700 bg-green-50 border-green-200"
  else if lt risk 7 then "text-yellow-700 bg-yellow-50 border-yellow-200"
  else "text-red-700 bg-red-50 border-red-200".

(** The colour a class list names. *)
Inductive Hue : Type := green | yellow | orange | red.

Definition hue (classes : string) : option Hue :=
  if includes "green" classes then Some green
  else if includes "yellow" classes then Some yellow
  else if includes "orange" classes then Some orange
  else if includes "red" classes then Some red
  else None.

End Risk.

(** * Facts *)

(** ** Doubles *)

Section NumberFacts.
Import JS.
Local Open Scope Q_scope.

Lemma pow2_pos e : 0 < 2 ^ e.
Proof. apply Qpower_0_lt. reflexivity. Qed.

Lemma pow2_S e : 2 ^ (e + 1) == 2 * 2 ^ e.
Proof. rewrite Qpower_plus by discriminate. change (2 ^ 1) with (2 * 1). ring. Qed.

Lemma pow2_le e e' : (e <= e')%Z -> 2 ^ e <= 2 ^ e'.
Proof. intros H. apply Qpower_le_compat_l; [exact H|discriminate]. Qed.

Lemma pow2_lt e e' : (e < e')%Z -> 2 ^ e < 2 ^ e'.
Proof. intros H. apply Qpower_lt_compat_l; [exact H|reflexivity]. Qed.

Lemma pow2_Z (a : Z) : (0 <= a)%Z -> 2 ^ a == inject_Z (2 ^ a).
Proof. intros H. rewrite Zpower_Qpower by exact H. reflexivity. Qed.

Lemma exponent_spec q :
  0 < q -> 2 ^ exponent q <= q /\ q < 2 ^ (exponent q + 1).
Proof.
  intros Hq. unfold exponent. cbv zeta.
  destruct q as [n d]. cbn [Qnum Qden].
  assert (Hn : (0 < n)%Z).
  { unfold Qlt in Hq. cbn in Hq. lia. }
  set (a := Z.log2 n). set (b := Z.log2 (Z.pos d)).
  assert (Ha : (0 <= a)%Z) by apply Z.log2_nonneg.
  assert (Hb : (0 <= b)%Z) by apply Z.log2_nonneg.
  destruct (Z.log2_spec n Hn) as [Ha1 Ha2]. fold a in Ha1, Ha2.
  destruct (Z.log2_spec (Z.pos d) eq_refl) as [Hb1 Hb2]. fold b in Hb1, Hb2.
  assert (HA : 0 < 2 ^ a) by apply pow2_pos.
  assert (HB : 0 < 2 ^ b) by apply pow2_pos.
  assert (Hq' : n # d == inject_Z n / inject_Z (Z.pos d)) by apply Qmake_Qdiv.
  assert (HD : 0 < inject_Z (Z.pos d)) by reflexivity.
  assert (HN1 : 2 ^ a <= inject_Z n).
  { rewrite pow2_Z by exact Ha. rewrite <- Zle_Qle. exact Ha1. }
  assert (HN2 : inject_Z n < 2 * 2 ^ a).
  { rewrite <- pow2_S, pow2_Z by lia. rewrite <- Zlt_Qlt.
    replace (a + 1)%Z with (Z.succ a) by lia. exact Ha2. }
  assert (HD1 : 2 ^ b <= inject_Z (Z.pos d)).
  { rewrite pow2_Z by exact Hb. rewrite <- Zle_Qle. exact Hb1. }
  assert (HD2 : inject_Z (Z.pos d) < 2 * 2 ^ b).
  { rewrite <- pow2_S, pow2_Z by lia. rewrite <- Zlt_Qlt.
    replace (b + 1)%Z with (Z.succ b) by lia. exact Hb2. }
  assert (He : 2 ^ (a - b) == 2 ^ a / 2 ^ b) by (apply Qpower_minus; discriminate).
  assert (Hup : n # d < 2 * 2 ^ (a - b)).
  { rewrite Hq', He. apply Qlt_shift_div_r; [exact HD|].
    unfold Qdiv. 
    assert (X : 2 * (2 ^ a * / 2 ^ b) * inject_Z (Z.pos d) ==
                2 * 2 ^ a * (inject_Z (Z.pos d) / 2 ^ b)) by (field; lra).
    rewrite X.
    assert (Y : 1 <= inject_Z (Z.pos d) / 2 ^ b).
    { apply Qle_shift_div_l; [exact HB|]. lra. }
    nra. }
  assert (Hlo : 2 ^ (a - b) < 2 * (n # d)).
  { rewrite Hq', He.
    assert (X : 2 * (inject_Z n / inject_Z (Z.pos d)) ==
                2 * inject_Z n / inject_Z (Z.pos d)) by (field; lra).
    rewrite X.
    apply Qlt_shift_div_l; [exact HD|].
    assert (Y : 2 ^ a / 2 ^ b * inject_Z (Z.pos d) ==
                2 ^ a * (inject_Z (Z.pos d) / 2 ^ b)) by (field; lra).
    rewrite Y.
    assert (Z' : inject_Z (Z.pos d) / 2 ^ b < 2).
    { apply Qlt_shift_div_r; [exact HB|]. lra. }
    assert (Z'' : 0 < inject_Z (Z.pos d) / 2 ^ b).
    { apply Qlt_shift_div_l; [exact HB|]. lra. }
    nra. }
  destruct (Qle_bool (2 ^ (a - b)) (n # d)) eqn:E.
  - apply Qle_bool_iff in E. split; [exact E|]. rewrite pow2_S. exact Hup.
  - assert (E' : n # d < 2 ^ (a - b)).
    { apply Qnot_le_lt. intros H. apply Qle_bool_iff in H. congruence. }
    replace (a - b - 1 + 1)%Z with (a - b)%Z by lia.
    split; [|exact E'].
    assert (P : 2 ^ (a - b) == 2 * 2 ^ (a - b - 1)).
    { rewrite <- pow2_S. replace (a - b - 1 + 1)%Z with (a - b)%Z by lia. reflexivity. }
    lra.
Qed.

Lemma exponent_unique q e :
  2 ^ e <= q -> q < 2 ^ (e + 1) -> exponent q = e.
Proof.
  intros H1 H2.
  assert (Hq : 0 < q) by (pose proof (pow2_pos e); lra).
  destruct (exponent_spec q Hq) as [H3 H4].
  destruct (Z.lt_trichotomy (exponent q) e) as [H|[H|H]]; [|exact H|]; exfalso.
  - assert (2 ^ (exponent q + 1) <= 2 ^ e) by (apply pow2_le; lia). lra.
  - assert (2 ^ (e + 1) <= 2 ^ exponent q) by (apply pow2_le; lia). lra.
Qed.

Lemma exponent_monotone x y :
  0 < x -> x <= y -> (exponent x <= exponent y)%Z.
Proof.
  intros Hx Hxy.
  destruct (exponent_spec x Hx) as [H1 H2].
  destruct (exponent_spec y) as [H3 H4]; [lra|].
  destruct (Z.le_gt_cases (exponent x) (exponent y)) as [H|H]; [exact H|exfalso].
  assert (2 ^ (exponent y + 1) <= 2 ^ exponent x) by (apply pow2_le; lia). lra.
Qed.

(** Rounding to the nearest integer. *)
Lemma nearest_even_bounds x :
  inject_Z (nearest_even x) - (1 # 2) <= x /\
  x <= inject_Z (nearest_even x) + (1 # 2).
Proof.
  unfold nearest_even. cbv zeta.
  pose proof (Qfloor_le x) as H1. pose proof (Qlt_floor x) as H2.
  rewrite inject_Z_plus in H2. change (inject_Z 1) with 1 in H2.
  destruct (x - inject_Z (Qfloor x) ?= 1 # 2) eqn:E.
  - apply Qeq_alt in E.
    destruct (Z.even (Qfloor x)); rewrite ?inject_Z_plus;
      change (inject_Z 1) with 1; split; lra.
  - apply Qlt_alt in E. split; lra.
  - apply Qgt_alt in E. rewrite inject_Z_plus. change (inject_Z 1) with 1.
    split; lra.
Qed.

Lemma nearest_even_ge x k : inject_Z k <= x -> (k <= nearest_even x)%Z.
Proof.
  intros H.
  assert (Hf : (k <= Qfloor x)%Z).
  { rewrite <- (Qfloor_Z k). apply Qfloor_resp_le, H. }
  unfold nearest_even. cbv zeta.
  destruct (x - inject_Z (Qfloor x) ?= 1 # 2);
    [destruct (Z.even (Qfloor x))| |]; lia.
Qed.

Lemma nearest_even_le x k : x <= inject_Z k -> (nearest_even x <= k)%Z.
Proof.
  intros H.
  assert (Hf : (Qfloor x <= k)%Z).
  { rewrite <- (Qfloor_Z k). apply Qfloor_resp_le, H. }
  destruct (Z.eq_dec (Qfloor x) k) as [Hk|Hk].
  - assert (Hx : x == inject_Z k).
    { pose proof (Qfloor_le x). rewrite Hk in *. lra. }
    unfold nearest_even. cbv zeta. rewrite Hk.
    assert (E : (x - inject_Z k ?= 1 # 2) = Lt).
    { apply (proj1 (Qlt_alt _ _)). lra. }
    rewrite E. lia.
  - unfold nearest_even. cbv zeta.
    destruct (x - inject_Z (Qfloor x) ?= 1 # 2);
      [destruct (Z.even (Qfloor x))| |]; lia.
Qed.

Lemma nearest_even_Z k : nearest_even (inject_Z k) = k.
Proof.
  apply Z.le_antisymm; [apply nearest_even_le|apply nearest_even_ge]; apply Qle_refl.
Qed.

Lemma nearest_even_monotone x y :
  x <= y -> (nearest_even x <= nearest_even y)%Z.
Proof.
  intros Hxy.
  assert (Hf : (Qfloor x <= Qfloor y)%Z) by apply Qfloor_resp_le, Hxy.
  destruct (Z.eq_dec (Qfloor x) (Qfloor y)) as [He|He].
  - unfold nearest_even. cbv zeta. rewrite He.
    destruct (x - inject_Z (Qfloor y) ?= 1 # 2) eqn:E1;
      destruct (y - inject_Z (Qfloor y) ?= 1 # 2) eqn:E2;
      try (destruct (Z.even (Qfloor y))); try lia; exfalso;
      repeat match goal with
             | H : (_ ?= _) = Eq |- _ => apply Qeq_alt in H
             | H : (_ ?= _) = Lt |- _ => apply Qlt_alt in H
             | H : (_ ?= _) = Gt |- _ => apply Qgt_alt in H
             end; lra.
  - assert (H1 : (nearest_even x <= Qfloor x + 1)%Z).
    { apply nearest_even_le. apply Qlt_le_weak, Qlt_floor. }
    assert (H2 : (Qfloor y <= nearest_even y)%Z).
    { apply nearest_even_ge, Qfloor_le. }
    lia.
Qed.

(** Rounding a positive rational. *)
Lemma fl_pos_spec q :
  0 < q ->
  let e := exponent q in
  let m := nearest_even (q / 2 ^ (e - 52)) in
  fl_pos q == inject_Z m * 2 ^ (e - 52) /\
  (2 ^ 52 <= m <= 2 ^ 53)%Z /\
  2 ^ e <= fl_pos q /\ fl_pos q <= 2 ^ (e + 1) /\
  fl_pos q - 2 ^ (e - 53) <= q /\ q <= fl_pos q + 2 ^ (e - 53).
Proof.
  intros Hq e m.
  destruct (exponent_spec q Hq) as [H1 H2]. fold e in H1, H2.
  pose proof (pow2_pos (e - 52)) as Hu.
  assert (He : 2 ^ e == inject_Z (2 ^ 52) * 2 ^ (e - 52)).
  { rewrite <- pow2_Z by lia. rewrite <- Qpower_plus by discriminate.
    replace (52 + (e - 52))%Z with e by lia. reflexivity. }
  assert (He1 : 2 ^ (e + 1) == inject_Z (2 ^ 53) * 2 ^ (e - 52)).
  { rewrite <- pow2_Z by lia. rewrite <- Qpower_plus by discriminate.
    replace (53 + (e - 52))%Z with (e + 1)%Z by lia. reflexivity. }
  assert (Hh : 2 ^ (e - 52) == 2 * 2 ^ (e - 53)).
  { rewrite <- pow2_S. replace (e - 53 + 1)%Z with (e - 52)%Z by lia. reflexivity. }
  assert (Hm1 : (2 ^ 52 <= m)%Z).
  { apply nearest_even_ge. apply Qle_shift_div_l; [exact Hu|]. rewrite <- He. exact H1. }
  assert (Hm2 : (m <= 2 ^ 53)%Z).
  { apply nearest_even_le. apply Qle_shift_div_r; [exact Hu|]. rewrite <- He1. lra. }
  assert (Hf : fl_pos q == inject_Z m * 2 ^ (e - 52)) by reflexivity.
  destruct (nearest_even_bounds (q / 2 ^ (e - 52))) as [B1 B2]. fold m in B1, B2.
  assert (Hqm : q == q / 2 ^ (e - 52) * 2 ^ (e - 52)) by (field; lra).
  split; [exact Hf|]. split; [split; assumption|].
  rewrite Hf. repeat split.
  - rewrite He. apply Qmult_le_compat_r; [|lra]. rewrite <- Zle_Qle. exact Hm1.
  - rewrite He1. apply Qmult_le_compat_r; [|lra]. rewrite <- Zle_Qle. exact Hm2.
  - set (t := q / 2 ^ (e - 52)) in *.
    assert (0 <= (t - (inject_Z m - (1 # 2))) * 2 ^ (e - 52))
      by (apply Qmult_le_0_compat; lra).
    nra.
  - set (t := q / 2 ^ (e - 52)) in *.
    assert (0 <= (inject_Z m + (1 # 2) - t) * 2 ^ (e - 52))
      by (apply Qmult_le_0_compat; lra).
    nra.
Qed.

Lemma fl_pos_monotone x y : 0 < x -> x <= y -> fl_pos x <= fl_pos y.
Proof.
  intros Hx Hxy.
  assert (Hy : 0 < y) by lra.
  pose proof (exponent_monotone x y Hx Hxy) as He.
  destruct (fl_pos_spec x Hx) as (Fx & _ & _ & Ux & _).
  destruct (fl_pos_spec y Hy) as (Fy & _ & Ly & _).
  cbv zeta in *.
  destruct (Z.eq_dec (exponent x) (exponent y)) as [E|E].
  - rewrite Fx, Fy, E.
    pose proof (pow2_pos (exponent y - 52)) as Hu.
    apply Qmult_le_compat_r; [|lra]. rewrite <- Zle_Qle.
    apply nearest_even_monotone.
    apply Qle_shift_div_l; [exact Hu|].
    assert (X : x / 2 ^ (exponent y - 52) * 2 ^ (exponent y - 52) == x) by (field; lra).
    rewrite X. exact Hxy.
  - assert (2 ^ (exponent x + 1) <= 2 ^ exponent y) by (apply pow2_le; lia). lra.
Qed.

Lemma Qnum_sign q :
  match Qnum q with
  | Z0 => q == 0
  | Zpos _ => 0 < q
  | Zneg _ => q < 0
  end.
Proof. destruct q as [[|n|n] d]; cbn; reflexivity. Qed.

Lemma fl_positive q : 0 < q -> fl q = fl_pos q.
Proof.
  intros H. unfold fl. pose proof (Qnum_sign q) as S.
  destruct (Qnum q); [lra|reflexivity|lra].
Qed.

Lemma fl_negative q : q < 0 -> fl q = - fl_pos (- q).
Proof.
  intros H. unfold fl. pose proof (Qnum_sign q) as S.
  destruct (Qnum q); [lra|lra|reflexivity].
Qed.

Lemma fl_zero q : q == 0 -> fl q = 0.
Proof.
  intros H. unfold fl. pose proof (Qnum_sign q) as S.
  destruct (Qnum q); [reflexivity|lra|lra].
Qed.

Lemma fl_pos_positive q : 0 < q -> 0 < fl_pos q.
Proof.
  intros H. destruct (fl_pos_spec q H) as (_ & _ & L & _). cbv zeta in L.
  pose proof (pow2_pos (exponent q)). lra.
Qed.

(** Rounding keeps the order. *)
Lemma fl_monotone x y : x <= y -> fl x <= fl y.
Proof.
  intros Hxy.
  destruct (Qlt_le_dec 0 x) as [Hx|Hx].
  - rewrite (fl_positive x Hx), (fl_positive y) by lra.
    apply fl_pos_monotone; assumption.
  - destruct (Qlt_le_dec x 0) as [Hx'|Hx'].
    + rewrite (fl_negative x Hx').
      assert (0 < fl_pos (- x)) by (apply fl_pos_positive; lra).
      destruct (Qlt_le_dec 0 y) as [Hy|Hy].
      * rewrite (fl_positive y Hy). pose proof (fl_pos_positive y Hy). lra.
      * destruct (Qlt_le_dec y 0) as [Hy'|Hy'].
        -- rewrite (fl_negative y Hy').
           assert (fl_pos (- y) <= fl_pos (- x)) by (apply fl_pos_monotone; lra).
           lra.
        -- rewrite (fl_zero y) by lra. lra.
    + rewrite (fl_zero x) by lra.
      destruct (Qlt_le_dec 0 y) as [Hy|Hy].
      * rewrite (fl_positive y Hy). pose proof (fl_pos_positive y Hy). lra.
      * rewrite (fl_zero y) by lra. lra.
Qed.

Lemma fl_comp x y : x == y -> fl x == fl y.
Proof.
  intros H. apply Qle_antisym; apply fl_monotone; lra.
Qed.

(** The rounding error is at most [2^-53] of the number. *)
Lemma fl_error q : Qabs (fl q - q) <= Qabs q * 2 ^ (-53).
Proof.
  assert (P : forall x, 0 < x -> Qabs (fl_pos x - x) <= x * 2 ^ (-53)).
  { intros x Hx. destruct (fl_pos_spec x Hx) as (_ & _ & _ & _ & E1 & E2).
    cbv zeta in E1, E2.
    destruct (exponent_spec x Hx) as [H1 _].
    assert (He : 2 ^ (exponent x - 53) == 2 ^ exponent x * 2 ^ (-53)).
    { rewrite <- Qpower_plus by discriminate.
      replace (exponent x + -53)%Z with (exponent x - 53)%Z by lia. reflexivity. }
    pose proof (pow2_pos (-53)) as Hp.
    assert (2 ^ (exponent x - 53) <= x * 2 ^ (-53)) by (rewrite He; nra).
    apply Qabs_Qle_condition. split; lra. }
  destruct (Qlt_le_dec 0 q) as [Hq|Hq].
  - rewrite (fl_positive q Hq), (Qabs_pos q) by lra. apply P, Hq.
  - destruct (Qlt_le_dec q 0) as [Hq'|Hq'].
    + rewrite (fl_negative q Hq'), (Qabs_neg q) by lra.
      assert (X : - fl_pos (- q) - q == - (fl_pos (- q) - - q)) by ring.
      rewrite X, Qabs_opp. apply P. lra.
    + rewrite (fl_zero q) by lra.
      assert (X : 0 - q == 0) by lra. rewrite X.
      assert (Y : q == 0) by lra. rewrite Y. cbn. discriminate.
Qed.

(** A rounded number is a double. *)
Lemma fl_pos_idempotent q : 0 < q -> fl_pos (fl_pos q) == fl_pos q.
Proof.
  intros Hq.
  destruct (fl_pos_spec q Hq) as (F & [M1 M2] & L & U & _). cbv zeta in *.
  set (e := exponent q) in *. set (m := nearest_even (q / 2 ^ (e - 52))) in *.
  pose proof (pow2_pos (e - 52)) as Hu.
  pose proof (fl_pos_positive q Hq) as Hp.
  destruct (Z.eq_dec m (2 ^ 53)%Z) as [Hm|Hm].
  - assert (Hv : fl_pos q == 2 ^ (e + 1)).
    { rewrite F, Hm. rewrite <- pow2_Z by lia. rewrite <- Qpower_plus by discriminate.
      replace (53 + (e - 52))%Z with (e + 1)%Z by lia. reflexivity. }
    assert (He : exponent (fl_pos q) = (e + 1)%Z).
    { apply exponent_unique; [lra|]. rewrite Hv. apply pow2_lt. lia. }
    unfold fl_pos at 1. cbv zeta. rewrite He.
    replace (e + 1 - 52)%Z with (e - 51)%Z by lia.
    pose proof (pow2_pos (e - 51)) as Hu'.
    assert (Hd : fl_pos q / 2 ^ (e - 51) == inject_Z (2 ^ 52)).
    { assert (Hq2 : fl_pos q == inject_Z (2 ^ 52) * 2 ^ (e - 51)).
      { rewrite Hv. rewrite <- pow2_Z by lia. rewrite <- Qpower_plus by discriminate.
        replace (52 + (e - 51))%Z with (e + 1)%Z by lia. reflexivity. }
      rewrite Hq2. field. lra. }
    assert (Hn : nearest_even (fl_pos q / 2 ^ (e - 51)) = (2 ^ 52)%Z).
    { apply Z.le_antisymm; [apply nearest_even_le|apply nearest_even_ge]; rewrite Hd;
        apply Qle_refl. }
    rewrite Hn, Hv. rewrite <- pow2_Z by lia. rewrite <- Qpower_plus by discriminate.
    replace (52 + (e - 51))%Z with (e + 1)%Z by lia. reflexivity.
  - assert (He : exponent (fl_pos q) = e).
    { apply exponent_unique; [exact L|]. rewrite F.
      assert (X : 2 ^ (e + 1) == inject_Z (2 ^ 53) * 2 ^ (e - 52)).
      { rewrite <- pow2_Z by lia. rewrite <- Qpower_plus by discriminate.
        replace (53 + (e - 52))%Z with (e + 1)%Z by lia. reflexivity. }
      rewrite X. apply Qmult_lt_compat_r; [exact Hu|]. rewrite <- Zlt_Qlt. lia. }
    unfold fl_pos at 1. cbv zeta. rewrite He.
    assert (Hd : fl_pos q / 2 ^ (e - 52) == inject_Z m).
    { rewrite F. field. lra. }
    assert (Hn : nearest_even (fl_pos q / 2 ^ (e - 52)) = m).
    { apply Z.le_antisymm; [apply nearest_even_le|apply nearest_even_ge]; rewrite Hd;
        apply Qle_refl. }
    rewrite Hn. symmetry. exact F.
Qed.

Lemma fl_idempotent q : fl (fl q) == fl q.
Proof.
  destruct (Qlt_le_dec 0 q) as [Hq|Hq].
  - rewrite (fl_positive q Hq).
    rewrite (fl_positive (fl_pos q)) by (apply fl_pos_positive, Hq).
    apply fl_pos_idempotent, Hq.
  - destruct (Qlt_le_dec q 0) as [Hq'|Hq'].
    + rewrite (fl_negative q Hq').
      assert (Hp : 0 < fl_pos (- q)) by (apply fl_pos_positive; lra).
      rewrite (fl_negative (- fl_pos (- q))) by lra.
      assert (X : fl_pos (- - fl_pos (- q)) == fl_pos (fl_pos (- q))).
      { generalize dependent (fl_pos (- q)). intros p Hp.
        rewrite <- (fl_positive (- - p)) by lra.
        rewrite <- (fl_positive p) by lra. apply fl_comp. ring. }
      rewrite X, fl_pos_idempotent by lra. reflexivity.
    + rewrite (fl_zero q) by lra. reflexivity.
Qed.

Lemma is_double_fl q : is_double (fl q) = true.
Proof. unfold is_double. apply Qeq_bool_iff, fl_idempotent. Qed.

(** A sum is not below an operand when the other is not negative, and
    within the rounding error of the exact sum. *)
Lemma plus_le a b : 0 <= b -> a <= plus a b.
Proof.
  intros Hb. unfold plus.
  destruct (is_double a) eqn:Ea; cbn [andb]; [|lra].
  destruct (is_double b); [|lra].
  apply Qeq_bool_iff in Ea. rewrite <- Ea at 1. apply fl_monotone. lra.
Qed.

Lemma plus_error a b : Qabs (plus a b - (a + b)) <= Qabs (a + b) * 2 ^ (-53).
Proof.
  unfold plus. destruct (is_double a && is_double b); [apply fl_error|].
  assert (X : a + b - (a + b) == 0) by ring. rewrite X.
  pose proof (Qabs_nonneg (a + b)). pose proof (pow2_pos (-53)).
  change (Qabs 0) with 0. nra.
Qed.

End NumberFacts.

(** ** Bytes, int16 and base64 *)

Section CodecFacts.
Import JS Codec.

Lemma Z_of_byte_range b : 0 <= Z_of_byte b < 256.
Proof.
  unfold Z_of_byte. pose proof (Byte.to_N_bounded b). lia.
Qed.

Lemma byte_of_Z_of_byte b : byte_of_Z (Z_of_byte b) = b.
Proof.
  unfold byte_of_Z. pose proof (Z_of_byte_range b).
  rewrite Z.mod_small by lia. unfold Z_of_byte.
  rewrite N2Z.id, Byte.of_to_N. reflexivity.
Qed.

Lemma Z_of_byte_of_Z z : 0 <= z < 256 -> Z_of_byte (byte_of_Z z) = z.
Proof.
  intros Hz. unfold byte_of_Z, Z_of_byte. rewrite Z.mod_small by lia.
  destruct (Byte.of_N (Z.to_N z)) as [b|] eqn:E.
  - apply Byte.to_of_N in E. simpl. lia.
  - apply Byte.of_N_None_iff in E. lia.
Qed.

Lemma wrap16_range z : -32768 <= wrap16 z < 32768.
Proof.
  unfold wrap16. pose proof (Z.mod_pos_bound z 65536 ltac:(lia)).
  destruct (32768 <=? z mod 65536) eqn:E; lia.
Qed.

Lemma wrap16_small z : -32768 <= z < 32768 -> wrap16 z = z.
Proof.
  intros Hz. unfold wrap16.
  destruct (32768 <=? z mod 65536) eqn:E.
  - apply Z.leb_le in E. Z.div_mod_to_equations. lia.
  - apply Z.leb_gt in E. Z.div_mod_to_equations. lia.
Qed.

Lemma int16_of_bytes_int16_bytes v :
  -32768 <= v < 32768 ->
  int16_of_bytes (byte_of_Z (v mod 256)) (byte_of_Z (v / 256 mod 256)) = v.
Proof.
  intros Hv. unfold int16_of_bytes.
  rewrite !Z_of_byte_of_Z by (apply Z.mod_pos_bound; lia).
  unfold wrap16.
  destruct (32768 <=? _) eqn:E.
  - apply Z.leb_le in E. Z.div_mod_to_equations. lia.
  - apply Z.leb_gt in E. Z.div_mod_to_equations. lia.
Qed.

Lemma int16s_of_bytes_roundtrip l :
  Forall (fun v => -32768 <= v < 32768) l ->
  int16s_of_bytes (Uint8Array_of_int16 l) = l.
Proof.
  induction 1 as [|v l Hv _ IH]; [reflexivity|].
  unfold Uint8Array_of_int16 in *. cbn [map concat int16_bytes app int16s_of_bytes].
  rewrite int16_of_bytes_int16_bytes by exact Hv. f_equal. exact IH.
Qed.

Lemma Uint8Array_of_int16_length l :
  length (Uint8Array_of_int16 l) = (2 * length l)%nat.
Proof.
  unfold Uint8Array_of_int16. induction l as [|v l IH]; [reflexivity|].
  cbn [map concat int16_bytes app length]. rewrite IH. lia.
Qed.


Lemma b64_index_char n : sextet n -> b64_index (b64_char n) = Some n.
Proof.
  intros [H0 H1].
  assert (exists k : nat, (k < 64)%nat /\ n = Z.of_nat k) as (k & Hk & ->).
  { exists (Z.to_nat n). lia. }
  clear H0 H1.
  do 64 (destruct k as [|k]; [reflexivity|]). lia.
Qed.

Lemma b64_index_plain c n :
  b64_index c = Some n ->
  is_ascii_whitespace c = false /\ Ascii.eqb c pad = false.
Proof.
  destruct c as [[] [] [] [] [] [] [] []]; vm_compute; intros H;
    first [discriminate H | split; reflexivity].
Qed.

Lemma b64_char_plain n :
  sextet n ->
  is_ascii_whitespace (b64_char n) = false /\ Ascii.eqb (b64_char n) pad = false.
Proof. intros Hn. eapply b64_index_plain, b64_index_char, Hn. Qed.

Lemma list_ind3 {A} (P : list A -> Prop) :
  P [] -> (forall a, P [a]) -> (forall a b, P [a; b]) ->
  (forall a b c l, P l -> P (a :: b :: c :: l)) ->
  forall l, P l.
Proof.
  intros H0 H1 H2 H3 l.
  enough (P l /\ (forall a, P (a :: l)) /\ (forall a b, P (a :: b :: l))) by tauto.
  induction l as [|x l (IH0 & IH1 & IH2)]; [tauto|].
  split; [apply IH1|]. split; [intros a; apply IH2|].
  intros a b. apply H3, IH0.
Qed.



Lemma b64_encode_shape l :
  b64_encode l = map b64_char (sextets_of l) ++ padding_of l.
Proof.
  induction l as [|a|a b|a b c l IH] using list_ind3; try reflexivity.
  cbn [b64_encode sextets_of map app]. rewrite IH.
  unfold padding_of. replace (length (a :: b :: c :: l) mod 3)%nat with (length l mod 3)%nat; [reflexivity|].
  cbn [length]. change (S (S (S (length l)))) with (3 + length l)%nat.
  rewrite Nat.Div0.add_mod, Nat.Div0.mod_same, Nat.add_0_l, Nat.Div0.mod_mod. reflexivity.
Qed.

Lemma sextets_of_sextet l : Forall sextet (sextets_of l).
Proof.
  induction l as [|a|a b|a b c l IH] using list_ind3; cbn [sextets_of].
  - constructor.
  - pose proof (Z_of_byte_range a). repeat constructor; Z.div_mod_to_equations; lia.
  - pose proof (Z_of_byte_range a). pose proof (Z_of_byte_range b).
    repeat constructor; Z.div_mod_to_equations; lia.
  - pose proof (Z_of_byte_range a). pose proof (Z_of_byte_range b).
    pose proof (Z_of_byte_range c).
    repeat (constructor; [unfold sextet; Z.div_mod_to_equations; lia|]). exact IH.
Qed.

Lemma byte_of_Z_eq z b : z = Z_of_byte b -> byte_of_Z z = b.
Proof. intros ->. apply byte_of_Z_of_byte. Qed.

Lemma b64_decode_sextets_of l : b64_decode (sextets_of l) = l.
Proof.
  induction l as [|a|a b|a b c l IH] using list_ind3; cbn [sextets_of b64_decode].
  - reflexivity.
  - pose proof (Z_of_byte_range a). f_equal.
    apply byte_of_Z_eq. Z.div_mod_to_equations. lia.
  - pose proof (Z_of_byte_range a). pose proof (Z_of_byte_range b).
    f_equal; [|f_equal]; apply byte_of_Z_eq; Z.div_mod_to_equations; lia.
  - pose proof (Z_of_byte_range a). pose proof (Z_of_byte_range b).
    pose proof (Z_of_byte_range c).
    rewrite IH.
    f_equal; [|f_equal; [|f_equal]]; apply byte_of_Z_eq; Z.div_mod_to_equations; lia.
Qed.

Lemma sextets_of_length l :
  length (sextets_of l) = (length l / 3 * 4 +
     match (length l mod 3)%nat with 1 => 2 | 2 => 3 | _ => 0 end)%nat.
Proof.
  induction l as [|a|a b|a b c l IH] using list_ind3; try reflexivity.
  cbn [sextets_of length]. rewrite IH.
  change (S (S (S (length l)))) with (3 + length l)%nat.
  replace ((3 + length l) / 3)%nat with (1 + length l / 3)%nat.
  2:{ change 3%nat with (1 * 3)%nat at 2. rewrite Nat.div_add_l by lia. reflexivity. }
  replace ((3 + length l) mod 3)%nat with (length l mod 3)%nat; [lia|].
  rewrite Nat.Div0.add_mod, Nat.Div0.mod_same, Nat.add_0_l, Nat.Div0.mod_mod. reflexivity.
Qed.

Lemma strip_padding_encode l :
  strip_padding (b64_encode l) = map b64_char (sextets_of l).
Proof.
  rewrite b64_encode_shape.
  pose proof (sextets_of_length l) as Hlen.
  pose proof (sextets_of_sextet l) as Hs.
  unfold padding_of, strip_padding.
  rewrite length_app, length_map, Hlen.
  pose proof (Nat.mod_upper_bound (length l) 3 ltac:(lia)) as Hm.
  destruct (length l mod 3)%nat as [|[|[|k]]] eqn:E; [| | |lia]; cbn [length].
  - (* no padding *)
    rewrite app_nil_r.
    replace (Z.of_nat (length l / 3 * 4 + 0 + 0) mod 4 =? 0) with true.
    2:{ symmetry. apply Z.eqb_eq. rewrite Nat.add_0_r, Nat.add_0_r, Nat2Z.inj_mul. apply Z_mod_mult. }
    destruct (rev (map b64_char (sextets_of l))) as [|c1 [|c2 r]] eqn:R; try reflexivity.
    assert (Hc : In c1 (map b64_char (sextets_of l))).
    { apply in_rev. rewrite R. left. reflexivity. }
    apply in_map_iff in Hc as (n & <- & Hn).
    rewrite Forall_forall in Hs.
    assert (sextet n) as Hsn by (apply Hs; apply list_elem_of_In; exact Hn).
    destruct (b64_char_plain n Hsn) as [_ ->]. reflexivity.
  - (* two padding characters *)
    replace (Z.of_nat (length l / 3 * 4 + 2 + 2) mod 4 =? 0) with true.
    2:{ symmetry. apply Z.eqb_eq.
        replace (Z.of_nat (length l / 3 * 4 + 2 + 2)) with ((Z.of_nat (length l / 3) + 1) * 4) by lia.
        apply Z_mod_mult. }
    rewrite rev_app_distr. cbn [rev app]. change (Ascii.eqb pad pad) with true. cbn iota.
    apply rev_involutive.
  - (* one padding character *)
    replace (Z.of_nat (length l / 3 * 4 + 3 + 1) mod 4 =? 0) with true.
    2:{ symmetry. apply Z.eqb_eq.
        replace (Z.of_nat (length l / 3 * 4 + 3 + 1)) with ((Z.of_nat (length l / 3) + 1) * 4) by lia.
        apply Z_mod_mult. }
    rewrite rev_app_distr. cbn [rev app].
    destruct (rev (map b64_char (sextets_of l))) as [|c2 r] eqn:R.
    + apply (f_equal (@length _)) in R. rewrite length_rev, length_map, Hlen in R.
      cbn in R. lia.
    + change (Ascii.eqb pad pad) with true. cbn iota.
      assert (Hc : In c2 (map b64_char (sextets_of l))).
      { apply in_rev. rewrite R. left. reflexivity. }
      apply in_map_iff in Hc as (n & <- & Hn).
      rewrite Forall_forall in Hs.
      assert (sextet n) as Hsn by (apply Hs; apply list_elem_of_In; exact Hn).
      destruct (b64_char_plain n Hsn) as [_ ->].
      change (rev r ++ [b64_char n]) with (rev (b64_char n :: r)).
      rewrite <- R. apply rev_involutive.
Qed.

Lemma b64_encode_no_whitespace l :
  List.filter (fun c => negb (is_ascii_whitespace c)) (b64_encode l) = b64_encode l.
Proof.
  apply forallb_filter_id. apply forallb_forall. intros c Hc.
  rewrite b64_encode_shape in Hc. apply in_app_or in Hc as [Hc|Hc].
  - apply in_map_iff in Hc as (n & <- & Hn).
    pose proof (sextets_of_sextet l) as Hs. rewrite Forall_forall in Hs.
    assert (sextet n) as Hsn by (apply Hs; apply list_elem_of_In; exact Hn).
    destruct (b64_char_plain n Hsn) as [-> _]. reflexivity.
  - unfold padding_of in Hc.
    destruct (length l mod 3)%nat as [|[|[|k]]]; cbn in Hc;
      intuition (subst; reflexivity).
Qed.

Lemma mapM_b64_index l :
  Forall sextet l -> mapM b64_index (map b64_char l) = Some l.
Proof.
  intros H. apply mapM_Some. induction H as [|n l Hn _ IH]; constructor.
  - apply b64_index_char, Hn.
  - exact IH.
Qed.

Lemma atob_btoa (binary : string) : atob (btoa binary) = Ok binary.
Proof.
  unfold atob, btoa.
  rewrite list_ascii_of_string_of_list_ascii, b64_encode_no_whitespace, strip_padding_encode.
  set (l := list_byte_of_string binary).
  rewrite length_map.
  replace (Z.of_nat (length (sextets_of l)) mod 4 =? 1) with false.
  2:{ symmetry. apply Z.eqb_neq. rewrite sextets_of_length.
      pose proof (Nat.mod_upper_bound (length l) 3 ltac:(lia)) as Hm.
      destruct (length l mod 3)%nat as [|[|[|k]]]; [| | |lia];
        rewrite Nat2Z.inj_add, Nat2Z.inj_mul, Z.add_comm, Z_mod_plus_full; discriminate. }
  rewrite mapM_b64_index by apply sextets_of_sextet.
  rewrite b64_decode_sextets_of. unfold l.
  rewrite string_of_list_byte_of_string. reflexivity.
Qed.

Lemma Qtrunc_nonneg q : (0 <= q)%Q ->
  (inject_Z (Qtrunc q) <= q)%Q /\ (q < inject_Z (Qtrunc q) + 1)%Q /\ 0 <= Qtrunc q.
Proof.
  destruct q as [n d]. unfold Qle, Qlt, Qtrunc, Qplus, inject_Z. cbn.
  intros Hn. rewrite Z.mul_1_r in Hn.
  pose proof (Z.quot_pos n (Z.pos d) Hn ltac:(lia)) as Hq.
  rewrite Z.quot_div_nonneg in * by lia.
  pose proof (Z.mul_div_le n (Z.pos d) ltac:(lia)).
  pose proof (Z.mul_succ_div_gt n (Z.pos d) ltac:(lia)).
  nia.
Qed.

Lemma Qtrunc_nonpos q : (q <= 0)%Q ->
  (q <= inject_Z (Qtrunc q))%Q /\ (inject_Z (Qtrunc q) < q + 1)%Q /\ Qtrunc q <= 0.
Proof.
  destruct q as [n d]. unfold Qle, Qlt, Qtrunc, Qplus, inject_Z. cbn.
  intros Hn. rewrite Z.mul_1_r in Hn.
  replace n with (- (- n)) by lia. rewrite Z.quot_opp_l by lia.
  rewrite Z.quot_div_nonneg by lia.
  pose proof (Z.div_pos (- n) (Z.pos d) ltac:(lia) ltac:(lia)).
  pose proof (Z.mul_div_le (- n) (Z.pos d) ltac:(lia)).
  pose proof (Z.mul_succ_div_gt (- n) (Z.pos d) ltac:(lia)).
  nia.
Qed.

Lemma clip_cases x :
  clip x = x \/ (clip x = (-1)%Q /\ (x <= -1)%Q) \/ (clip x = 1%Q /\ (1 <= x)%Q).
Proof.
  unfold clip, Qmax, Qmin, GenericMinMax.gmax, GenericMinMax.gmin.
  destruct (1 ?= x)%Q eqn:E1.
  - apply Qeq_alt in E1. right. right. split; [reflexivity|]. rewrite E1. apply Qle_refl.
  - apply Qlt_alt in E1. right. right. split; [reflexivity|]. apply Qlt_le_weak, E1.
  - apply Qgt_alt in E1.
    destruct (-1 ?= x)%Q eqn:E2.
    + apply Qeq_alt in E2. right. left. split; [reflexivity|]. rewrite E2. apply Qle_refl.
    + left. reflexivity.
    + apply Qgt_alt in E2. right. left. split; [reflexivity|]. apply Qlt_le_weak, E2.
Qed.

Lemma clip_id x : (-1 <= x <= 1)%Q -> (clip x == x)%Q /\ (-1 <= clip x <= 1)%Q.
Proof.
  intros [H1 H2]. destruct (clip_cases x) as [->|[[-> H]|[-> H]]].
  - split; [reflexivity|]. split; assumption.
  - split; [lra|]. split; lra.
  - split; [lra|]. split; lra.
Qed.

Lemma dequantize_spec v : (dequantize v == inject_Z v * quantum)%Q.
Proof. unfold dequantize, quantum, Qdiv. reflexivity. Qed.

Lemma quantize_negative s :
  (-1 <= s)%Q -> (s < 0)%Q ->
  let v := ToInt16 (scale s) in
  -32768 <= v <= 0 /\ (0 <= dequantize v - s)%Q /\ (dequantize v - s < quantum)%Q.
Proof.
  intros H1 H2. cbv zeta. unfold scale, ToInt16.
  destruct (Qlt_le_dec s 0) as [_|H]; [|lra].
  destruct (Qtrunc_nonpos (s * 32768)%Q ltac:(lra)) as (Ha & Hb & Hc).
  assert (-32768 <= Qtrunc (s * 32768)) as Hd.
  { rewrite Zle_Qle. change (inject_Z (-32768)) with (-32768)%Q. lra. }
  rewrite wrap16_small by lia. rewrite dequantize_spec. unfold quantum.
  repeat split; [lia|lia|lra|lra].
Qed.

Lemma quantize_nonnegative s :
  (0 <= s)%Q -> (s <= 1)%Q ->
  let v := ToInt16 (scale s) in
  0 <= v <= 32767 /\ (s * quantum <= s - dequantize v)%Q /\
  (s - dequantize v < (s + 1) * quantum)%Q.
Proof.
  intros H1 H2. cbv zeta. unfold scale, ToInt16.
  destruct (Qlt_le_dec s 0) as [H|_]; [lra|].
  destruct (Qtrunc_nonneg (s * 32767)%Q ltac:(lra)) as (Ha & Hb & Hc).
  assert (Qtrunc (s * 32767) <= 32767) as Hd.
  { rewrite Zle_Qle. change (inject_Z 32767) with 32767%Q. lra. }
  rewrite wrap16_small by lia. rewrite dequantize_spec. unfold quantum.
  repeat split; [lia|lia|lra|lra].
Qed.

Lemma ToInt16_range q : -32768 <= ToInt16 q < 32768.
Proof. apply wrap16_range. Qed.

Lemma to_int16_range samples :
  Forall (fun v => -32768 <= v < 32768) (to_int16 samples).
Proof. unfold to_int16. apply Forall_map, Forall_forall. intros x _. apply ToInt16_range. Qed.

Lemma foldl_insert_seq {A} (f : nat -> A) (l : list A) (k : nat) :
  (k <= length l)%nat ->
  foldl (fun cd i => <[i := f i]> cd) l (seq 0 k) = map f (seq 0 k) ++ drop k l.
Proof.
  induction k as [|k IH]; intros Hk.
  - reflexivity.
  - rewrite seq_S, foldl_app, map_app, IH by lia. cbn [foldl map Nat.add].
    destruct (drop k l) as [|x r] eqn:D.
    { apply (f_equal (@length _)) in D. rewrite length_drop in D. cbn in D. lia. }
    rewrite insert_app_r_alt by (rewrite length_map, length_seq; lia).
    rewrite length_map, length_seq, Nat.sub_diag. cbn [insert list_insert].
    rewrite <- app_assoc. cbn [app]. do 2 f_equal.
    replace (drop (S k) l) with (drop 1 (drop k l))
      by (rewrite drop_drop; f_equal; lia).
    rewrite D. reflexivity.
Qed.

Lemma fill_channel_mono (dataInt16 : list Z) (cd : list Q) :
  length cd = length dataInt16 ->
  fill_channel dataInt16 1 0 (length dataInt16) cd = map dequantize dataInt16.
Proof.
  intros Hlen. unfold fill_channel.
  rewrite (foldl_insert_seq
             (fun i => (inject_Z (default 0%Z (dataInt16 !! (i * 1 + 0)%nat)) / 32768)%Q))
    by lia.
  rewrite <- Hlen at 2. rewrite drop_all, app_nil_r.
  apply list_eq. intros i.
  rewrite !list_lookup_fmap.
  destruct (dataInt16 !! i) as [v|] eqn:E.
  - rewrite lookup_seq_lt by (apply lookup_lt_Some in E; exact E).
    cbn. rewrite Nat.mul_1_r, Nat.add_0_r, E. reflexivity.
  - rewrite lookup_seq_ge by (apply lookup_ge_None in E; exact E). reflexivity.
Qed.

Lemma Qtrunc_inject_Z_div_1 n : Qtrunc (inject_Z n / inject_Z 1) = n.
Proof.
  unfold Qtrunc, Qdiv, Qmult, Qinv, inject_Z. cbn.
  rewrite Z.mul_1_r. apply Z.quot_1_r.
Qed.

Lemma Qceiling_inject_Z_div_1 n : Qceiling (inject_Z n / inject_Z 1) = n.
Proof.
  unfold Qceiling, Qfloor, Qopp, Qdiv, Qmult, Qinv, inject_Z. cbn.
  rewrite Z.mul_1_r, Z.div_1_r. lia.
Qed.


Lemma int16s_of_bytes_length bytes :
  (length (int16s_of_bytes bytes) = length bytes / 2)%nat.
Proof.
  enough (forall n bytes, (length bytes < n)%nat ->
            (length (int16s_of_bytes bytes) = length bytes / 2)%nat) by eauto.
  clear bytes. induction n as [|n IH]; intros bytes Hn; [lia|].
  destruct bytes as [|a [|b rest]]; try reflexivity.
  cbn [int16s_of_bytes length] in *. rewrite IH by lia.
  replace (S (S (length rest))) with (1 * 2 + length rest)%nat by lia.
  rewrite Nat.div_add_l by lia. reflexivity.
Qed.

Lemma decodeAudioData_mono bytes rate :
  Z.of_nat (length bytes) mod 2 = 0 ->
  (0 < length bytes)%nat ->
  Z.of_nat (length bytes) < 8589934592 ->
  decodeAudioData bytes rate 1 =
  Ok {| numberOfChannels := 1;
        buf_length := Z.of_nat (length (int16s_of_bytes bytes));
        sampleRate := rate;
        channels := [map dequantize (int16s_of_bytes bytes)] |}.
Proof.
  intros Heven Hpos Hlt. unfold decodeAudioData, Int16Array_of_buffer.
  rewrite Heven. cbn [Z.eqb mbind result_bind].
  set (d := int16s_of_bytes bytes).
  assert (Hd : (length d = length bytes / 2)%nat) by apply int16s_of_bytes_length.
  assert (Hd1 : (0 < length d)%nat).
  { rewrite Hd. apply Nat.div_str_pos. 
    destruct bytes as [|a [|b r]]; cbn in *; try lia; discriminate. }
  assert (Hd2 : Z.of_nat (length d) < 4294967296).
  { rewrite Hd. rewrite Nat2Z.inj_div. Z.div_mod_to_equations. lia. }
  destruct (Qle_bool (inject_Z (Z.of_nat (length d)) / inject_Z 1) 0) eqn:E.
  { apply Qle_bool_iff in E. unfold Qle, Qdiv, Qmult, Qinv, inject_Z in E. cbn in E. lia. }
  unfold createBuffer, ToUint32. rewrite Qtrunc_inject_Z_div_1, Qceiling_inject_Z_div_1.
  rewrite Z.mod_small by lia.
  replace (1 <=? Z.of_nat (length d)) with true by (symmetry; apply Z.leb_le; lia).
  cbn [Z.leb Z.compare andb mbind result_bind numberOfChannels buf_length sampleRate channels].
  rewrite Nat2Z.id. change (Z.to_nat 1) with 1%nat.
  cbn [seq foldl replicate lookup list_lookup default].
  change ((1 <=? 1) && true) with true.
  cbn [mbind result_bind numberOfChannels buf_length sampleRate channels
       lookup list_lookup default insert list_insert].
  rewrite fill_channel_mono by apply length_replicate.
  reflexivity.
Qed.

Lemma decodeAudioData_empty rate :
  decodeAudioData [] rate 1 =
  Ok {| numberOfChannels := 1; buf_length := 1; sampleRate := rate;
        channels := [[0%Q]] |}.
Proof. reflexivity. Qed.

Lemma decode_createBlob samples :
  decode (data (createBlob samples)) = Ok (Uint8Array_of_int16 (to_int16 samples)).
Proof.
  unfold decode, createBlob. cbn [data].
  rewrite atob_btoa. cbn [mbind result_bind].
  rewrite list_byte_of_string_of_list_byte. reflexivity.
Qed.

Lemma roundtrip_eval rate samples :
  samples <> [] ->
  Z.of_nat (length samples) < 4294967296 ->
  roundtrip rate samples =
  Ok {| numberOfChannels := 1;
        buf_length := Z.of_nat (length samples);
        sampleRate := rate;
        channels := [map (fun x => dequantize (ToInt16 (scale (clip x)))) samples] |}.
Proof.
  intros Hne Hlen. unfold roundtrip. rewrite decode_createBlob.
  cbn [mbind result_bind].
  pose proof (Uint8Array_of_int16_length (to_int16 samples)) as Hl.
  assert (Hs : length (to_int16 samples) = length samples) by apply length_map.
  rewrite decodeAudioData_mono.
  - rewrite int16s_of_bytes_roundtrip by apply to_int16_range.
    rewrite Hs. unfold to_int16. rewrite map_map. reflexivity.
  - rewrite Hl. rewrite Nat2Z.inj_mul, Z.mul_comm. apply Z_mod_mult.
  - rewrite Hl, Hs. destruct samples; [congruence|cbn; lia].
  - rewrite Hl, Hs. lia.
Qed.


Lemma quantize_close x :
  (-1 <= x <= 1)%Q -> close_to x (dequantize (ToInt16 (scale (clip x)))).
Proof.
  intros Hx. destruct (clip_id x Hx) as (He & Hc1 & Hc2).
  set (s := clip x) in *. unfold close_to.
  destruct (Qlt_le_dec s 0) as [Hneg|Hpos].
  - destruct (quantize_negative s Hc1 Hneg) as (_ & Ha & Hb).
    cbv zeta in Ha, Hb. set (y := dequantize _) in *. unfold quantum in *.
    split; [|split].
    + intros _. split; lra.
    + intros H. split; lra.
    + apply Qabs_Qlt_condition. split; lra.
  - destruct (quantize_nonnegative s Hpos Hc2) as (_ & Ha & Hb).
    cbv zeta in Ha, Hb. set (y := dequantize _) in *. unfold quantum in *.
    split; [|split].
    + intros H. split; lra.
    + intros _. split; lra.
    + apply Qabs_Qlt_condition. split; lra.
Qed.

(** Claim C5, as amended.  A frame of samples in [-1, 1] encoded by
    [createBlob] and decoded by [decode] and [decodeAudioData] comes back
    as one channel of the same length, each sample being the int16
    [ToInt16 (scale (clip x))] divided by 32768; the payload holds these
    int16 values as little-endian byte pairs.  A negative sample is
    reproduced within one quantization step; a non-negative sample [x],
    scaled by 32767 and divided by 32768, comes back less than [x + 1]
    steps below [x]: within two steps, not one. *)
Theorem roundtrip_within_two_steps (rate : Q) (samples : list Q) :
  Forall (fun x => (-1 <= x <= 1)%Q) samples ->
  samples <> [] ->
  Z.of_nat (length samples) < 4294967296 ->
  exists decoded,
    roundtrip rate samples =
      Ok {| numberOfChannels := 1;
            buf_length := Z.of_nat (length samples);
            sampleRate := rate;
            channels := [decoded] |} /\
    decoded = map (fun x => dequantize (ToInt16 (scale (clip x)))) samples /\
    Forall2 close_to samples decoded /\
    decode (data (createBlob samples)) =
      Ok (concat (map int16_bytes (to_int16 samples))) /\
    Forall (fun v => -32768 <= v < 32768) (to_int16 samples).
Proof.
  intros Hrange Hne Hlen. eexists. split; [apply roundtrip_eval; assumption|].
  split; [reflexivity|].
  split; [|split; [apply decode_createBlob|apply to_int16_range]].
  clear Hne Hlen. induction Hrange as [|x l Hx _ IH]; cbn [map]; constructor.
  - apply quantize_close, Hx.
  - exact IH.
Qed.

(** Claim C5: the amended round trip at the frame [65535/65536; -1/2]. *)
Lemma roundtrip_within_two_steps_witness :
  exists decoded,
    roundtrip 24000 [(65535 # 65536)%Q; (-1 # 2)%Q] =
      Ok {| numberOfChannels := 1; buf_length := 2; sampleRate := 24000;
            channels := [decoded] |} /\
    decoded = map (fun x => dequantize (ToInt16 (scale (clip x))))
                  [(65535 # 65536)%Q; (-1 # 2)%Q] /\
    Forall2 close_to [(65535 # 65536)%Q; (-1 # 2)%Q] decoded /\
    decode (data (createBlob [(65535 # 65536)%Q; (-1 # 2)%Q])) =
      Ok (concat (map int16_bytes (to_int16 [(65535 # 65536)%Q; (-1 # 2)%Q]))) /\
    Forall (fun v => -32768 <= v < 32768)
      (to_int16 [(65535 # 65536)%Q; (-1 # 2)%Q]).
Proof.
  apply (roundtrip_within_two_steps 24000 [(65535 # 65536)%Q; (-1 # 2)%Q]).
  - repeat constructor; vm_compute; discriminate.
  - discriminate.
  - reflexivity.
Defined.

(** Claim C5 fails as stated: the sample 65535/65536 lies in [-1, 1], is
    encoded as 32766 and decoded as 32766/32768, three half steps away
    from the original. *)
Lemma roundtrip_exceeds_one_step :
  (-1 <= 65535 # 65536 <= 1)%Q /\
  roundtrip 24000 [(65535 # 65536)%Q] =
    Ok {| numberOfChannels := 1; buf_length := 1; sampleRate := 24000;
          channels := [[(32766 # 32768)%Q]] |} /\
  ~ (Qabs ((65535 # 65536) - (32766 # 32768)) <= quantum)%Q.
Proof.
  split; [split; vm_compute; discriminate|].
  split; [vm_compute; reflexivity|].
  intros H. vm_compute in H. apply H. reflexivity.
Qed.

Lemma decodeAudioData_odd bytes rate numChannels :
  Z.of_nat (length bytes) mod 2 <> 0 ->
  decodeAudioData bytes rate numChannels = Throw RangeError.
Proof.
  intros Hodd. unfold decodeAudioData, Int16Array_of_buffer.
  destruct (Z.of_nat (length bytes) mod 2 =? 0) eqn:E; [|reflexivity].
  apply Z.eqb_eq in E. contradiction.
Qed.

Lemma decodeAudioData_no_frames rate numChannels :
  1 <= numChannels ->
  decodeAudioData [] rate numChannels = Ok (silent numChannels rate).
Proof.
  intros Hn. unfold decodeAudioData, Int16Array_of_buffer. cbn [length Z.of_nat Z.modulo].
  cbn [Z.eqb mbind result_bind int16s_of_bytes length Z.of_nat].
  replace (Qle_bool (inject_Z 0 / inject_Z numChannels) 0) with true.
  2:{ symmetry. apply Qle_bool_iff. unfold Qdiv. rewrite Qmult_0_l. apply Qle_refl. }
  unfold createBuffer, silent.
  replace (1 <=? numChannels) with true by (symmetry; apply Z.leb_le; exact Hn).
  reflexivity.
Qed.

(** A buffer that [decodeAudioData] returns has at least one frame, at the
    rate asked for. *)
Lemma createBuffer_frames numChannels len rate b :
  createBuffer numChannels len rate = Ok b ->
  1 <= buf_length b /\ sampleRate b = rate.
Proof.
  unfold createBuffer. destruct (1 <=? numChannels); [|discriminate].
  destruct (1 <=? ToUint32 len) eqn:E; [|discriminate].
  intros [= <-]. cbn. apply Z.leb_le in E. split; [exact E|reflexivity].
Qed.

Lemma decodeAudioData_frames bytes rate numChannels b :
  decodeAudioData bytes rate numChannels = Ok b ->
  1 <= buf_length b /\ sampleRate b = rate.
Proof.
  unfold decodeAudioData.
  destruct (Int16Array_of_buffer bytes) as [d|e]; [|discriminate].
  cbn [mbind result_bind].
  destruct (Qle_bool _ 0); [apply createBuffer_frames|].
  destruct (createBuffer numChannels _ rate) as [b'|e] eqn:E; [|discriminate].
  cbn [mbind result_bind]. intros [= <-]. cbn.
  eapply createBuffer_frames, E.
Qed.

Lemma decode_payload_duration base64 b :
  decode_payload base64 = Ok b -> (0 < duration b)%Q.
Proof.
  unfold decode_payload. destruct (decode base64) as [bytes|e]; [|discriminate].
  cbn [mbind result_bind]. intros H.
  apply decodeAudioData_frames in H as [Hl Hr].
  unfold duration. rewrite Hr.
  assert (Hq : (0 < inject_Z (buf_length b) / 24000)%Q).
  { apply Qlt_shift_div_l; [reflexivity|]. rewrite Qmult_0_l.
    change 0%Q with (inject_Z 0). rewrite <- Zlt_Qlt. lia. }
  rewrite (fl_positive _ Hq). apply fl_pos_positive, Hq.
Qed.

(** Claim C6, as amended.  Decoding an inbound payload raises exactly
    when [atob] refuses the text or the bytes are odd in number.  When the
    payload is base64 of an even number of bytes (fewer than 2^33, which no
    string reaches), decoding returns a buffer: no bytes give the single
    silent frame of the safety branch, and otherwise the buffer holds one
    int16 per frame, divided by 32768.  For every channel layout, a frame
    count of zero gives the single silent frame. *)
Theorem decode_payload_outcome (base64 : string) :
  (forall e, decode base64 = Throw e -> decode_payload base64 = Throw e) /\
  (forall bytes,
     decode base64 = Ok bytes ->
     Z.of_nat (length bytes) mod 2 <> 0 ->
     decode_payload base64 = Throw RangeError) /\
  (forall bytes,
     decode base64 = Ok bytes ->
     Z.of_nat (length bytes) mod 2 = 0 ->
     Z.of_nat (length bytes) < 8589934592 ->
     decode_payload base64 =
       Ok (match bytes with
           | [] => silent 1 24000
           | _ => {| numberOfChannels := 1;
                     buf_length := Z.of_nat (length (int16s_of_bytes bytes));
                     sampleRate := 24000;
                     channels := [map dequantize (int16s_of_bytes bytes)] |}
           end)) /\
  (forall rate numChannels,
     1 <= numChannels ->
     decodeAudioData [] rate numChannels = Ok (silent numChannels rate)).
Proof.
  split; [|split; [|split]].
  - intros e He. unfold decode_payload. rewrite He. reflexivity.
  - intros bytes Hd Hodd. unfold decode_payload. rewrite Hd.
    cbn [mbind result_bind]. apply decodeAudioData_odd, Hodd.
  - intros bytes Hd Heven Hlen. unfold decode_payload. rewrite Hd.
    cbn [mbind result_bind].
    destruct bytes as [|b bytes'] eqn:E.
    + reflexivity.
    + rewrite <- E in *. apply decodeAudioData_mono; try assumption.
      rewrite E. cbn. lia.
  - intros rate numChannels. apply decodeAudioData_no_frames.
Qed.

(** Claim C6: the amended statement at a payload of two frames. *)
Lemma decode_payload_outcome_witness :
  decode_payload "AAD/fw==" =
    Ok {| numberOfChannels := 1; buf_length := 2; sampleRate := 24000;
          channels := [[dequantize 0; dequantize 32767]] |}.
Proof.
  apply (proj1 (proj2 (proj2 (decode_payload_outcome "AAD/fw==")))
           [Byte.x00; Byte.x00; Byte.xff; Byte.x7f]);
    reflexivity.
Defined.

(** Claim C6 fails as stated: a payload of one byte raises the RangeError
    of the [Int16Array] constructor, and a payload that is not base64
    raises the InvalidCharacterError of [atob]. *)
Lemma decode_payload_raises :
  decode_payload "AA==" = Throw RangeError /\
  decode_payload "!" = Throw InvalidCharacterError.
Proof. split; reflexivity. Qed.

End CodecFacts.

(** ** The playback scheduler *)

Section SchedulerFacts.
Import JS Codec Platform Practice Scenarios.

Lemma deliver_spec now b s w :
  deliver now b s w =
  (set_sourcesRef (Set_add (length (started w)) (sourcesRef s))
     (set_nextStartTimeRef (plus (Qmax (nextStartTimeRef s) now) (duration b))
        (set_isAiSpeaking true (advanceCursor now s))),
   set_started
     (started w ++
      [{| unit_id := length (started w);
          unit_start := Qmax (nextStartTimeRef s) now;
          unit_buffer := b |}]) w).
Proof. reflexivity. Qed.

Lemma onEnded_cursor source now s :
  nextStartTimeRef (onEnded source now s) = nextStartTimeRef s.
Proof.
  unfold onEnded. cbv zeta.
  destruct (_ && _); reflexivity.
Qed.

Lemma filter_all {A : Type} (P : A -> Prop) `{forall x, Decision (P x)}
    (l : list A) :
  (forall x, x ∈ l -> P x) -> filter P l = l.
Proof.
  induction l as [|x l IH]; intros Hl; [reflexivity|].
  rewrite filter_cons_True by (apply Hl; left).
  f_equal. apply IH. intros y Hy. apply Hl. right. exact Hy.
Qed.

Lemma filter_none {A : Type} (P : A -> Prop) `{forall x, Decision (P x)}
    (l : list A) :
  (forall x, x ∈ l -> ~ P x) -> filter P l = [].
Proof.
  induction l as [|x l IH]; intros Hl; [reflexivity|].
  rewrite filter_cons_False by (apply Hl; left).
  apply IH. intros y Hy. apply Hl. right. exact Hy.
Qed.

Lemma stopAll_spec (l : list nat) : forall (acc : list nat) (log : list nat),
  foldl (fun (acc : list nat * list nat) source =>
           (Set_delete source acc.1, acc.2 ++ [source])) (acc, log) l =
  (filter (fun y => y ∉ l) acc, log ++ l).
Proof.
  induction l as [|x l IH]; intros acc log.
  - cbn [foldl]. rewrite app_nil_r. f_equal.
    symmetry. apply filter_all. intros y _. apply not_elem_of_nil.
  - cbn [foldl fst snd]. rewrite IH. rewrite <- app_assoc. cbn [app].
    f_equal. unfold Set_delete. rewrite list_filter_filter.
    apply list_filter_iff. intros y. rewrite not_elem_of_cons. tauto.
Qed.

(** The loop stops every source of the set, in the order of insertion,
    and leaves the set empty. *)
Lemma stopAll_all sources log :
  stopAll sources log = ([], log ++ sources).
Proof.
  unfold stopAll. rewrite stopAll_spec. f_equal.
  apply filter_none. intros y Hy Hn. exact (Hn Hy).
Qed.

Lemma transcribed_scheduler clock m s :
  nextStartTimeRef (transcribed clock m s) = nextStartTimeRef s /\
  sourcesRef (transcribed clock m s) = sourcesRef s /\
  outputAudioContextRef (transcribed clock m s) = outputAudioContextRef s.
Proof.
  unfold transcribed, onTranscription.
  destruct (outputTranscription m) as [[|? ?]|], (inputTranscription m) as [[|? ?]|];
    repeat split; reflexivity.
Qed.

(** A message whose audio decodes, without the interrupted marker, delivers
    the decoded buffer to the scheduler. *)
Lemma onMessage_delivers clock now m s w c rest h b :
  inlineData m = Some (String c rest) ->
  outputAudioContextRef s = Some h ->
  decode_payload (String c rest) = Ok b ->
  interrupted m = false ->
  onMessage clock now m s w = deliver now b (transcribed clock m s) w.
Proof.
  intros Hd Hctx Hb Hi. unfold onMessage, afterAudio. cbv zeta.
  fold (transcribed clock m s).
  destruct (transcribed_scheduler clock m s) as (_ & _ & Ho).
  rewrite Hd, Ho, Hctx, Hb, Hi. unfold deliver.
  destruct (startSource b (advanceCursor now (transcribed clock m s)) w). reflexivity.
Qed.

(** A message with the interrupted marker and no audio runs the
    interrupted branch. *)
Lemma onMessage_interrupted clock now m s w :
  inlineData m = None ->
  interrupted m = true ->
  onMessage clock now m s w = onInterrupted (transcribed clock m s) w.
Proof.
  intros Hd Hi. unfold onMessage, afterAudio. cbv zeta.
  fold (transcribed clock m s). rewrite Hd, Hi. reflexivity.
Qed.

(** The callback on a message, by what its audio branch has to decode. *)
Lemma onMessage_audio clock now m s w h :
  outputAudioContextRef s = Some h ->
  onMessage clock now m s w =
  match audio m with
  | None => afterAudio m (transcribed clock m s) w
  | Some (Throw e) =>
      (advanceCursor now (transcribed clock m s),
       set_unhandled (unhandled w ++ [Exn e]) w)
  | Some (Ok b) =>
      afterAudio m (deliver now b (transcribed clock m s) w).1
        (deliver now b (transcribed clock m s) w).2
  end.
Proof.
  intros Hctx. unfold onMessage, audio. cbv zeta.
  fold (transcribed clock m s).
  destruct (transcribed_scheduler clock m s) as (_ & _ & Ho).
  rewrite Ho, Hctx.
  destruct (inlineData m) as [[|c rest]|]; reflexivity.
Qed.

(** Without an output context the audio branch is passed over. *)
Lemma onMessage_silent clock now m s w :
  outputAudioContextRef s = None ->
  onMessage clock now m s w = afterAudio m (transcribed clock m s) w.
Proof.
  intros Hctx. unfold onMessage. cbv zeta.
  fold (transcribed clock m s).
  destruct (transcribed_scheduler clock m s) as (_ & _ & Ho).
  rewrite Ho, Hctx.
  destruct (inlineData m) as [[|c rest]|]; reflexivity.
Qed.

Lemma arrivals_cons e es :
  arrivals (e :: es) =
  match arrival e with
  | Some d => d :: arrivals es
  | None => arrivals es
  end.
Proof. reflexivity. Qed.

(** The buffers that arrive have a duration. *)
Lemma arrivals_durations es :
  Forall (fun d => forall b, d.2 = Ok b -> (0 <= duration b)%Q) (arrivals es).
Proof.
  induction es as [|e es IH]; [constructor|].
  rewrite arrivals_cons.
  destruct (arrival e) as [[now r]|] eqn:E; [|exact IH].
  constructor; [|exact IH].
  intros b Hb. cbn in Hb. subst r.
  destruct e; try discriminate E. cbn in E. unfold audio in E.
  destruct (inlineData m) as [[|c rest]|]; try discriminate E.
  cbn in E. injection E as _ E.
  apply Qlt_le_weak. eapply decode_payload_duration, E.
Qed.

Lemma delivered_cons d ds :
  delivered (d :: ds) =
  match d.2 with
  | Ok b => (d.1, b) :: delivered ds
  | Throw _ => delivered ds
  end.
Proof. destruct d as [now [b|e]]; reflexivity. Qed.

Lemma schedule_buffers source c ds :
  map unit_buffer (schedule source c ds) = map snd (delivered ds).
Proof.
  revert source c. induction ds as [|[now [b|e]] ds IH]; intros source c;
    [reflexivity| |apply IH].
  rewrite delivered_cons. cbn [schedule snd fst map unit_buffer].
  f_equal. apply IH.
Qed.

Lemma schedule_not_before source c ds :
  Forall2 (fun u d => (d.1 <= unit_start u)%Q) (schedule source c ds) (delivered ds).
Proof.
  revert source c. induction ds as [|[now [b|e]] ds IH]; intros source c;
    [constructor| |apply IH].
  rewrite delivered_cons. cbn [schedule snd fst].
  constructor; [apply Q.le_max_r|apply IH].
Qed.

Lemma schedule_after_cursor source c ds u :
  u ∈ schedule source c ds ->
  Forall (fun d => forall b, d.2 = Ok b -> (0 <= duration b)%Q) ds ->
  (c <= unit_start u)%Q.
Proof.
  revert source c. induction ds as [|[now [b|e]] ds IH]; intros source c Hu Hd.
  - inversion Hu.
  - cbn [schedule] in Hu. inversion Hd as [|? ? Hb Hd']; subst.
    apply elem_of_cons in Hu as [->|Hu].
    + apply Q.le_max_l.
    + specialize (IH _ _ Hu Hd').
      pose proof (plus_le (Qmax c now) (duration b) (Hb b eq_refl)).
      pose proof (Q.le_max_l c now). lra.
  - cbn [schedule] in Hu. inversion Hd as [|? ? Hb Hd']; subst.
    specialize (IH _ _ Hu Hd').
    pose proof (Q.le_max_l c now). lra.
Qed.

Lemma schedule_consecutive source c ds i u v :
  schedule source c ds !! i = Some u ->
  schedule source c ds !! S i = Some v ->
  Forall (fun d => forall b, d.2 = Ok b -> (0 <= duration b)%Q) ds ->
  (plus (unit_start u) (duration (unit_buffer u)) <= unit_start v)%Q.
Proof.
  revert source c i. induction ds as [|[now [b|e]] ds IH]; intros source c i Hu Hv Hd.
  - discriminate Hu.
  - inversion Hd as [|? ? Hb Hd']; subst.
    cbn [schedule] in Hu, Hv. destruct i as [|i].
    + injection Hu as <-. cbn [lookup list_lookup] in Hv. cbn [unit_start unit_buffer].
      eapply schedule_after_cursor; [|exact Hd'].
      eapply list_elem_of_lookup_2, Hv.
    + cbn in Hu, Hv. eapply IH; eassumption.
  - inversion Hd as [|? ? Hb Hd']; subst.
    cbn [schedule] in Hu, Hv. eapply IH; eassumption.
Qed.

Lemma cursor_after_monotone c ds :
  Forall (fun d => forall b, d.2 = Ok b -> (0 <= duration b)%Q) ds ->
  (c <= cursor_after c ds)%Q.
Proof.
  revert c. induction ds as [|[now [b|e]] ds IH]; intros c Hd; [apply Qle_refl| |];
    inversion Hd as [|? ? Hb Hd']; subst; cbn [cursor_after].
  - specialize (IH (plus (Qmax c now) (duration b)) Hd').
    pose proof (plus_le (Qmax c now) (duration b) (Hb b eq_refl)).
    pose proof (Q.le_max_l c now). lra.
  - specialize (IH (Qmax c now) Hd').
    pose proof (Q.le_max_l c now). lra.
Qed.

End SchedulerFacts.


(** ** The transcript assembler *)

Section TranscriptFacts.
Import JS Codec Platform Practice.

(** Claim C10.  [updateStreamingTranscript] opens a message on an empty
    transcript; on a transcript whose last message is [open], it appends
    the fragment to the text of [open] when the roles agree and otherwise
    leaves [open] as it is and opens a new message after it.  The fragments
    (user, Hel), (user, lo), (model, Hi) give the two messages user: Hello
    and model: Hi. *)
Theorem transcript_role_switch :
  (forall clock role textFragment,
     updateStreamingTranscript clock role textFragment [] =
       [opened clock role textFragment]) /\
  (forall clock role textFragment closed open,
     updateStreamingTranscript clock role textFragment (closed ++ [open]) =
       if decide (msg_role open = role)
       then closed ++ [extended open textFragment]
       else closed ++ [open; opened clock role textFragment]) /\
  (forall c1 c2 c3,
     map (fun m => (msg_role m, msg_text m))
       (updateStreamingTranscript c3 MODEL "Hi"
          (updateStreamingTranscript c2 USER "lo"
             (updateStreamingTranscript c1 USER "Hel" []))) =
     [(USER, "Hello"); (MODEL, "Hi")]).
Proof.
  split; [reflexivity|]. split.
  - intros clock role textFragment closed open.
    unfold updateStreamingTranscript. rewrite last_snoc.
    destruct (decide (msg_role open = role)) as [_|_].
    + rewrite length_app. cbn [length].
      replace (length closed + 1 - 1)%nat with (length closed) by lia.
      rewrite take_app_length. reflexivity.
    + rewrite <- app_assoc. reflexivity.
  - intros c1 c2 c3. reflexivity.
Qed.
End TranscriptFacts.


(** ** The capture gate *)

Section GateFacts.
Import JS Codec Platform Practice Scenarios.

Lemma ticks_muted s w ts : isMutedRef s = true -> ticks (s, w) ts = (s, w).
Proof.
  intros Hm. induction ts as [|t ts IH]; [reflexivity|].
  unfold ticks in *. cbn [foldl fst snd]. unfold onaudioprocess at 2.
  rewrite Hm. exact IH.
Qed.

(** Claim C9, as amended.  While the mute flag is set, no run of capture
    ticks transmits a frame or changes anything.  Once the flag is
    cleared by [toggleMute], the next tick transmits its frame when the
    half-duplex gate is open (no output context, or the cursor not ahead
    of the device time); while the gate is closed the tick is dropped. *)
Theorem mute_gating (s : State) (w : World) (ts : list (Q * list Q))
    (now : Q) (inputData : list Q) (session : nat) :
  isMuted s = true ->
  isMutedRef s = true ->
  sessionPromise s = resolved session ->
  session_open session w = true ->
  ticks (s, w) ts = (s, w) /\
  isMutedRef (toggleMute s) = false /\
  (gate_open now s ->
   realtimeInput (onaudioprocess now inputData (toggleMute s) w).2 =
     realtimeInput w ++ [createBlob inputData]) /\
  (~ gate_open now s ->
   onaudioprocess now inputData (toggleMute s) w = (toggleMute s, w)).
Proof.
  intros Hm Hr Hp Ho. split; [apply ticks_muted, Hr|].
  unfold toggleMute. rewrite Hm. cbn [negb]. split; [reflexivity|].
  unfold onaudioprocess, gate_open.
  cbn [isMutedRef set_isMutedRef set_isMuted outputAudioContextRef
       nextStartTimeRef sessionPromise].
  rewrite Hp. split.
  - intros Hg. destruct (outputAudioContextRef s) as [h|] eqn:E.
    + destruct Hg as [Hg|Hg]; [discriminate Hg|].
      apply Qle_bool_iff in Hg. rewrite Hg. cbn [negb snd].
      unfold sendRealtimeInput. rewrite Ho. reflexivity.
    + cbn [snd]. unfold sendRealtimeInput. rewrite Ho. reflexivity.
  - intros Hg. destruct (outputAudioContextRef s) as [h|] eqn:E.
    + destruct (Qle_bool (nextStartTimeRef s) now) eqn:B; [|reflexivity].
      apply Qle_bool_iff in B. exfalso. apply Hg. right. exact B.
    + exfalso. apply Hg. left. reflexivity.
Qed.

(** Claim C9 fails as stated: in a session muted while the agent has
    audio queued, the first tick after the flag is cleared transmits
    nothing. *)
Lemma unmuted_tick_dropped :
  let '(s, w) := speaking_muted in
  isMutedRef s = true /\
  capturing s w = true /\
  sessionPromise s = resolved 0 /\
  session_open 0 w = true /\
  let '(s1, w1) := run (s, w) [EvToggleMute; EvTick 0 [0%Q]] in
  isMutedRef s1 = false /\ realtimeInput w1 = [].
Proof. vm_compute. repeat split. Qed.

(** Claim C9: the amended statement at the muted session
    [speaking_muted]. *)
Lemma mute_gating_witness :
  ticks (speaking_muted.1, speaking_muted.2) [(0%Q, [0%Q]); (1%Q, [0%Q])] =
    (speaking_muted.1, speaking_muted.2) /\
  isMutedRef (toggleMute speaking_muted.1) = false /\
  (gate_open 1 speaking_muted.1 ->
   realtimeInput
     (onaudioprocess 1 [0%Q] (toggleMute speaking_muted.1) speaking_muted.2).2 =
     realtimeInput speaking_muted.2 ++ [createBlob [0%Q]]) /\
  (~ gate_open 1 speaking_muted.1 ->
   onaudioprocess 1 [0%Q] (toggleMute speaking_muted.1) speaking_muted.2 =
     (toggleMute speaking_muted.1, speaking_muted.2)).
Proof.
  apply (mute_gating speaking_muted.1 speaking_muted.2
           [(0%Q, [0%Q]); (1%Q, [0%Q])] 1 [0%Q] 0%nat);
    vm_compute; reflexivity.
Defined.

End GateFacts.

(** ** Audio contexts *)

Section ContextFacts.
Import Platform.

Lemma AudioContext_close_contexts h w :
  audioContexts (AudioContext_close h w).2 = closed_at (Some h) (audioContexts w).
Proof.
  unfold AudioContext_close, closed_at.
  destruct (audioContexts w !! h) as [[]|]; reflexivity.
Qed.

Lemma closed_at_lookup ref l h :
  closed_at ref l !! h =
  if decide (ref = Some h) then (fun _ => closed) <$> l !! h else l !! h.
Proof.
  unfold closed_at. destruct ref as [h'|]; [|rewrite decide_False by discriminate; reflexivity].
  destruct (decide (Some h' = Some h)) as [[= ->]|Hne].
  - destruct (l !! h) as [[]|] eqn:E; cbn.
    + apply list_lookup_insert_eq. eapply lookup_lt_Some, E.
    + exact E.
    + exact E.
  - destruct (l !! h') as [[]|] eqn:E; try reflexivity.
    apply list_lookup_insert_ne. congruence.
Qed.

Lemma closed_at_length ref l : length (closed_at ref l) = length l.
Proof.
  unfold closed_at. destruct ref as [h|]; [|reflexivity].
  destruct (l !! h) as [[]|]; rewrite ?length_insert; reflexivity.
Qed.


Lemma closed_at_released ref l : released ref (closed_at ref l).
Proof.
  intros h ->. rewrite closed_at_lookup, decide_True by reflexivity.
  destruct (l !! h); discriminate.
Qed.

Lemma released_closed_at ref ref' l : released ref l -> released ref (closed_at ref' l).
Proof.
  intros Hr h ->. rewrite closed_at_lookup.
  destruct (decide (ref' = Some h)).
  - destruct (l !! h); discriminate.
  - apply Hr. reflexivity.
Qed.

Lemma closed_at_id ref l : released ref l -> closed_at ref l = l.
Proof.
  unfold closed_at, released. destruct ref as [h|]; [|reflexivity].
  intros Hr. specialize (Hr h eq_refl).
  destruct (l !! h) as [[]|]; congruence.
Qed.

Lemma AudioContext_close_released h w :
  released (Some h) (audioContexts w) ->
  AudioContext_close h w = (Throw InvalidStateError, w).
Proof.
  unfold AudioContext_close, released. intros Hr. specialize (Hr h eq_refl).
  destruct (audioContexts w !! h) as [[]|]; congruence.
Qed.

End ContextFacts.

(** ** The conversational view: stop, close and connect *)

Section PracticeLifecycle.
Import JS Codec Platform Practice Scenarios.

Lemma onMessage_world clock now m s w :
  let w' := (onMessage clock now m s w).2 in
  audioContexts w' = audioContexts w /\ micTracks w' = micTracks w /\
  sessions w' = sessions w /\ feedbackRequests w' = feedbackRequests w /\
  practiceHistory w' = practiceHistory w.
Proof.
  unfold onMessage, afterAudio, onInterrupted, startSource. cbv zeta.
  repeat case_match; cbn; repeat split; reflexivity.
Qed.

Lemma onaudioprocess_world now d s w :
  let w' := (onaudioprocess now d s w).2 in
  audioContexts w' = audioContexts w /\ micTracks w' = micTracks w /\
  sessions w' = sessions w /\ feedbackRequests w' = feedbackRequests w /\
  practiceHistory w' = practiceHistory w.
Proof.
  unfold onaudioprocess, sendRealtimeInput, log. cbv zeta.
  repeat case_match; cbn; repeat split; reflexivity.
Qed.

Lemma connect_world env s w :
  let w' := (connect env s w).2 in
  audioContexts w' = audioContexts w ++ [running; running] /\
  micTracks w `prefix_of` micTracks w' /\
  feedbackRequests w' = feedbackRequests w.
Proof.
  unfold connect, newAudioContext, getUserMedia, openSession, log. cbv zeta.
  repeat case_match; simplify_eq; cbn;
    rewrite <- ?app_assoc; repeat split; try reflexivity;
    try apply prefix_app_r; reflexivity.
Qed.

Lemma closeQuietly_contexts ref w :
  audioContexts (closeQuietly ref w) = closed_at ref (audioContexts w).
Proof.
  destruct ref as [h|]; [apply AudioContext_close_contexts|reflexivity].
Qed.

Lemma closeQuietly_released ref w :
  released ref (audioContexts w) -> closeQuietly ref w = w.
Proof.
  destruct ref as [h|]; [|reflexivity]. intros Hr. unfold closeQuietly.
  rewrite AudioContext_close_released by exact Hr. reflexivity.
Qed.

Lemma closeQuietly_frame ref w :
  micTracks (closeQuietly ref w) = micTracks w /\
  sessions (closeQuietly ref w) = sessions w /\
  feedbackRequests (closeQuietly ref w) = feedbackRequests w /\
  console (closeQuietly ref w) = console w /\
  unhandled (closeQuietly ref w) = unhandled w /\
  practiceHistory (closeQuietly ref w) = practiceHistory w.
Proof.
  unfold closeQuietly, AudioContext_close.
  repeat case_match; cbn; repeat split; reflexivity.
Qed.


Lemma teardown_contexts s w :
  audioContexts (teardown s w) =
  closed_at (outputAudioContextRef s)
    (closed_at (inputAudioContextRef s) (audioContexts w)).
Proof.
  unfold teardown. rewrite !closeQuietly_contexts.
  destruct (sessionRef s); reflexivity.
Qed.

Lemma teardown_released s w :
  released (inputAudioContextRef s) (audioContexts (teardown s w)) /\
  released (outputAudioContextRef s) (audioContexts (teardown s w)).
Proof.
  rewrite teardown_contexts. split.
  - apply released_closed_at, closed_at_released.
  - apply closed_at_released.
Qed.

Lemma teardown_frame s w :
  micTracks (teardown s w) = micTracks w /\
  feedbackRequests (teardown s w) = feedbackRequests w /\
  console (teardown s w) = console w /\
  unhandled (teardown s w) = unhandled w /\
  practiceHistory (teardown s w) = practiceHistory w /\
  sessions (teardown s w) =
    match sessionRef s with
    | Some h => <[h := false]> (sessions w)
    | None => sessions w
    end.
Proof.
  unfold teardown.
  destruct (closeQuietly_frame (outputAudioContextRef s)
              (closeQuietly (inputAudioContextRef s)
                 match sessionRef s with Some h => Session_close h w | None => w end))
    as (-> & -> & -> & -> & -> & ->).
  destruct (closeQuietly_frame (inputAudioContextRef s)
              match sessionRef s with Some h => Session_close h w | None => w end)
    as (-> & -> & -> & -> & -> & ->).
  destruct (sessionRef s); repeat split; reflexivity.
Qed.



Lemma handleDisconnect_short analysis s w :
  (length (conversationRef s) <= 2)%nat ->
  handleDisconnect analysis s w = (disconnected s, teardown s w).
Proof.
  intros Hlen. apply Nat.ltb_ge in Hlen.
  destruct s as [? ? ? ? ? ? ? ? ? ? ? ? ? [h|] ? ? ? ?];
    cbn [conversationRef] in Hlen;
    unfold handleDisconnect, disconnected, teardown; cbn -[Nat.ltb closeQuietly];
    rewrite Hlen; reflexivity.
Qed.

Lemma handleDisconnect_long analysis s w :
  (2 < length (conversationRef s))%nat ->
  handleDisconnect analysis s w =
  match analysis with
  | fulfilled feedbackData =>
      (set_isGeneratingFeedback false
         (set_status "Session Complete"
            (set_feedback (Some feedbackData) (analysing s w).1)),
       savePracticeSession feedbackData (analysing s w).2)
  | failed e =>
      (set_isGeneratingFeedback false
         (set_status "Session Complete (Error)"
            (set_feedbackError
               (Some analysisUnavailable)
               (analysing s w).1)),
       log "Feedback generation failed" (analysing s w).2)
  end.
Proof.
  intros Hlen. apply Nat.ltb_lt in Hlen.
  destruct s as [? ? ? ? ? ? ? ? ? ? ? ? ? [h|] ? ? ? ?];
    cbn [conversationRef] in Hlen;
    unfold handleDisconnect, analysing, teardown; cbn -[Nat.ltb closeQuietly];
    rewrite Hlen; destruct analysis; reflexivity.
Qed.

End PracticeLifecycle.

(** ** The tool-call handler *)

Section ToolCallFacts.
Import Platform Guardian Scenarios.

Context {A : Type}.
Variable onStatusUpdate : GuardianSignal -> A -> A * result unit.
Variable onTranscript : string -> string -> A -> A.
Variable session : nat.


Lemma sendAcknowledgement_resolved fc w :
  let w' := sendAcknowledgement (resolved session) fc w in
  toolResponses w' = toolResponses w ++ [acknowledgement fc] /\
  unhandled w' = unhandled w ++ [Exn TypeError].
Proof. split; reflexivity. Qed.

Lemma sendAcknowledgement_frame p fc w :
  let w' := sendAcknowledgement p fc w in
  sessions w' = sessions w /\ audioContexts w' = audioContexts w /\
  micTracks w' = micTracks w /\ feedbackRequests w' = feedbackRequests w /\
  console w' = console w /\ realtimeInput w' = realtimeInput w.
Proof. destruct p; repeat split; reflexivity. Qed.

Lemma acknowledge_frame p queued : forall w,
  let w' := acknowledge p queued w in
  sessions w' = sessions w /\ audioContexts w' = audioContexts w /\
  micTracks w' = micTracks w /\ feedbackRequests w' = feedbackRequests w /\
  console w' = console w /\ realtimeInput w' = realtimeInput w.
Proof.
  induction queued as [|fc queued IH]; intros w; cbv zeta.
  - repeat split; reflexivity.
  - unfold acknowledge. cbn [foldl]. fold (acknowledge p queued (sendAcknowledgement p fc w)).
    destruct (IH (sendAcknowledgement p fc w)) as (-> & -> & -> & -> & -> & ->).
    apply sendAcknowledgement_frame.
Qed.

(** The queued callbacks send one acknowledgement each, in order. *)
Lemma acknowledge_toolResponses queued : forall w,
  toolResponses (acknowledge (resolved session) queued w) =
    toolResponses w ++ map acknowledgement queued.
Proof.
  induction queued as [|fc queued IH]; intros w.
  - cbn. rewrite app_nil_r. reflexivity.
  - unfold acknowledge. cbn [foldl].
    fold (acknowledge (resolved session) queued (sendAcknowledgement (resolved session) fc w)).
    rewrite IH. cbn. rewrite <- app_assoc. reflexivity.
Qed.

Lemma onmessage_frame p m c a w :
  let r := onmessage onStatusUpdate onTranscript p m c a w in
  sessions r.2 = sessions w /\ audioContexts r.2 = audioContexts w /\
  micTracks r.2 = micTracks w /\ feedbackRequests r.2 = feedbackRequests w /\
  console r.2 = console w /\ realtimeInput r.2 = realtimeInput w.
Proof.
  unfold onmessage. cbv zeta.
  destruct (if turnComplete m then _ else _) as [c' a'].
  destruct (toolCall m) as [calls|]; [|repeat split; reflexivity].
  destruct (handleFunctionCalls onStatusUpdate calls a' []) as [[a'' queued] [[]|e]];
    cbn [snd].
  - apply acknowledge_frame.
  - destruct (acknowledge_frame p queued (set_unhandled (unhandled w ++ [Exn e]) w))
      as (-> & -> & -> & -> & -> & ->).
    repeat split; reflexivity.
Qed.

(** The loop queues the acknowledgement of the status calls it reaches:
    those before the first call on which the callback throws. *)
Lemma handleFunctionCalls_prefix calls : forall a queued,
  let r := handleFunctionCalls onStatusUpdate calls a queued in
  exists handled rest,
    calls = handled ++ rest /\
    r.1.2 = queued ++ List.filter isGuardianStatus handled /\
    match r.2 with
    | Ok _ => rest = []
    | Throw e =>
        exists fc rest' a', rest = fc :: rest' /\ isGuardianStatus fc = true /\
          (onStatusUpdate (fc_args fc) a').2 = Throw e
    end.
Proof.
  induction calls as [|fc calls IH]; intros a queued; cbv zeta.
  - exists [], []. cbn. rewrite !app_nil_r. repeat split; reflexivity.
  - cbn [handleFunctionCalls]. destruct (isGuardianStatus fc) eqn:Hn.
    + destruct (onStatusUpdate (fc_args fc) a) as [a' [[]|e]] eqn:Hcb.
      * destruct (IH a' (queued ++ [fc])) as (handled & rest & -> & I2 & I3).
        exists (fc :: handled), rest. split; [reflexivity|].
        rewrite I2. cbn [List.filter]. rewrite Hn, <- app_assoc.
        split; [reflexivity|exact I3].
      * exists [], (fc :: calls). cbn. rewrite !app_nil_r.
        repeat split; try reflexivity.
        exists fc, calls, a. rewrite Hcb. repeat split; try reflexivity. exact Hn.
    + destruct (IH a queued) as (handled & rest & -> & I2 & I3).
      exists (fc :: handled), rest. split; [reflexivity|].
      cbn [List.filter]. rewrite Hn. split; assumption.
Qed.

(** Claim C1, as amended.  The handler acknowledges the
    [update_guardian_status] calls it reaches, which are those before the
    first call on which the application callback throws: the
    acknowledgements sent are exactly theirs, one per call and in order,
    each carrying the identifier of its call; no send is repeated, and no
    send keeps the handler from the calls after it.  When the callback
    returns normally on the calls of the message, every
    [update_guardian_status] call is acknowledged; a call of another name
    is never acknowledged. *)
Theorem tool_calls_acknowledged (m : LiveServerMessage)
    (calls : list FunctionCall) (c : Conn) (a : A) (w : World) :
  toolCall m = Some calls ->
  let w' :=
    (onmessage onStatusUpdate onTranscript (resolved session)
       m c a w).2 in
  exists handled rest,
    calls = handled ++ rest /\
    toolResponses w' =
      toolResponses w ++
      map acknowledgement (List.filter isGuardianStatus handled) /\
    (rest = [] \/
     exists fc rest' a' e,
       rest = fc :: rest' /\ isGuardianStatus fc = true /\
       (onStatusUpdate (fc_args fc) a').2 = Throw e) /\
    ((forall fc a, fc ∈ calls -> isGuardianStatus fc = true ->
        (onStatusUpdate (fc_args fc) a).2 = Ok ()) ->
     rest = []).
Proof.
  intros Hm. unfold onmessage. cbv zeta. rewrite Hm.
  destruct (if turnComplete m then _ else _) as [c' a'].
  destruct (handleFunctionCalls_prefix calls a' [])
    as (handled & rest & Hc & H1 & H4).
  destruct (handleFunctionCalls onStatusUpdate calls a' [])
    as [[a'' queued] [[]|e]]; cbn in H1, H4 |- *; subst queued;
    rewrite acknowledge_toolResponses.
  - exists handled, rest.
    split; [exact Hc|]. split; [reflexivity|].
    split; [left; assumption|]. intros _. assumption.
  - destruct H4 as (fc & rest' & a0 & Hr & Hn & He).
    exists handled, rest.
    split; [exact Hc|]. split; [reflexivity|].
    split.
    + right. exists fc, rest', a0, e. repeat split; assumption.
    + intros Hcb. exfalso.
      assert (Hin : fc ∈ calls).
      { rewrite Hc, Hr. apply elem_of_app. right. left. }
      specialize (Hcb fc a0 Hin Hn). congruence.
Qed.

End ToolCallFacts.


(** ** The monitor: start, stop and close *)

Section GuardianLifecycle.
Import JS Codec Platform Guardian Scenarios.

Lemma startMonitoring_world env s w :
  let w' := (startMonitoring env s w).2 in
  audioContexts w' = audioContexts w ++ [running] /\
  micTracks w `prefix_of` micTracks w' /\
  feedbackRequests w' = feedbackRequests w.
Proof.
  unfold startMonitoring, newAudioContext, getUserMedia, openSession, log. cbv zeta.
  repeat case_match; simplify_eq; cbn;
    repeat split; try reflexivity; try apply prefix_app_r; reflexivity.
Qed.

Lemma guardian_onaudioprocess_world d s w :
  let w' := (Guardian.onaudioprocess d s w).2 in
  audioContexts w' = audioContexts w /\ micTracks w' = micTracks w /\
  feedbackRequests w' = feedbackRequests w.
Proof.
  unfold Guardian.onaudioprocess, sendRealtimeInput, log. cbv zeta.
  repeat case_match; cbn; repeat split; reflexivity.
Qed.

Lemma guardian_onError_world err s w :
  let w' := (Guardian.onError err s w).2 in
  audioContexts w' = audioContexts w /\ micTracks w' = micTracks w /\
  feedbackRequests w' = feedbackRequests w.
Proof.
  unfold Guardian.onError, log. cbv zeta.
  repeat case_match; cbn; repeat split; reflexivity.
Qed.


Lemma stopMonitoring_spec s w :
  let r := stopMonitoring s w in
  r.1 = stopped_view s /\
  audioContexts r.2 = closed_at (Guardian.inputAudioContextRef s) (audioContexts w) /\
  sessions r.2 =
    match Guardian.sessionRef s with
    | Some h => <[h := false]> (sessions w)
    | None => sessions w
    end /\
  micTracks r.2 = micTracks w /\ console r.2 = console w /\
  feedbackRequests r.2 = feedbackRequests w /\
  toolResponses r.2 = toolResponses w /\ realtimeInput r.2 = realtimeInput w.
Proof.
  destruct s as [? ? ? ? [c|] [h|] ? ? ?];
    unfold stopMonitoring, stopped_view, AudioContext_close, Session_close, closed_at;
    cbn; repeat case_match; simplify_eq; cbn; repeat split; reflexivity.
Qed.

(** A second [stopMonitoring] calls [close()] on the context the first one
    closed: the promise is rejected and nobody handles it. *)
Lemma stopMonitoring_again_unhandled g w h :
  Guardian.inputAudioContextRef g = Some h ->
  let once := stopMonitoring g w in
  unhandled (stopMonitoring once.1 once.2).2 =
    unhandled once.2 ++ [Exn InvalidStateError].
Proof.
  intros Href. cbv zeta.
  destruct (stopMonitoring_spec g w) as (Hs & Hc & _).
  set (once := stopMonitoring g w) in *.
  assert (Hrel : released (Some h) (audioContexts once.2)).
  { rewrite Hc, Href. apply closed_at_released. }
  rewrite Hs. unfold stopMonitoring at 1.
  cbn [stopped_view Guardian.sessionRef Guardian.set_guardianSignal Guardian.set_status
       Guardian.set_isConnected Guardian.set_sessionRef Guardian.set_isMonitoringRef
       Guardian.inputAudioContextRef].
  rewrite Href, (AudioContext_close_released h once.2 Hrel). reflexivity.
Qed.

End GuardianLifecycle.


(** ** Lifecycle of both views *)

Section LifecycleClaims.
Import JS Codec Platform Scenarios.

Lemma practice_step_world s w e :
  (Practice.step (s, w) e).2 =
  match e with
  | Practice.EvConnect env => (Practice.connect env s w).2
  | Practice.EvMessage clock now m => (Practice.onMessage clock now m s w).2
  | Practice.EvTick now d =>
      if Practice.capturing s w then (Practice.onaudioprocess now d s w).2 else w
  | Practice.EvError err => (Practice.onError err s w).2
  | Practice.EvDisconnect analysis => (Practice.handleDisconnect analysis s w).2
  | _ => w
  end.
Proof.
  unfold Practice.step. destruct e; try reflexivity.
  - destruct (Practice.connect env s w); reflexivity.
  - destruct (Practice.onMessage clock now m s w); reflexivity.
  - destruct (Practice.capturing s w); [|reflexivity].
    destruct (Practice.onaudioprocess now inputData s w); reflexivity.
  - destruct (Practice.handleDisconnect analysis s w); reflexivity.
Qed.

Lemma guardian_step_world c g w e :
  (Guardian.step (c, g, w) e).2 =
  match e with
  | Guardian.EvStart env => (Guardian.startMonitoring env g w).2
  | Guardian.EvTick d =>
      if Guardian.capturing g w then (Guardian.onaudioprocess d g w).2 else w
  | Guardian.EvMessage time m =>
      (Guardian.onmessage (Guardian.onStatus time) (Guardian.onTranscriptEntry time)
         (Guardian.sessionPromise g) m c g w).2
  | Guardian.EvError err => (Guardian.onError err g w).2
  | Guardian.EvStop => (Guardian.stopMonitoring g w).2
  | _ => w
  end.
Proof.
  unfold Guardian.step. destruct e; try reflexivity.
  - destruct (Guardian.startMonitoring env g w); reflexivity.
  - destruct (Guardian.capturing g w); [|reflexivity].
    destruct (Guardian.onaudioprocess inputData g w); reflexivity.
  - destruct (Guardian.onError err g w); reflexivity.
  - destruct (Guardian.stopMonitoring g w); reflexivity.
Qed.

Lemma handleDisconnect_world analysis s w :
  let w' := (Practice.handleDisconnect analysis s w).2 in
  audioContexts w' = audioContexts (Practice.teardown s w) /\
  sessions w' = sessions (Practice.teardown s w) /\
  micTracks w' = micTracks w /\
  unhandled w' = unhandled w.
Proof.
  cbv zeta. destruct (teardown_frame s w) as (Hm & _ & _ & Hu & _).
  destruct (Nat.le_gt_cases (length (Practice.conversationRef s)) 2) as [Hl|Hl].
  - rewrite handleDisconnect_short by exact Hl. cbn. repeat split; assumption.
  - rewrite handleDisconnect_long by exact Hl.
    destruct analysis; cbn; repeat split; assumption.
Qed.

Lemma practice_step_requests s w e :
  (forall analysis, e <> Practice.EvDisconnect analysis) ->
  feedbackRequests (Practice.step (s, w) e).2 = feedbackRequests w.
Proof.
  intros He. rewrite practice_step_world. destruct e; try reflexivity.
  - apply connect_world.
  - apply onMessage_world.
  - destruct (Practice.capturing s w); [apply onaudioprocess_world|reflexivity].
  - specialize (He analysis). congruence.
Qed.

Lemma practice_step_tracks s w e :
  micTracks w `prefix_of` micTracks (Practice.step (s, w) e).2.
Proof.
  rewrite practice_step_world. destruct e; try reflexivity.
  - apply connect_world.
  - destruct (onMessage_world clock now m s w) as (_ & -> & _). reflexivity.
  - destruct (Practice.capturing s w); [|reflexivity].
    destruct (onaudioprocess_world now inputData s w) as (_ & -> & _). reflexivity.
  - destruct (handleDisconnect_world analysis s w) as (_ & _ & -> & _). reflexivity.
Qed.

Lemma practice_step_contexts s w e :
  (forall analysis, e <> Practice.EvDisconnect analysis) ->
  audioContexts w `prefix_of` audioContexts (Practice.step (s, w) e).2.
Proof.
  intros He. rewrite practice_step_world. destruct e; try reflexivity.
  - destruct (connect_world env s w) as (-> & _). apply prefix_app_r. reflexivity.
  - destruct (onMessage_world clock now m s w) as (-> & _). reflexivity.
  - destruct (Practice.capturing s w); [|reflexivity].
    destruct (onaudioprocess_world now inputData s w) as (-> & _). reflexivity.
  - specialize (He analysis). congruence.
Qed.

Lemma guardian_step_requests c g w e :
  feedbackRequests (Guardian.step (c, g, w) e).2 = feedbackRequests w.
Proof.
  rewrite guardian_step_world. destruct e; try reflexivity.
  - apply startMonitoring_world.
  - destruct (Guardian.capturing g w); [apply guardian_onaudioprocess_world|reflexivity].
  - apply onmessage_frame.
  - apply guardian_onError_world.
  - apply stopMonitoring_spec.
Qed.

Lemma guardian_step_tracks c g w e :
  micTracks w `prefix_of` micTracks (Guardian.step (c, g, w) e).2.
Proof.
  rewrite guardian_step_world. destruct e; try reflexivity.
  - apply startMonitoring_world.
  - destruct (Guardian.capturing g w); [|reflexivity].
    destruct (guardian_onaudioprocess_world inputData g w) as (_ & -> & _). reflexivity.
  - destruct (onmessage_frame (Guardian.onStatus time) (Guardian.onTranscriptEntry time)
                (Guardian.sessionPromise g) m c g w) as (_ & _ & -> & _).
    reflexivity.
  - destruct (guardian_onError_world err g w) as (_ & -> & _). reflexivity.
  - destruct (stopMonitoring_spec g w) as (_ & _ & _ & -> & _). reflexivity.
Qed.

Lemma guardian_step_contexts c g w e :
  e <> Guardian.EvStop ->
  audioContexts w `prefix_of` audioContexts (Guardian.step (c, g, w) e).2.
Proof.
  intros He. rewrite guardian_step_world. destruct e; try reflexivity.
  - destruct (startMonitoring_world env g w) as (-> & _). apply prefix_app_r. reflexivity.
  - destruct (Guardian.capturing g w); [|reflexivity].
    destruct (guardian_onaudioprocess_world inputData g w) as (-> & _). reflexivity.
  - destruct (onmessage_frame (Guardian.onStatus time) (Guardian.onTranscriptEntry time)
                (Guardian.sessionPromise g) m c g w) as (_ & -> & _).
    reflexivity.
  - destruct (guardian_onError_world err g w) as (-> & _). reflexivity.
  - congruence.
Qed.

Lemma practice_step_refs s w e :
  (exists env, e = Practice.EvConnect env /\
     Practice.inputAudioContextRef (Practice.step (s, w) e).1 =
       Some (length (audioContexts w)) /\
     Practice.outputAudioContextRef (Practice.step (s, w) e).1 =
       Some (S (length (audioContexts w)))) \/
  (Practice.inputAudioContextRef (Practice.step (s, w) e).1 =
     Practice.inputAudioContextRef s /\
   Practice.outputAudioContextRef (Practice.step (s, w) e).1 =
     Practice.outputAudioContextRef s).
Proof.
  destruct e.
  - left. exists env. split; [reflexivity|].
    unfold Practice.step, Practice.connect, newAudioContext, getUserMedia, openSession.
    cbv zeta. repeat case_match; simplify_eq; cbn; rewrite ?length_app; cbn;
      split; f_equal; lia.
  - right. split; reflexivity.
  - right. unfold Practice.step, Practice.onMessage, Practice.afterAudio,
      Practice.onInterrupted, Practice.startSource, Practice.transcribed,
      Practice.onTranscription.
    cbv zeta. repeat case_match; simplify_eq; cbn; split; first [reflexivity|congruence].
  - right. unfold Practice.step, Practice.onEnded. cbv zeta.
    repeat case_match; simplify_eq; cbn; split; first [reflexivity|congruence].
  - right. unfold Practice.step, Practice.onaudioprocess. cbv zeta.
    repeat case_match; simplify_eq; cbn; split; first [reflexivity|congruence].
  - right. split; reflexivity.
  - right. unfold Practice.step, Practice.onClose. cbv zeta.
    repeat case_match; simplify_eq; cbn; split; first [reflexivity|congruence].
  - right. split; reflexivity.
  - right. unfold Practice.step.
    destruct (Practice.handleDisconnect analysis s w) as [s' w'] eqn:E.
    cbn [fst Practice.render Practice.inputAudioContextRef
         Practice.outputAudioContextRef Practice.set_conversationRef].
    assert (Hs : s' = (Practice.handleDisconnect analysis s w).1) by (rewrite E; reflexivity).
    rewrite Hs. clear E Hs.
    destruct (Nat.le_gt_cases (length (Practice.conversationRef s)) 2) as [Hl|Hl].
    + rewrite handleDisconnect_short by exact Hl. split; reflexivity.
    + rewrite handleDisconnect_long by exact Hl. destruct analysis; split; reflexivity.
  - right. split; reflexivity.
Qed.

Lemma practice_step_contexts_length s w e :
  (length (audioContexts w) <= length (audioContexts (Practice.step (s, w) e).2))%nat /\
  (forall env, e = Practice.EvConnect env ->
     length (audioContexts (Practice.step (s, w) e).2) =
       S (S (length (audioContexts w)))).
Proof.
  rewrite practice_step_world. destruct e;
    try (split; [reflexivity|intros ? [=]]).
  - destruct (connect_world env s w) as (-> & _). rewrite length_app. cbn.
    split; [lia|]. intros _ _. lia.
  - destruct (onMessage_world clock now m s w) as (-> & _).
    split; [reflexivity|intros ? [=]].
  - destruct (Practice.capturing s w); [|split; [reflexivity|intros ? [=]]].
    destruct (onaudioprocess_world now inputData s w) as (-> & _).
    split; [reflexivity|intros ? [=]].
  - destruct (handleDisconnect_world analysis s w) as (-> & _).
    rewrite teardown_contexts, !closed_at_length.
    split; [reflexivity|intros ? [=]].
Qed.

Lemma practice_step_valid sw e :
  Practice.refs_valid sw -> Practice.refs_valid (Practice.step sw e).
Proof.
  destruct sw as [s w]. unfold Practice.refs_valid. cbn [fst snd]. intros Hv h Hh.
  destruct (practice_step_contexts_length s w e) as [Hle Hconn].
  destruct (practice_step_refs s w e) as [(env & -> & Hi & Ho)|[Hi Ho]].
  - rewrite (Hconn env eq_refl). rewrite Hi, Ho in Hh.
    destruct Hh as [[= <-]|[= <-]]; lia.
  - rewrite Hi, Ho in Hh. specialize (Hv h Hh). lia.
Qed.

Lemma practice_run_valid es : forall sw,
  Practice.refs_valid sw -> Practice.refs_valid (Practice.run sw es).
Proof.
  induction es as [|e es IH]; intros sw Hv; [exact Hv|].
  unfold Practice.run in *. cbn [foldl]. apply IH, practice_step_valid, Hv.
Qed.

Lemma practice_reachable_valid es :
  Practice.refs_valid (Practice.run (Practice.initial, empty_world) es).
Proof. apply practice_run_valid. intros h [H|H]; discriminate H. Qed.

Lemma onStatus_ref time sig g :
  Guardian.inputAudioContextRef (Guardian.onStatus time sig g).1 =
  Guardian.inputAudioContextRef g.
Proof. unfold Guardian.onStatus. repeat case_match; reflexivity. Qed.

Lemma handleFunctionCalls_view_ref time calls : forall g queued,
  Guardian.inputAudioContextRef
    (Guardian.handleFunctionCalls (Guardian.onStatus time) calls g queued).1.1 =
  Guardian.inputAudioContextRef g.
Proof.
  induction calls as [|fc calls IH]; intros g queued; [reflexivity|].
  cbn [Guardian.handleFunctionCalls].
  destruct (Guardian.isGuardianStatus fc); [|apply IH].
  pose proof (onStatus_ref time (Guardian.fc_args fc) g) as Hr.
  destruct (Guardian.onStatus time (Guardian.fc_args fc) g) as [g' [[]|e]];
    cbn in Hr |- *; [rewrite IH|]; exact Hr.
Qed.

Lemma onmessage_view_ref time p m c g w :
  Guardian.inputAudioContextRef
    (Guardian.onmessage (Guardian.onStatus time) (Guardian.onTranscriptEntry time)
       p m c g w).1.2 =
  Guardian.inputAudioContextRef g.
Proof.
  unfold Guardian.onmessage. cbv zeta.
  set (c1 := match Guardian.inputTranscription m with Some _ => _ | None => _ end).
  set (c2 := match Guardian.outputTranscription m with Some _ => _ | None => _ end).
  assert (Hflush : forall role acc g0,
            Guardian.inputAudioContextRef
              (Guardian.flush (Guardian.onTranscriptEntry time) role acc g0).2 =
            Guardian.inputAudioContextRef g0).
  { intros role acc g0. unfold Guardian.flush. destruct (Str.trim acc); reflexivity. }
  destruct (Guardian.turnComplete m).
  - pose proof (Hflush "user" (Guardian.currentInputTrans c2) g) as H1.
    destruct (Guardian.flush (Guardian.onTranscriptEntry time) "user"
                (Guardian.currentInputTrans c2) g) as [i g1].
    pose proof (Hflush "model"
                  (Guardian.currentOutputTrans (Guardian.set_currentInputTrans i c2)) g1) as H2.
    destruct (Guardian.flush (Guardian.onTranscriptEntry time) "model"
                (Guardian.currentOutputTrans (Guardian.set_currentInputTrans i c2)) g1)
      as [o g2].
    cbn in H1, H2. rewrite <- H1, <- H2.
    destruct (Guardian.toolCall m) as [calls|]; [|reflexivity].
    pose proof (handleFunctionCalls_view_ref time calls g2 []) as H3.
    destruct (Guardian.handleFunctionCalls (Guardian.onStatus time) calls g2 [])
      as [[g3 w3] [[]|e]]; exact H3.
  - destruct (Guardian.toolCall m) as [calls|]; [|reflexivity].
    pose proof (handleFunctionCalls_view_ref time calls g []) as H3.
    destruct (Guardian.handleFunctionCalls (Guardian.onStatus time) calls g [])
      as [[g3 w3] [[]|e]]; exact H3.
Qed.

Lemma guardian_step_refs c g w e :
  (exists env, e = Guardian.EvStart env /\
     Guardian.inputAudioContextRef (Guardian.step (c, g, w) e).1.2 =
       Some (length (audioContexts w))) \/
  Guardian.inputAudioContextRef (Guardian.step (c, g, w) e).1.2 =
    Guardian.inputAudioContextRef g.
Proof.
  destruct e.
  - left. exists env. split; [reflexivity|].
    unfold Guardian.step, Guardian.startMonitoring, newAudioContext, getUserMedia,
      openSession. cbv zeta. repeat case_match; simplify_eq; reflexivity.
  - right. unfold Guardian.step, Guardian.onOpen. repeat case_match; reflexivity.
  - right. unfold Guardian.step, Guardian.onaudioprocess. cbv zeta.
    repeat case_match; simplify_eq; cbn; first [reflexivity|congruence].
  - right. unfold Guardian.step.
    apply onmessage_view_ref.
  - right. unfold Guardian.step, Guardian.onClose. repeat case_match; reflexivity.
  - right. unfold Guardian.step, Guardian.onError. cbv zeta.
    repeat case_match; simplify_eq; cbn; first [reflexivity|congruence].
  - right. unfold Guardian.step.
    destruct (stopMonitoring_spec g w) as (Hs & _).
    destruct (Guardian.stopMonitoring g w) as [g' w']. cbn in Hs |- *. rewrite Hs.
    reflexivity.
Qed.

Lemma guardian_step_contexts_length c g w e :
  (length (audioContexts w) <= length (audioContexts (Guardian.step (c, g, w) e).2))%nat /\
  (forall env, e = Guardian.EvStart env ->
     length (audioContexts (Guardian.step (c, g, w) e).2) =
       S (length (audioContexts w))).
Proof.
  rewrite guardian_step_world. destruct e;
    try (split; [reflexivity|intros ? [=]]).
  - destruct (startMonitoring_world env g w) as (-> & _). rewrite length_app. cbn.
    split; [lia|]. intros _ _. lia.
  - destruct (Guardian.capturing g w); [|split; [reflexivity|intros ? [=]]].
    destruct (guardian_onaudioprocess_world inputData g w) as (-> & _).
    split; [reflexivity|intros ? [=]].
  - destruct (onmessage_frame (Guardian.onStatus time) (Guardian.onTranscriptEntry time)
                (Guardian.sessionPromise g) m c g w) as (_ & -> & _).
    split; [reflexivity|intros ? [=]].
  - destruct (guardian_onError_world err g w) as (-> & _).
    split; [reflexivity|intros ? [=]].
  - destruct (stopMonitoring_spec g w) as (_ & -> & _). rewrite closed_at_length.
    split; [reflexivity|intros ? [=]].
Qed.

Lemma guardian_step_valid x e :
  Guardian.refs_valid x -> Guardian.refs_valid (Guardian.step x e).
Proof.
  destruct x as [[c g] w]. unfold Guardian.refs_valid. cbn [fst snd]. intros Hv h Hh.
  destruct (guardian_step_contexts_length c g w e) as [Hle Hstart].
  destruct (guardian_step_refs c g w e) as [(env & -> & Hi)|Hi].
  - rewrite (Hstart env eq_refl). rewrite Hi in Hh. injection Hh as <-. lia.
  - rewrite Hi in Hh. specialize (Hv h Hh). lia.
Qed.

Lemma guardian_run_valid es : forall x,
  Guardian.refs_valid x -> Guardian.refs_valid (Guardian.run x es).
Proof.
  induction es as [|e es IH]; intros x Hv; [exact Hv|].
  unfold Guardian.run in *. cbn [foldl]. apply IH, guardian_step_valid, Hv.
Qed.

Lemma guardian_reachable_valid es :
  Guardian.refs_valid
    (Guardian.run Guardian.initial_system es).
Proof. apply guardian_run_valid. intros h H. discriminate H. Qed.

(** Claim C2.  When the close callback fires with the explicit-stop flag
    unset, the transcript is left as it is (so non-empty when it was), the
    feedback and the mute state are kept, and the status tells the drop
    instead of "Disconnected"; the callback does nothing outside the view.
    Only [handleDisconnect] calls the analysis, which it does on a
    transcript of more than two messages; the monitor never does. *)
Theorem dropped_connection_preserves_transcript
    (s : Practice.State) (g : Guardian.State) :
  Practice.isExplicitlyStoppedRef s = false ->
  Practice.conversation s <> [] ->
  Guardian.isMonitoringRef g = true ->
  Guardian.transcript g <> [] ->
  (let s' := Practice.onClose s in
   Practice.conversation s' = Practice.conversation s /\
   Practice.conversation s' <> [] /\
   Practice.conversationRef s' = Practice.conversationRef s /\
   Practice.feedback s' = Practice.feedback s /\
   Practice.feedbackError s' = Practice.feedbackError s /\
   Practice.isMuted s' = Practice.isMuted s /\
   Practice.status s' =
     "Connection Ended (Check Network). You can View Analysis." /\
   Practice.status s' <> "Disconnected") /\
  (forall w, (Practice.step (s, w) Practice.EvClose).2 = w) /\
  (forall w e,
     feedbackRequests (Practice.step (s, w) e).2 <> feedbackRequests w ->
     exists analysis, e = Practice.EvDisconnect analysis) /\
  (forall w analysis,
     (2 < length (Practice.conversationRef s))%nat ->
     feedbackRequests (Practice.handleDisconnect analysis s w).2 =
       feedbackRequests w ++ [Practice.transcriptText (Practice.conversationRef s)]) /\
  (let g' := Guardian.onClose g in
   Guardian.transcript g' = Guardian.transcript g /\
   Guardian.transcript g' <> [] /\
   Guardian.guardianSignal g' = Guardian.guardianSignal g /\
   Guardian.isMonitoringRef g' = true /\
   Guardian.status g' = "Connection Dropped. Transcript Saved." /\
   Guardian.status g' <> "Disconnected") /\
  (forall c w,
     (Guardian.step (c, g, w) Guardian.EvClose).2 = w) /\
  (forall c w e,
     feedbackRequests (Guardian.step (c, g, w) e).2 = feedbackRequests w).
Proof.
  intros Hstop Hconv Hmon Htr.
  split; [|split; [|split; [|split; [|split; [|split]]]]].
  - cbv zeta. destruct s. cbn in Hstop, Hconv. subst. cbn.
    repeat split; try reflexivity; try assumption. discriminate.
  - intros w. reflexivity.
  - intros w e Hne.
    destruct e; try (exfalso; apply Hne; apply practice_step_requests; discriminate).
    exists analysis. reflexivity.
  - intros w analysis Hlen. rewrite handleDisconnect_long by exact Hlen.
    destruct (teardown_frame s w) as (_ & Hf & _).
    destruct analysis; cbn; rewrite Hf; reflexivity.
  - cbv zeta. destruct g. cbn in Hmon, Htr. subst. cbn.
    repeat split; try reflexivity; try assumption. discriminate.
  - intros c w. reflexivity.
  - intros c w e. apply guardian_step_requests.
Qed.

(** Claim C2 at a practice session of three messages and a monitoring
    session with one transcript entry. *)
Lemma dropped_connection_preserves_transcript_witness :
  (let s' := Practice.onClose talked.1 in
   Practice.conversation s' = Practice.conversation talked.1 /\
   Practice.conversation s' <> [] /\
   Practice.conversationRef s' = Practice.conversationRef talked.1 /\
   Practice.feedback s' = Practice.feedback talked.1 /\
   Practice.feedbackError s' = Practice.feedbackError talked.1 /\
   Practice.isMuted s' = Practice.isMuted talked.1 /\
   Practice.status s' =
     "Connection Ended (Check Network). You can View Analysis." /\
   Practice.status s' <> "Disconnected") /\
  (forall w, (Practice.step (talked.1, w) Practice.EvClose).2 = w) /\
  (forall w e,
     feedbackRequests (Practice.step (talked.1, w) e).2 <> feedbackRequests w ->
     exists analysis, e = Practice.EvDisconnect analysis) /\
  (forall w analysis,
     (2 < length (Practice.conversationRef talked.1))%nat ->
     feedbackRequests (Practice.handleDisconnect analysis talked.1 w).2 =
       feedbackRequests w ++
       [Practice.transcriptText (Practice.conversationRef talked.1)]) /\
  (let g' := Guardian.onClose monitoring.1.2 in
   Guardian.transcript g' = Guardian.transcript monitoring.1.2 /\
   Guardian.transcript g' <> [] /\
   Guardian.guardianSignal g' = Guardian.guardianSignal monitoring.1.2 /\
   Guardian.isMonitoringRef g' = true /\
   Guardian.status g' = "Connection Dropped. Transcript Saved." /\
   Guardian.status g' <> "Disconnected") /\
  (forall c w,
     (Guardian.step (c, monitoring.1.2, w) Guardian.EvClose).2 = w) /\
  (forall c w e,
     feedbackRequests (Guardian.step (c, monitoring.1.2, w) e).2 =
       feedbackRequests w).
Proof.
  apply (dropped_connection_preserves_transcript talked.1 monitoring.1.2).
  - vm_compute. reflexivity.
  - vm_compute. discriminate.
  - vm_compute. reflexivity.
  - vm_compute. discriminate.
Defined.

Lemma handleDisconnect_closes analysis s w h :
  Practice.inputAudioContextRef s = Some h \/
  Practice.outputAudioContextRef s = Some h ->
  is_Some (audioContexts w !! h) ->
  audioContexts (Practice.handleDisconnect analysis s w).2 !! h = Some closed.
Proof.
  intros Href [x Hx].
  destruct (handleDisconnect_world analysis s w) as (-> & _).
  rewrite teardown_contexts, !closed_at_lookup, Hx.
  destruct Href as [Hi|Ho].
  - rewrite (decide_True (P := Practice.inputAudioContextRef s = Some h)) by exact Hi.
    destruct (decide (Practice.outputAudioContextRef s = Some h)); reflexivity.
  - rewrite (decide_True (P := Practice.outputAudioContextRef s = Some h)) by exact Ho.
    destruct (decide (Practice.inputAudioContextRef s = Some h)); reflexivity.
Qed.

Lemma stopMonitoring_closes g w h :
  Guardian.inputAudioContextRef g = Some h ->
  is_Some (audioContexts w !! h) ->
  audioContexts (Guardian.stopMonitoring g w).2 !! h = Some closed.
Proof.
  intros Href [x Hx].
  destruct (stopMonitoring_spec g w) as (_ & -> & _).
  rewrite closed_at_lookup, Hx, decide_True by exact Href. reflexivity.
Qed.

(** Claim C7, as amended.  The explicit stop of either view closes the
    audio contexts the view holds, in every state a session can reach.
    No handler of either view stops a microphone track, and no event other
    than the explicit stop closes an audio context: the close and error
    callbacks and a failed connect release nothing. *)
Theorem stop_closes_audio_contexts
    (s : Practice.State) (g : Guardian.State) (w : World) :
  (forall analysis h,
     Practice.inputAudioContextRef s = Some h \/
     Practice.outputAudioContextRef s = Some h ->
     is_Some (audioContexts w !! h) ->
     audioContexts (Practice.handleDisconnect analysis s w).2 !! h = Some closed) /\
  (forall es analysis h,
     let sw := Practice.run (Practice.initial, empty_world) es in
     Practice.inputAudioContextRef sw.1 = Some h \/
     Practice.outputAudioContextRef sw.1 = Some h ->
     audioContexts (Practice.handleDisconnect analysis sw.1 sw.2).2 !! h =
       Some closed) /\
  (forall h,
     Guardian.inputAudioContextRef g = Some h ->
     is_Some (audioContexts w !! h) ->
     audioContexts (Guardian.stopMonitoring g w).2 !! h = Some closed) /\
  (forall es h,
     let x := Guardian.run Guardian.initial_system es in
     Guardian.inputAudioContextRef x.1.2 = Some h ->
     audioContexts (Guardian.stopMonitoring x.1.2 x.2).2 !! h = Some closed) /\
  (forall analysis,
     micTracks (Practice.handleDisconnect analysis s w).2 = micTracks w) /\
  micTracks (Guardian.stopMonitoring g w).2 = micTracks w /\
  (forall e, micTracks w `prefix_of` micTracks (Practice.step (s, w) e).2) /\
  (forall c e, micTracks w `prefix_of` micTracks (Guardian.step (c, g, w) e).2) /\
  (forall e,
     (forall analysis, e <> Practice.EvDisconnect analysis) ->
     audioContexts w `prefix_of` audioContexts (Practice.step (s, w) e).2) /\
  (forall c e,
     e <> Guardian.EvStop ->
     audioContexts w `prefix_of` audioContexts (Guardian.step (c, g, w) e).2).
Proof.
  split; [|split; [|split; [|split; [|split; [|split; [|split; [|split; [|split]]]]]]]].
  - intros analysis h. apply handleDisconnect_closes.
  - intros es analysis h sw Href. apply handleDisconnect_closes; [exact Href|].
    apply lookup_lt_is_Some. apply (practice_reachable_valid es h Href).
  - intros h. apply stopMonitoring_closes.
  - intros es h x Href. apply stopMonitoring_closes; [exact Href|].
    apply lookup_lt_is_Some. apply (guardian_reachable_valid es h Href).
  - intros analysis. apply handleDisconnect_world.
  - apply stopMonitoring_spec.
  - apply practice_step_tracks.
  - intros c e. apply guardian_step_tracks.
  - apply practice_step_contexts.
  - intros c e. apply guardian_step_contexts.
Qed.

(** Claim C7: the amended statement at a practice session and a
    monitoring session, each holding running contexts. *)
Lemma stop_closes_audio_contexts_witness :
  audioContexts
    (Practice.handleDisconnect (fulfilled good) talked.1 talked.2).2 !! 0%nat =
    Some closed /\
  audioContexts (Guardian.stopMonitoring monitoring.1.2 monitoring.2).2 !! 0%nat =
    Some closed.
Proof.
  split.
  - apply (proj1 (stop_closes_audio_contexts talked.1 monitoring.1.2 talked.2)
             (fulfilled good) 0%nat).
    + left. vm_compute. reflexivity.
    + vm_compute. eexists. reflexivity.
  - apply (proj1 (proj2 (proj2
             (stop_closes_audio_contexts talked.1 monitoring.1.2 monitoring.2)))
             0%nat).
    + vm_compute. reflexivity.
    + vm_compute. eexists. reflexivity.
Defined.

(** Claim C7 fails as stated: after the explicit stop of either view the
    microphone track is still live, and after a connect refused by the
    microphone both audio contexts are still running. *)
Lemma microphone_left_live :
  micTracks (Practice.run talked [Practice.EvDisconnect (fulfilled good)]).2 = [true] /\
  audioContexts
    (Practice.run (Practice.initial, empty_world) [Practice.EvConnect denied]).2 =
    [running; running] /\
  micTracks (Guardian.run monitoring [Guardian.EvStop]).2 = [true].
Proof. vm_compute. repeat split. Qed.

(** Claim C8, as amended.  A second stop leaves the audio contexts, the
    sessions, the microphone tracks and the flags of the view as the first
    did: the session ref is already cleared and the contexts are already
    closed.  In the conversational view the two stops reach the same state
    when the transcript has at most two messages; with more, the second
    stop requests the analysis again.  In the monitor the view state, the
    contexts, the sessions and the console are the same. *)
Theorem stop_twice (s : Practice.State) (g : Guardian.State) (w : World)
    (a1 a2 : outcome Practice.PracticeFeedback) :
  let once := Practice.handleDisconnect a1 s w in
  let twice := Practice.handleDisconnect a2 once.1 once.2 in
  let monitor_once := Guardian.stopMonitoring g w in
  let monitor_twice := Guardian.stopMonitoring monitor_once.1 monitor_once.2 in
  (audioContexts twice.2 = audioContexts once.2 /\
   sessions twice.2 = sessions once.2 /\
   micTracks twice.2 = micTracks once.2 /\
   unhandled twice.2 = unhandled once.2) /\
  (Practice.sessionRef once.1 = None /\
   Practice.sessionRef twice.1 = None /\
   Practice.isExplicitlyStoppedRef twice.1 = true /\
   Practice.isConnected twice.1 = false /\
   Practice.isAiSpeaking twice.1 = false /\
   Practice.conversation twice.1 = Practice.conversation once.1) /\
  ((length (Practice.conversationRef s) <= 2)%nat -> twice = once) /\
  ((2 < length (Practice.conversationRef s))%nat ->
   feedbackRequests twice.2 =
     feedbackRequests once.2 ++
     [Practice.transcriptText (Practice.conversationRef s)] /\
   (forall f, a1 = fulfilled f -> a2 = fulfilled f -> twice.1 = once.1)) /\
  (monitor_twice.1 = monitor_once.1 /\
   audioContexts monitor_twice.2 = audioContexts monitor_once.2 /\
   sessions monitor_twice.2 = sessions monitor_once.2 /\
   micTracks monitor_twice.2 = micTracks monitor_once.2 /\
   console monitor_twice.2 = console monitor_once.2).
Proof.
  cbv zeta.
  assert (Hrefs : forall a s w,
            Practice.sessionRef (Practice.handleDisconnect a s w).1 = None /\
            Practice.inputAudioContextRef (Practice.handleDisconnect a s w).1 =
              Practice.inputAudioContextRef s /\
            Practice.outputAudioContextRef (Practice.handleDisconnect a s w).1 =
              Practice.outputAudioContextRef s /\
            Practice.conversationRef (Practice.handleDisconnect a s w).1 =
              Practice.conversationRef s /\
            Practice.conversation (Practice.handleDisconnect a s w).1 =
              Practice.conversation s /\
            Practice.isExplicitlyStoppedRef (Practice.handleDisconnect a s w).1 = true /\
            Practice.isConnected (Practice.handleDisconnect a s w).1 = false /\
            Practice.isAiSpeaking (Practice.handleDisconnect a s w).1 = false).
  { intros a s0 w0.
    destruct (Nat.le_gt_cases (length (Practice.conversationRef s0)) 2) as [Hl|Hl].
    - rewrite handleDisconnect_short by exact Hl. cbn. repeat split; reflexivity.
    - rewrite handleDisconnect_long by exact Hl.
      destruct a; cbn; repeat split; reflexivity. }
  destruct (Hrefs a1 s w) as (R1 & R2 & R3 & R4 & R5 & R6 & R7 & R8).
  set (once := Practice.handleDisconnect a1 s w) in *.
  destruct (handleDisconnect_world a1 s w) as (W1 & W2 & W3 & W4). cbv zeta in *.
  fold once in W1, W2, W3, W4.
  destruct (teardown_released s w) as [Rin Rout].
  rewrite <- W1 in Rin, Rout.
  assert (Hteardown : Practice.teardown once.1 once.2 = once.2).
  { unfold Practice.teardown. rewrite R1, R2, R3.
    rewrite (closeQuietly_released (Practice.inputAudioContextRef s)) by exact Rin.
    apply closeQuietly_released. exact Rout. }
  destruct (Hrefs a2 once.1 once.2) as (S1 & S2 & S3 & S4 & S5 & S6 & S7 & S8).
  destruct (handleDisconnect_world a2 once.1 once.2) as (V1 & V2 & V3 & V4).
  cbv zeta in *. rewrite Hteardown in V1, V2.
  split; [repeat split; assumption|].
  split; [repeat split; assumption|].
  split; [|split].
  - intros Hl.
    rewrite (handleDisconnect_short a2) by (rewrite R4; exact Hl).
    rewrite Hteardown. unfold once at 3. rewrite handleDisconnect_short by exact Hl.
    unfold once. rewrite handleDisconnect_short by exact Hl. reflexivity.
  - intros Hl. split.
    + rewrite (handleDisconnect_long a2) by (rewrite R4; exact Hl).
      unfold Practice.analysing. rewrite Hteardown, R4.
      destruct a2; reflexivity.
    + intros f -> ->.
      rewrite (handleDisconnect_long (fulfilled f)) by (rewrite R4; exact Hl).
      unfold once. rewrite handleDisconnect_long by exact Hl. reflexivity.
  - destruct (stopMonitoring_spec g w) as (G1 & G2 & G3 & G4 & G5 & _).
    destruct (stopMonitoring_spec (Guardian.stopMonitoring g w).1
                (Guardian.stopMonitoring g w).2) as (H1 & H2 & H3 & H4 & H5 & _).
    cbv zeta in *. rewrite G1 in H1, H2, H3, H4, H5 |- *.
    split; [rewrite H1; reflexivity|].
    split; [|split; [|split]].
    + rewrite H2. apply closed_at_id. rewrite G2. apply closed_at_released.
    + rewrite H3. reflexivity.
    + rewrite H4. reflexivity.
    + rewrite H5. reflexivity.
Qed.

(** Claim C8: the amended statement at a session of three messages, where
    the second stop requests the analysis again, and at a session stopped
    before anything was said, where it changes nothing. *)
Lemma stop_twice_witness :
  (let once := Practice.handleDisconnect (fulfilled good) talked.1 talked.2 in
   let twice := Practice.handleDisconnect (fulfilled good) once.1 once.2 in
   feedbackRequests twice.2 =
     feedbackRequests once.2 ++
     [Practice.transcriptText (Practice.conversationRef talked.1)] /\
   (forall f, fulfilled good = fulfilled f -> fulfilled good = fulfilled f ->
      twice.1 = once.1)) /\
  (let once :=
     Practice.handleDisconnect (fulfilled good) speaking_muted.1 speaking_muted.2 in
   let twice := Practice.handleDisconnect (fulfilled good) once.1 once.2 in
   twice = once).
Proof.
  split.
  - apply (proj1 (proj2 (proj2 (proj2
             (stop_twice talked.1 monitoring.1.2 talked.2
                (fulfilled good) (fulfilled good)))))).
    vm_compute. lia.
  - apply (proj1 (proj2 (proj2
             (stop_twice speaking_muted.1 monitoring.1.2 speaking_muted.2
                (fulfilled good) (fulfilled good))))).
    vm_compute. lia.
Defined.

(** Claim C8 fails as stated: on a transcript of three messages a second
    stop requests the analysis a second time, saving a second history
    entry, and when that request fails the status and the feedback error
    differ from those after one stop. *)
Lemma second_stop_repeats_analysis :
  let once := Practice.run talked [Practice.EvDisconnect (fulfilled good)] in
  let twice := Practice.run once [Practice.EvDisconnect (failed (Error "quota"))] in
  let again := Practice.run once [Practice.EvDisconnect (fulfilled good)] in
  length (Practice.conversationRef talked.1) = 3%nat /\
  Practice.status once.1 = "Session Complete" /\
  Practice.feedbackError once.1 = None /\
  length (feedbackRequests once.2) = 1%nat /\
  length (practiceHistory once.2) = 1%nat /\
  Practice.status twice.1 = "Session Complete (Error)" /\
  Practice.feedbackError twice.1 <> None /\
  length (feedbackRequests twice.2) = 2%nat /\
  length (feedbackRequests again.2) = 2%nat /\
  length (practiceHistory again.2) = 2%nat.
Proof. vm_compute. repeat split. discriminate. Qed.

End LifecycleClaims.


(** ** Tool calls in a monitoring session *)

Section ToolCallScenarios.
Import Platform Guardian Scenarios.


(** Claim C1: the amended statement for the view's callback and a message
    of three calls. *)
Lemma tool_calls_acknowledged_witness :
  let w' :=
    (onmessage (onStatus "10:01") (onTranscriptEntry "10:01")
       (resolved 0) (tool_message [mild_call; other_call; mild_call])
       monitoring.1.1 monitoring.1.2 monitoring.2).2 in
  exists handled rest,
    [mild_call; other_call; mild_call] = handled ++ rest /\
    toolResponses w' =
      toolResponses monitoring.2 ++
      map acknowledgement (List.filter isGuardianStatus handled) /\
    (rest = [] \/
     exists fc rest' a' e,
       rest = fc :: rest' /\ isGuardianStatus fc = true /\
       (onStatus "10:01" (fc_args fc) a').2 = Throw e) /\
    ((forall fc a, fc ∈ [mild_call; other_call; mild_call] ->
        isGuardianStatus fc = true ->
        (onStatus "10:01" (fc_args fc) a).2 = Ok ()) ->
     rest = []).
Proof.
  apply (tool_calls_acknowledged (onStatus "10:01") (onTranscriptEntry "10:01")
           0%nat
           (tool_message [mild_call; other_call; mild_call])
           [mild_call; other_call; mild_call]).
  reflexivity.
Defined.

(** Claim C1 fails as stated: when the callback throws on a call whose
    arguments lack the signal, neither that call nor the one after it is
    acknowledged; and a call of another name is not acknowledged. *)
Lemma tool_call_unacknowledged :
  toolResponses
    (Guardian.step monitoring
       (EvMessage "10:01" (tool_message [bare_call; mild_call]))).2 = [] /\
  unhandled
    (Guardian.step monitoring
       (EvMessage "10:01" (tool_message [bare_call; mild_call]))).2 =
    unhandled monitoring.2 ++ [Exn TypeError] /\
  toolResponses
    (Guardian.step monitoring
       (EvMessage "10:01" (tool_message [other_call]))).2 = [].
Proof. vm_compute. repeat split. Qed.

End ToolCallScenarios.

Section StringFacts.

Lemma append_cons x (a b : string) : String x a +:+ b = String x (a +:+ b).
Proof. reflexivity. Qed.


Lemma append_nil_r (a : string) : a +:+ EmptyString = a.
Proof.
  induction a as [|x a IH]; [reflexivity|].
  rewrite append_cons, IH. reflexivity.
Qed.

End StringFacts.

Section TurnFacts.
Import Platform Guardian Turns Scenarios.

Context {A : Type}.
Variable onStatusUpdate : GuardianSignal -> A -> A * result unit.
Variable onTranscript : string -> string -> A -> A.
Variable p : SessionPromise.






End TurnFacts.


Section SessionFacts.
Import JS Codec Platform Practice Sessions Scenarios.

Lemma render_rendered s : conversationRef s = conversation s -> render s = s.
Proof. destruct s. cbn. intros ->. reflexivity. Qed.

Lemma step_rendered sw e :
  conversationRef (step sw e).1 = conversation (step sw e).1.
Proof.
  destruct sw as [s w]. unfold step.
  destruct (match e with EvConnect _ => _ | _ => _ end) as [s' w']. reflexivity.
Qed.

Lemma run_snoc sw es e : run sw (es ++ [e]) = step (run sw es) e.
Proof. unfold run. rewrite foldl_app. reflexivity. Qed.

Lemma run_app sw es es' : run sw (es ++ es') = run (run sw es) es'.
Proof. unfold run. apply foldl_app. Qed.

Lemma run_rendered sw es :
  conversationRef sw.1 = conversation sw.1 ->
  conversationRef (run sw es).1 = conversation (run sw es).1.
Proof.
  destruct es as [|e es _] using rev_ind; [intros H; exact H|].
  intros _. rewrite run_snoc. apply step_rendered.
Qed.

Lemma onMessage_cursor clock now m s w :
  interrupted m = false ->
  (nextStartTimeRef s <= nextStartTimeRef (onMessage clock now m s w).1)%Q.
Proof.
  intros Hi. unfold onMessage, afterAudio. cbv zeta. rewrite Hi.
  destruct (transcribed_scheduler clock m s) as (Hc & _ & _).
  fold (transcribed clock m s).
  destruct (inlineData m) as [[|c rest]|];
    [cbn; rewrite Hc; apply Qle_refl| |cbn; rewrite Hc; apply Qle_refl].
  destruct (outputAudioContextRef (transcribed clock m s));
    [|cbn; rewrite Hc; apply Qle_refl].
  destruct (decode_payload (String c rest)) as [b|e] eqn:E.
  - apply decode_payload_duration in E.
    cbn. rewrite Hc.
    pose proof (Q.le_max_l (nextStartTimeRef s) now).
    pose proof (plus_le (Qmax (nextStartTimeRef s) now) (duration b)
                  (Qlt_le_weak _ _ E)).
    lra.
  - cbn. rewrite Hc. apply Q.le_max_l.
Qed.

Lemma step_cursor s w e :
  uninterrupted e ->
  (nextStartTimeRef s <= nextStartTimeRef (step (s, w) e).1)%Q.
Proof.
  intros Hu. destruct e; cbn [uninterrupted] in Hu.
  - unfold step, connect, newAudioContext, getUserMedia, openSession. cbv zeta.
    repeat case_match; simplify_eq; cbn; apply Qle_refl.
  - apply Qle_refl.
  - unfold step.
    pose proof (onMessage_cursor clock now m s w Hu) as H.
    destruct (onMessage clock now m s w) as [s' w']. exact H.
  - unfold step. cbn [fst render nextStartTimeRef set_conversationRef].
    rewrite onEnded_cursor. apply Qle_refl.
  - unfold step, onaudioprocess. cbv zeta.
    repeat case_match; simplify_eq; cbn; apply Qle_refl.
  - apply Qle_refl.
  - unfold step, onClose. cbv zeta.
    repeat case_match; simplify_eq; cbn; apply Qle_refl.
  - apply Qle_refl.
  - unfold step.
    destruct (handleDisconnect analysis s w) as [s' w'] eqn:E.
    cbn [fst render nextStartTimeRef set_conversationRef].
    assert (Hs : s' = (handleDisconnect analysis s w).1) by (rewrite E; reflexivity).
    rewrite Hs. clear E Hs.
    destruct (Nat.le_gt_cases (length (conversationRef s)) 2) as [Hl|Hl].
    + rewrite handleDisconnect_short by exact Hl. apply Qle_refl.
    + rewrite handleDisconnect_long by exact Hl. destruct analysis; apply Qle_refl.
  - apply Qle_refl.
Qed.

Lemma run_cursor es : forall s w,
  Forall uninterrupted es ->
  (nextStartTimeRef s <= nextStartTimeRef (run (s, w) es).1)%Q.
Proof.
  induction es as [|e es IH]; intros s w Hall; [apply Qle_refl|].
  apply Forall_cons in Hall as [He Hall].
  unfold run in *. cbn [foldl].
  pose proof (step_cursor s w e He) as H1.
  destruct (step (s, w) e) as [s' w'].
  specialize (IH s' w' Hall). cbn [fst] in H1. lra.
Qed.

Lemma run_output_kept es : forall s w,
  is_Some (outputAudioContextRef s) ->
  is_Some (outputAudioContextRef (run (s, w) es).1).
Proof.
  induction es as [|e es IH]; intros s w Hs; [exact Hs|].
  unfold run in *. cbn [foldl].
  destruct (step (s, w) e) as [s' w'] eqn:E. apply IH.
  destruct (practice_step_refs s w e) as [(env & _ & _ & Ho)|[_ Ho]];
    rewrite E in Ho; cbn [fst] in Ho; rewrite Ho; [eexists; reflexivity|exact Hs].
Qed.

Lemma connect_output env s w :
  is_Some (outputAudioContextRef (step (s, w) (EvConnect env)).1).
Proof.
  unfold step, connect, newAudioContext, getUserMedia, openSession. cbv zeta.
  repeat case_match; simplify_eq; cbn; eexists; reflexivity.
Qed.

Lemma tick_gated s w now d :
  conversationRef s = conversation s ->
  is_Some (outputAudioContextRef s) ->
  (now < nextStartTimeRef s)%Q ->
  step (s, w) (EvTick now d) = (s, w).
Proof.
  intros Hr [h Hh] Hlt. unfold step.
  destruct (capturing s w); [|rewrite render_rendered by exact Hr; reflexivity].
  unfold onaudioprocess. rewrite Hh.
  replace (Qle_bool (nextStartTimeRef s) now) with false.
  2:{ symmetry. apply not_true_is_false. intros H. apply Qle_bool_iff in H. lra. }
  destruct (isMutedRef s); cbn [negb]; rewrite render_rendered by exact Hr;
    reflexivity.
Qed.

(** Property X2.
    The playback cursor is a ref of the view and no handler but the
    interrupted branch lowers it: [connect], [handleDisconnect] and
    [resetSession] leave it as it is.  A session started in a view that has
    played audio before therefore inherits the cursor of the earlier
    session, and as long as no interruption arrives, every capture tick
    whose output-device time is before that cursor is dropped by the
    half-duplex gate: nothing is transmitted and nothing changes. *)
Theorem cursor_outlives_session (s : State) (w : World)
    (es es' : list Event) (env : ConnectEnv) (now : Q) (d : list Q) :
  Forall uninterrupted (es ++ EvConnect env :: es') ->
  (now < nextStartTimeRef s)%Q ->
  let sw := run (s, w) (es ++ EvConnect env :: es') in
  (nextStartTimeRef s <= nextStartTimeRef sw.1)%Q /\
  step sw (EvTick now d) = sw.
Proof.
  intros Hall Hlt sw.
  assert (Hc : (nextStartTimeRef s <= nextStartTimeRef sw.1)%Q)
    by apply run_cursor, Hall.
  split; [exact Hc|].
  assert (Ho : is_Some (outputAudioContextRef sw.1)).
  { unfold sw. rewrite run_app.
    destruct (run (s, w) es) as [s1 w1].
    change (EvConnect env :: es') with ([EvConnect env] ++ es').
    rewrite run_app.
    pose proof (connect_output env s1 w1) as H.
    unfold run at 2. cbn [foldl].
    destruct (step (s1, w1) (EvConnect env)) as [s2 w2].
    apply run_output_kept, H. }
  assert (Hr : conversationRef sw.1 = conversation sw.1).
  { unfold sw.
    replace (es ++ EvConnect env :: es')
      with (removelast (es ++ EvConnect env :: es') ++
            [List.last (es ++ EvConnect env :: es') EvOpen]).
    - rewrite run_snoc. apply step_rendered.
    - symmetry. apply app_removelast_last. destruct es; discriminate. }
  destruct sw as [s1 w1]. cbn [fst] in *.
  apply tick_gated; [exact Hr|exact Ho|lra].
Qed.

(** Property X2, an instance.
    The cursor left by one buffer of two frames gates the session that
    follows a disconnect. *)
Lemma cursor_outlives_session_witness :
  let s := (sched_run (initial, empty_world) [Deliver 1 two_frames]).1 in
  let w := (sched_run (initial, empty_world) [Deliver 1 two_frames]).2 in
  let sw := run (s, w)
              ([EvDisconnect (failed (Error "offline")); EvResetSession] ++
               EvConnect granted :: [EvOpen]) in
  (nextStartTimeRef s <= nextStartTimeRef sw.1)%Q /\
  step sw (EvTick (1 # 2) [0%Q]) = sw.
Proof.
  apply (cursor_outlives_session
           (sched_run (initial, empty_world) [Deliver 1 two_frames]).1
           (sched_run (initial, empty_world) [Deliver 1 two_frames]).2
           [EvDisconnect (failed (Error "offline")); EvResetSession] [EvOpen]
           granted (1 # 2) [0%Q]).
  - repeat constructor.
  - vm_compute. reflexivity.
Defined.

Lemma step_mute_sync s w e :
  isMuted s = isMutedRef s ->
  isMuted (step (s, w) e).1 = isMutedRef (step (s, w) e).1.
Proof.
  intros Hs. destruct e.
  - unfold step, connect, newAudioContext, getUserMedia, openSession. cbv zeta.
    repeat case_match; simplify_eq; reflexivity.
  - exact Hs.
  - unfold step, onMessage, afterAudio, onInterrupted, startSource, transcribed,
      onTranscription.
    cbv zeta. repeat case_match; simplify_eq; cbn in *; congruence.
  - unfold step, onEnded. cbv zeta. repeat case_match; simplify_eq; cbn in *; congruence.
  - unfold step, onaudioprocess. cbv zeta.
    repeat case_match; simplify_eq; cbn in *; congruence.
  - unfold step, toggleMute. cbn. reflexivity.
  - unfold step, onClose. cbv zeta. repeat case_match; simplify_eq; cbn in *; congruence.
  - exact Hs.
  - unfold step.
    destruct (handleDisconnect analysis s w) as [s' w'] eqn:E.
    cbn [fst render isMuted isMutedRef set_conversationRef].
    assert (Hs' : s' = (handleDisconnect analysis s w).1) by (rewrite E; reflexivity).
    rewrite Hs'. clear E Hs'.
    destruct (Nat.le_gt_cases (length (conversationRef s)) 2) as [Hl|Hl].
    + rewrite handleDisconnect_short by exact Hl. exact Hs.
    + rewrite handleDisconnect_long by exact Hl. destruct analysis; exact Hs.
  - exact Hs.
Qed.

(** Property X3.
    The mute state shown by the button and the flag read by the capture
    callback are written together ([toggleMute], [connect]) and by nothing
    else: they agree in every state the view reaches, and whenever the
    button shows the microphone as muted a capture tick transmits nothing
    and changes nothing. *)
Theorem mute_button_tells_the_gate (es : list Event) (now : Q) (d : list Q) :
  let sw := run (initial, empty_world) es in
  isMuted sw.1 = isMutedRef sw.1 /\
  (isMuted sw.1 = true -> step sw (EvTick now d) = sw).
Proof.
  cbv zeta.
  assert (Hsync : isMuted (run (initial, empty_world) es).1 =
                  isMutedRef (run (initial, empty_world) es).1).
  { induction es as [|e es IH] using rev_ind; [reflexivity|].
    rewrite run_snoc.
    destruct (run (initial, empty_world) es) as [s w]. apply step_mute_sync, IH. }
  split; [exact Hsync|].
  pose proof (run_rendered (initial, empty_world) es eq_refl) as Hr.
  destruct (run (initial, empty_world) es) as [s w]. cbn [fst] in *.
  intros Hm. unfold step. destruct (capturing s w).
  - unfold onaudioprocess. rewrite <- Hsync, Hm.
    rewrite render_rendered by exact Hr. reflexivity.
  - rewrite render_rendered by exact Hr. reflexivity.
Qed.

End SessionFacts.

(** ** The playback scheduler inside the message callback *)

Section PlaybackFacts.
Import JS Codec Platform Practice Sessions Scenarios.

Lemma step_other s w e :
  arrival e = None ->
  uninterrupted e ->
  started (step (s, w) e).2 = started w /\
  nextStartTimeRef (step (s, w) e).1 = nextStartTimeRef s.
Proof.
  intros Ha Hu. destruct e; cbn [uninterrupted] in Hu.
  - unfold step, connect, newAudioContext, getUserMedia, openSession, log. cbv zeta.
    repeat case_match; simplify_eq; cbn; split; reflexivity.
  - split; reflexivity.
  - cbn in Ha. unfold audio in Ha.
    unfold step, onMessage, afterAudio. cbv zeta. rewrite Hu.
    fold (transcribed clock m s).
    destruct (transcribed_scheduler clock m s) as (Hc & _ & _).
    destruct (inlineData m) as [[|c rest]|]; [| discriminate Ha |];
      cbn; rewrite Hc; split; reflexivity.
  - unfold step. cbn [fst snd render nextStartTimeRef set_conversationRef].
    rewrite onEnded_cursor. split; reflexivity.
  - unfold step, onaudioprocess, sendRealtimeInput, log. cbv zeta.
    repeat case_match; simplify_eq; cbn; split; reflexivity.
  - split; reflexivity.
  - unfold step, onClose. cbv zeta.
    repeat case_match; simplify_eq; cbn; split; reflexivity.
  - unfold step, onError, log. cbv zeta.
    repeat case_match; simplify_eq; cbn; split; reflexivity.
  - unfold step.
    destruct (handleDisconnect analysis s w) as [s' w'] eqn:E.
    cbn [fst snd render nextStartTimeRef set_conversationRef].
    assert (Hs : s' = (handleDisconnect analysis s w).1) by (rewrite E; reflexivity).
    assert (Hw : w' = (handleDisconnect analysis s w).2) by (rewrite E; reflexivity).
    rewrite Hs, Hw. clear E Hs Hw.
    assert (Ht : started (teardown s w) = started w).
    { unfold teardown, closeQuietly, AudioContext_close, Session_close.
      repeat case_match; simplify_eq; reflexivity. }
    destruct (Nat.le_gt_cases (length (conversationRef s)) 2) as [Hl|Hl].
    + rewrite handleDisconnect_short by exact Hl. split; [exact Ht|reflexivity].
    + rewrite handleDisconnect_long by exact Hl.
      destruct analysis; split; try reflexivity; cbn; exact Ht.
  - split; reflexivity.
Qed.


Lemma is_double_comp a b : (a == b)%Q -> is_double a = is_double b.
Proof.
  intros H. unfold is_double.
  pose proof (fl_comp a b H) as Hf.
  destruct (Qeq_bool (fl b) b) eqn:E.
  - apply Qeq_bool_iff. apply Qeq_bool_iff in E. lra.
  - apply not_true_is_false. intros E'. apply Qeq_bool_iff in E'.
    assert (X : (fl b == b)%Q) by lra.
    apply Qeq_bool_iff in X. congruence.
Qed.

Lemma Qmax_double a b :
  is_double a = true -> is_double b = true -> is_double (Qmax a b) = true.
Proof.
  intros Ha Hb.
  destruct (Q.max_spec a b) as [[_ H]|[_ H]];
    rewrite (is_double_comp _ _ H); assumption.
Qed.

Lemma plus_double a b :
  is_double a = true -> is_double b = true ->
  plus a b = fl (a + b) /\ is_double (plus a b) = true.
Proof.
  intros Ha Hb. unfold plus. rewrite Ha, Hb. cbn [andb].
  split; [reflexivity|apply is_double_fl].
Qed.

Lemma duration_double b : is_double (duration b) = true.
Proof. apply is_double_fl. Qed.

(** The cursor is a double as long as the device times are: every sum
    that moves it is rounded. *)
Lemma onMessage_double clock now m s w :
  is_double (nextStartTimeRef s) = true ->
  is_double now = true ->
  is_double (nextStartTimeRef (onMessage clock now m s w).1) = true.
Proof.
  intros Hs Hn.
  destruct (transcribed_scheduler clock m s) as (Hc & _ & Ho).
  assert (Hm : is_double (Qmax (nextStartTimeRef (transcribed clock m s)) now) = true).
  { rewrite Hc. apply Qmax_double; assumption. }
  destruct (outputAudioContextRef s) as [h|] eqn:Hctx.
  - rewrite (onMessage_audio clock now m s w h Hctx).
    destruct (audio m) as [[b|e]|].
    + unfold afterAudio. destruct (interrupted m).
      * unfold onInterrupted. rewrite stopAll_all. reflexivity.
      * cbn. apply plus_double; [exact Hm|apply duration_double].
    + exact Hm.
    + unfold afterAudio. destruct (interrupted m).
      * unfold onInterrupted. rewrite stopAll_all. reflexivity.
      * cbn. rewrite Hc. exact Hs.
  - rewrite (onMessage_silent clock now m s w Hctx).
    unfold afterAudio. destruct (interrupted m).
    + unfold onInterrupted. rewrite stopAll_all. reflexivity.
    + cbn. rewrite Hc. exact Hs.
Qed.

Lemma run_double es : forall s w,
  is_double (nextStartTimeRef s) = true ->
  Forall timed es ->
  is_double (nextStartTimeRef (run (s, w) es).1) = true.
Proof.
  induction es as [|e es IH]; intros s w Hs Hall; [exact Hs|].
  apply Forall_cons in Hall as [He Hall].
  change (run (s, w) (e :: es)) with (run (step (s, w) e) es).
  assert (H : is_double (nextStartTimeRef (step (s, w) e).1) = true).
  { destruct e as [env| |clock now m|source t|t d| | |err|analysis|];
      cbn [timed] in He;
      try (match goal with
           | |- context [step (s, w) ?e] =>
               destruct (step_other s w e eq_refl I) as [_ ->]
           end; exact Hs).
    unfold step.
    pose proof (onMessage_double clock now m s w Hs He) as H.
    destruct (onMessage clock now m s w). exact H. }
  destruct (step (s, w) e) as [s' w']. apply IH; assumption.
Qed.

(** One event of a run without interruption, by what arrives with it. *)
Lemma step_arrival s w e h :
  outputAudioContextRef s = Some h ->
  uninterrupted e ->
  match arrival e with
  | None =>
      started (step (s, w) e).2 = started w /\
      nextStartTimeRef (step (s, w) e).1 = nextStartTimeRef s
  | Some (now, Ok b) =>
      started (step (s, w) e).2 =
        started w ++
        [{| unit_id := length (started w);
            unit_start := Qmax (nextStartTimeRef s) now;
            unit_buffer := b |}] /\
      nextStartTimeRef (step (s, w) e).1 =
        plus (Qmax (nextStartTimeRef s) now) (duration b)
  | Some (now, Throw _) =>
      started (step (s, w) e).2 = started w /\
      nextStartTimeRef (step (s, w) e).1 = Qmax (nextStartTimeRef s) now
  end.
Proof.
  intros Hctx Hu.
  destruct (arrival e) as [[now r]|] eqn:Ha; [|apply step_other; assumption].
  destruct e; try discriminate Ha. cbn [uninterrupted] in Hu. cbn in Ha.
  destruct (transcribed_scheduler clock m s) as (Hc & _ & _).
  unfold step. rewrite (onMessage_audio clock now0 m s w h Hctx).
  destruct (audio m) as [r'|]; [|discriminate Ha].
  cbn in Ha. injection Ha as -> ->.
  unfold afterAudio. rewrite Hu.
  destruct r as [b|e]; cbn; rewrite Hc; split; reflexivity.
Qed.

Lemma run_schedule es : forall s w,
  is_Some (outputAudioContextRef s) ->
  Forall uninterrupted es ->
  started (run (s, w) es).2 =
    started w ++ schedule (length (started w)) (nextStartTimeRef s) (arrivals es) /\
  nextStartTimeRef (run (s, w) es).1 =
    cursor_after (nextStartTimeRef s) (arrivals es).
Proof.
  induction es as [|e es IH]; intros s w Hctx Hall.
  - cbn. rewrite app_nil_r. split; reflexivity.
  - apply Forall_cons in Hall as [He Hall].
    assert (Hctx' : is_Some (outputAudioContextRef (step (s, w) e).1)).
    { apply (run_output_kept [e] s w Hctx). }
    destruct Hctx as [h Hctx].
    pose proof (step_arrival s w e h Hctx He) as Hstep.
    rewrite arrivals_cons.
    change (run (s, w) (e :: es)) with (run (step (s, w) e) es).
    destruct (step (s, w) e) as [s' w']. cbn [fst snd] in *.
    destruct (IH s' w' Hctx' Hall) as [IH1 IH2].
    rewrite IH1, IH2.
    destruct (arrival e) as [[now [b|x]]|]; destruct Hstep as [-> ->];
      cbn [schedule cursor_after]; [|split; reflexivity|split; reflexivity].
    rewrite length_app, <- app_assoc. cbn [length app].
    replace (length (started w) + 1)%nat with (S (length (started w))) by lia.
    split; reflexivity.
Qed.

Lemma schedule_durations source c ds u :
  u ∈ schedule source c ds ->
  Forall (fun d => forall b, d.2 = Ok b -> (0 <= duration b)%Q) ds ->
  (0 <= duration (unit_buffer u))%Q.
Proof.
  revert source c. induction ds as [|[now [b|e]] ds IH]; intros source c Hu Hd.
  - inversion Hu.
  - cbn [schedule] in Hu. inversion Hd as [|? ? Hb Hd']; subst.
    apply elem_of_cons in Hu as [->|Hu]; [apply (Hb b eq_refl)|].
    eapply IH; eassumption.
  - cbn [schedule] in Hu. inversion Hd as [|? ? Hb Hd']; subst.
    eapply IH; eassumption.
Qed.

(** Claim C3, as amended.  Along any run of the view with an output
    context and no interruption, the sources started are the buffers
    decoded from the messages, in arrival order, each started at the larger
    of the cursor and the device time of its message, the cursor then
    moving by the duration of the buffer, a sum of doubles ([schedule]).
    No buffer starts before the device time of its message or before the
    cursor the run began with.  Each starts at or after the start of the
    one before and at or after the time the cursor took for the end of the
    one before: that time is the exact end rounded to a double, so that a
    buffer starts before the exact end of the one before by no more than
    [2^-53] of it.  The cursor never decreases. *)
Theorem playback_schedule_no_overlap (s : State) (w : World)
    (es : list Event) :
  is_Some (outputAudioContextRef s) ->
  Forall uninterrupted es ->
  exists units,
    started (run (s, w) es).2 = started w ++ units /\
    units = schedule (length (started w)) (nextStartTimeRef s) (arrivals es) /\
    map unit_buffer units = map snd (deliveries es) /\
    Forall2 (fun u d => (d.1 <= unit_start u)%Q) units (deliveries es) /\
    (forall u, u ∈ units -> (nextStartTimeRef s <= unit_start u)%Q) /\
    (forall i u v, units !! i = Some u -> units !! S i = Some v ->
       (plus (unit_start u) (duration (unit_buffer u)) <= unit_start v)%Q /\
       (unit_start u <= unit_start v)%Q /\
       (unit_end u - Qabs (unit_end u) * 2 ^ (-53) <= unit_start v)%Q) /\
    nextStartTimeRef (run (s, w) es).1 =
      cursor_after (nextStartTimeRef s) (arrivals es) /\
    (nextStartTimeRef s <= nextStartTimeRef (run (s, w) es).1)%Q.
Proof.
  intros Hctx Hall. destruct (run_schedule es s w Hctx Hall) as [Hs Hc].
  pose proof (arrivals_durations es) as Hd.
  eexists. split; [exact Hs|]. split; [reflexivity|].
  split; [apply schedule_buffers|]. split; [apply schedule_not_before|].
  split; [intros u Hu; eapply schedule_after_cursor; eassumption|].
  split.
  - intros i u v Hu Hv.
    pose proof (schedule_consecutive _ _ _ _ _ _ Hu Hv Hd) as Ho.
    assert (Hb : (0 <= duration (unit_buffer u))%Q).
    { eapply schedule_durations; [|exact Hd]. eapply list_elem_of_lookup_2, Hu. }
    pose proof (plus_le (unit_start u) (duration (unit_buffer u)) Hb) as Hp.
    pose proof (plus_error (unit_start u) (duration (unit_buffer u))) as He.
    apply Qabs_Qle_condition in He as [He _].
    unfold unit_end.
    split; [exact Ho|]. split; lra.
  - split; [exact Hc|]. rewrite Hc. apply cursor_after_monotone, Hd.
Qed.


(** Claim C3 at a session in which three messages carry audio, the second
    one a payload that does not decode, around the end of a source. *)
Lemma playback_schedule_no_overlap_witness :
  let sw := run (initial, empty_world) [EvConnect granted; EvOpen] in
  let es := [EvMessage 0 1 (sounds "AAA=" false); EvEnded 0 2;
             EvMessage 0 3 (sounds "AA==" false);
             EvMessage 0 1 (sounds "AAAAAAAA" false)] in
  exists units,
    started (run (sw.1, sw.2) es).2 = started sw.2 ++ units /\
    units = schedule (length (started sw.2)) (nextStartTimeRef sw.1) (arrivals es) /\
    map unit_buffer units = map snd (deliveries es) /\
    Forall2 (fun u d => (d.1 <= unit_start u)%Q) units (deliveries es) /\
    (forall u, u ∈ units -> (nextStartTimeRef sw.1 <= unit_start u)%Q) /\
    (forall i u v, units !! i = Some u -> units !! S i = Some v ->
       (plus (unit_start u) (duration (unit_buffer u)) <= unit_start v)%Q /\
       (unit_start u <= unit_start v)%Q /\
       (unit_end u - Qabs (unit_end u) * 2 ^ (-53) <= unit_start v)%Q) /\
    nextStartTimeRef (run (sw.1, sw.2) es).1 =
      cursor_after (nextStartTimeRef sw.1) (arrivals es) /\
    (nextStartTimeRef sw.1 <= nextStartTimeRef (run (sw.1, sw.2) es).1)%Q.
Proof.
  cbv zeta.
  apply (playback_schedule_no_overlap
           (run (initial, empty_world) [EvConnect granted; EvOpen]).1
           (run (initial, empty_world) [EvConnect granted; EvOpen]).2
           [EvMessage 0 1 (sounds "AAA=" false); EvEnded 0 2;
            EvMessage 0 3 (sounds "AA==" false);
            EvMessage 0 1 (sounds "AAAAAAAA" false)]).
  - vm_compute. eexists. reflexivity.
  - repeat constructor.
Defined.

(** Claim C3 fails as stated: three buffers of one, three and one frame
    arrive at device time 0.  The second ends at the sum of the durations
    of the first two; the cursor takes the nearest double, which is
    smaller, and the third buffer starts there, before the second has
    ended. *)
Lemma playback_units_overlap :
  let sw :=
    run (initial, empty_world)
      [EvConnect granted; EvOpen;
       EvMessage 0 0 (sounds "AAA=" false);
       EvMessage 0 0 (sounds "AAAAAAAA" false);
       EvMessage 0 0 (sounds "AAA=" false)] in
  exists u v,
    started sw.2 !! 1%nat = Some u /\
    started sw.2 !! 2%nat = Some v /\
    (unit_start v < unit_end u)%Q.
Proof.
  cbv zeta. eexists. eexists.
  split; [vm_compute; reflexivity|]. split; [vm_compute; reflexivity|].
  vm_compute. reflexivity.
Qed.





End PlaybackFacts.

Section UnmountFacts.
Import JS Codec Platform Guardian Effects Scenarios.

(** Property X4.
    Leaving the monitor.  The cleanup of the view lowers the monitoring
    flag and closes the input context with the rejection swallowed: it
    logs nothing, leaves no rejection unhandled, and leaves the transport
    session and the microphone tracks as they are; a capture tick or a
    status update that arrives afterwards changes nothing.  After
    [stopMonitoring] the cleanup changes nothing outside the view, whereas
    a second [stopMonitoring] leaves the rejection of [close()]
    unhandled. *)
Theorem guardian_cleanup_is_quiet (g : State) (w : World) (h : nat) :
  inputAudioContextRef g = Some h ->
  let left := guardian_cleanup g w in
  let once := stopMonitoring g w in
  audioContexts left.2 = closed_at (Some h) (audioContexts w) /\
  released (Some h) (audioContexts left.2) /\
  unhandled left.2 = unhandled w /\
  console left.2 = console w /\
  sessions left.2 = sessions w /\
  micTracks left.2 = micTracks w /\
  (forall d, onaudioprocess d left.1 left.2 = left) /\
  (forall time sig, onStatus time sig left.1 = (left.1, Ok ())) /\
  (guardian_cleanup once.1 once.2).2 = once.2 /\
  unhandled (stopMonitoring once.1 once.2).2 =
    unhandled once.2 ++ [Exn InvalidStateError].
Proof.
  intros Href. cbv zeta. unfold guardian_cleanup.
  cbn [fst snd inputAudioContextRef set_isMonitoringRef]. rewrite Href.
  destruct (closeQuietly_frame (Some h) w) as (Hm & Hs & _ & Hc & Hu & _).
  rewrite closeQuietly_contexts.
  split; [reflexivity|]. split; [apply closed_at_released|].
  split; [exact Hu|]. split; [exact Hc|]. split; [exact Hs|]. split; [exact Hm|].
  split; [reflexivity|]. split; [reflexivity|]. split.
  - destruct (stopMonitoring_spec g w) as (Hv & Hctx & _).
    rewrite Hv. cbn [stopped_view inputAudioContextRef set_guardianSignal set_status
                     set_isConnected set_sessionRef set_isMonitoringRef].
    rewrite Href. apply closeQuietly_released.
    rewrite Hctx, Href. apply closed_at_released.
  - apply (stopMonitoring_again_unhandled g w h Href).
Qed.

(** Property X4, an instance.
    The monitor of a session that is open and has heard one sentence. *)
Lemma guardian_cleanup_is_quiet_witness :
  let g := monitoring.1.2 in
  let w := monitoring.2 in
  let left := guardian_cleanup g w in
  let once := stopMonitoring g w in
  audioContexts left.2 = closed_at (Some 0%nat) (audioContexts w) /\
  released (Some 0%nat) (audioContexts left.2) /\
  unhandled left.2 = unhandled w /\
  console left.2 = console w /\
  sessions left.2 = sessions w /\
  micTracks left.2 = micTracks w /\
  (forall d, onaudioprocess d left.1 left.2 = left) /\
  (forall time sig, onStatus time sig left.1 = (left.1, Ok ())) /\
  (guardian_cleanup once.1 once.2).2 = once.2 /\
  unhandled (stopMonitoring once.1 once.2).2 =
    unhandled once.2 ++ [Exn InvalidStateError].
Proof.
  apply (guardian_cleanup_is_quiet monitoring.1.2 monitoring.2 0%nat).
  vm_compute. reflexivity.
Defined.

End UnmountFacts.

Section PracticeUnmountFacts.
Import JS Codec Platform Practice Effects.

(** Property X5.
    Leaving the conversational view.  The cleanup of the view closes the
    two audio contexts with the rejections swallowed, and does nothing
    else: whatever the state of the view, it logs nothing and leaves no
    rejection unhandled, no context of the view is running afterwards,
    and a transport session that is open stays open and the microphone
    tracks keep running.  Running it again changes nothing. *)
Theorem practice_unmount_keeps_the_session (s : State) (w : World) :
  let w' := practice_cleanup s w in
  sessions w' = sessions w /\
  micTracks w' = micTracks w /\
  console w' = console w /\
  unhandled w' = unhandled w /\
  released (inputAudioContextRef s) (audioContexts w') /\
  released (outputAudioContextRef s) (audioContexts w') /\
  practice_cleanup s w' = w'.
Proof.
  cbv zeta. unfold practice_cleanup.
  set (w1 := closeQuietly (inputAudioContextRef s) w).
  destruct (closeQuietly_frame (inputAudioContextRef s) w)
    as (M1 & S1 & _ & C1 & U1 & _).
  destruct (closeQuietly_frame (outputAudioContextRef s) w1)
    as (M2 & S2 & _ & C2 & U2 & _).
  fold w1 in M1, S1, C1, U1.
  assert (Hin : released (inputAudioContextRef s)
                  (audioContexts (closeQuietly (outputAudioContextRef s) w1))).
  { rewrite closeQuietly_contexts. apply released_closed_at.
    unfold w1. rewrite closeQuietly_contexts. apply closed_at_released. }
  assert (Hout : released (outputAudioContextRef s)
                   (audioContexts (closeQuietly (outputAudioContextRef s) w1))).
  { rewrite closeQuietly_contexts. apply closed_at_released. }
  repeat split; try congruence; try assumption.
  rewrite (closeQuietly_released (inputAudioContextRef s)) by exact Hin.
  apply closeQuietly_released, Hout.
Qed.

End PracticeUnmountFacts.

Section SummaryFacts.
Import JS Codec Platform Summary Scenarios.

Lemma summaryBuffer_eval (d : list Z) :
  (0 < length d)%nat ->
  Z.of_nat (length d) < 4294967296 ->
  summaryBuffer (map (fun v => (inject_Z v / 32768)%Q) d) =
  Ok {| numberOfChannels := 1;
        buf_length := Z.of_nat (length d);
        sampleRate := 24000;
        channels := [map dequantize d] |}.
Proof.
  intros Hpos Hlt. unfold summaryBuffer, createBuffer, ToUint32.
  rewrite length_map.
  replace (Qtrunc (inject_Z (Z.of_nat (length d)))) with (Z.of_nat (length d)).
  2:{ unfold Qtrunc, inject_Z. cbn. rewrite Z.quot_1_r. reflexivity. }
  rewrite Z.mod_small by lia.
  replace (1 <=? Z.of_nat (length d)) with true by (symmetry; apply Z.leb_le; lia).
  cbn [Z.leb Z.compare andb mbind result_bind numberOfChannels buf_length
       sampleRate channels].
  change ((1 <=? 1) && true) with true. cbn [mbind result_bind channels].
  rewrite Nat2Z.id. change (Z.to_nat 1) with 1%nat.
  cbn [replicate lookup list_lookup default].
  unfold id, TypedArray_set. rewrite length_map, length_replicate, Nat.leb_refl.
  cbn [mbind result_bind numberOfChannels buf_length sampleRate channels
       insert list_insert].
  rewrite drop_ge by (rewrite length_replicate; lia).
  rewrite app_nil_r. reflexivity.
Qed.

(** Property X6.
    The summary player decodes its payload with code of its own, and the
    two decoders agree except on an empty payload: whenever the payload
    is refused by [atob], holds an odd number of bytes or holds samples,
    [playSummary] gets what [decodeAudioData(decode(payload), ctx, 24000,
    1)] of the conversational view gives, the same exception or the same
    buffer; on a payload of no bytes the view gets one silent frame while
    [playSummary] asks for a buffer of length zero and fails with
    NotSupportedError. *)
Theorem summary_decoder_agrees (base64 : string) :
  (forall bytes, decode base64 = Ok bytes ->
     Z.of_nat (length bytes) < 8589934592) ->
  decoded base64 =
    match decode base64 with
    | Ok [] => Throw NotSupportedError
    | _ => decode_payload base64
    end /\
  (decode base64 = Ok [] -> decode_payload base64 = Ok (silent 1 24000)).
Proof.
  intros Hsize. unfold decoded, float32Data, decode_payload, decode in *.
  destruct (atob base64) as [binaryString|e]; [|split; [reflexivity|discriminate]].
  cbn [mbind result_bind] in *.
  specialize (Hsize _ eq_refl).
  set (bytes := list_byte_of_string binaryString) in *.
  destruct bytes as [|b0 bytes'] eqn:Eb.
  - split; [reflexivity|]. intros _. apply decodeAudioData_no_frames. lia.
  - split; [|discriminate]. rewrite <- Eb in *.
    destruct (Z.eq_dec (Z.of_nat (length bytes) mod 2) 0) as [Heven|Hodd].
    + rewrite decodeAudioData_mono; [|exact Heven|rewrite Eb; cbn; lia|exact Hsize].
      unfold Int16Array_of_buffer. rewrite Heven. cbn [Z.eqb mbind result_bind].
      pose proof (int16s_of_bytes_length bytes) as Hd.
      apply summaryBuffer_eval.
      * rewrite Hd. apply Nat.div_str_pos.
        rewrite Eb in Heven |- *. destruct bytes' as [|b1 r]; cbn in *; [discriminate|lia].
      * rewrite Hd, Nat2Z.inj_div. Z.div_mod_to_equations. lia.
    + rewrite decodeAudioData_odd by exact Hodd.
      unfold Int16Array_of_buffer.
      destruct (Z.of_nat (length bytes) mod 2 =? 0) eqn:E; [|reflexivity].
      apply Z.eqb_eq in E. contradiction.
Qed.

(** Property X6, an instance.
    The two decoders on the two frames of [fragment]. *)
Lemma summary_decoder_agrees_witness :
  decoded "AAD/fw==" =
    match decode "AAD/fw==" with
    | Ok [] => Throw NotSupportedError
    | _ => decode_payload "AAD/fw=="
    end /\
  (decode "AAD/fw==" = Ok [] -> decode_payload "AAD/fw==" = Ok (silent 1 24000)).
Proof.
  apply (summary_decoder_agrees "AAD/fw==").
  intros bytes H. vm_compute in H. injection H as <-. reflexivity.
Defined.

End SummaryFacts.

Section HistoryFacts.
Import JSON History Scenarios.

Lemma lastTen_snoc {A} (l : list A) (x : A) :
  lastTen (lastTen l ++ [x]) = lastTen (l ++ [x]).
Proof.
  unfold lastTen. rewrite !length_app, length_drop. cbn [length].
  destruct (Nat.le_gt_cases (length l) 10) as [H|H].
  - replace (length l - 10)%nat with 0%nat by lia.
    rewrite drop_0, Nat.sub_0_r. reflexivity.
  - replace (length l - (length l - 10) + 1 - 10)%nat with 1%nat by lia.
    replace (length l + 1 - 10)%nat with (S (length l - 10)) by lia.
    rewrite (drop_app_le l [x] (S (length l - 10))) by lia.
    rewrite drop_app_le by (rewrite length_drop; lia).
    rewrite drop_drop. do 2 f_equal. lia.
Qed.

Lemma lastTen_length {A} (l : list A) : (length (lastTen l) <= 10)%nat.
Proof. unfold lastTen. rewrite length_drop. lia. Qed.

Lemma capped {A} (l : list A) :
  (if (10 <? length l)%nat then drop (length l - 10) l else l) = lastTen l.
Proof.
  unfold lastTen. destruct (10 <? length l)%nat eqn:E; [reflexivity|].
  apply Nat.ltb_ge in E. replace (length l - 10)%nat with 0%nat by lia.
  reflexivity.
Qed.

(** The list [getPracticeHistory] returns on a tidy item. *)
Lemma tidy_history scenarioId i :
  tidy i -> exists attempts, getPracticeHistory scenarioId i = array attempts.
Proof.
  destruct i as [| | |[| | | | |fields]]; cbn; try contradiction;
    try (intros _; exists []; reflexivity).
  intros Ht. unfold attemptsOf.
  destruct (fields !! scenarioId) as [v|] eqn:E; [|exists []; reflexivity].
  destruct (Ht _ _ E) as [l ->]. exists l. reflexivity.
Qed.

Lemma savePracticeSession_tidy scenarioId date data b attempts :
  tidy (stored b) ->
  getPracticeHistory scenarioId (stored b) = array attempts ->
  let b' := savePracticeSession scenarioId date data b in
  tidy (stored b') /\
  warned b' = warned b /\
  getPracticeHistory scenarioId (stored b') =
    array (lastTen (attempts ++ [entry date data])) /\
  (forall other, other <> scenarioId ->
     getPracticeHistory other (stored b') = getPracticeHistory other (stored b)).
Proof.
  intros Ht Hh. cbv zeta. unfold savePracticeSession.
  assert (Hobj : exists fields,
             parsed (stored b) = Some (object fields) /\
             attemptsOf scenarioId fields = array attempts /\
             (forall k v, fields !! k = Some v -> exists l, v = array l) /\
             (forall other,
                getPracticeHistory other (stored b) = attemptsOf other fields)).
  { destruct (stored b) as [| | |[| | | | |fields]]; cbn in Ht, Hh |- *;
      try contradiction.
    - exists ∅. repeat split; try assumption.
      intros k v Hk. rewrite lookup_empty in Hk. discriminate.
    - exists ∅. repeat split; try assumption.
      intros k v Hk. rewrite lookup_empty in Hk. discriminate.
    - exists fields. repeat split; assumption. }
  destruct Hobj as (fields & -> & Ha & Hf & Hg).
  cbn [mbind option_bind pushed]. rewrite Ha, capped.
  cbn [stored warned tidy getPracticeHistory].
  split.
  { intros k v Hk. destruct (decide (k = scenarioId)) as [->|Hne].
    - rewrite lookup_insert_eq in Hk. injection Hk as <-. eexists. reflexivity.
    - rewrite lookup_insert_ne in Hk by congruence. eapply Hf, Hk. }
  split; [reflexivity|]. split.
  - unfold attemptsOf. rewrite lookup_insert_eq. reflexivity.
  - intros other Hne. rewrite Hg. unfold attemptsOf.
    rewrite lookup_insert_ne by congruence. reflexivity.
Qed.

Lemma saveAll_snoc saves a b :
  saveAll (saves ++ [a]) b =
  savePracticeSession (scenario a) (date a) (data a) (saveAll saves b).
Proof. unfold saveAll. rewrite foldl_app. reflexivity. Qed.

Lemma entriesOf_snoc scenarioId saves a :
  entriesOf scenarioId (saves ++ [a]) =
  entriesOf scenarioId saves ++
  (if decide (scenario a = scenarioId) then [entry (date a) (data a)] else []).
Proof.
  unfold entriesOf. rewrite filter_app, map_app. f_equal.
  rewrite filter_cons, filter_nil.
  destruct (decide (scenario a = scenarioId)); reflexivity.
Qed.

Lemma saveAll_tidy saves b :
  tidy (stored b) ->
  let b' := saveAll saves b in
  tidy (stored b') /\
  warned b' = warned b /\
  forall scenarioId attempts,
    getPracticeHistory scenarioId (stored b) = array attempts ->
    getPracticeHistory scenarioId (stored b') =
      match entriesOf scenarioId saves with
      | [] => array attempts
      | _ => array (lastTen (attempts ++ entriesOf scenarioId saves))
      end.
Proof.
  intros Ht. cbv zeta.
  induction saves as [|a saves IH] using rev_ind.
  - cbn. repeat split; try assumption. intros ? ? H. exact H.
  - destruct IH as (It & Iw & Ih). rewrite saveAll_snoc.
    destruct (tidy_history (scenario a) _ It) as [current Hcur].
    destruct (savePracticeSession_tidy (scenario a) (date a) (data a)
                (saveAll saves b) current It Hcur) as (St & Sw & Sh & So).
    split; [exact St|]. split; [rewrite Sw; exact Iw|].
    intros scenarioId attempts Hb. specialize (Ih scenarioId attempts Hb).
    rewrite entriesOf_snoc.
    destruct (decide (scenario a = scenarioId)) as [<-|Hne].
    + rewrite Sh. rewrite Hcur in Ih.
      destruct (entriesOf (scenario a) saves) as [|e es] eqn:E.
      * injection Ih as ->. cbn [app]. reflexivity.
      * injection Ih as ->. rewrite lastTen_snoc, <- app_assoc.
        destruct (e :: es) eqn:E'; [discriminate|]. reflexivity.
    + rewrite So by congruence. rewrite Ih, app_nil_r. reflexivity.
Qed.

(** Property X7.
    The history of a scenario.  Whatever attempts are saved, in whatever
    scenarios and in whatever order, starting from a browser that holds no
    history: what [getPracticeHistory] returns for a scenario is the list
    of the entries saved for that scenario, oldest first, cut to the last
    ten; it never holds more than ten entries, the attempts of the other
    scenarios do not show in it, and no warning is logged. *)
Theorem practice_history_keeps_last_ten (saves : list Attempt)
    (scenarioId : string) :
  let b := saveAll saves {| stored := missing; warned := [] |} in
  getPracticeHistory scenarioId (stored b) =
    array (lastTen (entriesOf scenarioId saves)) /\
  (length (lastTen (entriesOf scenarioId saves)) <= 10)%nat /\
  warned b = [].
Proof.
  cbv zeta.
  destruct (saveAll_tidy saves {| stored := missing; warned := [] |} I)
    as (_ & Hw & Hh).
  specialize (Hh scenarioId [] eq_refl). cbn [app] in Hh.
  split; [|split; [apply lastTen_length|exact Hw]].
  rewrite Hh. destruct (entriesOf scenarioId saves); reflexivity.
Qed.

Lemma savePracticeSession_corrupt scenarioId date data b :
  corrupt (stored b) ->
  savePracticeSession scenarioId date data b =
  {| stored := stored b; warned := warned b ++ warnings (stored b) 1 |}.
Proof.
  unfold savePracticeSession.
  destruct b as [[| | |[| | | | |fields]] wd]; cbn; try contradiction;
    rewrite ?app_nil_r; reflexivity.
Qed.

Lemma warnings_S i n : warnings i n ++ warnings i 1 = warnings i (S n).
Proof.
  unfold warnings. destruct i as [| | |[]]; try reflexivity;
    cbn [replicate app]; rewrite <- replicate_S_end; reflexivity.
Qed.

(** Property X8.
    A history that cannot be read is never repaired.  When the stored
    item is not JSON, or is the JSON of a value that is not an object, no
    attempt is ever recorded again: every [savePracticeSession] leaves the
    item as it is, with a warning logged (none when the value is an
    array), and [getPracticeHistory] returns the empty list for every
    scenario. *)
Theorem corrupt_history_is_never_repaired (saves : list Attempt) (b : Browser) :
  corrupt (stored b) ->
  let b' := saveAll saves b in
  stored b' = stored b /\
  warned b' = warned b ++ warnings (stored b) (length saves) /\
  forall scenarioId, getPracticeHistory scenarioId (stored b') = array [].
Proof.
  intros Hc. cbv zeta.
  assert (Hs : saveAll saves b =
               {| stored := stored b;
                  warned := warned b ++ warnings (stored b) (length saves) |}).
  { induction saves as [|a saves IH] using rev_ind.
    - destruct b as [[| | |[]] wd]; cbn; rewrite app_nil_r; reflexivity.
    - rewrite saveAll_snoc, IH.
      rewrite savePracticeSession_corrupt by exact Hc.
      cbn [stored warned]. rewrite length_app. cbn [length].
      rewrite <- app_assoc, warnings_S. do 3 f_equal. lia. }
  rewrite Hs. cbn [stored warned].
  split; [reflexivity|]. split; [reflexivity|]. intros scenarioId.
  destruct (stored b) as [| | |[| | | | |fields]]; cbn in Hc |- *;
    try contradiction; reflexivity.
Qed.

(** Property X8, an instance.
    Three attempts on an item that is not JSON. *)
Lemma corrupt_history_is_never_repaired_witness :
  let a := {| scenario := "boss-pushback"; date := "2025-01-01T10:00:00.000Z";
              data := Scenarios.good |} in
  let b' := saveAll [a; a; a] {| stored := malformed; warned := [] |} in
  stored b' = malformed /\
  warned b' = [] ++ warnings malformed 3 /\
  forall scenarioId, getPracticeHistory scenarioId (stored b') = array [].
Proof.
  cbv zeta.
  apply (corrupt_history_is_never_repaired
           (replicate 3 {| scenario := "boss-pushback";
                           date := "2025-01-01T10:00:00.000Z";
                           data := Scenarios.good |})
           {| stored := malformed; warned := [] |}).
  exact I.
Defined.

End HistoryFacts.

Section VideoFacts.
Import Str Video.

Lemma retry_requests env remaining : forall attempts i request currentVideo w,
  let r := retry env remaining attempts i request currentVideo w in
  exists n, (n <= remaining)%nat /\
    requests r.2 = requests w ++ replicate n request /\
    progress r.2 = progress w /\ polls r.2 = polls w /\
    downloads r.2 = downloads w /\
    exists pauses, waits r.2 = waits w ++ pauses /\
      Forall (fun d => 15000 <= d <= 120000) pauses.
Proof.
  induction remaining as [|remaining IH]; intros attempts i request currentVideo w; cbv zeta.
  - exists 0%nat. cbn. rewrite app_nil_r. repeat split; try reflexivity; try lia.
    exists []. rewrite app_nil_r. split; [reflexivity|constructor].
  - cbn [retry].
    destruct (generateVideos env (length (requests w)) request) as [operation|e].
    + exists 1%nat. cbn. repeat split; try reflexivity; try lia.
      exists []. rewrite app_nil_r. split; [reflexivity|constructor].
    + destruct (isRateLimit e && (S attempts <? maxAttempts)%nat) eqn:E.
      * edestruct IH as (n & Hn & Hr & Hp & Hq & Hd & pauses & Hw & Hf).
        exists (S n). split; [lia|]. rewrite Hr, Hp, Hq, Hd, Hw. cbn.
        rewrite <- !app_assoc. repeat split; try reflexivity.
        exists (backoff (S attempts) :: pauses). split; [reflexivity|].
        constructor; [|exact Hf]. unfold backoff.
        assert (1 <= 2 ^ (Z.of_nat (S attempts) - 1)).
        { apply (Z.pow_le_mono_r 2 0); lia. }
        lia.
      * exists 1%nat. split; [lia|].
        destruct currentVideo; [|destruct (isRateLimit e)]; cbn;
          repeat split; try reflexivity;
          exists []; rewrite app_nil_r; (split; [reflexivity|constructor]).
Qed.

Lemma retry_ends env remaining : forall attempts i request currentVideo w,
  (remaining + attempts = maxAttempts)%nat -> (1 <= remaining)%nat ->
  (retry env remaining attempts i request currentVideo w).1 <> exhausted.
Proof.
  induction remaining as [|remaining IH];
    intros attempts i request currentVideo w Hsum Hpos; [lia|].
  cbn [retry].
  destruct (generateVideos env (length (requests w)) request) as [operation|e];
    [discriminate|].
  destruct (isRateLimit e && (S attempts <? maxAttempts)%nat) eqn:E.
  - apply andb_true_iff in E as [_ E]. apply Nat.ltb_lt in E.
    apply IH; lia.
  - destruct currentVideo; [|destruct (isRateLimit e)]; discriminate.
Qed.

(** Property X9.
    The retry loop ends by a success, a break or a throw, never by its
    condition: when the tenth attempt fails, the catch block has already
    left the loop.  The check made after the loop for a failure at the
    start therefore guards a case that does not arise. *)
Theorem retry_never_runs_out (env : Env) (i : nat) (request : Request)
    (currentVideo : option Video) (w : World) :
  (retry env maxAttempts 0 i request currentVideo w).1 <> exhausted.
Proof. apply retry_ends; unfold maxAttempts; lia. Qed.

Lemma retry_with_video env remaining : forall attempts i request v w e,
  (retry env remaining attempts i request (Some v) w).1 <> threw e.
Proof.
  induction remaining as [|remaining IH]; intros attempts i request v w e;
    [discriminate|].
  cbn [retry].
  destruct (generateVideos env (length (requests w)) request) as [operation|e'];
    [discriminate|].
  destruct (isRateLimit e' && (S attempts <? maxAttempts)%nat);
    [apply IH|discriminate].
Qed.

Lemma poll_effect operation : forall w,
  let r := poll operation w in
  requests r.2 = requests w /\ progress r.2 = progress w /\
  downloads r.2 = downloads w /\ console r.2 = console w /\
  exists n, waits r.2 = waits w ++ replicate n 10000 /\
            polls r.2 = (polls w + n)%nat.
Proof.
  induction operation as [v|next IH|e]; intros w; cbv zeta.
  - cbn. repeat split; try reflexivity. exists 0%nat. cbn.
    rewrite app_nil_r. split; [reflexivity|lia].
  - cbn [poll]. destruct (IH (polled (wait 10000 w))) as (Hr & Hp & Hd & Hc & n & Hw & Hq).
    rewrite Hr, Hp, Hd, Hc. repeat split; try reflexivity.
    exists (S n). rewrite Hw, Hq. cbn. rewrite <- app_assoc.
    split; [reflexivity|lia].
  - cbn. repeat split; try reflexivity. exists 1%nat. split; [reflexivity|lia].
Qed.

Lemma seq_shift_map {A} (f : nat -> A) (k : nat) :
  map f (seq 0 (S k)) = f 0%nat :: map (fun j => f (S j)) (seq 0 k).
Proof.
  cbn [seq map]. f_equal. rewrite <- seq_shift, map_map. reflexivity.
Qed.

(** With a video at hand the loop over the segments does not throw. *)
Lemma segments_with_video env total prompts : forall i v w,
  exists v' w', segments env total i prompts (Some v) w = (returns (Some v'), w').
Proof.
  induction prompts as [|p rest IH]; intros i v w.
  - eexists _, _. reflexivity.
  - cbn [segments].
    destruct (retry env maxAttempts 0 i _ (Some v) (onProgress (i + 1) total w))
      as [[operation| | |e] w2] eqn:Er.
    + destruct (poll operation w2) as [[[newVideo|]|e] w3].
      * apply IH.
      * eexists _, _. reflexivity.
      * eexists _, _. reflexivity.
    + eexists _, _. reflexivity.
    + eexists _, _. reflexivity.
    + exfalso. eapply retry_with_video. rewrite Er. reflexivity.
Qed.

(** What a pause can be: the ten seconds of a poll, the fifteen seconds
    between two segments, or a backoff. *)
Lemma segments_bounds env total prompts : forall i currentVideo w,
  let r := segments env total i prompts currentVideo w in
  exists k news pauses,
    (k <= length prompts)%nat /\
    progress r.2 =
      progress w ++ map (fun j => ((i + j + 1)%nat, total)) (seq 0 k) /\
    requests r.2 = requests w ++ news /\
    (length news <= 10 * k)%nat /\
    Forall (fun q => prompt q ∈ prompts) news /\
    waits r.2 = waits w ++ pauses /\
    Forall (fun d => 10000 <= d <= 120000) pauses /\
    downloads r.2 = downloads w.
Proof.
  induction prompts as [|p rest IH]; intros i currentVideo w; cbv zeta.
  - exists 0%nat, [], []. cbn. rewrite !app_nil_r.
    repeat split; try reflexivity; try constructor; lia.
  - cbn [segments].
    set (request := if (i =? 0)%nat then _ else _).
    assert (Hprompt : prompt request = p).
    { unfold request. destruct (i =? 0)%nat; reflexivity. }
    pose proof (retry_requests env maxAttempts 0 i request currentVideo
                  (onProgress (i + 1) total w)) as Hretry.
    cbv zeta in Hretry.
    destruct Hretry as (n & Hn & Hr & Hp & _ & Hd & pauses & Hw & Hf).
    assert (Hone : exists news pauses',
       requests (retry env maxAttempts 0 i request currentVideo
                   (onProgress (i + 1) total w)).2 = requests w ++ news /\
       (length news <= 10 * 1)%nat /\
       Forall (fun q => prompt q ∈ p :: rest) news /\
       waits (retry env maxAttempts 0 i request currentVideo
                (onProgress (i + 1) total w)).2 = waits w ++ pauses' /\
       Forall (fun d => 10000 <= d <= 120000) pauses').
    { exists (replicate n request), pauses. rewrite Hr, Hw. cbn.
      rewrite length_replicate. unfold maxAttempts in Hn.
      repeat split; try reflexivity; try lia.
      - apply Forall_replicate. rewrite Hprompt. left.
      - eapply Forall_impl; [exact Hf|]. cbn. intros d Hd'. lia. }
    destruct Hone as (news & pauses' & Hr' & Hl' & Hm' & Hw' & Hf').
    clear n Hn Hr Hw Hf pauses.
    assert (Hprog : forall k', 
       (progress w ++ [((i + 1)%nat, total)]) ++
         map (fun j => ((S i + j + 1)%nat, total)) (seq 0 k') =
       progress w ++ map (fun j => ((i + j + 1)%nat, total)) (seq 0 (S k'))).
    { intros k'. rewrite seq_shift_map, <- app_assoc. cbn [app].
      rewrite Nat.add_0_r. do 2 f_equal.
      apply map_ext. intros j. f_equal. lia. }
    destruct (retry env maxAttempts 0 i request currentVideo
                (onProgress (i + 1) total w)) as [[operation| | |e] w2] eqn:Er;
      cbn [fst snd] in *.
    + pose proof (poll_effect operation w2) as Hpoll. cbv zeta in Hpoll.
      destruct Hpoll as (Pr & Pp & Pd & _ & m & Pw & _).
      assert (Hpauses : Forall (fun d => 10000 <= d <= 120000)
                          (pauses' ++ replicate m 10000)).
      { apply Forall_app. split; [exact Hf'|]. apply Forall_replicate. lia. }
      destruct (poll operation w2) as [[[newVideo|]|e] w3]; cbn [fst snd] in *.
      * set (w4 := if (i <? total - 1)%nat then wait 15000 w3 else w3).
        destruct (IH (S i) (Some newVideo) w4)
          as (k & news2 & pauses2 & Hk & Ip & Ir & Il & Im & Iw & If & Id).
        assert (H4 : requests w4 = requests w3 /\ progress w4 = progress w3 /\
                     downloads w4 = downloads w3 /\
                     exists extra, waits w4 = waits w3 ++ extra /\
                       Forall (fun d => 10000 <= d <= 120000) extra).
        { unfold w4. destruct (i <? total - 1)%nat; cbn; repeat split;
            try reflexivity.
          - exists [15000]. split; [reflexivity|]. repeat constructor; lia.
          - exists []. rewrite app_nil_r. split; [reflexivity|constructor]. }
        destruct H4 as (Qr & Qp & Qd & extra & Qw & Qf).
        exists (S k), (news ++ news2), ((pauses' ++ replicate m 10000) ++ extra ++ pauses2).
        split; [cbn; lia|]. split.
        { rewrite Ip, Qp, Pp, Hp. cbn [progress onProgress]. apply Hprog. }
        split; [rewrite Ir, Qr, Pr, Hr', app_assoc; reflexivity|].
        split; [rewrite length_app; lia|]. split.
        { apply Forall_app. split; [exact Hm'|].
          eapply Forall_impl; [exact Im|]. cbn. intros q Hq. right. exact Hq. }
        split; [rewrite Iw, Qw, Pw, Hw', <- !app_assoc; reflexivity|].
        split; [|rewrite Id, Qd, Pd, Hd; reflexivity].
        apply Forall_app; split; [exact Hpauses|].
        apply Forall_app; split; assumption.
      * exists 1%nat, news, (pauses' ++ replicate m 10000).
        destruct currentVideo; cbn [fst snd];
          (split; [cbn; lia|]);
          (split; [rewrite Pp, Hp; cbn [progress onProgress seq map];
                   rewrite Nat.add_0_r; reflexivity|]);
          (split; [rewrite Pr; exact Hr'|]); (split; [exact Hl'|]);
          (split; [exact Hm'|]);
          (split; [rewrite Pw, Hw', app_assoc; reflexivity|]);
          (split; [exact Hpauses|rewrite Pd; exact Hd]).
      * exists 1%nat, news, (pauses' ++ replicate m 10000).
        destruct currentVideo; cbn [fst snd log requests progress waits downloads];
          (split; [cbn; lia|]);
          (split; [rewrite Pp, Hp; cbn [progress onProgress seq map];
                   rewrite Nat.add_0_r; reflexivity|]);
          (split; [rewrite Pr; exact Hr'|]); (split; [exact Hl'|]);
          (split; [exact Hm'|]);
          (split; [rewrite Pw, Hw', app_assoc; reflexivity|]);
          (split; [exact Hpauses|rewrite Pd; exact Hd]).
    + exists 1%nat, news, pauses'.
      split; [cbn; lia|].
      split; [rewrite Hp; cbn [progress onProgress seq map];
              rewrite Nat.add_0_r; reflexivity|].
      repeat split; assumption.
    + exists 1%nat, news, pauses'.
      destruct currentVideo; cbn [fst snd];
        (split; [cbn; lia|]);
        (split; [rewrite Hp; cbn [progress onProgress seq map];
                 rewrite Nat.add_0_r; reflexivity|]);
        repeat split; assumption.
    + exists 1%nat, news, pauses'.
      split; [cbn; lia|].
      split; [rewrite Hp; cbn [progress onProgress seq map];
              rewrite Nat.add_0_r; reflexivity|].
      repeat split; assumption.
Qed.

(** Property X10.
    The work of one call is bounded by the script.  At most thirty
    segments are attempted, whatever the length of the script; progress is
    reported once per attempted segment, as (1, n), (2, n), ... with n the
    number of segments kept; every request is for one of the first thirty
    prompts and no segment is requested more than ten times; every pause
    lasts between ten seconds and two minutes; and at most one download
    is made. *)
Theorem video_work_is_bounded (env : Env) (script : list string) (w : World) :
  let r := generateSocialVideo env script w in
  let n := length (take 30 script) in
  (n <= 30)%nat /\
  exists k news pauses,
    (k <= n)%nat /\
    progress r.2 = progress w ++ map (fun j => (S j, n)) (seq 0 k) /\
    requests r.2 = requests w ++ news /\
    (length news <= 10 * k)%nat /\
    Forall (fun q => prompt q ∈ take 30 script) news /\
    waits r.2 = waits w ++ pauses /\
    Forall (fun d => 10000 <= d <= 120000) pauses /\
    (length (downloads r.2) <= S (length (downloads w)))%nat.
Proof.
  cbv zeta. split; [rewrite length_take; lia|].
  unfold generateSocialVideo. cbv zeta.
  destruct (segments_bounds env (length (take 30 script)) (take 30 script) 0 None w)
    as (k & news & pauses & Hk & Hp & Hr & Hl & Hm & Hw & Hf & Hd).
  exists k, news, pauses.
  assert (Hprog : map (fun j => ((0 + j + 1)%nat, length (take 30 script))) (seq 0 k) =
                  map (fun j => (S j, length (take 30 script))) (seq 0 k)).
  { apply map_ext. intros j. f_equal. lia. }
  rewrite Hprog in Hp. clear Hprog.
  destruct (segments env (length (take 30 script)) 0 (take 30 script) None w)
    as [[[currentVideo|]|e] w1]; cbn [fst snd] in *.
  - destruct (fetch env currentVideo) as [response|e];
      [destruct (ok response); [destruct (blob response)|]|];
      cbn [fst snd downloaded progress requests waits downloads];
      rewrite ?length_app, ?Hd; cbn [length];
      repeat split; try assumption; lia.
  - rewrite Hd. repeat split; try assumption; lia.
  - rewrite Hd. repeat split; try assumption; lia.
Qed.

(** Property X11.
    When [generateSocialVideo] throws anything but a failure of the
    download, no video was produced at all: it made at most ten requests,
    every one of them for the first segment and none carrying a video, and
    no download.  Once the first segment has given a video, no failure of
    a later segment is thrown: the loop is left and the video at hand is
    downloaded. *)
Theorem video_failure_means_no_video (env : Env) (script : list string)
    (w : World) (e : Thrown) :
  (generateSocialVideo env script w).1 = throws e ->
  downloadFailure e \/
  exists n, (n <= 10)%nat /\
    requests (generateSocialVideo env script w).2 =
      requests w ++
      replicate n {| prompt := default EmptyString (head script);
                     video := None |} /\
    downloads (generateSocialVideo env script w).2 = downloads w.
Proof.
  unfold generateSocialVideo. cbv zeta.
  destruct script as [|p script].
  { cbn. intros _. right. exists 0%nat. cbn. rewrite app_nil_r.
    split; [lia|split; reflexivity]. }
  change (take 30 (p :: script)) with (p :: take 29 script).
  set (total := length (p :: take 29 script)).
  cbn [segments Nat.eqb head default].
  pose proof (retry_requests env maxAttempts 0 0 {| prompt := p; video := None |}
                None (onProgress (0 + 1) total w)) as Hretry.
  cbv zeta in Hretry.
  destruct Hretry as (n & Hn & Hr & _ & _ & Hd & _).
  unfold maxAttempts in Hn.
  destruct (retry env maxAttempts 0 0 {| prompt := p; video := None |} None
              (onProgress (0 + 1) total w)) as [[operation| | |e'] w2];
    cbn [fst snd] in *.
  - pose proof (poll_effect operation w2) as Hpoll. cbv zeta in Hpoll.
    destruct Hpoll as (Pr & _ & Pd & _).
    destruct (poll operation w2) as [[[newVideo|]|e'] w3]; cbn [fst snd] in *.
    + destruct (segments_with_video env total (take 29 script) 1 newVideo
                  (if (0 <? total - 1)%nat then wait 15000 w3 else w3))
        as (v' & w' & ->).
      destruct (fetch env v') as [response|e'];
        [destruct (ok response); [destruct (blob response) as [url|e']|]|];
        cbn [fst]; intros H; try discriminate H; injection H as <-;
        left; eexists; reflexivity.
    + intros _. right. exists n. rewrite Pr, Pd, Hr, Hd.
      split; [lia|split; reflexivity].
    + intros _. right. exists n. cbn [log requests downloads].
      rewrite Pr, Pd, Hr, Hd. split; [lia|split; reflexivity].
  - intros _. right. exists n. rewrite Hr, Hd.
    split; [lia|split; reflexivity].
  - intros _. right. exists n. rewrite Hr, Hd.
    split; [lia|split; reflexivity].
  - intros _. right. exists n. rewrite Hr, Hd.
    split; [lia|split; reflexivity].
Qed.

Lemma retry_refused env i request remaining : forall attempts w,
  (forall k r, exists e, generateVideos env k r = throws e /\ isRateLimit e = true) ->
  (remaining + attempts = maxAttempts)%nat -> (1 <= remaining)%nat ->
  let r := retry env remaining attempts i request None w in
  r.1 = threw (Error_ quotaExceeded) /\
  requests r.2 = requests w ++ replicate remaining request /\
  waits r.2 = waits w ++ map backoff (seq (S attempts) (remaining - 1)) /\
  progress r.2 = progress w /\ polls r.2 = polls w /\
  downloads r.2 = downloads w.
Proof.
  induction remaining as [|remaining IH]; intros attempts w Hlim Hsum Hpos;
    [lia|]. cbv zeta. cbn [retry].
  destruct (Hlim (length (requests w)) request) as (e & -> & He). rewrite He.
  cbn [andb]. destruct (S attempts <? maxAttempts)%nat eqn:E.
  - apply Nat.ltb_lt in E.
    edestruct (IH (S attempts)) as (H1 & H2 & H3 & H4 & H5 & H6);
      [exact Hlim|lia|lia|].
    rewrite H1, H2, H3, H4, H5, H6. cbn [requests waits progress polls downloads
                                          wait log requested].
    rewrite <- !app_assoc. cbn [app replicate].
    repeat split; try reflexivity.
    f_equal. replace (S remaining - 1)%nat with (S (remaining - 1)) by lia.
    reflexivity.
  - apply Nat.ltb_ge in E. assert (remaining = 0%nat) as -> by lia.
    cbn. rewrite app_nil_r. repeat split; reflexivity.
Qed.

Lemma generateSocialVideo_refused env p script w :
  (forall k r, exists e,
     generateVideos env k r = throws e /\ isRateLimit e = true) ->
  let r := generateSocialVideo env (p :: script) w in
  r.1 = throws (Error_ quotaExceeded) /\
  requests r.2 =
    requests w ++ replicate 10 {| prompt := p; video := None |} /\
  waits r.2 = waits w ++ nineBackoffs /\
  progress r.2 = progress w ++ [(1%nat, length (take 30 (p :: script)))] /\
  polls r.2 = polls w /\
  downloads r.2 = downloads w.
Proof.
  intros Hlim. cbv zeta. unfold generateSocialVideo. cbv zeta.
  change (take 30 (p :: script)) with (p :: take 29 script).
  set (total := length (p :: take 29 script)).
  cbn [segments Nat.eqb].
  pose proof (retry_refused env 0 {| prompt := p; video := None |} maxAttempts 0
                (onProgress (0 + 1) total w) Hlim eq_refl) as H.
  cbv zeta in H. destruct H as (H1 & H2 & H3 & H4 & H5 & H6);
    [unfold maxAttempts; lia|].
  destruct (retry env maxAttempts 0 0 {| prompt := p; video := None |} None
              (onProgress (0 + 1) total w)) as [att w2]; cbn [fst snd] in *.
  subst att. cbn [fst snd]. rewrite H2, H3, H4, H5, H6.
  repeat split; reflexivity.
Qed.

(** Property X12.
    Under a rate limit that does not lift, the first segment is requested
    ten times, with pauses of 15, 30 and 60 seconds and then six of two
    minutes (13 minutes 45 seconds in all); the function then throws the
    quota error.  Nothing is polled and nothing downloaded, and progress
    is reported once. *)
Theorem video_persistent_rate_limit (env : Env) (p : string)
    (script : list string) (w : World) :
  (forall k r, exists e,
     generateVideos env k r = throws e /\ isRateLimit e = true) ->
  let r := generateSocialVideo env (p :: script) w in
  r.1 = throws (Error_ quotaExceeded) /\
  requests r.2 =
    requests w ++ replicate 10 {| prompt := p; video := None |} /\
  waits r.2 = waits w ++ nineBackoffs /\
  fold_right Z.add 0 nineBackoffs = 825000 /\
  progress r.2 = progress w ++ [(1%nat, length (take 30 (p :: script)))] /\
  polls r.2 = polls w /\
  downloads r.2 = downloads w.
Proof.
  intros Hlim. cbv zeta.
  pose proof (generateSocialVideo_refused env p script w Hlim) as H.
  cbv zeta in H. destruct H as (H1 & H2 & H3 & H4 & H5 & H6).
  repeat split; assumption || reflexivity.
Qed.

(** Property X12, an instance.
    A script of two segments and a model that answers every request
    with a 429 error. *)
Lemma video_persistent_rate_limit_witness :
  let env := {| generateVideos := fun _ _ => throws (Error_ "429 Too Many Requests");
                fetch := fun _ => throws (Error_ "offline") |} in
  let r := generateSocialVideo env ["A street at dawn"; "The same street at noon"]
             untouched in
  r.1 = throws (Error_ quotaExceeded) /\
  requests r.2 =
    requests untouched ++
    replicate 10 {| prompt := "A street at dawn"; video := None |} /\
  waits r.2 = waits untouched ++ nineBackoffs /\
  fold_right Z.add 0 nineBackoffs = 825000 /\
  progress r.2 =
    progress untouched ++
    [(1%nat, length (take 30 ["A street at dawn"; "The same street at noon"]))] /\
  polls r.2 = polls untouched /\
  downloads r.2 = downloads untouched.
Proof.
  apply (video_persistent_rate_limit
           {| generateVideos := fun _ _ => throws (Error_ "429 Too Many Requests");
              fetch := fun _ => throws (Error_ "offline") |}
           "A street at dawn" ["The same street at noon"] untouched).
  intros k r. eexists. split; [reflexivity|]. vm_compute. reflexivity.
Defined.

(** Property X11, an instance.
    A script of one segment whose prompt the model refuses. *)
Lemma video_failure_means_no_video_witness :
  let env := {| generateVideos := fun _ _ => throws (Error_ "bad prompt");
                fetch := fun _ => throws (Error_ "offline") |} in
  downloadFailure (Error_ "Veo Generation Failed: bad prompt") \/
  exists n, (n <= 10)%nat /\
    requests (generateSocialVideo env ["A street at dawn"] untouched).2 =
      requests untouched ++
      replicate n {| prompt := default EmptyString (head ["A street at dawn"]);
                     video := None |} /\
    downloads (generateSocialVideo env ["A street at dawn"] untouched).2 =
      downloads untouched.
Proof.
  apply (video_failure_means_no_video
           {| generateVideos := fun _ _ => throws (Error_ "bad prompt");
              fetch := fun _ => throws (Error_ "offline") |}
           ["A street at dawn"] untouched).
  vm_compute. reflexivity.
Defined.

Lemma poll_pending n v : forall w,
  let r := poll (Nat.iter n pending (done v)) w in
  r.1 = returns v /\
  requests r.2 = requests w /\ progress r.2 = progress w /\
  downloads r.2 = downloads w /\ console r.2 = console w /\
  waits r.2 = waits w ++ replicate n 10000 /\
  polls r.2 = (polls w + n)%nat.
Proof.
  induction n as [|n IH]; intros w; cbv zeta.
  - cbn. rewrite app_nil_r, Nat.add_0_r. repeat split; reflexivity.
  - change (Nat.iter (S n) pending (done v))
      with (pending (Nat.iter n pending (done v))).
    cbn [poll].
    destruct (IH (polled (wait 10000 w))) as (H1 & H2 & H3 & H4 & H5 & H6 & H7).
    rewrite H1, H2, H3, H4, H5, H6, H7. cbn. rewrite <- app_assoc.
    repeat split; try reflexivity. lia.
Qed.

Lemma segments_chained env clipOf lag total prompts : forall i currentVideo w,
  (forall k r, generateVideos env k r =
     returns (Nat.iter (lag k) pending (done (Some (clipOf k))))) ->
  total = (i + length prompts)%nat ->
  let r := segments env total i prompts currentVideo w in
  let base := length (requests w) in
  requests r.2 =
    requests w ++
    imap (fun j p =>
            {| prompt := p;
               video := match j with
                        | O => if (i =? 0)%nat then None else currentVideo
                        | S j' => Some (clipOf (base + j')%nat)
                        end |}) prompts /\
  waits r.2 = waits w ++ pauses lag base (length prompts) /\
  progress r.2 =
    progress w ++
    map (fun j => ((i + j + 1)%nat, total)) (seq 0 (length prompts)) /\
  polls r.2 = (polls w + sum_list (map lag (seq base (length prompts))))%nat /\
  downloads r.2 = downloads w /\
  r.1 = returns match prompts with
                | [] => currentVideo
                | _ => Some (clipOf (base + length prompts - 1)%nat)
                end.
Proof.
  induction prompts as [|p rest IH]; intros i currentVideo w Hgen Htotal; cbv zeta.
  - cbn. rewrite !app_nil_r, Nat.add_0_r. repeat split; reflexivity.
  - cbn [segments]. unfold maxAttempts. cbn [retry]. rewrite Hgen.
    cbn [requests onProgress requested].
    set (w3 := requested _ (onProgress (i + 1) total w)).
    destruct (poll_pending (lag (length (requests w)))
                (Some (clipOf (length (requests w)))) w3)
      as (P1 & Pr & Pp & Pd & Pc & Pw & Pq).
    destruct (poll (Nat.iter (lag (length (requests w))) pending
                      (done (Some (clipOf (length (requests w)))))) w3)
      as [res w3']. cbn [fst snd] in P1, Pr, Pp, Pd, Pc, Pw, Pq. subst res.
    set (w4 := if (i <? total - 1)%nat then wait 15000 w3' else w3').
    assert (H4 : requests w4 = requests w3' /\ progress w4 = progress w3' /\
                 polls w4 = polls w3' /\ downloads w4 = downloads w3' /\
                 waits w4 = waits w3' ++
                   match rest with [] => [] | _ => [15000] end).
    { unfold w4. cbn [length] in Htotal.
      destruct rest as [|q rest'].
      - replace (i <? total - 1)%nat with false
          by (symmetry; apply Nat.ltb_ge; cbn in Htotal; lia).
        rewrite app_nil_r. repeat split; reflexivity.
      - replace (i <? total - 1)%nat with true
          by (symmetry; apply Nat.ltb_lt; cbn in Htotal; lia).
        repeat split; reflexivity. }
    destruct H4 as (Qr & Qp & Qq & Qd & Qw).
    destruct (IH (S i) (Some (clipOf (length (requests w)))) w4 Hgen)
      as (Ir & Iw & Ip & Iq & Id & Ires);
      [cbn [length] in Htotal; lia|].
    rewrite Ir, Iw, Ip, Iq, Id, Ires, Qr, Qp, Qq, Qd, Qw, Pr, Pp, Pd, Pw, Pq.
    unfold w3. cbn [requests waits progress polls downloads requested onProgress].
    rewrite length_app. cbn [length imap].
    rewrite <- !app_assoc. cbn [app].
    replace (length (requests w) + 1)%nat with (S (length (requests w))) by lia.
    split.
    { f_equal. f_equal; [destruct (i =? 0)%nat; reflexivity|].
      apply imap_ext. intros j q _. cbn. f_equal.
      destruct j as [|j']; cbn; do 2 f_equal; lia. }
    split.
    { f_equal. cbn [pauses]. f_equal.
      destruct rest as [|q rest']; reflexivity. }
    split.
    { f_equal. rewrite seq_shift_map. rewrite Nat.add_0_r. f_equal.
      apply map_ext. intros j. f_equal. lia. }
    split.
    { cbn [seq map sum_list sum_list_with]. unfold id. lia. }
    split; [reflexivity|].
    destruct rest as [|q rest']; cbn [length]; do 3 f_equal; lia.
Qed.

(** Property X13.
    When every request is accepted and its operation ends with a video,
    at once or after any number of polls, the segments are asked for in
    the order of the script, one request each, the first without a video
    and each of the others with the video that the request before it
    produced.  Each operation is polled every ten seconds until it is
    done, two segments are fifteen seconds apart, progress is reported for
    every segment, and what is downloaded is the video of the last
    segment. *)
Theorem video_segments_are_chained (env : Env) (clipOf : nat -> Video)
    (lag : nat -> nat) (script : list string) (w : World) :
  (forall k r, generateVideos env k r =
     returns (Nat.iter (lag k) pending (done (Some (clipOf k))))) ->
  script <> [] ->
  let prompts := take 30 script in
  let n := length prompts in
  let base := length (requests w) in
  let r := generateSocialVideo env script w in
  requests r.2 =
    requests w ++
    imap (fun j p =>
            {| prompt := p;
               video := match j with
                        | O => None
                        | S j' => Some (clipOf (base + j')%nat)
                        end |}) prompts /\
  waits r.2 = waits w ++ pauses lag base n /\
  progress r.2 = progress w ++ map (fun j => (S j, n)) (seq 0 n) /\
  polls r.2 = (polls w + sum_list (map lag (seq base n)))%nat /\
  downloads r.2 = downloads w ++ [clipOf (base + n - 1)%nat].
Proof.
  intros Hgen Hne. destruct script as [|p script]; [contradiction|].
  cbv zeta. unfold generateSocialVideo. cbv zeta.
  change (take 30 (p :: script)) with (p :: take 29 script).
  pose proof (segments_chained env clipOf lag (length (p :: take 29 script))
                (p :: take 29 script) 0 None w Hgen eq_refl) as H.
  cbv zeta in H. destruct H as (Hr & Hw & Hp & Hq & Hd & Hres).
  assert (Hprog : map (fun j => ((0 + j + 1)%nat, length (p :: take 29 script)))
                    (seq 0 (length (p :: take 29 script))) =
                  map (fun j => (S j, length (p :: take 29 script)))
                    (seq 0 (length (p :: take 29 script)))).
  { apply map_ext. intros j. f_equal. lia. }
  rewrite Hprog in Hp. clear Hprog.
  destruct (segments env (length (p :: take 29 script)) 0 (p :: take 29 script)
              None w) as [res w1]; cbn [fst snd] in *. subst res.
  cbn [Nat.eqb] in Hr.
  set (last := clipOf _).
  destruct (fetch env last) as [response|e];
    [destruct (ok response); [destruct (blob response)|]|];
    cbn [fst snd downloaded requests waits progress polls downloads];
    rewrite Hr, Hw, Hp, Hq, Hd; repeat split; reflexivity.
Qed.

(** Property X13, an instance.
    A script of two segments, the video of a request named by the
    number of the request; the operation of the first request is done at
    once, that of the second after one poll. *)
Lemma video_segments_are_chained_witness :
  let env := {| generateVideos :=
                  fun k _ => returns (Nat.iter k pending (done (Some (pretty k))));
                fetch := fun _ => throws (Error_ "offline") |} in
  let script := ["A street at dawn"; "The same street at noon"] in
  let prompts := take 30 script in
  let n := length prompts in
  let base := length (requests untouched) in
  let r := generateSocialVideo env script untouched in
  requests r.2 =
    requests untouched ++
    imap (fun j p =>
            {| prompt := p;
               video := match j with
                        | O => None
                        | S j' => Some (pretty (base + j')%nat)
                        end |}) prompts /\
  waits r.2 = waits untouched ++ pauses (fun k => k) base n /\
  progress r.2 = progress untouched ++ map (fun j => (S j, n)) (seq 0 n) /\
  polls r.2 = (polls untouched + sum_list (map (fun k => k) (seq base n)))%nat /\
  downloads r.2 = downloads untouched ++ [pretty (base + n - 1)%nat].
Proof.
  apply (video_segments_are_chained
           {| generateVideos :=
                fun k _ => returns (Nat.iter k pending (done (Some (pretty k))));
              fetch := fun _ => throws (Error_ "offline") |}
           pretty (fun k => k)
           ["A street at dawn"; "The same street at noon"] untouched).
  - intros k r. reflexivity.
  - discriminate.
Defined.

End VideoFacts.

Section StoryFacts.
Import Str Story.

Lemma caught_failedWith env e s w :
  failedWith (shown e) (caught env e s w).1.
Proof. split; reflexivity. Qed.

Lemma failures_cons env jp jps :
  failures env (jp :: jps) =
    match generateComicPanel env jp.1 (prompt_for_image jp.2) with
    | Video.returns _ => failures env jps
    | Video.throws _ =>
        ("Failed to generate image for panel " +:+ pretty (id jp.2)) ::
        failures env jps
    end.
Proof.
  unfold failures. cbn.
  destruct (generateComicPanel env jp.1 (prompt_for_image jp.2)); reflexivity.
Qed.

Lemma draw_all env jps : forall s w,
  let r := foldl (draw env) (s, w) jps in
  r.1 = set_panelImages (panelImages r.1) s /\
  console r.2 = console w ++ failures env jps /\
  video r.2 = video w /\ keyDialogs r.2 = keyDialogs w.
Proof.
  induction jps as [|jp jps IH]; intros s w; cbv zeta.
  - cbn. rewrite app_nil_r. destruct s. repeat split; reflexivity.
  - cbn [foldl]. rewrite failures_cons.
    pose proof (IH (draw env (s, w) jp).1 (draw env (s, w) jp).2) as H.
    cbv zeta in H. rewrite <- surjective_pairing in H.
    destruct H as (H1 & H2 & H3 & H4).
    rewrite H2, H3, H4.
    set (R := foldl (draw env) (draw env (s, w) jp) jps) in *.
    split; [rewrite H1; clearbody R; clear|clearbody R; clear]; unfold draw;
      destruct (generateComicPanel env jp.1 (prompt_for_image jp.2)) as [b|e];
      cbn [fst snd console log video keyDialogs];
      rewrite <- ?app_assoc; try (destruct s; reflexivity);
      repeat split; reflexivity.
Qed.

Lemma draw_images env jps : forall s w,
  NoDup (map (fun jp => id jp.2) jps) ->
  let r := foldl (draw env) (s, w) jps in
  (forall jp, jp ∈ jps ->
     panelImages r.1 !! id jp.2 =
       match generateComicPanel env jp.1 (prompt_for_image jp.2) with
       | Video.returns b => Some b
       | Video.throws _ => panelImages s !! id jp.2
       end) /\
  (forall key, key ∉ map (fun jp => id jp.2) jps ->
     panelImages r.1 !! key = panelImages s !! key).
Proof.
  induction jps as [|jp jps IH]; intros s w Hnd; cbv zeta.
  - split; [intros jp Hin; inversion Hin|reflexivity].
  - cbn [map] in Hnd. apply NoDup_cons in Hnd as [Hnotin Hnd].
    cbn [foldl].
    pose proof (IH (draw env (s, w) jp).1 (draw env (s, w) jp).2 Hnd) as I.
    cbv zeta in I. rewrite <- surjective_pairing in I. destruct I as [I1 I2].
    assert (Hhere : panelImages (draw env (s, w) jp).1 !! id jp.2 =
                    match generateComicPanel env jp.1 (prompt_for_image jp.2) with
                    | Video.returns b => Some b
                    | Video.throws _ => panelImages s !! id jp.2
                    end).
    { unfold draw.
      destruct (generateComicPanel env jp.1 (prompt_for_image jp.2)); cbn;
        [apply lookup_insert_eq|reflexivity]. }
    assert (Hother : forall key, key <> id jp.2 ->
              panelImages (draw env (s, w) jp).1 !! key = panelImages s !! key).
    { intros key Hk. unfold draw.
      destruct (generateComicPanel env jp.1 (prompt_for_image jp.2)); cbn;
        [apply lookup_insert_ne; congruence|reflexivity]. }
    split.
    + intros jp' Hin. apply elem_of_cons in Hin as [->|Hin].
      * rewrite I2 by exact Hnotin. exact Hhere.
      * rewrite (I1 jp' Hin).
        destruct (generateComicPanel env jp'.1 (prompt_for_image jp'.2));
          [reflexivity|].
        apply Hother. intros Heq. apply Hnotin. rewrite <- Heq.
        apply (list_elem_of_fmap_2 (fun jp => id jp.2)), Hin.
    + intros key Hk. cbn [map] in Hk. apply not_elem_of_cons in Hk as [Hk1 Hk2].
      rewrite I2 by exact Hk2. apply Hother, Hk1.
Qed.

Lemma rendered_error env s w :
  error (rendered env s w).2.1 = error s /\
  storyBoard (rendered env s w).2.1 = storyBoard s.
Proof.
  unfold rendered. cbv zeta.
  destruct (planVideoGeneration env) as [videoPlan|e]; [|split; reflexivity].
  destruct (Video.generateSocialVideo _ _ _) as [[url|e] vw];
    destruct (last _) as [[current total]|]; split; reflexivity.
Qed.

Lemma videoFlow_error env s w :
  error (videoFlow env s w).2.1 = error s.
Proof.
  unfold videoFlow.
  destruct (keyCheck env w) as [[[]|e] w']; [apply rendered_error|reflexivity].
Qed.

Lemma comicFlow_error env s w :
  error (comicFlow env s w).2.1 = error s.
Proof.
  unfold comicFlow. cbv zeta.
  destruct (generateVisualStoryPlan env) as [plan|e]; [|reflexivity].
  destruct (panels plan) as [ps|]; [|reflexivity].
  cbn [snd]. unfold drawn.
  pose proof (draw_all env (imap (fun j p => (j, p)) ps)
              (set_status generating_images
                 (set_storyBoard (Some plan) (set_status planning_comic s))) w)
    as H.
  cbv zeta in H. destruct H as (H & _).
  rewrite H. reflexivity.
Qed.

Lemma produced_settles env targetFormat s w :
  error s = None ->
  finished (produced env targetFormat s w).1 \/
  exists msg, failedWith msg (produced env targetFormat s w).1.
Proof.
  intros He. unfold produced. cbv zeta.
  destruct (decide (targetFormat = VIDEO)) as [_|_].
  - pose proof (videoFlow_error env (set_determinedFormat (Some targetFormat) s) w) as H.
    destruct (videoFlow env _ w) as [[[]|e] [s' w']]; cbn [fst snd] in *.
    + left. split; [reflexivity|]. cbn. rewrite H. exact He.
    + right. eexists. apply caught_failedWith.
  - pose proof (comicFlow_error env (set_determinedFormat (Some targetFormat) s) w) as H.
    destruct (comicFlow env _ w) as [[[]|e] [s' w']]; cbn [fst snd] in *.
    + left. split; [reflexivity|]. cbn. rewrite H. exact He.
    + right. eexists. apply caught_failedWith.
Qed.

Lemma tried_settles env s w :
  error s = None ->
  finished (tried env s w).1 \/ exists msg, failedWith msg (tried env s w).1.
Proof.
  intros He. unfold tried. cbv zeta.
  destruct (extractStoryContent env) as [[|c narrative]|e].
  - right. eexists. apply caught_failedWith.
  - destruct (preferredFormat _).
    + destruct (determineVisualFormat env) as [targetFormat|e].
      * apply produced_settles. exact He.
      * right. eexists. apply caught_failedWith.
    + apply produced_settles. exact He.
    + apply produced_settles. exact He.
  - right. eexists. apply caught_failedWith.
Qed.

Lemma handleGenerate_provided env s w :
  provided s -> handleGenerate env s w = tried env (cleared s) w.
Proof.
  intros [H|H]; unfold handleGenerate.
  - destruct (trim (inputText s)); [contradiction|reflexivity].
  - destruct (trim (inputText s)); [|reflexivity].
    destruct (uploadedFile s); [reflexivity|contradiction].
Qed.

(** Past the extraction, the try block is [produced] at the format the
    generation settles on; the status it starts from is overwritten by
    either flow. *)
Lemma tried_target env s w c narrative targetFormat :
  extractStoryContent env = Video.returns (String c narrative) ->
  target env s = Video.returns targetFormat ->
  exists st, tried env s w = produced env targetFormat (set_status st s) w.
Proof.
  intros Hx Ht. unfold tried, target in *. cbv zeta. rewrite Hx.
  change (preferredFormat (set_status extracting s)) with (preferredFormat s).
  destruct (preferredFormat s).
  - rewrite Ht. exists deciding. destruct s; reflexivity.
  - injection Ht as <-. exists extracting. reflexivity.
  - injection Ht as <-. exists extracting. reflexivity.
Qed.

(** Property X14.
    How a generation ends, in a run that ends: every request to the
    environment is answered, by a result or by a thrown value other than
    [null] and [undefined], and every video operation is done or fails
    after finitely many polls (the environments of [Env]).  With nothing
    to visualise the handler only sets its message and asks for nothing.
    Otherwise, when the handler returns, either the status is done and no
    error is shown, or the status is back to idle and an error message is
    shown. *)
Theorem story_generation_settles (env : Env) (s : State) (w : World) :
  match trim (inputText s), uploadedFile s with
  | EmptyString, None =>
      handleGenerate env s w =
        (set_error (Some "Please provide a story text or upload a file.") s, w)
  | _, _ =>
      finished (handleGenerate env s w).1 \/
      exists msg, failedWith msg (handleGenerate env s w).1
  end.
Proof.
  pose proof (tried_settles env (cleared s) w eq_refl) as Hgo.
  unfold handleGenerate.
  destruct (trim (inputText s)) as [|c t]; [|exact Hgo].
  destruct (uploadedFile s); [exact Hgo|reflexivity].
Qed.

Lemma imap_ids (ps : list StoryPanel) :
  map (fun jp : nat * StoryPanel => id jp.2) (imap (fun j p => (j, p)) ps) =
  map id ps.
Proof.
  change (map (fun jp : nat * StoryPanel => id jp.2)
              (imap (fun j p => (j, p)) ps))
    with ((fun jp : nat * StoryPanel => id jp.2) <$>
          imap (fun j p => (j, p)) ps).
  rewrite fmap_imap. apply imap_const.
Qed.

(** Property X15.
    A comic survives the panels that fail.  When the plan has panels of
    distinct ids, the generation ends done whatever the image requests
    give: the plan is shown, every panel whose request succeeded has its
    image under its id, a panel whose request failed has none, and no
    other key is in the map.  (With distinct ids this does not depend on
    the order in which the requests complete.) *)
Theorem story_comic_survives_failed_panels (env : Env) (s : State) (w : World)
    (c : ascii) (narrative : string) (plan : StoryBoard)
    (ps : list StoryPanel) :
  provided s ->
  extractStoryContent env = Video.returns (String c narrative) ->
  target env s = Video.returns COMIC ->
  generateVisualStoryPlan env = Video.returns plan ->
  panels plan = Some ps ->
  NoDup (map id ps) ->
  let r := handleGenerate env s w in
  finished r.1 /\
  storyBoard r.1 = Some plan /\
  (forall j p, ps !! j = Some p ->
     panelImages r.1 !! id p =
       match generateComicPanel env j (prompt_for_image p) with
       | Video.returns base64 => Some base64
       | Video.throws _ => None
       end) /\
  (forall key, key ∉ map id ps -> panelImages r.1 !! key = None) /\
  video r.2 = video w /\ keyDialogs r.2 = keyDialogs w.
Proof.
  intros Hp Hx Ht Hplan Hps Hnd. cbv zeta.
  rewrite (handleGenerate_provided env s w Hp).
  destruct (tried_target env (cleared s) w c narrative COMIC Hx Ht) as [st ->].
  unfold produced. cbv zeta.
  destruct (decide (COMIC = VIDEO)) as [E|_]; [discriminate|].
  unfold comicFlow. cbv zeta. rewrite Hplan, Hps. unfold drawn.
  set (s0 := set_status generating_images _).
  pose proof (draw_all env (imap (fun j p => (j, p)) ps) s0 w) as Hall.
  pose proof (draw_images env (imap (fun j p => (j, p)) ps) s0 w) as Himg.
  rewrite imap_ids in Himg. specialize (Himg Hnd).
  cbv zeta in Hall, Himg.
  destruct (foldl (draw env) (s0, w) (imap (fun j p => (j, p)) ps)) as [s1 w1].
  cbn [fst snd] in *.
  destruct Hall as (Hs & _ & Hv & Hk). destruct Himg as [I1 I2].
  split; [split; [reflexivity|rewrite Hs; reflexivity]|].
  split; [rewrite Hs; reflexivity|].
  split; [|split; [|split; assumption]].
  - intros j p Hj.
    change (panelImages (set_status done s1)) with (panelImages s1).
    assert (Hin : (j, p) ∈ imap (fun j p => (j, p)) ps).
    { apply elem_of_lookup_imap. exists j, p. split; [reflexivity|exact Hj]. }
    pose proof (I1 (j, p) Hin) as Hjp. cbn [fst snd] in Hjp. rewrite Hjp.
    destruct (generateComicPanel env j (prompt_for_image p)); reflexivity.
  - intros key Hk'.
    change (panelImages (set_status done s1)) with (panelImages s1).
    rewrite I2 by exact Hk'. reflexivity.
Qed.

Lemma caught_quota env s w :
  caught env (Video.Error_ Video.quotaExceeded) s w =
  (set_status idle (set_error (Some quotaShown) s), log "Veo Quota Hit:" w).
Proof. reflexivity. Qed.

Lemma caught_no_content env s w :
  caught env (Video.Error_ "No video content generated.") s w =
  (set_status idle (set_error (Some "No video content generated.") s),
   log "Visual Story Error:" w).
Proof. reflexivity. Qed.

(** Property X16.
    A rate limit that does not lift, seen from the view.  The generation
    of a video then makes its ten requests for the first segment, waits
    13 minutes 45 seconds in all, and ends idle with the quota message;
    no video is shown, the progress stays at segment 1, and the catch
    block opens no key dialog. *)
Theorem story_rate_limit_is_shown (env : Env) (s : State) (w : World)
    (c : ascii) (narrative : string) (plan : VideoPlan) (p : string)
    (rest : list string) :
  provided s ->
  extractStoryContent env = Video.returns (String c narrative) ->
  target env s = Video.returns VIDEO ->
  (keyCheck env w).1 = Video.returns () ->
  planVideoGeneration env = Video.returns plan ->
  script plan = p :: rest ->
  (forall k r, exists e,
     Video.generateVideos (veo env) k r = Video.throws e /\
     Video.isRateLimit e = true) ->
  let r := handleGenerate env s w in
  failedWith quotaShown r.1 /\
  videoUrl r.1 = None /\
  currentSegment r.1 = 1%nat /\
  totalSegments r.1 = length (take 30 (script plan)) /\
  Video.requests (video r.2) =
    Video.requests (video w) ++
    replicate 10 {| Video.prompt := p; Video.video := None |} /\
  Video.waits (video r.2) = Video.waits (video w) ++ Video.nineBackoffs /\
  keyDialogs r.2 = keyDialogs (keyCheck env w).2 /\
  console r.2 = console w ++ ["Veo Quota Hit:"].
Proof.
  intros Hp Hx Ht Hkey Hplan Hscript Hlim. cbv zeta.
  rewrite (handleGenerate_provided env s w Hp).
  destruct (tried_target env (cleared s) w c narrative VIDEO Hx Ht) as [st ->].
  unfold produced. cbv zeta.
  destruct (decide (VIDEO = VIDEO)) as [_|E]; [|contradiction].
  unfold videoFlow.
  assert (Hkw : video (keyCheck env w).2 = video w /\
                console (keyCheck env w).2 = console w).
  { unfold keyCheck. destruct (aistudio env) as [studio|]; [|split; reflexivity].
    destruct (hasSelectedApiKey studio) as [[|]|e]; [split; reflexivity| |split; reflexivity].
    destruct (openSelectKey studio); split; reflexivity. }
  destruct (keyCheck env w) as [[[]|e] w1]; cbn [fst snd] in *; [|discriminate].
  destruct Hkw as [Hkv Hkc].
  unfold rendered. cbv zeta. rewrite Hplan, Hscript, Hkv.
  pose proof (generateSocialVideo_refused (veo env) p rest (video w) Hlim) as H.
  cbv zeta in H. destruct H as (H1 & H2 & H3 & H4 & _ & _).
  destruct (Video.generateSocialVideo (veo env) (p :: rest) (video w)) as [url vw].
  cbn [fst snd] in *. subst url. rewrite H4.
  rewrite drop_app_length. cbn [last]. rewrite caught_quota.
  cbn [fst snd]. rewrite Hkc.
  repeat split; assumption || reflexivity.
Qed.

(** Property X17.
    A plan without segments.  When the plan of a video has an empty
    script nothing is requested from the video model: the generation ends
    idle with the message "No video content generated.", after the plan
    has been recorded with zero segments. *)
Theorem story_empty_script_is_an_error (env : Env) (s : State) (w : World)
    (c : ascii) (narrative : string) (plan : VideoPlan) :
  provided s ->
  extractStoryContent env = Video.returns (String c narrative) ->
  target env s = Video.returns VIDEO ->
  (keyCheck env w).1 = Video.returns () ->
  planVideoGeneration env = Video.returns plan ->
  script plan = [] ->
  let r := handleGenerate env s w in
  failedWith "No video content generated." r.1 /\
  videoUrl r.1 = None /\
  videoMetadata r.1 =
    Some {| meta_segments := 0; meta_reason := reason plan;
            meta_type := plan_type plan |} /\
  video r.2 = video w.
Proof.
  intros Hp Hx Ht Hkey Hplan Hscript. cbv zeta.
  rewrite (handleGenerate_provided env s w Hp).
  destruct (tried_target env (cleared s) w c narrative VIDEO Hx Ht) as [st ->].
  unfold produced. cbv zeta.
  destruct (decide (VIDEO = VIDEO)) as [_|E]; [|contradiction].
  unfold videoFlow.
  assert (Hkw : video (keyCheck env w).2 = video w).
  { unfold keyCheck. destruct (aistudio env) as [studio|]; [|reflexivity].
    destruct (hasSelectedApiKey studio) as [[|]|e]; [reflexivity| |reflexivity].
    destruct (openSelectKey studio); reflexivity. }
  destruct (keyCheck env w) as [[[]|e] w1]; cbn [fst snd] in *; [|discriminate].
  unfold rendered. cbv zeta. rewrite Hplan, Hscript, Hkw.
  change (Video.generateSocialVideo (veo env) [] (video w))
    with (Video.throws (A:=string) (Video.Error_ "No video content generated."),
          video w).
  cbv iota beta. rewrite drop_all. cbn [last]. rewrite caught_no_content.
  cbn [fst snd]. destruct w; repeat split; reflexivity.
Qed.

End StoryFacts.

Section TaleFacts.
Import Str Story Tale.

Lemma typed_provided format : provided (typed format).
Proof. left. vm_compute. discriminate. Qed.

Lemma board_ids : NoDup (map id [panel 1; panel 2]).
Proof.
  cbn. apply NoDup_cons. split; [|apply NoDup_singleton].
  intros H. apply list_elem_of_singleton in H. discriminate.
Qed.

(** Property X15, an instance.
    A comic of two panels of which the second is refused. *)
Lemma story_comic_survives_failed_panels_witness :
  let env := services [] in
  let r := handleGenerate env (typed COMIC) untouched in
  finished r.1 /\
  storyBoard r.1 = Some board /\
  (forall j p, [panel 1; panel 2] !! j = Some p ->
     panelImages r.1 !! id p =
       match generateComicPanel env j (prompt_for_image p) with
       | Video.returns base64 => Some base64
       | Video.throws _ => None
       end) /\
  (forall key, key ∉ map id [panel 1; panel 2] ->
     panelImages r.1 !! key = None) /\
  video r.2 = video untouched /\ keyDialogs r.2 = keyDialogs untouched.
Proof.
  cbv zeta.
  apply (story_comic_survives_failed_panels (services []) (typed COMIC)
           untouched "A"%char "na waved at Ben. Ben did not wave back." board
           [panel 1; panel 2]).
  - apply typed_provided.
  - reflexivity.
  - reflexivity.
  - reflexivity.
  - reflexivity.
  - apply board_ids.
Defined.

(** Property X16, an instance.
    A video of two segments under a rate limit that does not lift. *)
Lemma story_rate_limit_is_shown_witness :
  let env := services ["A street at dawn"; "The same street at noon"] in
  let r := handleGenerate env (typed VIDEO) untouched in
  failedWith quotaShown r.1 /\
  videoUrl r.1 = None /\
  currentSegment r.1 = 1%nat /\
  totalSegments r.1 =
    length (take 30 ["A street at dawn"; "The same street at noon"]) /\
  Video.requests (video r.2) =
    Video.requests (video untouched) ++
    replicate 10 {| Video.prompt := "A street at dawn";
                    Video.video := None |} /\
  Video.waits (video r.2) =
    Video.waits (video untouched) ++ Video.nineBackoffs /\
  keyDialogs r.2 = keyDialogs (keyCheck env untouched).2 /\
  console r.2 = console untouched ++ ["Veo Quota Hit:"].
Proof.
  cbv zeta.
  apply (story_rate_limit_is_shown
           (services ["A street at dawn"; "The same street at noon"])
           (typed VIDEO) untouched "A"%char
           "na waved at Ben. Ben did not wave back."
           {| script := ["A street at dawn"; "The same street at noon"];
              plan_type := "STORY"; reason := "A short scene." |}
           "A street at dawn" ["The same street at noon"]).
  - apply typed_provided.
  - reflexivity.
  - reflexivity.
  - reflexivity.
  - reflexivity.
  - reflexivity.
  - intros k r. eexists. split; [reflexivity|]. vm_compute. reflexivity.
Defined.

(** Property X17, an instance.
    A plan with an empty script. *)
Lemma story_empty_script_is_an_error_witness :
  let r := handleGenerate (services []) (typed VIDEO) untouched in
  failedWith "No video content generated." r.1 /\
  videoUrl r.1 = None /\
  videoMetadata r.1 =
    Some {| meta_segments := 0; meta_reason := "A short scene.";
            meta_type := "STORY" |} /\
  video r.2 = video untouched.
Proof.
  cbv zeta.
  apply (story_empty_script_is_an_error (services []) (typed VIDEO) untouched
           "A"%char "na waved at Ben. Ben did not wave back."
           {| script := []; plan_type := "STORY"; reason := "A short scene." |}).
  - apply typed_provided.
  - reflexivity.
  - reflexivity.
  - reflexivity.
  - reflexivity.
  - reflexivity.
Defined.

End TaleFacts.

Section FenceFacts.
Import Str Fences.

Lemma tick_dec {A} (c : ascii) (x y : A) :
  (if Ascii.ascii_dec "`" c then x else y) = if Ascii.eqb c "`" then x else y.
Proof.
  destruct (Ascii.ascii_dec "`" c) as [<-|Hne]; [reflexivity|].
  destruct (Ascii.eqb c "`") eqn:E; [|reflexivity].
  apply Ascii.eqb_eq in E. congruence.
Qed.

Lemma prefix_ticks s : String.prefix "```" s = (3 <=? ticks s)%nat.
Proof.
  destruct s as [|a [|b [|c s]]]; cbn [String.prefix ticks];
    rewrite ?tick_dec;
    repeat match goal with
           | |- context [Ascii.eqb ?x "`"] => destruct (Ascii.eqb x "`")
           end; try reflexivity; destruct s; reflexivity.
Qed.

Lemma prefix_json_ticks s :
  String.prefix "```json" s = true -> String.prefix "```" s = true.
Proof.
  destruct s as [|a [|b [|c s]]]; cbn [String.prefix]; try discriminate;
    repeat match goal with
           | |- context [Ascii.ascii_dec ?x ?y] => destruct (Ascii.ascii_dec x y)
           end; try discriminate.
  intros _. destruct s; reflexivity.
Qed.

Lemma fenceAt_cases s :
  (ticks s < 3)%nat /\ fenceAt s = None \/
  (3 <= ticks s)%nat /\ exists n, fenceAt s = Some (S n).
Proof.
  unfold fenceAt. pose proof (prefix_json_ticks s) as Hj.
  rewrite prefix_ticks in *.
  destruct (3 <=? ticks s)%nat eqn:E.
  - right. apply Nat.leb_le in E. split; [exact E|].
    destruct (String.prefix "```json" s); destruct (newlineAt _ s);
      eexists; reflexivity.
  - left. apply Nat.leb_gt in E. split; [exact E|].
    destruct (String.prefix "```json" s); [|reflexivity].
    specialize (Hj eq_refl). discriminate.
Qed.

Lemma removeAll_ticks s :
  (ticks s < 3)%nat -> ticks (removeAll fenceAt 0 s) = ticks s.
Proof.
  induction s as [|c s IH]; intros Ht; [reflexivity|].
  cbn [removeAll].
  destruct (fenceAt_cases (String c s)) as [[_ ->]|[H3 _]]; [|lia].
  cbn [ticks] in *. destruct (Ascii.eqb c "`"); [|reflexivity].
  rewrite IH by lia. reflexivity.
Qed.

(** A string in which the second expression finds nothing is left as it
    is. *)
Lemma removeAll_none_cons c o :
  (ticks (String c o) < 3)%nat ->
  removeAll ticksAt 0 o = o ->
  removeAll ticksAt 0 (String c o) = String c o.
Proof.
  intros Ht Ho. cbn [removeAll]. unfold ticksAt at 1.
  rewrite prefix_ticks.
  replace (3 <=? ticks (String c o))%nat with false
    by (symmetry; apply Nat.leb_gt; exact Ht).
  rewrite Ho. reflexivity.
Qed.

Lemma removeAll_clean s : forall skip,
  removeAll ticksAt 0 (removeAll fenceAt skip s) = removeAll fenceAt skip s.
Proof.
  induction s as [|c s IH]; intros skip; [destruct skip; reflexivity|].
  destruct skip as [|k]; [|apply IH].
  cbn [removeAll].
  destruct (fenceAt_cases (String c s)) as [[Ht ->]|[_ [n ->]]]; [|apply IH].
  apply removeAll_none_cons; [|apply IH].
  cbn [ticks] in *. destruct (Ascii.eqb c "`"); [|lia].
  rewrite removeAll_ticks by lia. exact Ht.
Qed.

Lemma plain_ticks s : plain s = true -> ticks s = 0%nat.
Proof.
  destruct s as [|c s]; [reflexivity|]. cbn.
  destruct (Ascii.eqb c "`"); [discriminate|reflexivity].
Qed.

Lemma removeAll_plain body t :
  plain body = true ->
  removeAll fenceAt 0 (body +:+ t) = body +:+ removeAll fenceAt 0 t.
Proof.
  induction body as [|c body IH]; intros Hp; [reflexivity|].
  cbn in Hp. apply andb_prop in Hp as [Hc Hp].
  rewrite !append_cons. cbn [removeAll].
  destruct (fenceAt_cases (String c (body +:+ t))) as [[_ ->]|[H3 _]].
  - rewrite IH by exact Hp. reflexivity.
  - cbn [ticks] in H3. destruct (Ascii.eqb c "`"); [discriminate|lia].
Qed.

Lemma rev_app_append u t : forall acc,
  String.rev_app (u +:+ t) acc = String.rev_app t (String.rev_app u acc).
Proof.
  induction u as [|c u IH]; intros acc; [reflexivity|].
  rewrite append_cons. cbn [String.rev_app]. apply IH.
Qed.

(** A white space of one byte is no part of one of several bytes. *)
Lemma is_space_single c :
  is_space c = true ->
  (forall a, is_space2 a c = false) /\ (forall a b, is_space3 a b c = false).
Proof.
  unfold is_space, is_space2, is_space3. cbv zeta. intros Hc.
  assert (Hk : (N_of_ascii c < 128)%N).
  { repeat (apply orb_prop in Hc as [Hc|Hc]); apply N.eqb_eq in Hc; lia. }
  split; [intros a|intros a b].
  - apply andb_false_intro2, N.eqb_neq. lia.
  - repeat match goal with
           | |- context [(N_of_ascii c =? ?k)%N] =>
               replace (N_of_ascii c =? k)%N with false
                 by (symmetry; apply N.eqb_neq; lia)
           | |- context [(?k <=? N_of_ascii c)%N] =>
               replace (k <=? N_of_ascii c)%N with false
                 by (symmetry; apply N.leb_gt; lia)
           end.
    cbn [andb orb]. rewrite !andb_false_r. reflexivity.
Qed.

Lemma trimStart_append_space c (Hc : is_space c = true) : forall n s,
  (String.length s <= n)%nat ->
  trimStart (s +:+ String c EmptyString) =
  match trimStart s with
  | EmptyString => EmptyString
  | u => u +:+ String c EmptyString
  end.
Proof.
  destruct (is_space_single c Hc) as [H2 H3]. unfold trimStart.
  assert (H0 : strip false (EmptyString +:+ String c EmptyString) = EmptyString).
  { change (strip false (String c EmptyString) = EmptyString).
    cbn [strip]. rewrite Hc. reflexivity. }
  induction n as [|n IH]; intros s Hn.
  - destruct s; [exact H0|cbn in Hn; lia].
  - destruct s as [|c1 [|c2 [|c3 s]]].
    + exact H0.
    + rewrite append_cons.
      change (EmptyString +:+ String c EmptyString) with (String c EmptyString).
      cbn [strip]. rewrite Hc.
      destruct (is_space c1); [reflexivity|].
      rewrite H2. reflexivity.
    + rewrite !append_cons.
      change (EmptyString +:+ String c EmptyString) with (String c EmptyString).
      cbn [strip]. rewrite Hc, H3.
      destruct (is_space c1).
      { destruct (is_space c2); [reflexivity|]. rewrite H2. reflexivity. }
      destruct (is_space2 c1 c2); reflexivity.
    + assert (E : forall r,
                strip false (String c1 (String c2 (String c3 r))) =
                if is_space c1 then strip false (String c2 (String c3 r))
                else if is_space2 c1 c2 then strip false (String c3 r)
                else if is_space3 c1 c2 c3 then strip false r
                else String c1 (String c2 (String c3 r))) by reflexivity.
      rewrite !append_cons, (E (s +:+ String c EmptyString)), (E s).
      cbn [String.length] in Hn.
      destruct (is_space c1).
      { apply (IH (String c2 (String c3 s))). cbn. lia. }
      destruct (is_space2 c1 c2).
      { apply (IH (String c3 s)). cbn. lia. }
      destruct (is_space3 c1 c2 c3).
      { apply IH. lia. }
      reflexivity.
Qed.

Lemma trim_append_space s c :
  is_space c = true -> trim (s +:+ String c EmptyString) = trim s.
Proof.
  intros Hc. unfold trim, trimEnd.
  rewrite (trimStart_append_space c Hc (String.length s) s (le_n _)).
  destruct (trimStart s) as [|d u] eqn:E.
  - reflexivity.
  - unfold String.rev. rewrite rev_app_append.
    cbn [String.rev_app strip]. rewrite Hc. reflexivity.
Qed.

(** Property X18.
    The second [replace] of [cleanAndParseJSON] never finds anything:
    whatever the text, no run of three backticks is left by the first
    one, so that the text given to [JSON.parse] is what the first
    expression leaves, trimmed. *)
Theorem second_replace_finds_nothing (text : string) :
  removeAll ticksAt 0 (removeAll fenceAt 0 text) = removeAll fenceAt 0 text /\
  includes "```" (removeAll fenceAt 0 text) = false /\
  cleanText text = trim (removeAll fenceAt 0 text).
Proof.
  pose proof (removeAll_clean text 0) as Hc.
  split; [exact Hc|]. split; [|unfold cleanText; rewrite Hc; reflexivity].
  revert Hc. generalize (removeAll fenceAt 0 text). intros o.
  induction o as [|c o IH]; intros Ho; [reflexivity|].
  cbn [includes]. cbn [removeAll] in Ho.
  assert (Ht : ticksAt (String c o) =
               if String.prefix "```" (String c o) then Some 3%nat else None)
    by reflexivity.
  destruct (String.prefix "```" (String c o)) eqn:E; rewrite Ht in Ho.
  - exfalso.
    assert (Hlen : forall k t, (String.length (removeAll ticksAt k t) <=
                                String.length t)%nat).
    { intros k t. revert k. induction t as [|d t IHt]; intros k;
        [destruct k; cbn; lia|].
      cbn [removeAll]. destruct k as [|k].
      - destruct (ticksAt (String d t)) as [[|m]|]; cbn [String.length];
          try (specialize (IHt 0%nat); lia). specialize (IHt m). lia.
      - cbn [String.length]. specialize (IHt k). lia. }
    specialize (Hlen 2%nat o). rewrite Ho in Hlen. cbn [String.length] in Hlen.
    lia.
  - cbn [orb]. apply IH. congruence.
Qed.

(** Property X19.
    A fenced answer is unwrapped.  For a body without a backtick, the
    body alone, the body in a [```json] fence and the body in a plain
    fence give the same result, that of [JSON.parse] on the trimmed
    body. *)
Theorem fenced_answer_is_unwrapped {T : Type} (JSON_parse : string -> option T)
    (body : string) :
  plain body = true ->
  cleanText body = trim body /\
  cleanAndParseJSON JSON_parse ("```json" +:+ newline +:+ body +:+ newline +:+ "```") =
    cleanAndParseJSON JSON_parse body /\
  cleanAndParseJSON JSON_parse ("```" +:+ newline +:+ body +:+ newline +:+ "```") =
    cleanAndParseJSON JSON_parse body.
Proof.
  intros Hp.
  assert (Hb : forall t, removeAll fenceAt 0 (body +:+ t) =
                         body +:+ removeAll fenceAt 0 t)
    by (intros t; apply removeAll_plain, Hp).
  assert (H0 : cleanText body = trim body).
  { unfold cleanText. rewrite removeAll_clean.
    rewrite <- (append_nil_r body) at 1. rewrite Hb. cbn [removeAll].
    rewrite append_nil_r. reflexivity. }
  assert (H1 : cleanText ("```json" +:+ newline +:+ body +:+ newline +:+ "```") =
               trim body).
  { unfold cleanText. rewrite removeAll_clean.
    change (removeAll fenceAt 0
              ("```json" +:+ newline +:+ body +:+ newline +:+ "```"))
      with (removeAll fenceAt 0 (body +:+ newline +:+ "```")).
    rewrite Hb.
    change (removeAll fenceAt 0 (newline +:+ "```")) with newline.
    apply trim_append_space. reflexivity. }
  assert (H2 : cleanText ("```" +:+ newline +:+ body +:+ newline +:+ "```") =
               trim body).
  { unfold cleanText. rewrite removeAll_clean.
    change (removeAll fenceAt 0
              ("```" +:+ newline +:+ body +:+ newline +:+ "```"))
      with (removeAll fenceAt 0 (body +:+ newline +:+ "```")).
    rewrite Hb.
    change (removeAll fenceAt 0 (newline +:+ "```")) with newline.
    apply trim_append_space. reflexivity. }
  split; [exact H0|]. unfold cleanAndParseJSON. rewrite H0, H1, H2.
  split; reflexivity.
Qed.

(** Property X19, an instance.
    An answer in a fence. *)
Lemma fenced_answer_is_unwrapped_witness :
  cleanText "{}" = trim "{}" /\
  cleanAndParseJSON (fun s => if String.eqb s "{}" then Some 0%nat else None)
    ("```json" +:+ newline +:+ "{}" +:+ newline +:+ "```") =
    cleanAndParseJSON (fun s => if String.eqb s "{}" then Some 0%nat else None)
      "{}" /\
  cleanAndParseJSON (fun s => if String.eqb s "{}" then Some 0%nat else None)
    ("```" +:+ newline +:+ "{}" +:+ newline +:+ "```") =
    cleanAndParseJSON (fun s => if String.eqb s "{}" then Some 0%nat else None)
      "{}".
Proof.
  apply (fenced_answer_is_unwrapped
           (fun s => if String.eqb s "{}" then Some 0%nat else None) "{}").
  reflexivity.
Defined.

End FenceFacts.

Section AnalyzerFacts.
Import Str Analyzer.

Lemma pastTurns_length history :
  (length history <= 5)%nat -> length (pastTurns history) = length history.
Proof.
  intros H. unfold pastTurns.
  rewrite length_map, length_reverse, length_take. lia.
Qed.

Lemma handleAnalyze_settled r audioData clock answer s w :
  settled s -> settled (handleAnalyze r audioData clock answer s w).1.
Proof.
  intros (Hh & Hl & Hd). unfold handleAnalyze. cbv zeta.
  destruct (or_else _ _); [repeat split; assumption|].
  destruct answer as [result|err].
  - destruct (r_inputText r); repeat split; cbn; try assumption;
      rewrite length_take; lia.
  - repeat split; assumption.
Qed.

Lemma handleAnalyze_calls r audioData clock answer s w :
  exists cs,
    calls (handleAnalyze r audioData clock answer s w).2 = calls w ++ cs /\
    Forall (fun c => (length (c_history c) <= 5)%nat) cs.
Proof.
  unfold handleAnalyze. cbv zeta.
  destruct (or_else _ _);
    [exists []; split; [rewrite app_nil_r; reflexivity|constructor]|].
  exists [{| c_input := r_inputText r;
             c_relationship := r_relationship r;
             c_history := take 5 (r_history r);
             c_imagePart := r_selectedImage r;
             c_audioPart := audioData |}]. split.
  - destruct answer; [destruct (r_inputText r)|]; reflexivity.
  - constructor; [cbn; rewrite length_take; lia|constructor].
Qed.

Lemma handleDraftAnalyze_settled answer s w :
  settled s ->
  settled (handleDraftAnalyze answer s w).1 /\
  calls (handleDraftAnalyze answer s w).2 = calls w.
Proof.
  intros Hs. unfold handleDraftAnalyze. cbv zeta.
  destruct (trim (draftText s)); [split; [exact Hs|reflexivity]|].
  destruct (history s) as [|latest rest] eqn:E; [split; [exact Hs|reflexivity]|].
  destruct Hs as (Hh & Hl & Hd).
  destruct answer; cbn; unfold settled; cbn; repeat split; assumption.
Qed.

Lemma step_settled s w e :
  settled s ->
  settled (step (s, w) e).1 /\
  exists cs, calls (step (s, w) e).2 = calls w ++ cs /\
             Forall (fun c => (length (c_history c) <= 5)%nat) cs.
Proof.
  intros Hs.
  assert (Hnone : exists cs, calls w = calls w ++ cs /\
                    Forall (fun c => (length (c_history c) <= 5)%nat) cs)
    by (exists []; split; [rewrite app_nil_r; reflexivity|constructor]).
  destruct e; cbn [step].
  - split; [exact Hs|exact Hnone].
  - split; [exact Hs|exact Hnone].
  - split; [exact Hs|exact Hnone].
  - destruct (loading s || isRecording s); [split; [exact Hs|exact Hnone]|].
    split; [apply handleAnalyze_settled, Hs|apply handleAnalyze_calls].
  - unfold startRecording. destruct granted; split; try exact Hs; exact Hnone.
  - unfold stopRecording. destruct (mediaRecorderRef s) as [r|];
      [|split; [exact Hs|exact Hnone]].
    destruct (isRecording s); [|split; [exact Hs|exact Hnone]].
    split; [apply handleAnalyze_settled, Hs|apply handleAnalyze_calls].
  - split; [|exact Hnone]. destruct Hs as (Hh & Hl & Hd).
    repeat split; try assumption. cbn. lia.
  - split; [exact Hs|exact Hnone].
  - split; [exact Hs|exact Hnone].
  - destruct (draftText s); [split; [exact Hs|exact Hnone]|].
    destruct (isDrafting s); [split; [exact Hs|exact Hnone]|].
    destruct (handleDraftAnalyze_settled answer s w Hs) as [H1 H2].
    split; [exact H1|]. rewrite H2. exact Hnone.
Qed.

Lemma run_settled es : forall s w,
  settled s ->
  Forall (fun c => (length (c_history c) <= 5)%nat) (calls w) ->
  settled (run (s, w) es).1 /\
  Forall (fun c => (length (c_history c) <= 5)%nat) (calls (run (s, w) es).2).
Proof.
  induction es as [|e es IH]; intros s w Hs Hc; [split; assumption|].
  unfold run. cbn [foldl]. fold (run (step (s, w) e) es).
  destruct (step_settled s w e Hs) as (Hs' & cs & Hcs & Hall).
  destruct (step (s, w) e) as [s' w']. cbn [fst snd] in *.
  apply IH; [exact Hs'|]. rewrite Hcs. apply Forall_app. split; assumption.
Qed.

(** Property X20.
    The view keeps five turns.  In every state the view reaches, the
    history holds at most five analyses; and every call of
    [analyzeSocialCues] made on the way carried at most five past turns,
    so that its prompt lists as many turns as its header announces. *)
Theorem analyzer_keeps_five_turns (es : list Event) :
  let sw := run (initial, untouched) es in
  (length (history sw.1) <= 5)%nat /\
  Forall (fun c => (length (c_history c) <= 5)%nat /\
                   length (pastTurns (c_history c)) = length (c_history c))
         (calls sw.2).
Proof.
  cbv zeta.
  destruct (run_settled es initial untouched) as ((Hh & Hl & Hd) & Hc).
  - repeat split; cbn; lia.
  - constructor.
  - split; [exact Hh|].
    eapply Forall_impl; [exact Hc|]. intros c H.
    split; [exact H|apply pastTurns_length, H].
Qed.

Lemma step_handsOff s w e r :
  handsOff e ->
  isRecording s = true -> mediaRecorderRef s = Some r ->
  isRecording (step (s, w) e).1 = true /\
  mediaRecorderRef (step (s, w) e).1 = Some r.
Proof.
  intros He Hr Hm. destruct e; cbn [step handsOff] in *; try contradiction;
    try (split; assumption).
  - rewrite Hr, orb_true_r. split; assumption.
  - destruct (draftText s); [split; assumption|].
    destruct (isDrafting s); [split; assumption|].
    unfold handleDraftAnalyze.
    destruct (trim (draftText s)); [split; assumption|].
    destruct (history s); [split; assumption|].
    destruct answer; split; assumption.
Qed.

Lemma run_handsOff es r : forall s w,
  Forall handsOff es ->
  isRecording s = true -> mediaRecorderRef s = Some r ->
  isRecording (run (s, w) es).1 = true /\
  mediaRecorderRef (run (s, w) es).1 = Some r.
Proof.
  induction es as [|e es IH]; intros s w Hall Hr Hm; [split; assumption|].
  apply Forall_cons in Hall as [He Hall].
  unfold run. cbn [foldl]. fold (run (step (s, w) e) es).
  destruct (step_handsOff s w e r He Hr Hm) as [Hr' Hm'].
  destruct (step (s, w) e) as [s' w']. apply IH; assumption.
Qed.

(** Property X21.
    A recording is analysed as of the moment the button was pressed.
    Whatever the user does between pressing and releasing the record
    button (typing, choosing another relationship or image, clearing the
    history), the request made on release carries the text, the
    relationship, the image and the history the view showed when the
    button was pressed; the new turn, however, is put in front of the
    history as it is on release. *)
Theorem recording_is_analysed_as_of_its_start (s : State) (w : World)
    (es : list Event) (data : string) (clock : Z)
    (answer : Video.answer SocialAnalysis) :
  Forall handsOff es ->
  let pressed := run (step (s, w) (EvStartRecording true)) es in
  let released := step pressed (EvStopRecording data clock answer) in
  calls released.2 =
    calls pressed.2 ++
    [{| c_input := inputText s;
        c_relationship := relationship_ s;
        c_history := take 5 (history s);
        c_imagePart := selectedImage s;
        c_audioPart :=
          Some {| media_data := data; media_mimeType := "audio/webm" |} |}] /\
  isRecording released.1 = false /\
  history released.1 =
    match answer with
    | Video.returns result =>
        take 5 ({| item_id := pretty clock;
                   input := or_else (inputText s) "[Audio Analysis]";
                   relationship := relationship_ s;
                   analysis := result;
                   timestamp := clock |} :: history pressed.1)
    | Video.throws _ => history pressed.1
    end.
Proof.
  intros Hall. cbv zeta. cbn [step startRecording].
  destruct (run_handsOff es (render s)
              (set_isRecording true (set_mediaRecorderRef (Some (render s)) s))
              w Hall eq_refl eq_refl) as [Hr Hm].
  destruct (run _ es) as [s1 w1]. cbn [fst snd] in *.
  cbn [step]. unfold stopRecording. rewrite Hm, Hr.
  unfold handleAnalyze. cbv zeta. cbn [render r_inputText r_selectedImage
                                        r_relationship r_history].
  destruct (inputText s) as [|c t] eqn:Ei; cbn [or_else];
    destruct answer as [result|err]; cbn; repeat split; reflexivity.
Qed.

(** Property X21, an instance.
    A recording started after one analysis; before the button is
    released the history is cleared and a text is typed. *)
Lemma recording_is_analysed_as_of_its_start_witness :
  let s := decoded_once.1 in
  let w := decoded_once.2 in
  let pressed :=
    run (step (s, w) (EvStartRecording true))
      [EvClearAll; EvInput "typed meanwhile"] in
  let released :=
    step pressed (EvStopRecording "GkXfo59ChoEB" 1700000060000
                    (Video.returns reading)) in
  calls released.2 =
    calls pressed.2 ++
    [{| c_input := inputText s;
        c_relationship := relationship_ s;
        c_history := take 5 (history s);
        c_imagePart := selectedImage s;
        c_audioPart :=
          Some {| media_data := "GkXfo59ChoEB";
                  media_mimeType := "audio/webm" |} |}] /\
  isRecording released.1 = false /\
  history released.1 =
    take 5 ({| item_id := pretty 1700000060000;
               input := or_else (inputText s) "[Audio Analysis]";
               relationship := relationship_ s;
               analysis := reading;
               timestamp := 1700000060000 |} :: history pressed.1).
Proof.
  cbv zeta.
  apply (recording_is_analysed_as_of_its_start decoded_once.1 decoded_once.2
           [EvClearAll; EvInput "typed meanwhile"] "GkXfo59ChoEB"
           1700000060000 (Video.returns reading)).
  repeat constructor.
Defined.

Lemma trim_nonblank t : trim t <> EmptyString -> t <> EmptyString.
Proof. intros H ->. apply H. reflexivity. Qed.

(** Property X22.
    A reply is checked against the label of the turn.  After an analysis
    made of an image alone, in any state the view reaches, the check of a
    draft sends the label [[Image Analysis]] as the message the draft
    replies to, with the relationship of the analysis and the draft. *)
Theorem draft_is_checked_against_the_label (es : list Event) (image : Media)
    (clock : Z) (result : SocialAnalysis) (t : string)
    (answer : Video.answer DraftAnalysis) :
  let sw := run (initial, untouched) es in
  inputText sw.1 = EmptyString ->
  selectedImage sw.1 = Some image ->
  isRecording sw.1 = false ->
  trim t <> EmptyString ->
  drafts (run sw [EvAnalyze clock (Video.returns result); EvDraftText t;
                  EvDraftAnalyze answer]).2 =
    drafts sw.2 ++ [("[Image Analysis]", relationship_ sw.1, t)].
Proof.
  cbv zeta. intros Hi Hs Hr Ht.
  destruct (run_settled es initial untouched) as ((Hh & Hl & Hd) & _);
    [repeat split; cbn; lia|constructor|].
  destruct (run (initial, untouched) es) as [s w]. cbn [fst snd] in *.
  unfold run. cbn [foldl step]. rewrite Hl, Hr. cbn [orb].
  unfold handleAnalyze. cbv zeta.
  cbn [render r_inputText r_selectedImage r_relationship r_history].
  rewrite Hi, Hs. cbn [or_else fst snd step draftText set_draftText
                       set_loading set_history set_error set_draftAnalysis
                       isDrafting].
  pose proof (trim_nonblank t Ht) as Hne.
  destruct t as [|c t'] eqn:Et; [contradiction|]. rewrite <- Et in *.
  rewrite Hd. unfold handleDraftAnalyze.
  cbn [draftText set_draftText set_loading set_history set_error
       set_draftAnalysis history].
  destruct (trim t) eqn:Etr; [contradiction|].
  destruct (take 5 _) as [|latest rest] eqn:Etk; [discriminate|].
  injection Etk as <- _.
  destruct answer; reflexivity.
Qed.

(** Property X22, an instance.
    A screenshot analysed in a fresh view, and a draft checked. *)
Lemma draft_is_checked_against_the_label_witness :
  let shot := {| media_data := "iVBORw0KGgo="; media_mimeType := "image/png" |} in
  let sw := run (initial, untouched) [EvImage (Some shot)] in
  drafts (run sw [EvAnalyze 1700000000000 (Video.returns reading);
                  EvDraftText "Sounds good";
                  EvDraftAnalyze (Video.throws (Video.Error_ "offline"))]).2 =
    drafts sw.2 ++ [("[Image Analysis]", relationship_ sw.1, "Sounds good")].
Proof.
  cbv zeta.
  apply (draft_is_checked_against_the_label
           [EvImage (Some {| media_data := "iVBORw0KGgo=";
                             media_mimeType := "image/png" |})]
           {| media_data := "iVBORw0KGgo="; media_mimeType := "image/png" |}
           1700000000000 reading "Sounds good"
           (Video.throws (Video.Error_ "offline"))).
  - reflexivity.
  - reflexivity.
  - reflexivity.
  - vm_compute. discriminate.
Defined.

End AnalyzerFacts.

Section ControlFacts.
Import Platform Str Practice Controls Scenarios.

Lemma brief_disconnect analysis s w :
  brief s ->
  let sw := step (s, w) (EvDisconnect analysis) in
  brief sw.1 /\ isConnected sw.1 = false /\
  conversation sw.1 = conversation s /\
  feedbackRequests sw.2 = feedbackRequests w.
Proof.
  intros (Hne & Hlen & Href & Hf & Hg & He). cbv zeta. cbn [step].
  rewrite <- Href in Hlen.
  rewrite handleDisconnect_short by exact Hlen. cbn [fst snd].
  destruct (closeQuietly_frame (outputAudioContextRef s)
              (closeQuietly (inputAudioContextRef s)
                 match sessionRef s with
                 | Some h => Session_close h w
                 | None => w
                 end)) as (_ & _ & F1 & _).
  destruct (closeQuietly_frame (inputAudioContextRef s)
              match sessionRef s with
              | Some h => Session_close h w
              | None => w
              end) as (_ & _ & F2 & _).
  unfold teardown. rewrite F1, F2.
  split; [|split; [reflexivity|split; [reflexivity|]]].
  - unfold brief. cbn. rewrite Href in Hlen. repeat split; assumption.
  - destruct (sessionRef s); reflexivity.
Qed.

Lemma brief_offered s :
  brief s -> isConnected s = false -> offered s = [AnalyzeSaved].
Proof.
  intros (Hne & _ & _ & Hf & Hg & He) Hc. unfold offered, noError, noFeedback,
    emptyLog.
  rewrite Hc, Hf, Hg, He. destruct (conversation s); [contradiction|].
  reflexivity.
Qed.

(** Property X23.
    A short session is a dead end.  When a session is ended with one or
    two messages in the conversation, nothing is analysed and the view is
    left with a single button, Analyze Saved Conversation; pressing it
    requests no analysis and leaves the conversation and the buttons as
    they are, however often it is pressed: the view offers no way to
    start again. *)
Theorem short_session_is_a_dead_end (s : State) (w : World)
    (analysis : outcome PracticeFeedback)
    (presses : list (outcome PracticeFeedback)) :
  brief s ->
  let sw := run (s, w) (EvDisconnect analysis :: map EvDisconnect presses) in
  offered sw.1 = [AnalyzeSaved] /\
  conversation sw.1 = conversation s /\
  feedback sw.1 = None /\
  feedbackRequests sw.2 = feedbackRequests w.
Proof.
  intros Hb. cbv zeta. unfold run. cbn [foldl].
  pose proof (brief_disconnect analysis s w Hb) as H. cbv zeta in H.
  destruct (step (s, w) (EvDisconnect analysis)) as [s1 w1].
  cbn [fst snd] in H. destruct H as (Hb1 & Hc1 & Hv1 & Hr1).
  rewrite <- Hv1, <- Hr1. clear Hv1 Hr1 Hb.
  revert s1 w1 Hb1 Hc1.
  induction presses as [|a presses IH]; intros s1 w1 Hb1 Hc1.
  - cbn [map foldl fst snd]. split; [apply brief_offered; assumption|].
    split; [reflexivity|]. split; [apply Hb1|reflexivity].
  - cbn [map foldl].
    pose proof (brief_disconnect a s1 w1 Hb1) as H. cbv zeta in H.
    destruct (step (s1, w1) (EvDisconnect a)) as [s2 w2].
    cbn [fst snd] in H. destruct H as (Hb2 & Hc2 & Hv2 & Hr2).
    rewrite <- Hv2, <- Hr2. apply IH; assumption.
Qed.

(** Property X23, an instance.
    A session ended after the first words of the user, and the button
    pressed twice. *)
Lemma short_session_is_a_dead_end_witness :
  let s := (run (initial, empty_world)
              [EvConnect granted; EvOpen; EvMessage 1 0 (says USER "Hi")]).1 in
  let w := (run (initial, empty_world)
              [EvConnect granted; EvOpen; EvMessage 1 0 (says USER "Hi")]).2 in
  let sw := run (s, w)
              (EvDisconnect (fulfilled good) ::
               map EvDisconnect [fulfilled good; fulfilled good]) in
  offered sw.1 = [AnalyzeSaved] /\
  conversation sw.1 = conversation s /\
  feedback sw.1 = None /\
  feedbackRequests sw.2 = feedbackRequests w.
Proof.
  cbv zeta.
  apply (short_session_is_a_dead_end
           (run (initial, empty_world)
              [EvConnect granted; EvOpen; EvMessage 1 0 (says USER "Hi")]).1
           (run (initial, empty_world)
              [EvConnect granted; EvOpen; EvMessage 1 0 (says USER "Hi")]).2
           (fulfilled good) [fulfilled good; fulfilled good]).
  unfold brief. vm_compute. repeat split; try reflexivity; try lia.
  discriminate.
Defined.

End ControlFacts.

Section TrendFacts.
Import JSON History Trend.

Lemma score_entry date data :
  score "goal" (entry date data) =
    Ok (Some (number (Practice.goal_alignment_score data))) /\
  score "confidence" (entry date data) =
    Ok (Some (number (Practice.confidence_score data))).
Proof. split; reflexivity. Qed.

Lemma collect_entries (k : string) (f : Attempt -> option value)
    (l : list Attempt) :
  (forall a, score k (entry (date a) (data a)) = Ok (f a)) ->
  collect (score k) (map (fun a => entry (date a) (data a)) l) = Ok (map f l).
Proof.
  intros H. induction l as [|a l IH]; [reflexivity|].
  cbn [map collect]. rewrite H, IH. reflexivity.
Qed.

Lemma lastTen_map {A B} (f : A -> B) (l : list A) :
  lastTen (map f l) = map f (lastTen l).
Proof. unfold lastTen. rewrite length_map. symmetry. apply fmap_drop. Qed.

(** Property X24.
    The trend chart plots what was saved.  Starting from a browser with
    no history, after any sequence of saves the chart of a scenario is
    drawn without an exception; it is drawn only when the scenario has at
    least two attempts, and then plots the goal and confidence scores of
    its last ten attempts, oldest first, under the labels Attempt 1,
    Attempt 2 and so on. *)
Theorem practice_trend_plots_the_last_ten (saves : list Attempt)
    (scenarioId : string) :
  let b := saveAll saves {| stored := missing; warned := [] |} in
  let shown := lastTen (attemptsIn scenarioId saves) in
  exists history,
    getPracticeHistory scenarioId (stored b) = array history /\
    length history = length shown /\
    trend history =
      Ok (if (1 <? length shown)%nat then
            Some {| xValues :=
                      map (fun i => "Attempt " +:+ pretty (i + 1)%nat)
                          (seq 0 (length shown));
                    goalValues :=
                      map (fun a => Some (number
                             (Practice.goal_alignment_score (data a)))) shown;
                    confValues :=
                      map (fun a => Some (number
                             (Practice.confidence_score (data a)))) shown |}
          else None).
Proof.
  cbv zeta.
  destruct (saveAll_tidy saves {| stored := missing; warned := [] |} I)
    as (_ & _ & Hh).
  specialize (Hh scenarioId [] eq_refl). cbn [app] in Hh.
  exists (map (fun a => entry (date a) (data a))
              (lastTen (attemptsIn scenarioId saves))).
  split.
  - rewrite Hh, <- lastTen_map. unfold entriesOf, attemptsIn.
    destruct (map _ _); reflexivity.
  - split; [apply length_map|].
    unfold trend. rewrite length_map.
    destruct (1 <? length (lastTen (attemptsIn scenarioId saves)))%nat;
      [|reflexivity].
    rewrite (collect_entries "goal"
               (fun a => Some (number (Practice.goal_alignment_score (data a)))))
      by (intros a; apply score_entry).
    rewrite (collect_entries "confidence"
               (fun a => Some (number (Practice.confidence_score (data a)))))
      by (intros a; apply score_entry).
    cbn [mbind result_bind]. do 2 f_equal. f_equal.
    generalize (lastTen (attemptsIn scenarioId saves)). intros l.
    rewrite imap_fmap. unfold compose.
    rewrite <- (imap_seq_0 l (fun i => "Attempt " +:+ pretty (i + 1)%nat)).
    reflexivity.
Qed.

End TrendFacts.

Section RiskFacts.
Import Str Risk.

Lemma Qle_bool_spec (a b : Q) : reflect (a <= b)%Q (Qle_bool a b).
Proof.
  destruct (Qle_bool a b) eqn:E; constructor.
  - apply Qle_bool_iff, E.
  - intros H. apply Qle_bool_iff in H. congruence.
Qed.

Lemma risk_hues (prob risk : Q) :
  hue (getRiskColorClass risk) = hue (border (getOverallRiskStyles risk)) /\
  hue (getDraftRiskColor risk) = hue (border (getOverallRiskStyles risk)) /\
  (hue (lens_border (getVisualStyles prob risk)) =
   hue (border (getOverallRiskStyles risk)) <->
   (risk <= 3 \/ (4 <= risk /\ risk <= 6) \/ 8 < risk)%Q).
Proof.
  unfold getRiskColorClass, getDraftRiskColor, getOverallRiskStyles,
    getVisualStyles, lt.
  destruct (Qle_bool_spec 4 risk), (Qle_bool_spec 7 risk),
    (Qle_bool_spec risk 3), (Qle_bool_spec risk 6), (Qle_bool_spec risk 8);
    cbn [negb border lens_border];
    (split; [reflexivity|split; [reflexivity|]]);
    (split; [intros H; try (vm_compute in H; discriminate); lra
            |intros H; try reflexivity; lra]).
Qed.

(** Property X25.
    One risk, one colour, up to the thresholds.  The badge of the overall
    risk, the card of a turn in the history and the box of a draft always
    show the same colour for the same number.  The card of a lens uses
    other thresholds: it shows the colour of the badge exactly when the
    risk is at most 3, from 4 to 6, or above 8; on whole numbers the two
    differ at 7 and 8 only, where the card is orange and the badge red. *)
Theorem risk_colours_agree (prob risk : Q) (n : Z) :
  hue (getRiskColorClass risk) = hue (border (getOverallRiskStyles risk)) /\
  hue (getDraftRiskColor risk) = hue (border (getOverallRiskStyles risk)) /\
  (hue (lens_border (getVisualStyles prob risk)) =
   hue (border (getOverallRiskStyles risk)) <->
   (risk <= 3 \/ (4 <= risk /\ risk <= 6) \/ 8 < risk)%Q) /\
  (hue (lens_border (getVisualStyles prob (inject_Z n))) =
   hue (border (getOverallRiskStyles (inject_Z n))) <->
   n <> 7 /\ n <> 8).
Proof.
  destruct (risk_hues prob risk) as (H1 & H2 & H3).
  split; [exact H1|]. split; [exact H2|]. split; [exact H3|].
  destruct (risk_hues prob (inject_Z n)) as (_ & _ & H4). rewrite H4.
  change 3%Q with (inject_Z 3). change 4%Q with (inject_Z 4).
  change 6%Q with (inject_Z 6). change 8%Q with (inject_Z 8).
  rewrite <- !Zle_Qle, <- Zlt_Qlt. lia.
Qed.

End RiskFacts.
